(* ===== verification/_CoqProject ===== *)
-Q . S2P
Prelude.v
Events.v
OrderBook.v
BookSpec.v
BookRep.v
BookOps.v
BookRefine.v
BookProps.v
Engine.v
EngineTheorems.v
EngineEvents.v
Marshal.v
Codecs.v
CodecLaws.v
CodecTheorems.v
Snapshot.v
SnapshotLaws.v
SnapshotTheorems.v
Service.v
ServiceLaws.v
ServiceRefine.v
ServiceTheorems.v
ServiceRecovery.v
Client.v
ClientTheorems.v
Loadgen.v
LoadgenLaws.v
LoadgenTheorems.v
Host.v
Harness.v
HarnessTheorems.v
EngineProcess.v
EngineProcessTheorems.v
