(* ===== verification/Prelude.v ===== *)
(** * gomatch: a limit order book matching engine, verified

    gomatch is a matching engine for limit orders that runs as a replicated
    state machine on a cluster library.  This library models its Go program,
    everything under src/go but the tests themselves, and proves that it is
    correct.

    ** The program and its parts

    A client (client/) encodes orders and cancels as SBE frames
    (protocol/codecs/) and offers them to the cluster.  The cluster puts all
    ingress in one log and hands it, entry by entry, to the service
    (service/) on every node.  The service decodes a frame, calls the engine
    (engine/) and routes the events the engine returns, encoded as SBE
    frames again, to the sessions: reports to the owner of the order, trades
    and depth to everyone.  The egress adapter of the client turns frames
    into callbacks.  For recovery the service writes the book as a byte
    stream (engine/snapshot.go) in chunks and restores it on start.
    cmd/engine/ is the process that runs the service, cmd/loadgen/ a client
    that measures it, and systest/harness.go runs both against a Java driver
    that it starts, stops and restarts as a child process.

    ** Files

    - [Prelude]: machine integers with their wrap-around, the outcomes and
      the state monad [go] of the model, its weakest preconditions, lists.
    - [Events], [OrderBook]: engine/events.go and engine/order_book.go.  The
      orders and price levels of the source are heap objects that point to
      each other; the model keeps them in a [Store] with locations, nil
      pointers and index checks, and translates every assignment.
    - [BookSpec]: the abstract book, one list per side in the order in which
      the orders will trade, with the operations [place] and [cancel].
    - [BookRep], [BookOps], [BookRefine]: the shape of the book in the store
      (doubly linked FIFOs per level, sorted slices of levels, the id index),
      the pointer operations as list operations on that shape, and the
      refinement of the abstract book.
    - [BookProps], [Engine]: matching as a relation with its rule inductions,
      the invariant of the abstract book, conservation of quantity; runs and
      reachable engines.
    - [EngineTheorems], [EngineEvents]: the theorems about the engine, and
      the grammar that its events follow.
    - [Marshal], [Codecs]: protocol/codecs/, that is SbeMarshalling.go with
      its shared scratch buffer, and the generated messages, headers and
      enums with the constant methods of every field.
    - [CodecLaws], [CodecTheorems]: the interface [SbeMessage] of the source,
      the class [SbeCodec] with the laws of a codec, its five instances, and
      the theorems, which are proved from the laws.
    - [Snapshot], [SnapshotLaws], [SnapshotTheorems]: engine/snapshot.go on
      any lawful [io.Writer] and on a buffer to read from.
    - [Service], [ServiceLaws], [ServiceRefine], [ServiceTheorems],
      [ServiceRecovery]: service/service.go and service/encoding.go, what is
      asked of the cluster library, the abstract service over a log, the
      theorems, and recovery from a snapshot in the middle of a log.
    - [Client], [ClientTheorems]: client/client.go and client/egress.go and
      the theorems, among them the one that spans the whole system.
    - [Loadgen], [LoadgenLaws], [LoadgenTheorems]: cmd/loadgen/main.go, the
      generator of orders, the collector that is its listener, and the
      percentiles with the rounding of [float64].
    - [Host]: what the programs use of the packages os, os/exec and time: the
      environment, files, child processes with signals, and a clock.
    - [Harness], [HarnessTheorems]: systest/harness.go, the driver.
    - [EngineProcess], [EngineProcessTheorems]: cmd/engine/main.go, and the
      engine runner of systest/harness.go as two threads under a schedule.

    A definition has the name of the function or type it models; a loop or a
    closure inside a function is a definition of its own, next to it.

    ** What the theorems show

    - Engine: [NewLimitOrder] and [Cancel] never panic, their loops end, and
      they implement the abstract price-time book exactly, on every branch
      and for every command whose fields are of their machine types.  Every
      reachable book is sorted, uncrossed and well linked; the depth feed
      reproduces the totals of the levels; every unit of every order is
      accounted for by the events; trades respect price and time priority;
      ids are 1, 2, 3, ...; only the owner cancels; the binary search finds
      its place; and the events are one response per command, in which trades
      and fills agree and each price that changed is published once.
    - Codecs: every message in range survives encoding and decoding, later
      versions are read by skipping, short input is an error, [Encode] fails
      with the error of its writer and only then, leaving a prefix, and both
      header codecs agree.
    - Snapshots: a restored engine answers every continuation as the original
      one would, replicas that handled the same commands write identical
      bytes, torn and foreign streams are refused.
    - Service: over a log of sessions, orders and cancels it refines the
      abstract service and delivers exactly the right frames to the right
      sessions in the right order, provided that no session is opened while
      it is open, the messages are version-1 frames in range, the ids and the
      quantity resting plus submitted stay within an [int64], and the cluster
      takes every offer within the fuel.  On a transport that loses frames
      the book and the sessions are the same and the output is a sublist.
      Malformed ingress is ignored.  Started on the chunks of a snapshot taken
      in the middle of such a log, a new service ends with the same book; its
      output is that of a service that never stopped, less what goes to the
      sessions open at the snapshot, which are not restored.
    - Client: sending and connecting return within their deadlines, what is
      sent is sent once, what the service sends to a session over such a log
      reaches its listener as the events of the abstract engine, and junk does
      not.
    - Load generator: at any rate it ends, its orders are valid and reach the
      cluster in order, its collector counts every order once, and its
      percentiles are latencies in increasing order.
    - System tests: whatever the host and the driver do, a launch returns a
      driver that answered or leaves no child and no open file; stopping
      removes what the driver wrote until it died; shutting down keeps the
      data for a restart; the ports are where they should be; and under a
      fair schedule an engine that is told to stop stops.
    - Where the code leaves its contract: an order with an unknown side
      trades with every ask, whatever its limit, and can cross the book, or
      bring the service down; the total of a level can overflow, which
      publishes a negative depth or, at exactly 2^63, brings the service down;
      the sessions open at a snapshot hear nothing after a recovery from it;
      and the count of a snapshot can wrap to a negative number.  Ports of two
      drivers collide more often than the harness says.

    ** Modelling decisions and bounds

    A Go integer is a [Z] that every operation able to leave its range wraps
    explicitly; the theorems assume of commands only that the fields are
    values of their types (and of sides, where it matters, that they are
    [Buy] or [Sell]).  Panics are values: nil dereferences, index errors,
    explicit panics, and [Diverge], the outcome of a loop whose fuel is used
    up.  The fuel of the loops of the engine is computed from the state: the
    length of the slice plus one for [levelIndex], the number of orders plus
    one for [matchOrder], the number of orders for a FIFO in [Snapshot], the
    length of the data for the chunks; the refinement theorems show that it
    is never used up.  The loops that wait for the cluster library take a
    fuel argument, and the theorems ask that the library takes an offer
    within so many attempts, or that the clock advances while the client
    idles or polls.  The loop that waits for the driver has fuel 201, since
    it sleeps 50 ms a turn and gives up after ten seconds, and the attempts of
    [MkdirTemp] are the ten thousand of the standard library.  Ids are fresh as long as fewer than [MaxInt64] orders were
    accepted.  In the marshaller a float is its bit pattern, since it only
    moves the bits; the index of a percentile is rounded as [float64] rounds.
    The goroutine that waits for the driver is part of [Host]: whoever waits
    moves the clock, and the children that exited by then are reaped.  The
    goroutine of the engine runner and the test interleave at the points
    where they touch the flag, a channel or the agent.  Logging is not
    modelled.

    The cluster library is not part of the repository.  Its sessions,
    publications, images, buffers, clock and idle strategies are the classes
    [Cluster], [AtomicBuffer] and [ClusterClient], and what is relied on of
    them are the classes [LawfulCluster], [PromptCluster], [SettlingCluster],
    [LawfulBuffer] and [LawfulClient], with instances that show that the laws
    can hold; [PollingClient] adds that the clock advances while the client
    polls.  The Java driver and its tools, the Aeron library, the service
    agent and the failures of system calls are the classes [Platform],
    [Aeron] and [AgentLibrary], of which nothing is assumed.  Routing is
    proved against [Transport], the contract that the
    prompt and the lossy cluster both meet.

    ** Not modelled

    The Java twin and the benchmark infrastructure are other programs, and
    the tests under src/go check the code rather than belong to it.  Of
    cmd/loadgen/main.go the text of the report and the rate it prints; of
    systest/harness.go log lines and the exit status that is only logged.

    ** Plan

    A lossy transport seen from the client; the whole system under test, the
    runner's agent driving the service over a log; uniqueness of the names a
    launch draws at random. *)
From stdpp Require Export base option list gmap numbers strings sorting.
From Stdlib Require Export ZArith Lia.

#[export] Set Default Goal Selector "!".
#[export] Set Warnings "-clear-no-such-hyp".
#[global] Open Scope Z_scope.

(** ** Machine integers

    A Go integer of [w] bits is a [Z]; every operation that can leave the
    range is followed by the wrap-around the language specifies. *)

Definition sint (w z : Z) : Z := (z + 2 ^ (w - 1)) mod 2 ^ w - 2 ^ (w - 1).
Definition uint (w z : Z) : Z := z mod 2 ^ w.

Abbreviation int8 := (sint 8).
Abbreviation int32 := (sint 32).
Abbreviation int64 := (sint 64).
Abbreviation uint8 := (uint 8).
Abbreviation uint16 := (uint 16).
Abbreviation uint32 := (uint 32).
Abbreviation uint64 := (uint 64).

Definition MinInt64 : Z := - 2 ^ 63.
Definition MaxInt64 : Z := 2 ^ 63 - 1.
Definition MaxUint16 : Z := 2 ^ 16 - 1.

(** Membership in the range of a signed [w]-bit integer. *)
Definition is_sint (w z : Z) : Prop := - 2 ^ (w - 1) <= z < 2 ^ (w - 1).
Definition is_uint (w z : Z) : Prop := 0 <= z < 2 ^ w.

Abbreviation is_int8 := (is_sint 8).
Abbreviation is_int32 := (is_sint 32).
Abbreviation is_int64 := (is_sint 64).
Abbreviation is_uint16 := (is_uint 16).
Abbreviation is_byte := (is_uint 8).

(** [time.Duration] counts nanoseconds. *)
Definition Millisecond : Z := 1000000.
Definition Second : Z := 1000000000.
Definition Minute : Z := 60 * Second.

Lemma sint_id w z : 0 < w -> is_sint w z -> sint w z = z.
Proof.
  unfold sint, is_sint; intros Hw Hz.
  assert (Hp : 2 ^ w = 2 * 2 ^ (w - 1)).
  { replace w with (Z.succ (w - 1)) at 1 by lia. rewrite Z.pow_succ_r; lia. }
  rewrite Z.mod_small; lia.
Qed.

Lemma sint_range w z : 0 < w -> is_sint w (sint w z).
Proof.
  unfold sint, is_sint; intros Hw.
  assert (Hp : 2 ^ w = 2 * 2 ^ (w - 1)).
  { replace w with (Z.succ (w - 1)) at 1 by lia. rewrite Z.pow_succ_r; lia. }
  assert (0 < 2 ^ (w - 1)) by (apply Z.pow_pos_nonneg; lia).
  pose proof (Z.mod_pos_bound (z + 2 ^ (w - 1)) (2 ^ w)). lia.
Qed.

(** Wrapping is a congruence: an inner wrap can be dropped. *)
Lemma sint_eqm w a b : 0 < w -> (a - b) mod 2 ^ w = 0 -> sint w a = sint w b.
Proof.
  unfold sint; intros Hw H. f_equal.
  assert (0 < 2 ^ w) by (apply Z.pow_pos_nonneg; lia).
  apply Z.mod_divide in H; [|lia]. destruct H as [k Hk].
  replace (a + 2 ^ (w - 1)) with (b + 2 ^ (w - 1) + k * 2 ^ w) by lia.
  apply Z.mod_add; lia.
Qed.

Lemma sint_sub_mod w z : 0 < w -> (sint w z - z) mod 2 ^ w = 0.
Proof.
  unfold sint; intros Hw.
  assert (0 < 2 ^ w) by (apply Z.pow_pos_nonneg; lia).
  rewrite (Z.mod_eq (z + _)) by lia.
  set (q := (z + 2 ^ (w - 1)) / 2 ^ w).
  replace (_ - _) with ((- q) * 2 ^ w) by lia.
  apply Z.mod_mul; lia.
Qed.

Lemma sint_add_l w a b : 0 < w -> sint w (sint w a + b) = sint w (a + b).
Proof.
  intros Hw; apply sint_eqm; [done|].
  replace (_ - _) with (sint w a - a) by lia. by apply sint_sub_mod.
Qed.

Lemma sint_sub_l w a b : 0 < w -> sint w (sint w a - b) = sint w (a - b).
Proof.
  intros Hw; apply sint_eqm; [done|].
  replace (_ - _) with (sint w a - a) by lia. by apply sint_sub_mod.
Qed.

Lemma uint_range w z : 0 <= w -> is_uint w (uint w z).
Proof.
  unfold uint, is_uint; intros.
  apply Z.mod_pos_bound, Z.pow_pos_nonneg; lia.
Qed.

Lemma sint_uint w z : 0 < w -> sint w (uint w z) = sint w z.
Proof.
  intros Hw. apply sint_eqm; [done|]. unfold uint.
  assert (0 < 2 ^ w) by (apply Z.pow_pos_nonneg; lia).
  rewrite (Z.mod_eq z) by lia. replace (_ - _) with (- (z / 2 ^ w) * 2 ^ w) by lia.
  apply Z.mod_mul. lia.
Qed.

Lemma uint_id w z : is_uint w z -> uint w z = z.
Proof. apply Z.mod_small. Qed.

(** ** Outcomes and the state monad of the model

    [go S A] is code that reads and writes a state [S] and returns an [A],
    or stops with a run-time panic.  [Diverge] is the outcome of a loop
    whose fuel ran out; the theorems show that the fuel given is enough. *)

Inductive panic : Type :=
  | NilDereference
  | IndexOutOfRange
  | Raised (what : string)
  | Diverge.

Inductive outcome (A : Type) : Type :=
  | Ok (a : A)
  | Panic (p : panic).
Arguments Ok {A} a.
Arguments Panic {A} p.

Definition go (S A : Type) : Type := S -> outcome (A * S).

#[export] Instance go_ret S : MRet (go S) := fun A a s => Ok (a, s).
#[export] Instance go_bind S : MBind (go S) := fun A B k m s =>
  match m s with
  | Ok (a, s') => k a s'
  | Panic p => Panic p
  end.

Definition go_panic {S A} (p : panic) : go S A := fun _ => Panic p.
Definition go_gets {S A} (f : S -> A) : go S A := fun s => Ok (f s, s).
Definition go_modify {S} (f : S -> S) : go S unit := fun s => Ok (tt, f s).

(** Total-correctness weakest precondition: [c] run from [s] returns, and
    the result and final state satisfy [Q]. *)
Definition wp {S A} (c : go S A) (Q : A -> S -> Prop) (s : S) : Prop :=
  match c s with
  | Ok (a, s') => Q a s'
  | Panic _ => False
  end.

(** Running a sequence whose first part returns. *)
Lemma go_bind_ok {S A B} (c : go S A) (k : A -> go S B) s a s' :
  c s = Ok (a, s') -> (c ≫= k) s = k a s'.
Proof. intros Hc. unfold mbind, go_bind. by rewrite Hc. Qed.

Section WP.
Context {S : Type}.

Lemma wp_ret {A} (a : A) (Q : A -> S -> Prop) s : Q a s -> wp (mret a) Q s.
Proof. done. Qed.

Lemma wp_bind {A B} (c : go S A) (k : A -> go S B) Q s :
  wp c (fun a => wp (k a) Q) s -> wp (mbind k c) Q s.
Proof.
  unfold wp, mbind, go_bind. by destruct (c s) as [[a s']|p].
Qed.

Lemma wp_bind_inv {A B} (c : go S A) (k : A -> go S B) Q s :
  wp (mbind k c) Q s -> wp c (fun a => wp (k a) Q) s.
Proof.
  unfold wp, mbind, go_bind. by destruct (c s) as [[a s']|p].
Qed.

Lemma wp_mono {A} (c : go S A) (P Q : A -> S -> Prop) s :
  wp c P s -> (forall a s', P a s' -> Q a s') -> wp c Q s.
Proof. unfold wp. destruct (c s) as [[a s']|p]; eauto. Qed.

Lemma wp_gets {A} (f : S -> A) (Q : A -> S -> Prop) s :
  Q (f s) s -> wp (go_gets f) Q s.
Proof. done. Qed.

Lemma wp_modify (f : S -> S) (Q : unit -> S -> Prop) s :
  Q tt (f s) -> wp (go_modify f) Q s.
Proof. done. Qed.

Lemma wp_elim {A} (c : go S A) Q s :
  wp c Q s -> exists a s', c s = Ok (a, s') /\ Q a s'.
Proof. unfold wp. destruct (c s) as [[a s']|p]; [eauto|done]. Qed.

End WP.

(** One step of symbolic execution of monadic code. *)
Ltac wp_step :=
  lazymatch goal with
  | |- wp (mbind _ _) _ _ => apply wp_bind
  | |- wp (mret _) _ _ => apply wp_ret
  | |- wp (go_gets _) _ _ => apply wp_gets
  | |- wp (go_modify _) _ _ => apply wp_modify
  end.

(** Lemmas that relate the wire image of a message to its encoder and decoder,
    and the definitions these proofs unfold. *)
Create HintDb codec.

(** ** Lists *)

Section Filter.
Context {A : Type} (P : A -> Prop) `{!forall x, Decision (P x)}.

Lemma list_filter_all l : Forall P l -> filter P l = l.
Proof. induction 1 as [|x l Hx _ IH]; [done|]. by rewrite filter_cons_True, IH. Qed.

Lemma list_filter_Forall (Q : A -> Prop) l : Forall Q l -> Forall Q (filter P l).
Proof.
  rewrite !Forall_forall. intros Hl x [_ Hx]%list_elem_of_filter. auto.
Qed.

Lemma list_filter_sorted (R : A -> A -> Prop) l :
  StronglySorted R l -> StronglySorted R (filter P l).
Proof.
  induction 1 as [|x l Hl IH Hx]; [constructor|]. rewrite filter_cons.
  case_decide; [|done]. constructor; [done|]. by apply list_filter_Forall.
Qed.

Lemma list_filter_none l : Forall (fun x => ~ P x) l -> filter P l = [].
Proof. induction 1 as [|x l Hx _ IH]; [done|]. by rewrite filter_cons_False. Qed.
End Filter.
