(* ===== verification/Events.v ===== *)
(** * engine/events.go: the vocabulary of the matching core

    Sides and reject reasons are [int8] in the source and any [int8] side can
    arrive from outside, so they are kept as [Z] with the source's constants;
    event types only come from the constants.  [Event] is the flat tagged union of the source,
    with every field present in every event. *)
From S2P Require Import Prelude.

(** [type Side int8] *)
Definition Side : Type := Z.
Definition Buy : Side := 0.
Definition Sell : Side := 1.

(** [type EventType int8], the constants counted by [iota]. *)
Inductive EventType : Type :=
  | EvAccepted
  | EvRejected
  | EvTrade
  | EvFilled
  | EvCanceled
  | EvBookUpdate.

(** [type RejectReason int8], the constants counted by [iota]. *)
Definition RejectReason : Type := Z.
Definition ReasonNone : RejectReason := 0.
Definition ReasonBadQty : RejectReason := 1.
Definition ReasonBadPrice : RejectReason := 2.
Definition ReasonUnknownOrder : RejectReason := 3.
Definition ReasonNotOwner : RejectReason := 4.

Record Event : Type := mkEvent {
  ev_Type : EventType;
  ev_OrderId : Z;
  ev_ClientOrderId : Z;
  ev_Owner : Z;
  ev_Side : Side;
  ev_Price : Z;
  ev_Qty : Z;
  ev_RemainingQty : Z;
  ev_Reason : RejectReason;
  ev_MakerOrderId : Z;
  ev_TakerOrderId : Z;
  ev_MakerOwner : Z;
  ev_TakerOwner : Z;
  ev_AggregateQty : Z
}.

#[export] Instance EventType_eq_dec : EqDecision EventType.
Proof. solve_decision. Defined.
#[export] Instance Event_eq_dec : EqDecision Event.
Proof. solve_decision. Defined.

(** The composite literals of the source: the fields a literal leaves out
    are zero. *)
Definition AcceptedEvent (orderId clientOrderId owner : Z) (side : Side) (price qty : Z) : Event :=
  mkEvent EvAccepted orderId clientOrderId owner side price qty 0 ReasonNone 0 0 0 0 0.

Definition RejectedEvent (orderId clientOrderId owner : Z) (reason : RejectReason) : Event :=
  mkEvent EvRejected orderId clientOrderId owner 0 0 0 0 reason 0 0 0 0 0.

Definition TradeEvent (price qty makerOrderId takerOrderId makerOwner takerOwner : Z) : Event :=
  mkEvent EvTrade 0 0 0 0 price qty 0 ReasonNone makerOrderId takerOrderId makerOwner takerOwner 0.

Definition FilledEvent (orderId clientOrderId owner : Z) (side : Side)
    (price qty remainingQty : Z) : Event :=
  mkEvent EvFilled orderId clientOrderId owner side price qty remainingQty ReasonNone 0 0 0 0 0.

Definition CanceledEvent (orderId clientOrderId owner : Z) (side : Side)
    (price remainingQty : Z) : Event :=
  mkEvent EvCanceled orderId clientOrderId owner side price 0 remainingQty ReasonNone 0 0 0 0 0.

Definition BookUpdateEvent (side : Side) (price aggregateQty : Z) : Event :=
  mkEvent EvBookUpdate 0 0 0 side price 0 0 ReasonNone 0 0 0 0 aggregateQty.
