(* ===== verification/OrderBook.v ===== *)
(** * engine/order_book.go: the order book over a store of shared objects

    Orders and price levels are heap objects that point to each other: an
    order points to its level and to its neighbours in the level's FIFO, a
    level points to the first and last order of the FIFO, the two sides hold
    slices of level pointers and [orders] maps an id to an order pointer.
    The model keeps this sharing: a [Store] maps locations to the current
    contents of the objects, and every assignment of the source is an update
    of the store. *)
From S2P Require Import Prelude Events.

(** ** Objects *)

Abbreviation loc := nat.
(** A Go pointer: [None] is [nil]. *)
Abbreviation ptr := (option nat).

(** [type order struct] *)
Record order : Type := Order {
  o_id : Z;
  o_clientOrderId : Z;
  o_owner : Z;
  o_side : Side;
  o_price : Z;
  o_qty : Z;
  o_level : ptr;
  o_prev : ptr;
  o_next : ptr
}.

(** [type priceLevel struct] *)
Record priceLevel : Type := PriceLevel {
  pl_price : Z;
  pl_totalQty : Z;
  pl_head : ptr;
  pl_tail : ptr
}.

(** [type NewOrderCmd struct] *)
Record NewOrderCmd : Type := mkNewOrderCmd {
  c_ClientOrderId : Z;
  c_Owner : Z;
  c_Side : Side;
  c_Price : Z;
  c_Qty : Z
}.

(** [type OrderBook struct] *)
Record OrderBook : Type := mkOrderBook {
  b_bids : list loc;
  b_asks : list loc;
  b_orders : gmap Z loc;
  b_nextOrderId : Z
}.

(** The objects reachable through pointers, and the next unused location. *)
Record Store : Type := mkStore {
  st_orders : gmap loc order;
  st_levels : gmap loc priceLevel;
  st_fresh : loc
}.

(** What the methods of [*OrderBook] read and write. *)
Record Engine : Type := mkEngine {
  e_store : Store;
  e_book : OrderBook
}.

(** ** Field assignment *)

Definition set_o_qty (q : Z) (o : order) : order :=
  Order (o_id o) (o_clientOrderId o) (o_owner o) (o_side o) (o_price o) q
    (o_level o) (o_prev o) (o_next o).
Definition set_o_level (l : ptr) (o : order) : order :=
  Order (o_id o) (o_clientOrderId o) (o_owner o) (o_side o) (o_price o) (o_qty o)
    l (o_prev o) (o_next o).
Definition set_o_prev (p : ptr) (o : order) : order :=
  Order (o_id o) (o_clientOrderId o) (o_owner o) (o_side o) (o_price o) (o_qty o)
    (o_level o) p (o_next o).
Definition set_o_next (n : ptr) (o : order) : order :=
  Order (o_id o) (o_clientOrderId o) (o_owner o) (o_side o) (o_price o) (o_qty o)
    (o_level o) (o_prev o) n.

Definition set_pl_totalQty (q : Z) (l : priceLevel) : priceLevel :=
  PriceLevel (pl_price l) q (pl_head l) (pl_tail l).
Definition set_pl_head (h : ptr) (l : priceLevel) : priceLevel :=
  PriceLevel (pl_price l) (pl_totalQty l) h (pl_tail l).
Definition set_pl_tail (t : ptr) (l : priceLevel) : priceLevel :=
  PriceLevel (pl_price l) (pl_totalQty l) (pl_head l) t.

Definition with_orders (f : gmap loc order -> gmap loc order) (e : Engine) : Engine :=
  mkEngine (mkStore (f (st_orders (e_store e))) (st_levels (e_store e)) (st_fresh (e_store e)))
    (e_book e).
Definition with_levels (f : gmap loc priceLevel -> gmap loc priceLevel) (e : Engine) : Engine :=
  mkEngine (mkStore (st_orders (e_store e)) (f (st_levels (e_store e))) (st_fresh (e_store e)))
    (e_book e).
Definition with_fresh (l : loc) (e : Engine) : Engine :=
  mkEngine (mkStore (st_orders (e_store e)) (st_levels (e_store e)) l) (e_book e).
Definition with_book (f : OrderBook -> OrderBook) (e : Engine) : Engine :=
  mkEngine (e_store e) (f (e_book e)).

Definition set_bids (ls : list loc) (b : OrderBook) : OrderBook :=
  mkOrderBook ls (b_asks b) (b_orders b) (b_nextOrderId b).
Definition set_asks (ls : list loc) (b : OrderBook) : OrderBook :=
  mkOrderBook (b_bids b) ls (b_orders b) (b_nextOrderId b).
Definition set_orders (m : gmap Z loc) (b : OrderBook) : OrderBook :=
  mkOrderBook (b_bids b) (b_asks b) m (b_nextOrderId b).
Definition set_nextOrderId (n : Z) (b : OrderBook) : OrderBook :=
  mkOrderBook (b_bids b) (b_asks b) (b_orders b) n.

(** ** Pointer access: a [nil] pointer panics *)

Definition load_order (p : ptr) : go Engine order := fun e =>
  match p with
  | Some l => match st_orders (e_store e) !! l with
              | Some o => Ok (o, e)
              | None => Panic NilDereference
              end
  | None => Panic NilDereference
  end.

Definition load_level (p : ptr) : go Engine priceLevel := fun e =>
  match p with
  | Some l => match st_levels (e_store e) !! l with
              | Some v => Ok (v, e)
              | None => Panic NilDereference
              end
  | None => Panic NilDereference
  end.

(** [p.f = v] for an order pointer: [f] rewrites the object [p] points to. *)
Definition upd_order (p : ptr) (f : order -> order) : go Engine unit := fun e =>
  match p with
  | Some l => match st_orders (e_store e) !! l with
              | Some o => Ok (tt, with_orders <[l := f o]> e)
              | None => Panic NilDereference
              end
  | None => Panic NilDereference
  end.

Definition upd_level (p : ptr) (f : priceLevel -> priceLevel) : go Engine unit := fun e =>
  match p with
  | Some l => match st_levels (e_store e) !! l with
              | Some v => Ok (tt, with_levels <[l := f v]> e)
              | None => Panic NilDereference
              end
  | None => Panic NilDereference
  end.

(** [&order{...}] and [&priceLevel{...}] *)
Definition alloc_order (o : order) : go Engine loc := fun e =>
  let l := st_fresh (e_store e) in
  Ok (l, with_fresh (S l) (with_orders <[l := o]> e)).

Definition alloc_level (v : priceLevel) : go Engine loc := fun e =>
  let l := st_fresh (e_store e) in
  Ok (l, with_fresh (S l) (with_levels <[l := v]> e)).

Definition slice_index {A} (l : list A) (i : nat) : go Engine A := fun e =>
  match l !! i with
  | Some x => Ok (x, e)
  | None => Panic IndexOutOfRange
  end.

(** [append(l[:i], l[i+1:]...)] *)
Definition slice_remove {A} (i : nat) (l : list A) : list A := take i l ++ drop (S i) l.
(** [append(l, nil)], [copy(l[i+1:], l[i:])], [l[i] = x] *)
Definition slice_insert {A} (i : nat) (x : A) (l : list A) : list A := take i l ++ x :: drop i l.

(** ** Operations *)

Definition EmptyBook : OrderBook := mkOrderBook [] [] ∅ 1.

(** [NewOrderBook()], in a store with no other objects. *)
Definition NewOrderBook : Engine := mkEngine (mkStore ∅ ∅ 1%nat) EmptyBook.

(** The slice a side selects: [&b.bids] or [&b.asks]. *)
Definition get_side (buy : bool) : go Engine (list loc) :=
  go_gets (fun e => if buy then b_bids (e_book e) else b_asks (e_book e)).
Definition put_side (buy : bool) (ls : list loc) : go Engine unit :=
  go_modify (with_book (if buy then set_bids ls else set_asks ls)).

(** The loop of [levelIndex]; [lo] and [hi] index a slice, whose length is
    far below the range of [int]. *)
Fixpoint levelIndex_loop (fuel : nat) (levels : list loc) (price : Z) (desc : bool)
    (lo hi : nat) : go Engine (nat * bool) :=
  match fuel with
  | O => go_panic Diverge
  | S fuel' =>
      if (lo <? hi)%nat then
        let mid := ((lo + hi) / 2)%nat in
        pm ← slice_index levels mid;
        lvl ← load_level (Some pm);
        let p := pl_price lvl in
        if p =? price then mret (mid, true)
        else if Bool.eqb desc (price <? p)
        then levelIndex_loop fuel' levels price desc (mid + 1) hi
        else levelIndex_loop fuel' levels price desc lo mid
      else mret (lo, false)
  end.

(** The interval [hi - lo] shrinks at every iteration, so one more than the
    length of the slice is enough fuel. *)
Definition levelIndex (levels : list loc) (price : Z) (desc : bool) : go Engine (nat * bool) :=
  levelIndex_loop (S (length levels)) levels price desc 0 (length levels).

Definition unlink (po : loc) : go Engine unit :=
  let p := Some po in
  o ← load_order p;
  let lvlp := o_level o in
  (match o_prev o with
   | Some _ => upd_order (o_prev o) (set_o_next (o_next o))
   | None => upd_level lvlp (set_pl_head (o_next o))
   end);;
  o ← load_order p;
  (match o_next o with
   | Some _ => upd_order (o_next o) (set_o_prev (o_prev o))
   | None => upd_level lvlp (set_pl_tail (o_prev o))
   end);;
  upd_order p (fun o => set_o_level None (set_o_next None (set_o_prev None o)));;
  o ← load_order p;
  go_modify (with_book (fun b => set_orders (delete (o_id o) (b_orders b)) b));;
  lvl ← load_level lvlp;
  match pl_head lvl with
  | Some _ => mret tt
  | None =>
      let desc := o_side o =? Buy in
      levels ← get_side desc;
      '(idx, found) ← levelIndex levels (pl_price lvl) desc;
      if (found : bool) then put_side desc (slice_remove idx levels) else mret tt
  end.

Definition restOrder (po : loc) : go Engine loc :=
  let p := Some po in
  o ← load_order p;
  let desc := o_side o =? Buy in
  levels ← get_side desc;
  '(idx, found) ← levelIndex levels (o_price o) desc;
  pl ← (if (found : bool)
        then slice_index levels idx
        else lvl ← alloc_level (PriceLevel (o_price o) 0 None None);
             put_side desc (slice_insert idx lvl levels);;
             mret lvl);
  upd_order p (set_o_level (Some pl));;
  lvl ← load_level (Some pl);
  (match pl_tail lvl with
   | None => upd_level (Some pl) (fun v => set_pl_tail p (set_pl_head p v))
   | Some _ =>
       upd_order p (set_o_prev (pl_tail lvl));;
       upd_order (pl_tail lvl) (set_o_next p);;
       upd_level (Some pl) (set_pl_tail p)
   end);;
  o ← load_order p;
  upd_level (Some pl) (fun v => set_pl_totalQty (int64 (pl_totalQty v + o_qty o)) v);;
  go_modify (with_book (fun b => set_orders (<[o_id o := po]> (b_orders b)) b));;
  mret pl.

(** The closure [touch]: [changed] and [changedSides] grow together, so they
    are one list of pairs. *)
Definition touch (side : Side) (lvl : loc) (changed : list (Side * loc)) : list (Side * loc) :=
  if existsb (fun c => (snd c =? lvl)%nat) changed then changed
  else changed ++ [(side, lvl)].

(** The loop of [match]. *)
Fixpoint match_loop (fuel : nat) (taker : loc) (events : list Event)
    (changed : list (Side * loc)) : go Engine (list Event * list (Side * loc)) :=
  match fuel with
  | O => go_panic Diverge
  | S fuel' =>
      t ← load_order (Some taker);
      if 0 <? o_qty t then
        let oppBuy := o_side t =? Sell in
        let oppSide := if oppBuy then Buy else Sell in
        opp ← get_side oppBuy;
        match (opp : list loc) with
        | [] => mret (events, changed)
        | bestp :: _ =>
            best ← load_level (Some bestp);
            if (o_side t =? Buy) && (o_price t <? pl_price best)
            then mret (events, changed)
            else if (o_side t =? Sell) && (pl_price best <? o_price t)
            then mret (events, changed)
            else
              maker ← load_order (pl_head best);
              let fill := if o_qty maker <? o_qty t then o_qty maker else o_qty t in
              upd_order (pl_head best) (fun m => set_o_qty (int64 (o_qty m - fill)) m);;
              upd_order (Some taker) (fun t => set_o_qty (int64 (o_qty t - fill)) t);;
              upd_level (Some bestp) (fun v => set_pl_totalQty (int64 (pl_totalQty v - fill)) v);;
              let changed := touch oppSide bestp changed in
              maker ← load_order (pl_head best);
              t ← load_order (Some taker);
              let events := events ++
                [TradeEvent (pl_price best) fill (o_id maker) (o_id t) (o_owner maker) (o_owner t);
                 FilledEvent (o_id maker) (o_clientOrderId maker) (o_owner maker) (o_side maker)
                   (pl_price best) fill (o_qty maker);
                 FilledEvent (o_id t) (o_clientOrderId t) (o_owner t) (o_side t)
                   (pl_price best) fill (o_qty t)] in
              (if o_qty maker =? 0
               then match pl_head best with
                    | Some mk => unlink mk
                    | None => go_panic NilDereference
                    end
               else mret tt);;
              match_loop fuel' taker events changed
        end
      else mret (events, changed)
  end.

(** Every iteration but the last two removes a resting order, so one more
    than the number of resting orders is enough fuel. *)
Definition matchOrder (taker : loc) (events : list Event) (changed : list (Side * loc))
    : go Engine (list Event * list (Side * loc)) :=
  n ← go_gets (fun e => size (b_orders (e_book e)));
  match_loop (S n) taker events changed.

(** The final loop over [changed]. *)
Fixpoint book_updates (changed : list (Side * loc)) : go Engine (list Event) :=
  match changed with
  | [] => mret []
  | (side, l) :: rest =>
      lvl ← load_level (Some l);
      evs ← book_updates rest;
      mret (BookUpdateEvent side (pl_price lvl) (pl_totalQty lvl) :: evs)
  end.

Definition NewLimitOrder (cmd : NewOrderCmd) : go Engine (list Event) :=
  if c_Qty cmd <=? 0 then
    mret [RejectedEvent 0 (c_ClientOrderId cmd) (c_Owner cmd) ReasonBadQty]
  else if c_Price cmd <=? 0 then
    mret [RejectedEvent 0 (c_ClientOrderId cmd) (c_Owner cmd) ReasonBadPrice]
  else
    nextId ← go_gets (fun e => b_nextOrderId (e_book e));
    taker ← alloc_order (Order nextId (c_ClientOrderId cmd) (c_Owner cmd) (c_Side cmd)
                           (c_Price cmd) (c_Qty cmd) None None None);
    go_modify (with_book (fun b => set_nextOrderId (int64 (b_nextOrderId b + 1)) b));;
    t ← load_order (Some taker);
    let events := [AcceptedEvent (o_id t) (o_clientOrderId t) (o_owner t) (o_side t)
                     (o_price t) (o_qty t)] in
    '(events, changed) ← matchOrder taker events [];
    t ← load_order (Some taker);
    changed ← (if 0 <? o_qty t
               then lvl ← restOrder taker; mret (touch (o_side t) lvl changed)
               else mret changed);
    updates ← book_updates changed;
    mret (events ++ updates).

Definition Cancel (orderId requestingOwner : Z) : go Engine (list Event) :=
  found ← go_gets (fun e => b_orders (e_book e) !! orderId);
  match (found : ptr) with
  | None => mret [RejectedEvent orderId 0 requestingOwner ReasonUnknownOrder]
  | Some po =>
      o ← load_order (Some po);
      if negb (o_owner o =? requestingOwner) then
        mret [RejectedEvent orderId 0 requestingOwner ReasonNotOwner]
      else
        let lvlp := o_level o in
        upd_level lvlp (fun v => set_pl_totalQty (int64 (pl_totalQty v - o_qty o)) v);;
        unlink po;;
        o ← load_order (Some po);
        lvl ← load_level lvlp;
        mret [CanceledEvent (o_id o) (o_clientOrderId o) (o_owner o) (o_side o) (o_price o)
                (o_qty o);
              BookUpdateEvent (o_side o) (pl_price lvl) (pl_totalQty lvl)]
  end.
