(* ===== verification/BookSpec.v ===== *)
(** * The abstract order book: price-time priority over plain lists

    What [engine/] promises, without levels, pointers or index maps: each
    side is one list of resting orders in the order in which they will
    trade.  A new order takes liquidity from the head of the opposite list
    and its remainder is inserted behind every order that is at least as
    good. *)
From S2P Require Import Prelude Events OrderBook.

Record resting : Type := mkResting {
  r_id : Z;
  r_clientOrderId : Z;
  r_owner : Z;
  r_side : Side;
  r_price : Z;
  r_qty : Z
}.

#[export] Instance resting_eq_dec : EqDecision resting.
Proof. solve_decision. Defined.

Definition set_r_qty (q : Z) (r : resting) : resting :=
  mkResting (r_id r) (r_clientOrderId r) (r_owner r) (r_side r) (r_price r) q.

Record Book : Type := mkBook {
  s_bids : list resting;
  s_asks : list resting;
  s_next : Z
}.

(** The side of the book an order of side [s] rests on: bids for [Buy], asks
    for everything else. *)
Definition is_buy (s : Side) : bool := s =? Buy.

Definition side_of (buy : bool) (b : Book) : list resting :=
  if buy then s_bids b else s_asks b.
Definition set_side (buy : bool) (l : list resting) (b : Book) : Book :=
  if buy then mkBook l (s_asks b) (s_next b) else mkBook (s_bids b) l (s_next b).
Definition all_orders (b : Book) : list resting := s_bids b ++ s_asks b.

(** [p] is a strictly better price than [q] on the side [buy]. *)
Definition better (buy : bool) (p q : Z) : bool := if buy then q <? p else p <? q.

(** An order of side [s] and limit [p] may trade with a resting order priced
    [m]. *)
Definition crosses (s : Side) (p m : Z) : bool :=
  negb ((s =? Buy) && (p <? m)) && negb ((s =? Sell) && (m <? p)).

Definition sum_qty (l : list resting) : Z := foldr (fun r n => r_qty r + n) 0 l.

(** The exact quantity resting at a price. *)
Definition level_qty (p : Z) (l : list resting) : Z :=
  sum_qty (filter (fun r => r_price r = p) l).

Fixpoint insert_order (buy : bool) (o : resting) (l : list resting) : list resting :=
  match l with
  | [] => [o]
  | x :: l' => if better buy (r_price o) (r_price x) then o :: l
               else x :: insert_order buy o l'
  end.

(** One execution: the maker as it rested, the quantity traded and what the
    taker had left afterwards. *)
Record fill : Type := mkFill {
  f_maker : resting;
  f_qty : Z;
  f_left : Z
}.

(** Execute [q] units of [t] against the resting orders [opp], best first. *)
Fixpoint sweep (t : resting) (q : Z) (opp : list resting) : list fill * list resting * Z :=
  match opp with
  | [] => ([], [], q)
  | m :: opp' =>
      if (0 <? q) && crosses (r_side t) (r_price t) (r_price m) then
        let x := Z.min (r_qty m) q in
        if r_qty m =? x then
          let '(fs, l, q') := sweep t (q - x) opp' in
          (mkFill m x (q - x) :: fs, l, q')
        else ([mkFill m x (q - x)], set_r_qty (r_qty m - x) m :: opp', q - x)
      else ([], opp, q)
  end.

Definition fill_events (t : resting) (f : fill) : list Event :=
  let m := f_maker f in
  [TradeEvent (r_price m) (f_qty f) (r_id m) (r_id t) (r_owner m) (r_owner t);
   FilledEvent (r_id m) (r_clientOrderId m) (r_owner m) (r_side m) (r_price m) (f_qty f)
     (r_qty m - f_qty f);
   FilledEvent (r_id t) (r_clientOrderId t) (r_owner t) (r_side t) (r_price m) (f_qty f)
     (f_left f)].

(** The distinct prices traded at, in the order of first trade. *)
Definition touch_price (ps : list Z) (f : fill) : list Z :=
  if decide (r_price (f_maker f) ∈ ps) then ps else ps ++ [r_price (f_maker f)].
Definition touched (fs : list fill) : list Z := foldl touch_price [] fs.

(** The published aggregate of a level: the exact quantity as an [int64]. *)
Definition update_event (side : Side) (l : list resting) (p : Z) : Event :=
  BookUpdateEvent side p (int64 (level_qty p l)).

(** The order a valid command becomes. *)
Definition incoming (b : Book) (cmd : NewOrderCmd) : resting :=
  mkResting (s_next b) (c_ClientOrderId cmd) (c_Owner cmd) (c_Side cmd) (c_Price cmd) (c_Qty cmd).

Definition execute (b : Book) (t : resting) : list Event * Book :=
  let oppBuy := r_side t =? Sell in
  let oppSide := if oppBuy then Buy else Sell in
  let '(fs, opp, q) := sweep t (r_qty t) (side_of oppBuy b) in
  let b1 := set_side oppBuy opp (mkBook (s_bids b) (s_asks b) (int64 (s_next b + 1))) in
  let accepted := AcceptedEvent (r_id t) (r_clientOrderId t) (r_owner t) (r_side t) (r_price t)
                    (r_qty t) in
  let trades := concat (fill_events t <$> fs) in
  let updates := update_event oppSide opp <$> touched fs in
  if 0 <? q then
    let buy := is_buy (r_side t) in
    let own := insert_order buy (set_r_qty q t) (side_of buy b1) in
    (accepted :: trades ++ updates ++ [update_event (r_side t) own (r_price t)],
     set_side buy own b1)
  else (accepted :: trades ++ updates, b1).

Definition place (cmd : NewOrderCmd) (b : Book) : list Event * Book :=
  if c_Qty cmd <=? 0 then
    ([RejectedEvent 0 (c_ClientOrderId cmd) (c_Owner cmd) ReasonBadQty], b)
  else if c_Price cmd <=? 0 then
    ([RejectedEvent 0 (c_ClientOrderId cmd) (c_Owner cmd) ReasonBadPrice], b)
  else execute b (incoming b cmd).

Definition find_order (id : Z) (l : list resting) : option resting :=
  head (filter (fun r => r_id r = id) l).

Definition remove_order (id : Z) (l : list resting) : list resting :=
  filter (fun r => r_id r <> id) l.

Definition cancel (id owner : Z) (b : Book) : list Event * Book :=
  match find_order id (all_orders b) with
  | None => ([RejectedEvent id 0 owner ReasonUnknownOrder], b)
  | Some r =>
      if r_owner r =? owner then
        let b' := mkBook (remove_order id (s_bids b)) (remove_order id (s_asks b)) (s_next b) in
        ([CanceledEvent (r_id r) (r_clientOrderId r) (r_owner r) (r_side r) (r_price r) (r_qty r);
          update_event (r_side r) (side_of (is_buy (r_side r)) b') (r_price r)], b')
      else ([RejectedEvent id 0 owner ReasonNotOwner], b)
  end.

Definition empty_book : Book := mkBook [] [] 1.
