(* ===== verification/BookRep.v ===== *)
(** * The shape of the book in the store

    A side of the book is described by a list of groups, one per price
    level, each with the location of the level object and the locations and
    contents of the orders of its FIFO.  [shape] says that the store holds
    exactly these objects, linked the way the groups say. *)
From S2P Require Import Prelude Events OrderBook BookSpec.

Record group : Type := mkGroup {
  g_loc : loc;
  g_price : Z;
  g_total : Z;
  g_ords : list (loc * resting)
}.

(** ** Doubly linked segments *)

Definition cell (r : resting) (lvl pv nx : ptr) : order :=
  Order (r_id r) (r_clientOrderId r) (r_owner r) (r_side r) (r_price r) (r_qty r) lvl pv nx.

(** The first pointer of a segment that continues with [nx], and the last
    pointer of a segment that is preceded by [pv]. *)
Definition hd_ptr (os : list (loc * resting)) (nx : ptr) : ptr :=
  match os with [] => nx | (l, _) :: _ => Some l end.
Fixpoint last_ptr (pv : ptr) (os : list (loc * resting)) : ptr :=
  match os with [] => pv | (l, _) :: os' => last_ptr (Some l) os' end.

Fixpoint dll (m : gmap loc order) (lvl : loc) (pv : ptr) (os : list (loc * resting))
    (nx : ptr) : Prop :=
  match os with
  | [] => True
  | (l, r) :: os' =>
      m !! l = Some (cell r (Some lvl) pv (hd_ptr os' nx)) /\ dll m lvl (Some l) os' nx
  end.

Lemma hd_ptr_app a b nx : hd_ptr (a ++ b) nx = hd_ptr a (hd_ptr b nx).
Proof. by destruct a as [|[]]. Qed.

Lemma last_ptr_app pv a b : last_ptr pv (a ++ b) = last_ptr (last_ptr pv a) b.
Proof. revert pv. induction a as [|[l r] a IH]; intros pv; [done|]. apply IH. Qed.

Lemma last_ptr_cases pv a :
  (a = [] /\ last_ptr pv a = pv) \/
  (exists a' l r, a = a' ++ [(l, r)] /\ last_ptr pv a = Some l).
Proof.
  destruct a as [|[l r] a _] using rev_ind; [by left|].
  right. exists a, l, r. split; [done|]. by rewrite last_ptr_app.
Qed.

Lemma dll_app m lvl pv a b nx :
  dll m lvl pv (a ++ b) nx <->
  dll m lvl pv a (hd_ptr b nx) /\ dll m lvl (last_ptr pv a) b nx.
Proof.
  revert pv. induction a as [|[l r] a IH]; intros pv; simpl; [tauto|].
  rewrite IH, hd_ptr_app. tauto.
Qed.

Lemma dll_frame m m' lvl pv os nx :
  (forall l, l ∈ os.*1 -> m' !! l = m !! l) ->
  dll m lvl pv os nx -> dll m' lvl pv os nx.
Proof.
  revert pv. induction os as [|[l r] os IH]; intros pv Hf; simpl; [done|].
  intros [H1 H2]. split.
  - rewrite Hf; [done|]. set_solver.
  - apply IH; [|done]. intros; apply Hf; set_solver.
Qed.

Lemma dll_lookup m lvl pv os nx l r :
  dll m lvl pv os nx -> (l, r) ∈ os ->
  exists pv' nx', m !! l = Some (cell r (Some lvl) pv' nx').
Proof.
  revert pv. induction os as [|[l' r'] os IH]; intros pv; simpl; [set_solver|].
  intros [H1 H2] [[= -> ->]|Hin]%elem_of_cons; eauto.
Qed.

(** Changing the exit pointer of a non-empty segment touches its last cell. *)
Lemma dll_set_next m lvl pv a l r nx nx' :
  NoDup (a ++ [(l, r)]).*1 ->
  dll m lvl pv (a ++ [(l, r)]) nx ->
  m !! l = Some (cell r (Some lvl) (last_ptr pv a) nx) /\
  dll (<[l := cell r (Some lvl) (last_ptr pv a) nx']> m) lvl pv (a ++ [(l, r)]) nx'.
Proof.
  rewrite fmap_app; intros Hnd. rewrite !dll_app; simpl.
  intros (Ha & Hl & _). repeat split; [done| |by rewrite lookup_insert_eq].
  eapply dll_frame; [|exact Ha]. intros l' Hl'. rewrite lookup_insert_ne; [done|].
  intros ->. apply NoDup_app in Hnd as (_ & Hnd & _). specialize (Hnd _ Hl'). set_solver.
Qed.

(** Changing the entry pointer of a non-empty segment touches its first cell. *)
Lemma dll_set_prev m lvl pv pv' l r b nx :
  NoDup ((l, r) :: b).*1 ->
  dll m lvl pv ((l, r) :: b) nx ->
  m !! l = Some (cell r (Some lvl) pv (hd_ptr b nx)) /\
  dll (<[l := cell r (Some lvl) pv' (hd_ptr b nx)]> m) lvl pv' ((l, r) :: b) nx.
Proof.
  simpl; intros [Hn Hnd]%NoDup_cons [Hl Hb]. split; [done|].
  rewrite lookup_insert_eq. split; [done|].
  eapply dll_frame; [|exact Hb]. intros l' Hl'. rewrite lookup_insert_ne; [done|].
  by intros ->.
Qed.

(** ** Groups *)

Definition group_rep (st : Store) (g : group) : Prop :=
  st_levels st !! g_loc g =
    Some (PriceLevel (g_price g) (g_total g) (hd_ptr (g_ords g) None) (last_ptr None (g_ords g))) /\
  dll (st_orders st) (g_loc g) None (g_ords g) None.

Definition pairs (gs : list group) : list (loc * resting) := concat (g_ords <$> gs).
Definition flat (gs : list group) : list resting := (pairs gs).*2.
Definition ord_locs (gs : list group) : list loc := (pairs gs).*1.
Definition lvl_locs (gs : list group) : list loc := g_loc <$> gs.

(** The id map of the book: what [orders] must contain. *)
Definition entry (p : loc * resting) : Z * loc := (r_id (snd p), fst p).
Definition index (ps : list (loc * resting)) : gmap Z loc := list_to_map (entry <$> ps).
Definition ids (ps : list (loc * resting)) : list Z := r_id <$> ps.*2.

Lemma ids_entry ps : ids ps = (entry <$> ps).*1.
Proof. unfold ids. by rewrite <- !list_fmap_compose. Qed.

Lemma index_perm ps ps' : NoDup (ids ps) -> ps ≡ₚ ps' -> index ps = index ps'.
Proof.
  intros Hnd Hp. apply list_to_map_proper; [by rewrite <- ids_entry|]. by rewrite Hp.
Qed.

Lemma index_delete l r ps :
  NoDup (ids ((l, r) :: ps)) -> delete (r_id r) (index ((l, r) :: ps)) = index ps.
Proof.
  intros [Hn _]%NoDup_cons. unfold index. simpl. apply delete_insert_id.
  apply not_elem_of_list_to_map_1. by rewrite <- ids_entry.
Qed.

Lemma index_lookup_inv i l ps :
  index ps !! i = Some l -> exists r, (l, r) ∈ ps /\ r_id r = i.
Proof.
  intros H%elem_of_list_to_map_2. apply list_elem_of_fmap in H as ([l' r] & He & Hin).
  unfold entry in He; simpl in He. simplify_eq. eauto.
Qed.

Lemma index_lookup_None i ps : index ps !! i = None -> i ∉ ids ps.
Proof. intros H. rewrite ids_entry. by apply not_elem_of_list_to_map_2 in H. Qed.

Lemma index_size ps : NoDup (ids ps) -> size (index ps) = length ps.
Proof.
  intros Hnd. unfold index. rewrite map_size_list_to_map by (by rewrite <- ids_entry).
  by rewrite length_fmap.
Qed.

Lemma pairs_app a b : pairs (a ++ b) = pairs a ++ pairs b.
Proof. unfold pairs. by rewrite fmap_app, concat_app. Qed.
Lemma pairs_cons g b : pairs (g :: b) = g_ords g ++ pairs b.
Proof. done. Qed.
Lemma flat_app a b : flat (a ++ b) = flat a ++ flat b.
Proof. unfold flat. by rewrite pairs_app, fmap_app. Qed.
Lemma flat_cons g b : flat (g :: b) = (g_ords g).*2 ++ flat b.
Proof. unfold flat. by rewrite pairs_cons, fmap_app. Qed.
Lemma ord_locs_app a b : ord_locs (a ++ b) = ord_locs a ++ ord_locs b.
Proof. unfold ord_locs. by rewrite pairs_app, fmap_app. Qed.
Lemma ord_locs_cons g b : ord_locs (g :: b) = (g_ords g).*1 ++ ord_locs b.
Proof. unfold ord_locs. by rewrite pairs_cons, fmap_app. Qed.

Lemma elem_of_pairs p gs : p ∈ pairs gs <-> exists g, g ∈ gs /\ p ∈ g_ords g.
Proof.
  induction gs as [|g gs IH]; [set_solver|].
  rewrite pairs_cons, elem_of_app, IH. set_solver.
Qed.

#[export] Instance pairs_proper : Proper ((≡ₚ) ==> (≡ₚ)) pairs.
Proof.
  intros a b H. induction H; rewrite ?pairs_cons; [done|by f_equiv| |by etrans].
  by rewrite !app_assoc, (Permutation_app_comm (g_ords y)).
Qed.

Lemma groups_rep_frame st st' gs :
  (forall l, l ∈ ord_locs gs -> st_orders st' !! l = st_orders st !! l) ->
  (forall l, l ∈ lvl_locs gs -> st_levels st' !! l = st_levels st !! l) ->
  Forall (group_rep st) gs -> Forall (group_rep st') gs.
Proof.
  intros Ho Hl. rewrite !Forall_forall. intros H g Hg.
  destruct (H g Hg) as [H1 H2]. split.
  - rewrite Hl; [done|]. by apply list_elem_of_fmap_2.
  - eapply dll_frame; [|exact H2]. intros l Hin. apply Ho.
    unfold ord_locs. rewrite list_elem_of_fmap in Hin |- *.
    destruct Hin as (p & -> & Hp). exists p. split; [done|].
    apply elem_of_pairs. eauto.
Qed.

(** ** Both sides *)

Record sides : Type := mkSides {
  bid_groups : list group;
  ask_groups : list group
}.

Definition gside (buy : bool) (G : sides) : list group :=
  if buy then bid_groups G else ask_groups G.
Definition set_gside (buy : bool) (gs : list group) (G : sides) : sides :=
  if buy then mkSides gs (ask_groups G) else mkSides (bid_groups G) gs.
Definition gall (G : sides) : list group := bid_groups G ++ ask_groups G.

Lemma gall_perm buy G : gall G ≡ₚ gside buy G ++ gside (negb buy) G.
Proof. destruct buy; [done|]. apply Permutation_app_comm. Qed.

Lemma gside_set buy b' gs G :
  gside b' (set_gside buy gs G) = if Bool.eqb buy b' then gs else gside b' G.
Proof. by destruct buy, b'. Qed.

Lemma gall_set_perm buy gs G : gall (set_gside buy gs G) ≡ₚ gs ++ gside (negb buy) G.
Proof. destruct buy; [done|]. apply Permutation_app_comm. Qed.

Lemma set_gside_id buy G : set_gside buy (gside buy G) G = G.
Proof. by destruct buy, G. Qed.

(** Every object lives below the allocation mark. *)
Definition bounded (st : Store) : Prop :=
  (forall l, is_Some (st_orders st !! l) -> (l < st_fresh st)%nat) /\
  (forall l, is_Some (st_levels st !! l) -> (l < st_fresh st)%nat).

(** The objects of the groups are in the store, none is shared, and the id
    map points at exactly the orders of the groups. *)
Record linked (e : Engine) (gs : list group) : Prop := mkLinked {
  lk_groups : Forall (group_rep (e_store e)) gs;
  lk_ord_locs : NoDup (ord_locs gs);
  lk_lvl_locs : NoDup (lvl_locs gs);
  lk_ids : NoDup (ids (pairs gs));
  lk_orders : b_orders (e_book e) = index (pairs gs)
}.

#[export] Instance linked_proper e : Proper ((≡ₚ) ==> iff) (linked e).
Proof.
  assert (forall gs gs', gs ≡ₚ gs' -> linked e gs -> linked e gs') as Hgo.
  { intros gs gs' Hp [H1 H2 H3 H4 H5]. constructor.
    - by rewrite <- Hp.
    - unfold ord_locs. by rewrite <- Hp.
    - unfold lvl_locs. by rewrite <- Hp.
    - unfold ids. by rewrite <- Hp.
    - rewrite H5. apply index_perm; [done|]. by rewrite Hp. }
  intros gs gs' Hp; split; apply Hgo; by rewrite Hp.
Qed.

Record shape (e : Engine) (G : sides) : Prop := mkShape {
  sh_bids : b_bids (e_book e) = lvl_locs (bid_groups G);
  sh_asks : b_asks (e_book e) = lvl_locs (ask_groups G);
  sh_linked : linked e (gall G);
  sh_bounded : bounded (e_store e)
}.

Definition slice_of (buy : bool) (b : OrderBook) : list loc :=
  if buy then b_bids b else b_asks b.

Lemma shape_linked buy e G : shape e G -> linked e (gside buy G ++ gside (negb buy) G).
Proof. intros H. rewrite <- gall_perm. apply H. Qed.

Lemma shape_slice buy e G : shape e G -> slice_of buy (e_book e) = lvl_locs (gside buy G).
Proof. intros H. destruct buy; apply H. Qed.

(** To re-establish the shape after one side became [gs]. *)
Lemma shape_set buy gs e e' G :
  shape e G ->
  slice_of buy (e_book e') = lvl_locs gs ->
  slice_of (negb buy) (e_book e') = slice_of (negb buy) (e_book e) ->
  linked e' (gs ++ gside (negb buy) G) ->
  bounded (e_store e') ->
  shape e' (set_gside buy gs G).
Proof.
  intros Hs Hsl Hsl' Hl Hb.
  pose proof (shape_slice (negb buy) _ _ Hs) as Ho. rewrite <- Hsl' in Ho.
  rewrite <- gall_set_perm in Hl. by destruct buy; constructor.
Qed.

(** [e'] differs from [e] at most in the orders at [X] and the levels at [L]. *)
Record frame (X L : list loc) (e e' : Engine) : Prop := mkFrame {
  fr_orders : forall l, l ∉ X -> st_orders (e_store e') !! l = st_orders (e_store e) !! l;
  fr_levels : forall l, l ∉ L -> st_levels (e_store e') !! l = st_levels (e_store e) !! l;
  fr_fresh : st_fresh (e_store e') = st_fresh (e_store e);
  fr_bounded : bounded (e_store e) -> bounded (e_store e')
}.

Lemma frame_trans X L e1 e2 e3 : frame X L e1 e2 -> frame X L e2 e3 -> frame X L e1 e3.
Proof.
  intros [Ho1 Hl1 Hf1 Hb1] [Ho2 Hl2 Hf2 Hb2]. constructor; [| |congruence|by auto].
  - intros l Hl. by rewrite Ho2, Ho1.
  - intros l Hl. by rewrite Hl2, Hl1.
Qed.

Lemma frame_mono X X' L L' e e' : X ⊆ X' -> L ⊆ L' -> frame X L e e' -> frame X' L' e e'.
Proof. intros ? ? [? ? ? ?]. constructor; auto. Qed.

Lemma frame_upd_order X L l o o' e :
  st_orders (e_store e) !! l = Some o -> l ∈ X -> frame X L e (with_orders <[l := o']> e).
Proof.
  intros Hl HX. constructor; [| done|done|]; simpl.
  - intros l' Hl'. rewrite lookup_insert_ne; [done|]. by intros ->.
  - intros [B1 B2]; split; simpl; [|done]. intros l'.
    destruct (decide (l = l')) as [->|]; [intros _; apply B1; by rewrite Hl|].
    rewrite lookup_insert_ne by done. apply B1.
Qed.

Lemma frame_upd_level X L l v v' e :
  st_levels (e_store e) !! l = Some v -> l ∈ L -> frame X L e (with_levels <[l := v']> e).
Proof.
  intros Hl HX. constructor; [done| |done|]; simpl.
  - intros l' Hl'. rewrite lookup_insert_ne; [done|]. by intros ->.
  - intros [B1 B2]; split; simpl; [done|]. intros l'.
    destruct (decide (l = l')) as [->|]; [intros _; apply B2; by rewrite Hl|].
    rewrite lookup_insert_ne by done. apply B2.
Qed.

Lemma frame_book X L f e : frame X L e (with_book f e).
Proof. by constructor. Qed.

(** ** Symbolic execution of the pointer operations *)

Lemma wp_load_order l o (Q : order -> Engine -> Prop) e :
  st_orders (e_store e) !! l = Some o -> Q o e -> wp (load_order (Some l)) Q e.
Proof. unfold wp, load_order. by intros ->. Qed.

Lemma wp_load_level l v (Q : priceLevel -> Engine -> Prop) e :
  st_levels (e_store e) !! l = Some v -> Q v e -> wp (load_level (Some l)) Q e.
Proof. unfold wp, load_level. by intros ->. Qed.

Lemma wp_upd_order l o f (Q : unit -> Engine -> Prop) e :
  st_orders (e_store e) !! l = Some o -> Q tt (with_orders <[l := f o]> e) ->
  wp (upd_order (Some l) f) Q e.
Proof. unfold wp, upd_order. by intros ->. Qed.

Lemma wp_upd_level l v f (Q : unit -> Engine -> Prop) e :
  st_levels (e_store e) !! l = Some v -> Q tt (with_levels <[l := f v]> e) ->
  wp (upd_level (Some l) f) Q e.
Proof. unfold wp, upd_level. by intros ->. Qed.

Lemma wp_alloc_order o (Q : loc -> Engine -> Prop) e :
  Q (st_fresh (e_store e))
    (with_fresh (S (st_fresh (e_store e))) (with_orders <[st_fresh (e_store e) := o]> e)) ->
  wp (alloc_order o) Q e.
Proof. done. Qed.

Lemma wp_alloc_level v (Q : loc -> Engine -> Prop) e :
  Q (st_fresh (e_store e))
    (with_fresh (S (st_fresh (e_store e))) (with_levels <[st_fresh (e_store e) := v]> e)) ->
  wp (alloc_level v) Q e.
Proof. done. Qed.

Lemma wp_slice_index {A} (l : list A) i x (Q : A -> Engine -> Prop) e :
  l !! i = Some x -> Q x e -> wp (slice_index l i) Q e.
Proof. unfold wp, slice_index. by intros ->. Qed.

Lemma wp_get_side buy (Q : list loc -> Engine -> Prop) e G :
  shape e G -> Q (lvl_locs (gside buy G)) e -> wp (get_side buy) Q e.
Proof.
  intros Hs HQ. unfold get_side. apply wp_gets.
  destruct buy; [by rewrite (sh_bids _ _ Hs)|by rewrite (sh_asks _ _ Hs)].
Qed.
