(* ===== verification/BookOps.v ===== *)
(** * The pointer operations of the book, as operations on its shape

    [levelIndex], [unlink] and [restOrder] executed on a store of a given
    shape return without panicking, and leave the store in the shape
    described by a list operation on the groups. *)
From S2P Require Import Prelude Events OrderBook BookSpec BookRep.

(** One group in focus, in front of all the others. *)
Lemma focus_perm {A} (l1 : list A) x l2 l3 : (l1 ++ x :: l2) ++ l3 ≡ₚ x :: l1 ++ l2 ++ l3.
Proof. rewrite <- app_assoc. simpl. by rewrite <- Permutation_middle. Qed.

(** ** Better prices *)

Lemma better_trans buy p q r :
  better buy p q = true -> better buy q r = true -> better buy p r = true.
Proof. unfold better. destruct buy; lia. Qed.

Lemma better_irrefl buy p : better buy p p = false.
Proof. unfold better. destruct buy; lia. Qed.

Lemma better_total buy p q : p <> q -> better buy p q = false -> better buy q p = true.
Proof. unfold better. destruct buy; lia. Qed.

Lemma better_asym buy p q : better buy p q = true -> better buy q p = false.
Proof. unfold better. destruct buy; lia. Qed.

(** The comparison the binary search makes. *)
Lemma search_goes_right desc p price :
  p <> price -> Bool.eqb desc (price <? p) = better desc p price.
Proof.
  unfold better. destruct desc; simpl.
  - intros _. by destruct (price <? p).
  - intros Hne. destruct (Z.ltb_spec price p), (Z.ltb_spec p price); simpl; lia.
Qed.

Definition strictly_sorted (buy : bool) (ps : list Z) : Prop :=
  StronglySorted (fun p q => better buy p q = true) ps.

Lemma strictly_sorted_lookup buy ps i j p q :
  strictly_sorted buy ps -> ps !! i = Some p -> ps !! j = Some q -> (i < j)%nat ->
  better buy p q = true.
Proof.
  revert i j. induction ps as [|x ps IH]; intros i j; [done|].
  intros [Hx Hs]%StronglySorted_cons Hi Hj Hij.
  destruct j as [|j]; [lia|]. simpl in Hj.
  destruct i as [|i]; simpl in Hi.
  - simplify_eq. rewrite Forall_forall in Hx. apply Hx. by eapply list_elem_of_lookup_2.
  - eapply IH; eauto. lia.
Qed.

Lemma strictly_sorted_NoDup buy ps : strictly_sorted buy ps -> NoDup ps.
Proof.
  induction ps as [|p ps IH]; intros Hs; [constructor|].
  apply StronglySorted_cons in Hs as [Hp Hs]. constructor; [|auto].
  intros Hin. rewrite Forall_forall in Hp. specialize (Hp _ Hin).
  by rewrite better_irrefl in Hp.
Qed.

(** Inserting a price between the better and the worse ones. *)
Lemma strictly_sorted_insert buy ps1 p ps2 :
  strictly_sorted buy (ps1 ++ ps2) ->
  Forall (fun q => better buy q p = true) ps1 ->
  Forall (fun q => better buy p q = true) ps2 ->
  strictly_sorted buy (ps1 ++ p :: ps2).
Proof.
  unfold strictly_sorted. rewrite !StronglySorted_app, StronglySorted_cons.
  intros (H12 & H1 & H2) Hp1 Hp2. rewrite Forall_forall in Hp1.
  repeat split; [|done..]. intros x1 x2 Hx1 [->|Hx2]%elem_of_cons; auto.
Qed.

(** ** Binary search *)

(** What [levelIndex] promises: the index of the price, or the index at
    which it must be inserted. *)
Definition search_result (desc : bool) (price : Z) (ps : list Z) (r : nat * bool) : Prop :=
  if snd r then ps !! fst r = Some price
  else (fst r <= length ps)%nat /\
       Forall (fun p => better desc p price = true) (take (fst r) ps) /\
       Forall (fun p => better desc price p = true) (drop (fst r) ps).

(** The level [l] points to has the price [p]. *)
Definition level_price (st : Store) (l : loc) (p : Z) : Prop :=
  exists v, st_levels st !! l = Some v /\ pl_price v = p.

Lemma group_prices st gs :
  Forall (group_rep st) gs -> Forall2 (level_price st) (lvl_locs gs) (g_price <$> gs).
Proof.
  induction 1 as [|g gs [Hlv _] _ IH]; [constructor|].
  constructor; [|done]. eexists. by split; [exact Hlv|].
Qed.

Lemma levelIndex_loop_spec fuel levels ps price desc lo hi e :
  Forall2 (level_price (e_store e)) levels ps ->
  strictly_sorted desc ps ->
  (lo <= hi <= length ps)%nat -> (hi - lo < fuel)%nat ->
  Forall (fun p => better desc p price = true) (take lo ps) ->
  Forall (fun p => better desc price p = true) (drop hi ps) ->
  wp (levelIndex_loop fuel levels price desc lo hi)
    (fun r e' => e' = e /\ search_result desc price ps r) e.
Proof.
  intros Hrep Hsort. revert lo hi.
  induction fuel as [|fuel IH]; intros lo hi Hb Hfuel Hlo Hhi; [lia|].
  cbn [levelIndex_loop].
  destruct (Nat.ltb_spec lo hi) as [Hlt|Hge].
  2: { wp_step. split; [done|]. replace hi with lo in Hhi by lia.
       repeat split; simpl; [|done..]. lia. }
  set (mid := ((lo + hi) / 2)%nat). cbn zeta.
  assert (Hmid : (lo <= mid < hi)%nat).
  { unfold mid. split; [apply Nat.div_le_lower_bound|apply Nat.Div0.div_lt_upper_bound]; lia. }
  destruct (lookup_lt_is_Some_2 ps mid) as [p Hp]; [lia|].
  destruct (Forall2_lookup_r _ _ _ _ _ Hrep Hp) as (l & Hl & v & Hv & Hvp).
  wp_step. eapply wp_slice_index; [exact Hl|].
  wp_step. eapply wp_load_level; [exact Hv|]. rewrite Hvp. cbn zeta.
  destruct (Z.eqb_spec p price) as [Heq|Hne].
  { wp_step. split; [done|]. unfold search_result; simpl. by rewrite Hp, Heq. }
  rewrite search_goes_right by done.
  destruct (better desc p price) eqn:Hbet; apply IH; try lia; try done.
  - apply Forall_lookup_2. intros i p' Hi. apply lookup_take_Some in Hi as [Hi Hlti].
    destruct (decide (i = mid)) as [->|]; [by simplify_eq|].
    eapply better_trans; [|exact Hbet].
    eapply strictly_sorted_lookup; [exact Hsort|exact Hi|exact Hp|lia].
  - apply better_total in Hbet; [|done].
    apply Forall_lookup_2. intros i p' Hi. rewrite lookup_drop in Hi.
    destruct (decide (i = 0%nat)) as [->|].
    + rewrite Nat.add_0_r in Hi. by simplify_eq.
    + eapply better_trans; [exact Hbet|].
      eapply strictly_sorted_lookup; [exact Hsort|exact Hp|exact Hi|lia].
Qed.

Lemma levelIndex_spec levels ps price desc e :
  Forall2 (level_price (e_store e)) levels ps -> strictly_sorted desc ps ->
  wp (levelIndex levels price desc) (fun r e' => e' = e /\ search_result desc price ps r) e.
Proof.
  intros Hrep Hs. unfold levelIndex. rewrite (Forall2_length _ _ _ Hrep).
  apply levelIndex_loop_spec; [done..|lia|lia|constructor|]. rewrite drop_ge; [constructor|lia].
Qed.

Lemma wp_levelIndex gs price desc (Q : nat * bool -> Engine -> Prop) e :
  Forall (group_rep (e_store e)) gs ->
  strictly_sorted desc (g_price <$> gs) ->
  (forall r, search_result desc price (g_price <$> gs) r -> Q r e) ->
  wp (levelIndex (lvl_locs gs) price desc) Q e.
Proof.
  intros Hrep Hs HQ. eapply wp_mono; [by apply levelIndex_spec; [apply group_prices|]|].
  intros r e' [-> H]. by apply HQ.
Qed.

(** A price that is present is found at its place. *)
Lemma search_present desc gs1 g gs2 r :
  strictly_sorted desc (g_price <$> gs1 ++ g :: gs2) ->
  search_result desc (g_price g) (g_price <$> gs1 ++ g :: gs2) r ->
  r = (length gs1, true).
Proof.
  intros Hs. assert (Hp : (g_price <$> gs1 ++ g :: gs2) !! length gs1 = Some (g_price g)).
  { by rewrite list_lookup_fmap, list_lookup_middle. }
  destruct r as [i []]; unfold search_result; simpl.
  - intros Hi. apply strictly_sorted_NoDup in Hs.
    by rewrite (NoDup_lookup _ _ _ _ Hs Hi Hp).
  - intros (_ & Ht & Hd). exfalso.
    destruct (decide (length gs1 < i)%nat).
    + rewrite Forall_forall in Ht.
      specialize (Ht (g_price g)). rewrite better_irrefl in Ht. discriminate Ht.
      eapply list_elem_of_lookup_2. rewrite lookup_take_Some. eauto.
    + rewrite Forall_forall in Hd.
      specialize (Hd (g_price g)). rewrite better_irrefl in Hd. discriminate Hd.
      apply (list_elem_of_lookup_2 _ (length gs1 - i)%nat). rewrite lookup_drop.
      by replace (i + (length gs1 - i))%nat with (length gs1) by lia.
Qed.

Lemma slice_remove_middle {A} (l1 : list A) x l2 :
  slice_remove (length l1) (l1 ++ x :: l2) = l1 ++ l2.
Proof.
  unfold slice_remove. rewrite take_app_length. f_equal.
  rewrite drop_app_ge by lia. by replace (S (length l1) - length l1)%nat with 1%nat by lia.
Qed.

(** ** Unlinking an order *)

(** First half of [unlink]: the predecessor, or the level, skips the order. *)
Lemma unlink_prev_spec e lvl price total a l r b (Q : unit -> Engine -> Prop) :
  NoDup (a ++ (l, r) :: b).*1 ->
  dll (st_orders (e_store e)) lvl None (a ++ (l, r) :: b) None ->
  st_levels (e_store e) !! lvl =
    Some (PriceLevel price total (hd_ptr (a ++ (l, r) :: b) None)
            (last_ptr None (a ++ (l, r) :: b))) ->
  (forall e',
     frame a.*1 [lvl] e e' -> e_book e' = e_book e ->
     dll (st_orders (e_store e')) lvl None a (hd_ptr b None) ->
     st_levels (e_store e') !! lvl =
       Some (PriceLevel price total (hd_ptr (a ++ b) None) (last_ptr None (a ++ (l, r) :: b))) ->
     Q tt e') ->
  wp (match last_ptr None a with
      | Some _ => upd_order (last_ptr None a) (set_o_next (hd_ptr b None))
      | None => upd_level (Some lvl) (set_pl_head (hd_ptr b None))
      end) Q e.
Proof.
  intros Hnd Hdll Hlvl HQ.
  destruct (last_ptr_cases None a) as [[-> ->]|(a' & l' & r' & -> & Hlast)].
  - eapply wp_upd_level; [exact Hlvl|]. apply HQ; simpl; [|done..|by rewrite lookup_insert_eq].
    eapply frame_upd_level; [done|set_solver].
  - rewrite Hlast. apply dll_app in Hdll as [Ha _].
    assert (Hnd' : NoDup (a' ++ [(l', r')]).*1).
    { rewrite fmap_app in Hnd. by apply NoDup_app in Hnd as [? _]. }
    destruct (dll_set_next _ _ _ _ _ _ _ (hd_ptr b None) Hnd' Ha) as [Hc Ha'].
    eapply wp_upd_order; [exact Hc|]. apply HQ; simpl; [|done|done|].
    + eapply frame_upd_order; [done|]. rewrite fmap_app. set_solver.
    + rewrite Hlvl, !hd_ptr_app. by destruct a' as [|[] ?].
Qed.

(** Second half: the successor, or the level, skips it backwards. *)
Lemma unlink_next_spec e lvl price total a l r b (Q : unit -> Engine -> Prop) :
  NoDup (a ++ (l, r) :: b).*1 ->
  dll (st_orders (e_store e)) lvl (Some l) b None ->
  st_levels (e_store e) !! lvl =
    Some (PriceLevel price total (hd_ptr (a ++ b) None) (last_ptr None (a ++ (l, r) :: b))) ->
  (forall e',
     frame b.*1 [lvl] e e' -> e_book e' = e_book e ->
     dll (st_orders (e_store e')) lvl (last_ptr None a) b None ->
     st_levels (e_store e') !! lvl =
       Some (PriceLevel price total (hd_ptr (a ++ b) None) (last_ptr None (a ++ b))) ->
     Q tt e') ->
  wp (match hd_ptr b None with
      | Some _ => upd_order (hd_ptr b None) (set_o_prev (last_ptr None a))
      | None => upd_level (Some lvl) (set_pl_tail (last_ptr None a))
      end) Q e.
Proof.
  intros Hnd Hdll Hlvl HQ. destruct b as [|[l' r'] b]; cbn [hd_ptr].
  - eapply wp_upd_level; [exact Hlvl|]. apply HQ; simpl; [|done..|].
    + eapply frame_upd_level; [done|set_solver].
    + by rewrite lookup_insert_eq, app_nil_r.
  - assert (Hnd' : NoDup ((l', r') :: b).*1).
    { rewrite fmap_app in Hnd. apply NoDup_app in Hnd as (_ & _ & Hnd).
      by apply NoDup_cons in Hnd as [_ ?]. }
    destruct (dll_set_prev _ _ _ (last_ptr None a) _ _ _ _ Hnd' Hdll) as [Hc Hb].
    eapply wp_upd_order; [exact Hc|]. apply HQ; [|done|done|].
    + eapply frame_upd_order; [done|]. set_solver.
    + simpl. by rewrite Hlvl, !last_ptr_app.
Qed.

(** What is left of a group whose FIFO has become [os]. *)
Definition shrink (g : group) (os : list (loc * resting)) : list group :=
  match os with
  | [] => []
  | _ => [mkGroup (g_loc g) (g_price g) (g_total g) os]
  end.

Lemma pairs_shrink g os : pairs (shrink g os) = os.
Proof. destruct os; [done|]. unfold shrink. by rewrite pairs_cons, app_nil_r. Qed.

(** ** Replacing one group *)

(** [X] stays clear of the orders of [gs]. *)
Definition clear (X : list loc) (gs : list group) : Prop := forall l, l ∈ X -> l ∉ ord_locs gs.

Lemma linked_clear e g gs : linked e (g :: gs) -> clear (g_ords g).*1 gs.
Proof.
  intros [_ Ho _ _ _] l Hin. rewrite ord_locs_cons in Ho.
  apply NoDup_app in Ho as (_ & Hd & _). by apply Hd.
Qed.

Lemma clear_cons l X gs : l ∉ ord_locs gs -> clear X gs -> clear (l :: X) gs.
Proof. intros Hl HX l' [->|]%elem_of_cons; auto. Qed.

Lemma linked_others e e' X g gs :
  linked e (g :: gs) -> frame X [g_loc g] e e' -> clear X gs ->
  Forall (group_rep (e_store e')) gs.
Proof.
  intros [Hg Ho Hl _ _] Hf Hd. apply Forall_cons in Hg as [_ Hg].
  eapply groups_rep_frame; [| |exact Hg].
  - intros l Hin. apply Hf. intros Hin'. by apply (Hd l).
  - intros l Hin. apply Hf. apply NoDup_cons in Hl as [Hn _].
    intros ->%list_elem_of_singleton. by apply Hn.
Qed.

(** The group [g] became [g'], its FIFO losing orders at most. *)
Lemma linked_replace e e' X g g' gs :
  linked e (g :: gs) -> frame X [g_loc g] e e' -> clear X gs ->
  group_rep (e_store e') g' -> g_loc g' = g_loc g ->
  (g_ords g').*1 `sublist_of` (g_ords g).*1 ->
  ids (g_ords g') `sublist_of` ids (g_ords g) ->
  b_orders (e_book e') = index (g_ords g' ++ pairs gs) ->
  linked e' (g' :: gs).
Proof.
  intros Hlk Hf Hd Hg' Hloc Hso Hsi Hidx.
  pose proof (linked_others _ _ _ _ _ Hlk Hf Hd) as Hoth. destruct Hlk as [Hg Ho Hl Hi _].
  constructor; [by constructor| | | |by rewrite pairs_cons].
  - eapply sublist_NoDup; [exact Ho|]. rewrite !ord_locs_cons. by apply sublist_app.
  - unfold lvl_locs in *. rewrite fmap_cons in *. by rewrite Hloc.
  - eapply sublist_NoDup; [exact Hi|]. rewrite !pairs_cons. unfold ids in *.
    rewrite !fmap_app. by apply sublist_app.
Qed.

(** An empty group can be dropped. *)
Lemma linked_drop e g gs : g_ords g = [] -> linked e (g :: gs) -> linked e gs.
Proof.
  intros He [Hg Ho Hl Hi Hx].
  rewrite ord_locs_cons, He in Ho. rewrite pairs_cons, He in Hi, Hx.
  apply Forall_cons in Hg as [_ Hg]. apply NoDup_cons in Hl as [_ Hl].
  by constructor.
Qed.

Definition with_ords (os : list (loc * resting)) (g : group) : group :=
  mkGroup (g_loc g) (g_price g) (g_total g) os.

(** The pointer part of [unlink]: everything up to the test for an empty
    level. *)
Lemma unlink_cells_spec e buy G g1 g g2 a l r b (Q : unit -> Engine -> Prop) k :
  shape e G -> gside buy G = g1 ++ g :: g2 -> g_ords g = a ++ (l, r) :: b ->
  (forall e',
     frame (g_ords g).*1 [g_loc g] e e' ->
     (forall s, slice_of s (e_book e') = slice_of s (e_book e)) ->
     b_nextOrderId (e_book e') = b_nextOrderId (e_book e) ->
     linked e' (with_ords (a ++ b) g :: g1 ++ g2 ++ gside (negb buy) G) ->
     st_orders (e_store e') !! l = Some (cell r None None None) ->
     wp (k (Some (g_loc g)) (cell r None None None)) Q e') ->
  wp (o ← load_order (Some l);
      (match o_prev o with
       | Some _ => upd_order (o_prev o) (set_o_next (o_next o))
       | None => upd_level (o_level o) (set_pl_head (o_next o))
       end);;
      o' ← load_order (Some l);
      (match o_next o' with
       | Some _ => upd_order (o_next o') (set_o_prev (o_prev o'))
       | None => upd_level (o_level o) (set_pl_tail (o_prev o'))
       end);;
      upd_order (Some l) (fun o => set_o_level None (set_o_next None (set_o_prev None o)));;
      o' ← load_order (Some l);
      go_modify (with_book (fun b => set_orders (delete (o_id o') (b_orders b)) b));;
      k (o_level o) o') Q e.
Proof.
  intros Hs Hg Hords HQ. pose proof (shape_linked buy _ _ Hs) as Hlk. rewrite Hg in Hlk.
  rewrite focus_perm in Hlk.
  pose proof (lk_groups _ _ Hlk) as [[Hlvl Hdll] _]%Forall_cons.
  pose proof (lk_ord_locs _ _ Hlk) as Hnd. rewrite ord_locs_cons in Hnd.
  apply NoDup_app in Hnd as (Hnd & _ & _).
  rewrite Hords in Hlvl, Hdll, Hnd.
  pose proof Hnd as Hnd'. rewrite fmap_app in Hnd'.
  apply NoDup_app in Hnd' as (_ & Hla & [Hlb _]%NoDup_cons).
  pose proof Hdll as [_ [Hl _]]%dll_app.
  wp_step. eapply wp_load_order; [exact Hl|]. cbn [o_prev o_next o_level cell].
  wp_step. eapply unlink_prev_spec; [done..|]. intros e1 Hf1 Hb1 Hda Hlvl1.
  assert (Hl1 : st_orders (e_store e1) !! l = st_orders (e_store e) !! l).
  { apply Hf1. intros Hin. apply (Hla l Hin). simpl. set_solver. }
  wp_step. eapply wp_load_order; [rewrite Hl1; exact Hl|]. cbn [o_prev o_next o_level cell].
  wp_step. eapply unlink_next_spec; [done| |done|].
  { apply dll_app in Hdll as [_ [_ Hdb]]. eapply dll_frame; [|exact Hdb].
    intros l' Hl'. apply Hf1. intros Hin. apply (Hla _ Hin). simpl. set_solver. }
  intros e2 Hf2 Hb2 Hdb Hlvl2.
  assert (Hl2 : st_orders (e_store e2) !! l = st_orders (e_store e1) !! l) by by apply Hf2.
  wp_step. eapply wp_upd_order; [rewrite Hl2, Hl1; exact Hl|].
  wp_step. eapply wp_load_order; [by simpl; rewrite lookup_insert_eq|].
  wp_step. wp_step. cbn [o_id cell set_o_level set_o_next set_o_prev].
  set (e3 := with_book _ _).
  assert (Hf3 : frame (g_ords g).*1 [g_loc g] e e3).
  { rewrite Hords, fmap_app. eapply frame_trans; [|apply frame_book].
    eapply frame_trans; [eapply frame_mono; [| |exact Hf1]; set_solver|].
    eapply frame_trans; [eapply frame_mono; [| |exact Hf2]; set_solver|].
    eapply frame_upd_order; [rewrite Hl2, Hl1; exact Hl|]. set_solver. }
  apply HQ.
  - exact Hf3.
  - intros s. unfold e3. simpl. rewrite Hb2, Hb1. by destruct s.
  - unfold e3. simpl. by rewrite Hb2, Hb1.
  - eapply linked_replace; [exact Hlk|exact Hf3|by eapply linked_clear| |done| | |].
    + split; [exact Hlvl2|]. apply dll_app. split.
      * eapply dll_frame; [|exact Hda]. intros l' Hl'. simpl.
        rewrite lookup_insert_ne by (intros ->; apply (Hla _ Hl'); simpl; set_solver).
        apply Hf2. intros Hin. apply (Hla _ Hl'). simpl. set_solver.
      * eapply dll_frame; [|exact Hdb]. intros l' Hl'. simpl.
        rewrite lookup_insert_ne; [done|]. by intros ->.
    + simpl. rewrite Hords. f_equiv. apply sublist_app; [done|]. by constructor.
    + simpl. rewrite Hords. unfold ids. do 2 f_equiv. apply sublist_app; [done|]. by constructor.
    + unfold e3. simpl. rewrite Hb2, Hb1, (lk_orders _ _ Hlk), pairs_cons, Hords.
      pose proof (lk_ids _ _ Hlk) as Hni. rewrite pairs_cons, Hords in Hni.
      assert (Hp2 : (a ++ (l, r) :: b) ++ pairs (g1 ++ g2 ++ gside (negb buy) G) ≡ₚ
                (l, r) :: (a ++ b) ++ pairs (g1 ++ g2 ++ gside (negb buy) G)).
      { rewrite <- !app_assoc. simpl. by rewrite <- Permutation_middle. }
      rewrite (index_perm _ _ Hni Hp2). apply index_delete.
      unfold ids in *. by rewrite <- Hp2.
  - unfold e3. simpl. by rewrite lookup_insert_eq.
Qed.

Lemma linked_book e e' gs :
  e_store e' = e_store e -> b_orders (e_book e') = b_orders (e_book e) ->
  linked e gs -> linked e' gs.
Proof. intros He Hb [? ? ? ? ?]. constructor; rewrite ?He, ?Hb; done. Qed.

Lemma put_side_slice buy ls e :
  wp (put_side buy ls)
    (fun _ e' => e_store e' = e_store e /\ b_orders (e_book e') = b_orders (e_book e) /\
                 b_nextOrderId (e_book e') = b_nextOrderId (e_book e) /\
                 slice_of buy (e_book e') = ls /\
                 slice_of (negb buy) (e_book e') = slice_of (negb buy) (e_book e)) e.
Proof. unfold put_side. wp_step. by destruct buy. Qed.

(** What [unlink] leaves of the groups of a side. *)
Lemma unlink_spec e buy G g1 g g2 a l r b :
  shape e G -> gside buy G = g1 ++ g :: g2 -> g_ords g = a ++ (l, r) :: b ->
  is_buy (r_side r) = buy -> strictly_sorted buy (g_price <$> gside buy G) ->
  wp (unlink l)
    (fun _ e' =>
       shape e' (set_gside buy (g1 ++ shrink g (a ++ b) ++ g2) G) /\
       frame (g_ords g).*1 [g_loc g] e e' /\
       b_nextOrderId (e_book e') = b_nextOrderId (e_book e) /\
       group_rep (e_store e') (with_ords (a ++ b) g) /\
       st_orders (e_store e') !! l = Some (cell r None None None)) e.
Proof.
  intros Hs Hg Hords Hbuy Hsort. unfold unlink; cbn zeta.
  eapply (unlink_cells_spec _ _ _ _ _ _ _ _ _ _ _ (fun lvlp o => lvl ← load_level lvlp; _));
    [done..|]. intros e3 Hf Hsl Hnx Hlk Hl.
  pose proof (lk_groups _ _ Hlk) as [Hrep _]%Forall_cons.
  wp_step. eapply wp_load_level; [exact (proj1 Hrep)|]. cbn [pl_head g_ords with_ords pl_price].
  destruct (a ++ b) as [|p os] eqn:Hab; cbn [hd_ptr].
  2: { destruct p as [l0 r0]. wp_step. split; [|done].
       apply (shape_set _ _ e); [done|..].
       - rewrite Hsl, (shape_slice buy _ _ Hs), Hg. unfold lvl_locs. by rewrite !fmap_app.
       - apply Hsl.
       - simpl. by rewrite focus_perm.
       - apply (fr_bounded _ _ _ _ Hf), Hs. }
  cbn [o_side cell]. fold (is_buy (r_side r)). rewrite Hbuy.
  assert (Hlv : slice_of buy (e_book e3) = lvl_locs (g1 ++ with_ords [] g :: g2)).
  { rewrite Hsl, (shape_slice buy _ _ Hs), Hg. unfold lvl_locs. by rewrite !fmap_app. }
  assert (Hpr : g_price <$> g1 ++ with_ords [] g :: g2 = g_price <$> gside buy G).
  { by rewrite Hg, !fmap_app. }
  wp_step. unfold get_side. wp_step. fold (slice_of buy (e_book e3)). rewrite Hlv.
  wp_step. apply wp_levelIndex; [|by rewrite Hpr|].
  { apply lk_groups in Hlk. rewrite Forall_cons, !Forall_app in Hlk.
    rewrite Forall_app, Forall_cons. tauto. }
  intros res Hres. apply (search_present buy g1 (with_ords [] g) g2) in Hres; [|by rewrite Hpr].
  subst res. eapply wp_mono; [apply put_side_slice|].
  intros [] e4 (Hst & Hbo & Hbn & Hsb & Hsn). rewrite Hst, Hbn. split; [|split; [|done]].
  - apply (shape_set _ _ e); [done| | |apply linked_drop in Hlk; [|done]|].
    + rewrite Hsb. unfold lvl_locs. rewrite fmap_app, fmap_cons.
      rewrite <- (length_fmap g_loc g1), slice_remove_middle. by rewrite !fmap_app.
    + by rewrite Hsn.
    + simpl. rewrite <- app_assoc. eapply linked_book; done.
    + rewrite Hst. apply (fr_bounded _ _ _ _ Hf), Hs.
  - destruct Hf as [? ? ? ?]. by constructor; rewrite Hst.
Qed.

(** ** Resting an order *)

(** The group [g] with one more order at the back of its FIFO. *)
Definition push (g : group) (po : loc) (r : resting) : group :=
  mkGroup (g_loc g) (g_price g) (int64 (g_total g + r_qty r)) (g_ords g ++ [(po, r)]).

Lemma linked_push e e' g gs po r :
  linked e (g :: gs) -> frame (po :: (g_ords g).*1) [g_loc g] e e' ->
  group_rep (e_store e') (push g po r) ->
  po ∉ ord_locs (g :: gs) -> r_id r ∉ ids (pairs (g :: gs)) ->
  b_orders (e_book e') = <[r_id r := po]> (b_orders (e_book e)) ->
  linked e' (push g po r :: gs).
Proof.
  intros Hlk Hf Hg' Hpo Hid Hb.
  assert (Hoth : Forall (group_rep (e_store e')) gs).
  { eapply linked_others; [exact Hlk|exact Hf|].
    apply clear_cons; [|by eapply linked_clear]. rewrite ord_locs_cons in Hpo. set_solver. }
  destruct Hlk as [Hg Ho Hl Hi Hx].
  assert (Hp : pairs (push g po r :: gs) ≡ₚ (po, r) :: pairs (g :: gs)).
  { rewrite !pairs_cons. cbn [g_ords push]. rewrite <- app_assoc. simpl.
    by rewrite <- Permutation_middle. }
  assert (Hni : NoDup (ids (pairs (push g po r :: gs)))).
  { unfold ids in *. rewrite Hp. simpl. by constructor. }
  constructor; [by constructor|unfold ord_locs in *; rewrite Hp; by constructor|done|done|].
  by rewrite Hb, Hx, (index_perm _ _ Hni Hp).
Qed.

(** Linking the order at the back of the FIFO: the [tail == nil] test. *)
Lemma rest_link_spec e g po r (Q : unit -> Engine -> Prop) :
  group_rep (e_store e) g -> NoDup (g_ords g).*1 -> po ∉ (g_ords g).*1 ->
  st_orders (e_store e) !! po = Some (cell r (Some (g_loc g)) None None) ->
  (forall e',
     frame (po :: (g_ords g).*1) [g_loc g] e e' -> e_book e' = e_book e ->
     st_orders (e_store e') !! po = Some (cell r (Some (g_loc g)) (last_ptr None (g_ords g)) None) ->
     group_rep (e_store e')
       (mkGroup (g_loc g) (g_price g) (g_total g) (g_ords g ++ [(po, r)])) ->
     Q tt e') ->
  wp (match last_ptr None (g_ords g) with
      | None => upd_level (Some (g_loc g)) (fun v => set_pl_tail (Some po) (set_pl_head (Some po) v))
      | Some _ =>
          upd_order (Some po) (set_o_prev (last_ptr None (g_ords g)));;
          upd_order (last_ptr None (g_ords g)) (set_o_next (Some po));;
          upd_level (Some (g_loc g)) (set_pl_tail (Some po))
      end) Q e.
Proof.
  intros [Hlvl Hdll] Hnd Hpo Hc HQ. unfold group_rep in HQ. cbn [g_loc g_ords g_price g_total] in HQ.
  destruct (last_ptr_cases None (g_ords g)) as [[He Hlast]|(a & l & r' & He & Hlast)];
    rewrite Hlast in *; rewrite He in *.
  - eapply wp_upd_level; [exact Hlvl|]. apply HQ; simpl; [|done|done|].
    + eapply frame_upd_level; [done|set_solver].
    + by rewrite lookup_insert_eq.
  - assert (Hne : po <> l) by (intros ->; apply Hpo; rewrite fmap_app; set_solver).
    destruct (dll_set_next _ _ _ _ _ _ _ (Some po) Hnd Hdll) as [Hl Hdll'].
    wp_step. eapply wp_upd_order; [exact Hc|].
    wp_step. eapply wp_upd_order; [simpl; rewrite lookup_insert_ne by done; exact Hl|].
    eapply wp_upd_level; [exact Hlvl|]. apply HQ; [|done| |split].
    + eapply frame_trans; [eapply frame_upd_order; [exact Hc|set_solver]|].
      eapply frame_trans; [eapply frame_upd_order|eapply frame_upd_level; [exact Hlvl|set_solver]].
      * simpl. rewrite lookup_insert_ne by done. exact Hl.
      * rewrite fmap_app. set_solver.
    + simpl. by rewrite lookup_insert_ne, lookup_insert_eq by done.
    + simpl. rewrite lookup_insert_eq, hd_ptr_app, last_ptr_app. simpl.
      by destruct a as [|[] ?].
    + simpl. rewrite dll_app. split.
      * eapply dll_frame; [|exact Hdll']. intros l' Hl'.
        rewrite !lookup_insert. case_decide; [done|]. case_decide; [|done]. by subst.
      * rewrite last_ptr_app. simpl. by rewrite lookup_insert_ne, lookup_insert_eq by done.
Qed.

(** Finding the level of an order, or making one. *)
Inductive chosen (buy : bool) (price : Z) (e : Engine) (gs g1 : list group) (g : group)
    (g2 : list group) : Prop :=
  | chosen_old : gs = g1 ++ g :: g2 -> chosen buy price e gs g1 g g2
  | chosen_new : gs = g1 ++ g2 -> g = mkGroup (st_fresh (e_store e)) price 0 [] ->
      chosen buy price e gs g1 g g2.

Lemma linked_new_level e gs price :
  linked e gs -> bounded (e_store e) ->
  let l := st_fresh (e_store e) in
  let e' := with_fresh (S l) (with_levels <[l := PriceLevel price 0 None None]> e) in
  linked e' (mkGroup l price 0 [] :: gs) /\ bounded (e_store e').
Proof.
  intros [Hg Ho Hl Hi Hx] [B1 B2] l e'.
  assert (Hfresh : l ∉ lvl_locs gs).
  { intros Hin. apply list_elem_of_fmap in Hin as (g & Heq & Hin). subst l.
    rewrite Forall_forall in Hg. destruct (Hg _ Hin) as [Hlv _].
    specialize (B2 (g_loc g)). rewrite Hlv in B2. specialize (B2 (mk_is_Some _ _ eq_refl)). lia. }
  split; [constructor|split].
  - constructor.
    + split; [|done]. simpl. by rewrite lookup_insert_eq.
    + eapply groups_rep_frame; [| |exact Hg]; [done|].
      intros l' Hl'. simpl. rewrite lookup_insert_ne; [done|]. by intros ->.
  - by rewrite ord_locs_cons.
  - unfold lvl_locs. simpl. by constructor.
  - done.
  - done.
  - simpl. intros l' H'. specialize (B1 l' H'). lia.
  - simpl. intros l'. fold l. rewrite lookup_insert. case_decide; [lia|].
    intros H'. specialize (B2 l' H'). lia.
Qed.

Lemma choose_level_spec e buy G price :
  shape e G -> strictly_sorted buy (g_price <$> gside buy G) ->
  wp ('(idx, found) ← levelIndex (lvl_locs (gside buy G)) price buy;
      if (found : bool) then slice_index (lvl_locs (gside buy G)) idx
      else lvl ← alloc_level (PriceLevel price 0 None None);
           put_side buy (slice_insert idx lvl (lvl_locs (gside buy G)));;
           mret lvl)
    (fun pl e' => exists g1 g g2,
       pl = g_loc g /\ g_price g = price /\
       chosen buy price e (gside buy G) g1 g g2 /\
       strictly_sorted buy (g_price <$> g1 ++ g :: g2) /\
       slice_of buy (e_book e') = lvl_locs (g1 ++ g :: g2) /\
       slice_of (negb buy) (e_book e') = slice_of (negb buy) (e_book e) /\
       b_nextOrderId (e_book e') = b_nextOrderId (e_book e) /\
       linked e' (g :: g1 ++ g2 ++ gside (negb buy) G) /\
       bounded (e_store e') /\
       st_orders (e_store e') = st_orders (e_store e) /\
       (forall l, l <> g_loc g -> st_levels (e_store e') !! l = st_levels (e_store e) !! l)) e.
Proof.
  intros Hs Hsort. pose proof (shape_linked buy _ _ Hs) as Hlk.
  wp_step. apply wp_levelIndex; [|done|].
  { apply lk_groups in Hlk. by apply Forall_app in Hlk as [? _]. }
  intros [idx []] Hres; unfold search_result in Hres; cbn [fst snd] in Hres.
  - rewrite list_lookup_fmap in Hres. apply fmap_Some in Hres as (g & Hg & ->).
    eapply wp_slice_index; [unfold lvl_locs; by rewrite list_lookup_fmap, Hg|].
    apply list_elem_of_split_length in Hg as (g1 & g2 & Hg & _).
    exists g1, g, g2. rewrite (shape_slice buy _ _ Hs), Hg in *.
    split_and!; try done; [by constructor| |apply Hs].
    by rewrite <- focus_perm.
  - destruct Hres as (Hle & Ht & Hd).
    destruct (linked_new_level _ _ price Hlk (sh_bounded _ _ Hs)) as [Hlk' Hb'].
    wp_step. apply wp_alloc_level. wp_step. eapply wp_mono; [apply put_side_slice|].
    intros [] e' (Hst & Hbo & Hbn & Hsb & Hsn). wp_step.
    exists (take idx (gside buy G)), (mkGroup (st_fresh (e_store e)) price 0 []),
      (drop idx (gside buy G)).
    rewrite Hst, Hbn, Hsb, Hsn. rewrite fmap_app, fmap_cons. split_and!; try done.
    + apply chosen_new; [by rewrite take_drop|done].
    + rewrite fmap_take, fmap_drop. apply strictly_sorted_insert; [|done..].
      by rewrite take_drop.
    + unfold slice_insert, lvl_locs. by rewrite fmap_app, fmap_cons, fmap_take, fmap_drop.
    + rewrite app_assoc, take_drop. eapply linked_book; [..|exact Hlk']; done.
    + intros l Hl. simpl in *. by rewrite lookup_insert_ne.
Qed.

Lemma rest_push_spec e g gs po r :
  linked e (g :: gs) -> po ∉ ord_locs (g :: gs) -> r_id r ∉ ids (pairs (g :: gs)) ->
  st_orders (e_store e) !! po = Some (cell r None None None) ->
  wp (upd_order (Some po) (set_o_level (Some (g_loc g)));;
      lvl ← load_level (Some (g_loc g));
      (match pl_tail lvl with
       | None => upd_level (Some (g_loc g)) (fun v => set_pl_tail (Some po) (set_pl_head (Some po) v))
       | Some _ =>
           upd_order (Some po) (set_o_prev (pl_tail lvl));;
           upd_order (pl_tail lvl) (set_o_next (Some po));;
           upd_level (Some (g_loc g)) (set_pl_tail (Some po))
       end);;
      o ← load_order (Some po);
      upd_level (Some (g_loc g)) (fun v => set_pl_totalQty (int64 (pl_totalQty v + o_qty o)) v);;
      go_modify (with_book (fun b => set_orders (<[o_id o := po]> (b_orders b)) b));;
      mret (g_loc g))
    (fun pl e' => pl = g_loc g /\ linked e' (push g po r :: gs) /\
       frame (po :: (g_ords g).*1) [g_loc g] e e' /\
       (forall s, slice_of s (e_book e') = slice_of s (e_book e)) /\
       b_nextOrderId (e_book e') = b_nextOrderId (e_book e)) e.
Proof.
  intros Hlk Hpo Hid Hc. pose proof (lk_groups _ _ Hlk) as [Hg _]%Forall_cons.
  pose proof (lk_ord_locs _ _ Hlk) as Hnd. rewrite ord_locs_cons in Hnd.
  apply NoDup_app in Hnd as (Hnd & _ & _).
  assert (Hpo' : po ∉ (g_ords g).*1) by (rewrite ord_locs_cons in Hpo; set_solver).
  wp_step. eapply wp_upd_order; [exact Hc|].
  set (e1 := with_orders _ e).
  assert (Hf1 : frame (po :: (g_ords g).*1) [g_loc g] e e1).
  { eapply frame_upd_order; [exact Hc|set_solver]. }
  assert (Hg1 : group_rep (e_store e1) g).
  { destruct Hg as [Hlv Hd]. split; [exact Hlv|]. eapply dll_frame; [|exact Hd].
    intros l Hl. simpl. rewrite lookup_insert_ne; [done|]. by intros ->. }
  wp_step. eapply wp_load_level; [exact (proj1 Hg1)|]. cbn [pl_tail].
  wp_step. eapply rest_link_spec; [exact Hg1|done..| |].
  { unfold e1. simpl. by rewrite lookup_insert_eq. }
  intros e2 Hf2 Hb2 Hc2 Hg2.
  wp_step. eapply wp_load_order; [exact Hc2|].
  wp_step. eapply wp_upd_level; [exact (proj1 Hg2)|]. wp_step. wp_step. wp_step.
  set (e3 := with_book _ _).
  assert (Hf3 : frame (po :: (g_ords g).*1) [g_loc g] e e3).
  { eapply frame_trans; [exact Hf1|]. eapply frame_trans; [exact Hf2|].
    eapply frame_trans; [|apply frame_book].
    eapply frame_upd_level; [exact (proj1 Hg2)|set_solver]. }
  split; [done|]. split; [|split; [exact Hf3|split]].
  - eapply linked_push; [exact Hlk|exact Hf3| |done..|].
    + split; [|exact (proj2 Hg2)]. simpl. by rewrite lookup_insert_eq.
    + unfold e3. simpl. by rewrite Hb2.
  - intros s. unfold e3. simpl. rewrite Hb2. by destruct s.
  - unfold e3. simpl. by rewrite Hb2.
Qed.

(** [restOrder] puts the order at the back of the level of its price, which
    it makes if there is none. *)
Lemma restOrder_spec e buy G po r :
  shape e G -> strictly_sorted buy (g_price <$> gside buy G) -> is_buy (r_side r) = buy ->
  po ∉ ord_locs (gall G) -> r_id r ∉ ids (pairs (gall G)) ->
  st_orders (e_store e) !! po = Some (cell r None None None) ->
  wp (restOrder po)
    (fun pl e' => exists g1 g g2,
       pl = g_loc g /\ g_price g = r_price r /\
       chosen buy (r_price r) e (gside buy G) g1 g g2 /\
       strictly_sorted buy (g_price <$> g1 ++ push g po r :: g2) /\
       shape e' (set_gside buy (g1 ++ push g po r :: g2) G) /\
       b_nextOrderId (e_book e') = b_nextOrderId (e_book e) /\
       (forall l, l <> g_loc g -> st_levels (e_store e') !! l = st_levels (e_store e) !! l)) e.
Proof.
  intros Hs Hsort Hbuy Hpo Hid Hc. unfold restOrder; cbn zeta.
  wp_step. eapply wp_load_order; [exact Hc|]. cbn [o_side o_price cell].
  fold (is_buy (r_side r)). rewrite Hbuy.
  wp_step. eapply wp_get_side; [exact Hs|].
  pose proof (choose_level_spec e buy G (r_price r) Hs Hsort) as Hch.
  apply wp_bind_inv in Hch. wp_step. eapply wp_mono; [exact Hch|].
  intros [idx found] e0 Hch'. wp_step. eapply wp_mono; [exact Hch'|].
  intros pl e1 (g1 & g & g2 & -> & Hpr & Hcase & Hso & Hsl & Hsl' & Hnx & Hlk & Hb & Hos & Hfr).
  assert (Hpp : pairs (g :: g1 ++ g2 ++ gside (negb buy) G) ≡ₚ pairs (gall G)).
  { rewrite <- focus_perm, (gall_perm buy G).
    destruct Hcase as [->| -> ->]; [done|]. rewrite focus_perm, pairs_cons. simpl.
    by rewrite app_assoc. }
  eapply wp_mono; [eapply rest_push_spec; [exact Hlk|..]|].
  - unfold ord_locs in *. by rewrite Hpp.
  - unfold ids in *. by rewrite Hpp.
  - by rewrite Hos.
  - intros pl e2 (-> & Hlk2 & Hf2 & Hsl2 & Hnx2). exists g1, g, g2.
    split_and!; try done; [| |congruence|].
    + by rewrite fmap_app, fmap_cons in Hso |- *.
    + apply (shape_set _ _ e); [done|..].
      * rewrite Hsl2, Hsl. unfold lvl_locs. by rewrite !fmap_app.
      * by rewrite Hsl2.
      * by rewrite focus_perm.
      * by apply (fr_bounded _ _ _ _ Hf2).
    + intros l Hl. rewrite <- Hfr by done. apply Hf2. set_solver.
Qed.
