(* ===== verification/BookRefine.v ===== *)
(** * Refinement: the book in the store implements the abstract book

    [rep e b] relates a store to an abstract book.  Every method of
    [OrderBook] run from a store that represents [b] returns the events of
    the abstract operation, in a store that represents its result. *)
From S2P Require Import Prelude Events OrderBook BookSpec BookRep BookOps.

(** ** Well-formed groups *)

Definition order_ok (buy : bool) (price : Z) (r : resting) : Prop :=
  r_price r = price /\ is_buy (r_side r) = buy /\ 0 < r_qty r <= MaxInt64.

Record group_ok (buy : bool) (g : group) : Prop := mkGroupOk {
  go_nonempty : g_ords g <> [];
  go_orders : Forall (order_ok buy (g_price g)) (g_ords g).*2;
  go_total : g_total g = int64 (sum_qty (g_ords g).*2)
}.

Record side_ok (buy : bool) (gs : list group) : Prop := mkSideOk {
  so_sorted : strictly_sorted buy (g_price <$> gs);
  so_groups : Forall (group_ok buy) gs
}.

Definition repG (e : Engine) (G : sides) (b : Book) : Prop :=
  shape e G /\
  (forall buy, side_ok buy (gside buy G) /\ flat (gside buy G) = side_of buy b) /\
  b_nextOrderId (e_book e) = s_next b.

Definition rep (e : Engine) (b : Book) : Prop := exists G, repG e G b.

(** ** Quantities at a price *)

Lemma sum_qty_cons r l : sum_qty (r :: l) = r_qty r + sum_qty l.
Proof. done. Qed.

Lemma sum_qty_app a b : sum_qty (a ++ b) = sum_qty a + sum_qty b.
Proof. induction a as [|r a IH]; simpl; lia. Qed.

Lemma level_qty_app p a b : level_qty p (a ++ b) = level_qty p a + level_qty p b.
Proof. unfold level_qty. by rewrite filter_app, sum_qty_app. Qed.

Lemma level_qty_cons p r l :
  level_qty p (r :: l) = (if decide (r_price r = p) then r_qty r else 0) + level_qty p l.
Proof. unfold level_qty. rewrite filter_cons. by case_decide. Qed.

(** A list of orders at one price. *)
Lemma level_qty_same p l : Forall (fun r => r_price r = p) l -> level_qty p l = sum_qty l.
Proof.
  induction 1 as [|r l Hr _ IH]; [done|]. rewrite level_qty_cons, IH, decide_True by done. done.
Qed.

Lemma level_qty_other p l : Forall (fun r => r_price r <> p) l -> level_qty p l = 0.
Proof.
  induction 1 as [|r l Hr _ IH]; [done|]. by rewrite level_qty_cons, IH, decide_False.
Qed.

Lemma group_ok_prices buy g : group_ok buy g -> Forall (fun r => r_price r = g_price g) (g_ords g).*2.
Proof. intros [_ H _]. eapply Forall_impl; [exact H|]. by intros r [? _]. Qed.

Lemma level_qty_group p buy g :
  group_ok buy g ->
  level_qty p (g_ords g).*2 = if decide (g_price g = p) then sum_qty (g_ords g).*2 else 0.
Proof.
  intros Hg%group_ok_prices. case_decide as Hp.
  - subst. by apply level_qty_same.
  - apply level_qty_other. eapply Forall_impl; [exact Hg|]. by intros r ->.
Qed.

Lemma level_qty_absent p buy gs :
  Forall (group_ok buy) gs -> p ∉ (g_price <$> gs) -> level_qty p (flat gs) = 0.
Proof.
  induction 1 as [|g gs Hg _ IH]; [done|]. intros Hp.
  rewrite flat_cons, level_qty_app, (level_qty_group p buy) by done.
  rewrite decide_False by set_solver. rewrite IH by set_solver. done.
Qed.

(** Every level's total is the published quantity at its price. *)
Lemma side_ok_total buy gs1 g gs2 :
  side_ok buy (gs1 ++ g :: gs2) ->
  g_total g = int64 (level_qty (g_price g) (flat (gs1 ++ g :: gs2))).
Proof.
  intros [Hs Hall]. pose proof (strictly_sorted_NoDup _ _ Hs) as Hnd.
  apply Forall_app in Hall as [H1 [Hg H2]%Forall_cons].
  rewrite fmap_app, fmap_cons in Hnd. apply NoDup_app in Hnd as (_ & Hd & [Hn _]%NoDup_cons).
  rewrite flat_app, flat_cons, !level_qty_app, (level_qty_group _ buy g), decide_True by done.
  rewrite (level_qty_absent _ buy gs1), (level_qty_absent _ buy gs2); [|done..|].
  - rewrite (go_total _ _ Hg). f_equal. lia.
  - intros Hin. apply (Hd _ Hin). set_solver.
Qed.

(** ** The levels touched by a run of trades *)

(** [changed] lists the levels whose aggregate the trades changed; reading a
    level gives its price and the quantity now resting there, also when the
    level is no longer in the book. *)
Definition change_ok (e : Engine) (gs : list group) (side : Side) (c : Side * loc) (p : Z) : Prop :=
  fst c = side /\
  (exists v, st_levels (e_store e) !! snd c = Some v /\ pl_price v = p /\
             pl_totalQty v = int64 (level_qty p (flat gs))) /\
  Forall (fun g => g_loc g = snd c <-> g_price g = p) gs.

Definition changes_ok (e : Engine) (gs : list group) (side : Side) (cs : list (Side * loc))
    (ps : list Z) : Prop := Forall2 (change_ok e gs side) cs ps.

Lemma touch_cases side l cs :
  (l ∈ cs.*2 /\ touch side l cs = cs) \/ (l ∉ cs.*2 /\ touch side l cs = cs ++ [(side, l)]).
Proof.
  unfold touch. destruct (existsb _ cs) eqn:He.
  - left. split; [|done]. apply existsb_exists in He as (c & Hin & Hc).
    apply Nat.eqb_eq in Hc as <-. apply list_elem_of_fmap_2. by apply list_elem_of_In.
  - right. split; [|done]. intros Hin. apply list_elem_of_fmap in Hin as (c & -> & Hin).
    assert (existsb (fun c0 => (c0.2 =? c.2)%nat) cs = true); [|congruence].
    apply existsb_exists. exists c. split; [by apply list_elem_of_In|]. apply Nat.eqb_refl.
Qed.

Lemma changes_ok_mem e gs side cs ps g :
  changes_ok e gs side cs ps -> g ∈ gs -> (g_loc g ∈ cs.*2 <-> g_price g ∈ ps).
Proof.
  intros Hc Hg. induction Hc as [|c p cs ps (_ & _ & Hiff) _ IH]; [set_solver|].
  rewrite Forall_forall in Hiff. specialize (Hiff g Hg).
  rewrite fmap_cons, !elem_of_cons. tauto.
Qed.

(** One trade at the best level [g]: it is touched, and every other level
    keeps its quantity. *)
Lemma changes_ok_step e e' side cs ps buy g gs gs' m x q :
  changes_ok e (g :: gs) side cs ps ->
  NoDup (g_price <$> g :: gs) -> NoDup (lvl_locs (g :: gs)) ->
  (forall g', g' ∈ gs' -> (g_loc g' = g_loc g /\ g_price g' = g_price g) \/ g' ∈ gs) ->
  (forall l, l <> g_loc g -> st_levels (e_store e') !! l = st_levels (e_store e) !! l) ->
  (exists v, st_levels (e_store e') !! g_loc g = Some v /\ pl_price v = g_price g /\
             pl_totalQty v = int64 (level_qty (g_price g) (flat gs'))) ->
  (forall p, p <> g_price g -> level_qty p (flat gs') = level_qty p (flat (g :: gs))) ->
  order_ok buy (g_price g) m ->
  changes_ok e' gs' side (touch side (g_loc g) cs) (touch_price ps (mkFill m x q)).
Proof.
  intros Hc Hndp Hndl Hsub Hfr Hhead Hqty [Hm _].
  pose proof (changes_ok_mem _ _ _ _ _ g Hc ltac:(set_solver)) as Hmem.
  assert (Hself : change_ok e' gs' side (side, g_loc g) (g_price g)).
  { split; [done|]. split; [done|]. apply Forall_forall. intros g' [[-> ->]|Hin]%Hsub; [done|].
    apply NoDup_cons in Hndp as [Hnp _]. apply NoDup_cons in Hndl as [Hnl _]. simpl. split.
    - intros Heq. destruct Hnl. rewrite <- Heq. by apply list_elem_of_fmap_2.
    - intros Heq. destruct Hnp. rewrite <- Heq. by apply list_elem_of_fmap_2. }
  assert (Hrest : changes_ok e' gs' side cs ps).
  { eapply Forall2_impl; [exact Hc|]. intros [s l] p Hcp.
    pose proof Hcp as (Hs & Hv & Hiff). simpl in *.
    apply Forall_cons in Hiff as [Hg Hiff].
    destruct (decide (g_loc g = l)) as [<-|Hne].
    - destruct Hg as [Hg _]. specialize (Hg eq_refl) as <-. by rewrite Hs.
    - split; [done|]. simpl. rewrite Hfr by done.
      assert (g_price g <> p) by tauto. rewrite Hqty by done. split; [done|].
      apply Forall_forall. intros g' [[-> ->]|Hin]%Hsub; [tauto|].
      rewrite Forall_forall in Hiff. by apply Hiff. }
  unfold touch_price. cbn [f_maker]. rewrite Hm.
  destruct (touch_cases side (g_loc g) cs) as [[Hin ->]|[Hin ->]]; rewrite Hmem in Hin.
  - by rewrite decide_True.
  - rewrite decide_False by done. apply Forall2_app; [done|]. by constructor.
Qed.

(** ** The matching loop *)

(** The order being matched lives outside the book. *)
Definition detached (e : Engine) (G : sides) (tk : loc) (t : resting) (q : Z) : Prop :=
  st_orders (e_store e) !! tk = Some (cell (set_r_qty q t) None None None) /\
  tk ∉ ord_locs (gall G).

(** [g] with [x] units taken from its first order. *)
Definition fill_head (g : group) (l : loc) (m : resting) (os : list (loc * resting)) (x : Z) : group :=
  mkGroup (g_loc g) (g_price g) (int64 (g_total g - x)) ((l, set_r_qty (r_qty m - x) m) :: os).

Lemma ord_locs_gall_set buy gs G :
  ord_locs (gall (set_gside buy gs G)) ≡ₚ ord_locs gs ++ ord_locs (gside (negb buy) G).
Proof. unfold ord_locs. by rewrite gall_set_perm, pairs_app, fmap_app. Qed.

(** The three assignments of a trade. *)
Lemma fill_spec {A} e buy G g gs l m os tk t q x (K : go Engine A) (Q : A -> Engine -> Prop) :
  shape e G -> gside buy G = g :: gs -> g_ords g = (l, m) :: os ->
  detached e G tk t q -> 0 <= x <= r_qty m -> r_qty m <= MaxInt64 ->
  0 <= q - x -> q <= MaxInt64 ->
  (forall e', shape e' (set_gside buy (fill_head g l m os x :: gs) G) ->
     detached e' (set_gside buy (fill_head g l m os x :: gs) G) tk t (q - x) ->
     b_nextOrderId (e_book e') = b_nextOrderId (e_book e) ->
     (forall l', l' <> g_loc g -> st_levels (e_store e') !! l' = st_levels (e_store e) !! l') ->
     wp K Q e') ->
  wp (upd_order (Some l) (fun m => set_o_qty (int64 (o_qty m - x)) m);;
      upd_order (Some tk) (fun t => set_o_qty (int64 (o_qty t - x)) t);;
      upd_level (Some (g_loc g)) (fun v => set_pl_totalQty (int64 (pl_totalQty v - x)) v);;
      K) Q e.
Proof.
  intros Hs Hg Ho [Htk Hn] Hx Hm Hq Hq' HK.
  pose proof (shape_linked buy _ _ Hs) as Hlk. rewrite Hg in Hlk. simpl in Hlk.
  pose proof (lk_groups _ _ Hlk) as [[Hlv Hd] _]%Forall_cons.
  pose proof (lk_ord_locs _ _ Hlk) as Hnd. rewrite ord_locs_cons in Hnd.
  apply NoDup_app in Hnd as (Hnd & _ & _).
  rewrite Ho in Hd, Hnd. pose proof Hd as [Hl _].
  assert (Hntk : tk ∉ ord_locs (g :: gs ++ gside (negb buy) G)).
  { unfold ord_locs in *. by rewrite (gall_perm buy), Hg in Hn. }
  assert (Hne : l <> tk).
  { intros ->. apply Hntk. rewrite ord_locs_cons, Ho. set_solver. }
  assert (Hi : forall z, 0 <= z <= MaxInt64 -> int64 z = z).
  { intros z Hz. apply sint_id; [done|]. unfold is_sint, MaxInt64 in *. lia. }
  wp_step. eapply wp_upd_order; [exact Hl|].
  wp_step. eapply wp_upd_order; [simpl; rewrite lookup_insert_ne by done; exact Htk|].
  wp_step. eapply wp_upd_level; [exact Hlv|]. set (e3 := with_levels _ _).
  assert (Hf : frame (tk :: (g_ords g).*1) [g_loc g] e e3).
  { rewrite Ho. eapply frame_trans; [eapply frame_upd_order; [exact Hl|set_solver]|].
    eapply frame_trans; [eapply frame_upd_order|eapply frame_upd_level; [exact Hlv|set_solver]].
    - simpl. rewrite lookup_insert_ne by done. exact Htk.
    - set_solver. }
  apply HK; [|split|done|].
  - apply (shape_set _ _ e); [done|..|].
    + unfold e3; simpl. fold (slice_of buy (e_book e)).
      rewrite (shape_slice buy _ _ Hs), Hg. done.
    + done.
    + simpl. eapply linked_replace; [exact Hlk|exact Hf| |split|done|..].
      * apply clear_cons; [rewrite ord_locs_cons in Hntk; set_solver|by eapply linked_clear].
      * unfold e3; simpl. rewrite lookup_insert_eq. by rewrite Ho.
      * unfold e3; simpl. split.
        -- rewrite lookup_insert_ne, lookup_insert_eq by done. simpl.
           unfold set_o_qty, cell. simpl. rewrite Hi by lia. done.
        -- eapply dll_frame; [|exact (proj2 Hd)]. intros l' Hl'.
           rewrite !lookup_insert_ne; [done|..]; intros ->.
           ++ by apply NoDup_cons in Hnd as [? _].
           ++ apply Hntk. rewrite ord_locs_cons, Ho. set_solver.
      * by rewrite Ho.
      * by rewrite Ho.
      * unfold e3; simpl. rewrite (lk_orders _ _ Hlk), pairs_cons, Ho. done.
    + apply (fr_bounded _ _ _ _ Hf), Hs.
  - unfold e3; simpl. rewrite lookup_insert_eq. unfold set_o_qty, cell. simpl.
    rewrite Hi by lia. done.
  - rewrite ord_locs_gall_set, ord_locs_cons, <- app_assoc.
    by rewrite ord_locs_cons, Ho, ord_locs_app in Hntk.
  - intros l' Hl'. apply Hf. set_solver.
Qed.

Lemma int64_total_sub a b x : a - x = b -> int64 (int64 a - x) = int64 b.
Proof. intros <-. by apply sint_sub_l. Qed.

(** The best level after its first order lost [x] units, dropped when empty. *)
Definition after_fill (g : group) (l : loc) (m : resting) (os : list (loc * resting)) (x : Z)
    : list group :=
  if r_qty m =? x then shrink (fill_head g l m os x) os else [fill_head g l m os x].

(** What is left of the first order itself. *)
Definition leftover (m : resting) (x : Z) : list resting :=
  if r_qty m =? x then [] else [set_r_qty (r_qty m - x) m].

Section AfterFill.
Context (buy : bool) (g : group) (gs : list group) (l : loc) (m : resting)
  (os : list (loc * resting)) (x : Z).
Hypothesis Hok : side_ok buy (g :: gs).
Hypothesis Ho : g_ords g = (l, m) :: os.
Hypothesis Hx : 0 <= x <= r_qty m.

Lemma head_order_ok : order_ok buy (g_price g) m /\ Forall (order_ok buy (g_price g)) os.*2.
Proof.
  destruct Hok as [_ [Hg _]%Forall_cons]. pose proof (go_orders _ _ Hg) as Hall.
  rewrite Ho in Hall. by apply Forall_cons in Hall.
Qed.

Lemma flat_after_fill : flat (after_fill g l m os x ++ gs) = leftover m x ++ os.*2 ++ flat gs.
Proof.
  unfold after_fill, leftover. destruct (_ =? _).
  - unfold flat. by rewrite pairs_app, pairs_shrink, fmap_app.
  - cbn [app]. by rewrite flat_cons.
Qed.

Lemma leftover_ok : Forall (order_ok buy (g_price g)) (leftover m x ++ os.*2).
Proof.
  destruct head_order_ok as [(Hp & Hb & Hq) Hos]. apply Forall_app; split; [|done].
  unfold leftover. destruct (Z.eqb_spec (r_qty m) x); constructor; [|done].
  repeat split; simpl; [done..|lia|lia].
Qed.

Lemma leftover_sum : sum_qty (leftover m x ++ os.*2) = sum_qty (g_ords g).*2 - x.
Proof.
  rewrite sum_qty_app, Ho, fmap_cons, sum_qty_cons. unfold leftover.
  destruct (Z.eqb_spec (r_qty m) x); rewrite ?sum_qty_cons; cbn [snd sum_qty foldr r_qty set_r_qty];
    lia.
Qed.

Lemma side_ok_after_fill : side_ok buy (after_fill g l m os x ++ gs).
Proof.
  pose proof leftover_ok as Hlo. pose proof leftover_sum as Hsum.
  destruct Hok as [Hs [Hg Hgs]%Forall_cons].
  assert (Htot : int64 (g_total g - x) = int64 (sum_qty (leftover m x ++ os.*2))).
  { rewrite (go_total _ _ Hg). apply int64_total_sub. lia. }
  unfold after_fill, leftover in *. destruct (r_qty m =? x).
  - simpl in *. destruct os as [|p os']; simpl.
    + split; [|done]. by apply StronglySorted_cons in Hs as [_ ?].
    + split; [done|]. constructor; [|done]. by constructor.
  - split; [done|]. constructor; [|done]. by constructor.
Qed.

Lemma after_fill_level_qty_head :
  level_qty (g_price g) (flat (after_fill g l m os x ++ gs)) = sum_qty (g_ords g).*2 - x.
Proof.
  rewrite flat_after_fill, app_assoc, level_qty_app, <- leftover_sum.
  rewrite level_qty_same.
  - rewrite (level_qty_absent _ buy); [lia|by destruct Hok as [_ [_ ?]%Forall_cons]|].
    destruct Hok as [Hs _]. apply strictly_sorted_NoDup in Hs. by apply NoDup_cons in Hs as [? _].
  - eapply Forall_impl; [exact leftover_ok|]. by intros r [? _].
Qed.

Lemma after_fill_level_qty_other p :
  p <> g_price g ->
  level_qty p (flat (after_fill g l m os x ++ gs)) = level_qty p (flat (g :: gs)).
Proof.
  intros Hp. rewrite flat_after_fill, flat_cons, app_assoc, !(level_qty_app p _ (flat gs)).
  f_equal. rewrite !level_qty_other; [done|..].
  - destruct Hok as [_ [Hg _]%Forall_cons]. apply group_ok_prices in Hg.
    eapply Forall_impl; [exact Hg|]. simpl. congruence.
  - eapply Forall_impl; [exact leftover_ok|]. intros r [? _]. congruence.
Qed.

End AfterFill.

Lemma after_fill_groups g gs l m os x g' :
  g' ∈ after_fill g l m os x ++ gs ->
  (g_loc g' = g_loc g /\ g_price g' = g_price g) \/ g' ∈ gs.
Proof.
  unfold after_fill. destruct (_ =? _); [destruct os; simpl|simpl]; set_solver.
Qed.

Lemma sweep_zero t opp : sweep t 0 opp = ([], opp, 0).
Proof. by destruct opp. Qed.

Lemma set_gside_set buy x y G : set_gside buy x (set_gside buy y G) = set_gside buy x G.
Proof. by destruct buy. Qed.

Lemma gside_set_eq buy gs G : gside buy (set_gside buy gs G) = gs.
Proof. by destruct buy. Qed.

Lemma gside_set_ne buy gs G : gside (negb buy) (set_gside buy gs G) = gside (negb buy) G.
Proof. by destruct buy. Qed.

(** The end of an iteration: a maker with nothing left leaves the book. *)
Lemma retire_maker_spec e buy G g gs l m os tk t q x :
  side_ok buy (g :: gs) -> g_ords g = (l, m) :: os -> 0 <= x <= r_qty m ->
  shape e (set_gside buy (fill_head g l m os x :: gs) G) ->
  detached e (set_gside buy (fill_head g l m os x :: gs) G) tk t q ->
  wp (if r_qty m - x =? 0 then unlink l else mret tt)
    (fun _ e' =>
       shape e' (set_gside buy (after_fill g l m os x ++ gs) G) /\
       detached e' (set_gside buy (after_fill g l m os x ++ gs) G) tk t q /\
       b_nextOrderId (e_book e') = b_nextOrderId (e_book e) /\
       (forall l', l' <> g_loc g -> st_levels (e_store e') !! l' = st_levels (e_store e) !! l') /\
       exists v, st_levels (e_store e') !! g_loc g = Some v /\ pl_price v = g_price g /\
                 pl_totalQty v = int64 (g_total g - x)) e.
Proof.
  intros Hok Ho Hx Hs [Htk Hn].
  destruct (head_order_ok _ _ _ _ _ _ Hok Ho) as [(_ & Hmb & _) _].
  replace (r_qty m - x =? 0) with (r_qty m =? x) by lia.
  unfold after_fill. destruct (r_qty m =? x).
  - eapply wp_mono.
    + eapply (unlink_spec _ buy _ [] (fill_head g l m os x) gs [] l _ os); [exact Hs|..].
      * by rewrite gside_set_eq.
      * done.
      * done.
      * rewrite gside_set_eq. apply Hok.
    + intros [] e' (Hs' & Hf & Hnx & Hg & _). rewrite set_gside_set in Hs'.
      split; [done|]. split; [split|].
      * rewrite (fr_orders _ _ _ _ Hf); [done|]. intros Hin. apply Hn.
        rewrite ord_locs_gall_set, ord_locs_cons. set_solver.
      * rewrite ord_locs_gall_set in *. rewrite ord_locs_app, ord_locs_cons in *.
        unfold ord_locs at 1. rewrite pairs_shrink. simpl in Hn. set_solver.
      * split; [done|]. split; [intros; apply Hf; set_solver|].
        destruct Hg as [Hlv _]. eauto.
  - wp_step. do 4 (split; [done|]).
    pose proof (shape_linked buy _ _ Hs) as Hlk. rewrite gside_set_eq in Hlk.
    apply lk_groups in Hlk. apply Forall_cons in Hlk as [[Hlv _] _]. eauto.
Qed.

(** The test that ends the loop is the negation of [crosses]. *)
Lemma crosses_guards {A} s p m (x y : A) :
  (if (s =? Buy) && (p <? m) then x else if (s =? Sell) && (m <? p) then x else y) =
  if crosses s p m then y else x.
Proof. unfold crosses. by destruct ((s =? Buy) && (p <? m)), ((s =? Sell) && (m <? p)). Qed.

Lemma sweep_crossing t q m opp :
  0 < q -> crosses (r_side t) (r_price t) (r_price m) = true -> 0 < r_qty m ->
  let x := Z.min (r_qty m) q in
  let rec := sweep t (q - x) (leftover m x ++ opp) in
  sweep t q (m :: opp) = (mkFill m x (q - x) :: fst (fst rec), snd (fst rec), snd rec).
Proof.
  intros Hq Hc Hm x rec. unfold rec. cbn [sweep].
  replace (0 <? q) with true by lia. rewrite Hc. cbn [andb]. fold x. unfold leftover.
  destruct (Z.eqb_spec (r_qty m) x) as [Hx|Hx].
  - cbn [app]. by destruct (sweep t (q - x) opp) as [[fs l] q'].
  - replace (q - x) with 0 by lia. cbn [app]. by rewrite sweep_zero.
Qed.

(** What [match] has done when it returns: the sweep of the opposite side. *)
Record matched (e : Engine) (G : sides) (tk : loc) (t : resting) (q : Z) (ev : list Event)
    (cs : list (Side * loc)) (ps : list Z) (r : list Event * list (Side * loc)) (e' : Engine) (gs' : list group) : Prop :=
  mkMatched {
    md_shape : shape e' (set_gside (r_side t =? Sell) gs' G);
    md_side : side_ok (r_side t =? Sell) gs';
    md_flat : flat gs' = snd (fst (sweep t q (flat (gside (r_side t =? Sell) G))));
    md_taker : detached e' (set_gside (r_side t =? Sell) gs' G) tk t
                 (snd (sweep t q (flat (gside (r_side t =? Sell) G))));
    md_events : fst r = ev ++ concat (fill_events t <$>
                  fst (fst (sweep t q (flat (gside (r_side t =? Sell) G)))));
    md_changes : changes_ok e' gs' (if r_side t =? Sell then Buy else Sell) (snd r)
                   (foldl touch_price ps (fst (fst (sweep t q (flat (gside (r_side t =? Sell) G))))));
    md_levels : (snd r).*2 ⊆ cs.*2 ++ lvl_locs (gside (r_side t =? Sell) G);
    md_next : b_nextOrderId (e_book e') = b_nextOrderId (e_book e)
  }.

Lemma matched_stop e G tk t q ev cs ps :
  shape e G -> side_ok (r_side t =? Sell) (gside (r_side t =? Sell) G) ->
  detached e G tk t q ->
  changes_ok e (gside (r_side t =? Sell) G) (if r_side t =? Sell then Buy else Sell) cs ps ->
  sweep t q (flat (gside (r_side t =? Sell) G)) = ([], flat (gside (r_side t =? Sell) G), q) ->
  matched e G tk t q ev cs ps (ev, cs) e (gside (r_side t =? Sell) G).
Proof.
  intros Hs Hok Ht Hc Hsw. constructor; rewrite ?set_gside_id, ?Hsw; simpl; try done.
  - by rewrite app_nil_r.
  - set_solver.
Qed.

Lemma touched_levels side g gs l m os x cs :
  (touch side (g_loc g) cs).*2 ++ lvl_locs (after_fill g l m os x ++ gs) ⊆
  cs.*2 ++ lvl_locs (g :: gs).
Proof.
  intros k. rewrite !elem_of_app. intros [Hk|Hk].
  - destruct (touch_cases side (g_loc g) cs) as [[_ Ht]|[_ Ht]]; rewrite Ht in Hk; [by left|].
    rewrite fmap_app in Hk. unfold lvl_locs. rewrite fmap_cons. set_solver.
  - right. apply list_elem_of_fmap in Hk as (g' & -> & Hg'). unfold lvl_locs.
    destruct (after_fill_groups g gs l m os x g' Hg') as [[-> _]|Hin]; [set_solver|].
    rewrite fmap_cons. apply elem_of_cons. right. by apply list_elem_of_fmap_2.
Qed.

(** One execution of the loop of [match]: quantities, reloads, and the maker
    retired when it is filled. *)
Lemma execution_spec {A} e buy G g gs l m os tk t q x (K : order -> order -> go Engine A)
    (Q : A -> Engine -> Prop) :
  shape e G -> gside buy G = g :: gs -> side_ok buy (g :: gs) -> g_ords g = (l, m) :: os ->
  detached e G tk t q -> 0 <= x <= r_qty m -> r_qty m <= MaxInt64 -> 0 <= q - x -> q <= MaxInt64 ->
  (forall e' maker taker,
     maker = cell (set_r_qty (r_qty m - x) m) (o_level maker) (o_prev maker) (o_next maker) ->
     taker = cell (set_r_qty (q - x) t) None None None ->
     shape e' (set_gside buy (after_fill g l m os x ++ gs) G) ->
     detached e' (set_gside buy (after_fill g l m os x ++ gs) G) tk t (q - x) ->
     b_nextOrderId (e_book e') = b_nextOrderId (e_book e) ->
     (forall l', l' <> g_loc g -> st_levels (e_store e') !! l' = st_levels (e_store e) !! l') ->
     (exists v, st_levels (e_store e') !! g_loc g = Some v /\ pl_price v = g_price g /\
                pl_totalQty v = int64 (g_total g - x)) ->
     wp (K maker taker) Q e') ->
  wp (upd_order (Some l) (fun m => set_o_qty (int64 (o_qty m - x)) m);;
      upd_order (Some tk) (fun t => set_o_qty (int64 (o_qty t - x)) t);;
      upd_level (Some (g_loc g)) (fun v => set_pl_totalQty (int64 (pl_totalQty v - x)) v);;
      maker ← load_order (Some l);
      taker ← load_order (Some tk);
      (if o_qty maker =? 0 then unlink l else mret tt);;
      K maker taker) Q e.
Proof.
  intros Hs Hg Hok Ho Ht Hx Hm Hq Hq' HK.
  eapply (fill_spec e buy G g gs l m os tk t q x); try done.
  intros e1 Hs1 Ht1 Hnx1 Hfr1.
  pose proof (shape_linked buy _ _ Hs1) as Hlk1. rewrite gside_set_eq in Hlk1.
  pose proof (lk_groups _ _ Hlk1) as [[_ [Hl1 _]] _]%Forall_cons.
  wp_step. eapply wp_load_order; [exact Hl1|].
  wp_step. eapply wp_load_order; [exact (proj1 Ht1)|]. cbn [o_qty cell r_qty set_r_qty].
  wp_step. eapply wp_mono; [apply (retire_maker_spec e1 buy G g gs l m os tk t (q - x)); done|].
  intros [] e2 (Hs2 & Ht2 & Hnx2 & Hfr2 & Hv2). apply HK; try done; [congruence|].
  intros l' Hl'. by rewrite Hfr2, Hfr1.
Qed.

(** One execution in front of the rest of a sweep. *)
Lemma matched_step e e2 G g gs l m os tk t q x ev cs ps r e3 gs3 :
  let buy := r_side t =? Sell in
  let G2 := set_gside buy (after_fill g l m os x ++ gs) G in
  gside buy G = g :: gs ->
  sweep t q (flat (g :: gs)) =
    (let rest := sweep t (q - x) (flat (gside buy G2)) in
     (mkFill m x (q - x) :: fst (fst rest), snd (fst rest), snd rest)) ->
  b_nextOrderId (e_book e2) = b_nextOrderId (e_book e) ->
  matched e2 G2 tk t (q - x) (ev ++ fill_events t (mkFill m x (q - x)))
    (touch (if buy then Buy else Sell) (g_loc g) cs) (touch_price ps (mkFill m x (q - x))) r e3 gs3 ->
  matched e G tk t q ev cs ps r e3 gs3.
Proof.
  intros buy G2 Hg Hsw Hnx [H1 H2 H3 H4 H5 H6 H7 H8]. fold buy in H1, H2, H3, H4, H5, H6, H7.
  unfold G2 in H1, H4. rewrite set_gside_set in H1, H4.
  constructor; fold buy; rewrite ?Hg, ?Hsw; cbn [fst snd]; try done.
  - rewrite H5, fmap_cons. cbn [concat app]. by rewrite <- app_assoc.
  - etrans; [exact H7|]. unfold G2. rewrite gside_set_eq. apply touched_levels.
  - congruence.
Qed.

(** The changed levels after an execution at the head of the side. *)
Lemma filled_changes e e2 buy G g gs l m os x q cs ps :
  shape e G -> gside buy G = g :: gs -> side_ok buy (g :: gs) -> g_ords g = (l, m) :: os ->
  0 <= x <= r_qty m -> order_ok buy (g_price g) m ->
  changes_ok e (g :: gs) (if buy then Buy else Sell) cs ps ->
  (forall l', l' <> g_loc g -> st_levels (e_store e2) !! l' = st_levels (e_store e) !! l') ->
  (exists v, st_levels (e_store e2) !! g_loc g = Some v /\ pl_price v = g_price g /\
             pl_totalQty v = int64 (g_total g - x)) ->
  changes_ok e2 (after_fill g l m os x ++ gs) (if buy then Buy else Sell)
    (touch (if buy then Buy else Sell) (g_loc g) cs) (touch_price ps (mkFill m x (q - x))).
Proof.
  intros Hs Hg Hok Ho Hx Hm Hc Hfr (v & Hv & Hvp & Hvt).
  pose proof (shape_linked buy _ _ Hs) as Hlk. rewrite Hg in Hlk.
  eapply (changes_ok_step _ _ _ _ _ buy); [exact Hc|..].
  - eapply strictly_sorted_NoDup. apply Hok.
  - pose proof (lk_lvl_locs _ _ Hlk) as Hnl. unfold lvl_locs in Hnl.
    rewrite fmap_app in Hnl. by apply NoDup_app in Hnl as [? _].
  - apply after_fill_groups.
  - done.
  - exists v. split_and!; [done|done|].
    rewrite Hvt, (after_fill_level_qty_head buy) by done.
    destruct Hok as [_ [Hgok _]%Forall_cons]. rewrite (go_total _ _ Hgok).
    by apply int64_total_sub.
  - intros p Hp. by apply (after_fill_level_qty_other buy).
  - exact Hm.
Qed.

Lemma match_loop_spec fuel : forall e G tk t q ev cs ps,
  shape e G -> side_ok (r_side t =? Sell) (gside (r_side t =? Sell) G) ->
  detached e G tk t q -> 0 <= q <= MaxInt64 ->
  changes_ok e (gside (r_side t =? Sell) G) (if r_side t =? Sell then Buy else Sell) cs ps ->
  (0 < fuel)%nat -> (0 < q -> lt (length (flat (gside (r_side t =? Sell) G))) fuel) ->
  wp (match_loop fuel tk ev cs) (fun r e' => exists gs', matched e G tk t q ev cs ps r e' gs') e.
Proof.
  induction fuel as [|fuel IH]; intros e G tk t q ev cs ps Hs Hok Ht Hq Hc Hf Hlen; [lia|].
  cbn [match_loop]. wp_step. eapply wp_load_order; [exact (proj1 Ht)|].
  cbn [o_qty o_side o_price cell r_qty r_side r_price set_r_qty].
  set (buy := r_side t =? Sell) in *.
  destruct (Z.ltb_spec 0 q) as [Hq0|Hq0].
  2: { wp_step. exists (gside buy G). apply matched_stop; try done.
       replace q with 0 by lia. apply sweep_zero. }
  wp_step. eapply wp_get_side; [exact Hs|].
  destruct (gside buy G) as [|g gs] eqn:Hg; cbn [lvl_locs fmap list_fmap].
  { wp_step. exists []. rewrite <- Hg in *. apply matched_stop; try done. fold buy. by rewrite Hg. }
  destruct (g_ords g) as [|[l m] os] eqn:Ho.
  { destruct Hok as [_ [[Hne _ _] _]%Forall_cons]. done. }
  pose proof (shape_linked buy _ _ Hs) as Hlk. rewrite Hg in Hlk.
  pose proof (lk_groups _ _ Hlk) as [[Hlv Hd] _]%Forall_cons. rewrite Ho in Hlv, Hd.
  pose proof (head_order_ok _ _ _ _ _ _ Hok Ho) as [Hm Hos].
  pose proof Hm as (Hmp & Hmb & Hmq).
  wp_step. eapply wp_load_level; [exact Hlv|]. cbn [pl_price pl_head hd_ptr].
  rewrite crosses_guards, <- Hmp.
  destruct (crosses (r_side t) (r_price t) (r_price m)) eqn:Hcr.
  2: { wp_step. exists (gside buy G). rewrite <- Hg in *. apply matched_stop; try done. fold buy.
       rewrite Hg, flat_cons, Ho. cbn [fmap list_fmap snd app sweep].
       rewrite Hcr, andb_false_r. done. }
  wp_step. eapply wp_load_order; [exact (proj1 Hd)|]. cbn [o_qty cell].
  replace (if r_qty m <? q then r_qty m else q) with (Z.min (r_qty m) q)
    by (destruct (Z.ltb_spec (r_qty m) q); lia).
  set (x := Z.min (r_qty m) q).
  eapply (execution_spec e buy G g gs l m os tk t q x); try done; try lia.
  intros e2 maker taker -> -> Hs2 Ht2 Hnx2 Hfr2 Hv2.
  set (G2 := set_gside buy (after_fill g l m os x ++ gs) G) in *.
  assert (Hx : 0 <= x <= r_qty m) by lia.
  assert (HG2 : gside buy G2 = after_fill g l m os x ++ gs) by apply gside_set_eq.
  assert (Hsw : sweep t q (flat (g :: gs)) =
    let rec := sweep t (q - x) (flat (gside buy G2)) in
    (mkFill m x (q - x) :: fst (fst rec), snd (fst rec), snd rec)).
  { rewrite HG2, flat_after_fill, flat_cons, Ho. apply sweep_crossing; [done|done|lia]. }
  eapply wp_mono; [apply (IH e2 G2 tk t (q - x) _ _ (touch_price ps (mkFill m x (q - x))))|].
  - done.
  - fold buy. rewrite HG2. by apply side_ok_after_fill.
  - done.
  - lia.
  - fold buy. rewrite HG2. by apply (filled_changes e e2 buy G).
  - specialize (Hlen Hq0). rewrite flat_cons, Ho, fmap_cons in Hlen.
    cbn [app length] in Hlen. lia.
  - specialize (Hlen Hq0). rewrite flat_cons, Ho in Hlen. fold buy. rewrite HG2, flat_after_fill.
    unfold leftover. intros Hq1. destruct (Z.eqb_spec (r_qty m) x); [|lia].
    rewrite fmap_cons in Hlen. cbn [app length] in *. lia.
  - intros r e3 (gs3 & Hmd). exists gs3. eapply (matched_step e e2 G g gs l m os); try done; congruence.
Qed.

(** ** Resting *)

Lemma insert_order_skip buy o a b :
  Forall (fun x => better buy (r_price o) (r_price x) = false) a ->
  insert_order buy o (a ++ b) = a ++ insert_order buy o b.
Proof. induction 1 as [|x a Hx _ IH]; [done|]. simpl. by rewrite Hx, IH. Qed.

Lemma insert_order_front buy o b :
  Forall (fun x => better buy (r_price o) (r_price x) = true) b ->
  insert_order buy o b = o :: b.
Proof. intros [|x l Hx _]; [done|]. simpl. by rewrite Hx. Qed.

(** A property of the level prices holds of the order prices. *)
Lemma flat_prices (P : Z -> Prop) buy gs :
  Forall (group_ok buy) gs -> Forall P (g_price <$> gs) -> Forall (fun r => P (r_price r)) (flat gs).
Proof.
  induction 1 as [|g gs Hg _ IH]; [done|].
  rewrite fmap_cons. intros [Hp Hps]%Forall_cons. rewrite flat_cons. apply Forall_app.
  split; [|auto]. eapply Forall_impl; [by eapply group_ok_prices|]. by intros r ->.
Qed.

Lemma push_group_ok buy g po r :
  g_price g = r_price r -> is_buy (r_side r) = buy -> 0 < r_qty r <= MaxInt64 ->
  Forall (order_ok buy (g_price g)) (g_ords g).*2 ->
  g_total g = int64 (sum_qty (g_ords g).*2) ->
  group_ok buy (push g po r).
Proof.
  intros Hp Hb Hq Hos Ht. constructor; simpl.
  - by destruct (g_ords g).
  - rewrite fmap_app. apply Forall_app. split; [done|].
    constructor; [|done]. split; [done|]. done.
  - rewrite Ht, sint_add_l by done. rewrite fmap_app, sum_qty_app. simpl. f_equal. lia.
Qed.

(** The groups after [restOrder] are those of the abstract insertion. *)
Lemma rest_groups buy e gs g1 g g2 po r :
  side_ok buy gs -> chosen buy (r_price r) e gs g1 g g2 -> g_price g = r_price r ->
  strictly_sorted buy (g_price <$> g1 ++ push g po r :: g2) ->
  is_buy (r_side r) = buy -> 0 < r_qty r <= MaxInt64 ->
  side_ok buy (g1 ++ push g po r :: g2) /\
  flat (g1 ++ push g po r :: g2) = insert_order buy r (flat gs).
Proof.
  intros [Hs Hok] Hch Hp Hs' Hb Hq.
  assert (Hgs : Forall (group_ok buy) g1 /\ Forall (group_ok buy) g2 /\
    Forall (order_ok buy (g_price g)) (g_ords g).*2 /\
    g_total g = int64 (sum_qty (g_ords g).*2) /\
    flat gs = (flat g1 ++ (g_ords g).*2) ++ flat g2).
  { destruct Hch as [->| -> ->].
    - apply Forall_app in Hok as [H1 [H2 H3]%Forall_cons].
      split_and!; [done|done|apply H2|apply H2|]. by rewrite flat_app, flat_cons, app_assoc.
    - apply Forall_app in Hok as [H1 H2]. split_and!; try done.
      by rewrite flat_app, app_nil_r. }
  destruct Hgs as (H1 & H2 & Hos & Ht & ->).
  rewrite fmap_app, fmap_cons in Hs'. cbn [g_price push] in Hs'. rewrite Hp in Hs'.
  apply StronglySorted_app in Hs' as (Hs12 & _ & [Hp2 _]%StronglySorted_cons).
  split.
  - split; [|apply Forall_app; split; [done|constructor; [by apply push_group_ok|done]]].
    destruct Hch as [->| -> ->].
    + by rewrite fmap_app, fmap_cons in Hs |- *.
    + rewrite fmap_app in Hs |- *. rewrite fmap_cons. apply strictly_sorted_insert; [done| |done].
      apply Forall_forall. intros p Hin. apply Hs12; [done|]. by left.
  - rewrite insert_order_skip, insert_order_front.
    + rewrite flat_app, flat_cons. cbn [g_ords push]. by rewrite fmap_app, <- !app_assoc.
    + by apply (flat_prices (fun p => better buy (r_price r) p = true) buy).
    + apply Forall_app. split.
      * apply (flat_prices (fun p => better buy (r_price r) p = false) buy); [done|].
        apply Forall_forall. intros p Hin. apply better_asym, Hs12; [done|]. by left.
      * eapply Forall_impl; [exact Hos|]. intros x [Hx _].
        rewrite Hx, Hp. apply better_irrefl.
Qed.

Lemma side_of_set buy b' l b :
  side_of b' (set_side buy l b) = if Bool.eqb buy b' then l else side_of b' b.
Proof. by destruct buy, b'. Qed.

(** Changing one side of a represented book. *)
Lemma repG_set e e' G b buy gs :
  repG e G b -> shape e' (set_gside buy gs G) -> side_ok buy gs ->
  b_nextOrderId (e_book e') = b_nextOrderId (e_book e) ->
  repG e' (set_gside buy gs G) (set_side buy (flat gs) b).
Proof.
  intros (_ & Hsides & Hnx) Hs Hok Hnx'. split; [done|]. split.
  - intros b'. rewrite gside_set, side_of_set. destruct (Bool.eqb_spec buy b'); [by subst|].
    apply Hsides.
  - rewrite Hnx', Hnx. by destruct buy.
Qed.

Lemma repG_ids e G b : repG e G b -> ids (pairs (gall G)) = r_id <$> all_orders b.
Proof.
  intros (_ & Hsides & _). unfold ids, all_orders, gall. rewrite pairs_app, fmap_app.
  destruct (Hsides true) as [_ Hb], (Hsides false) as [_ Ha]. simpl in Hb, Ha.
  unfold flat in *. by rewrite Hb, Ha.
Qed.

(** [restOrder] is the abstract insertion into the side of the order. *)
Lemma restOrder_refines e G b po r q :
  repG e G b -> detached e G po r q -> 0 < q <= MaxInt64 ->
  r_id r ∉ (r_id <$> all_orders b) ->
  let buy := is_buy (r_side r) in
  let own := insert_order buy (set_r_qty q r) (side_of buy b) in
  wp (restOrder po)
    (fun pl e' => rep e' (set_side buy own b) /\
       (exists v, st_levels (e_store e') !! pl = Some v /\ pl_price v = r_price r /\
                  pl_totalQty v = int64 (level_qty (r_price r) own)) /\
       (forall l, l <> pl -> st_levels (e_store e') !! l = st_levels (e_store e) !! l) /\
       (pl ∈ lvl_locs (gside buy G) \/ pl = st_fresh (e_store e))) e.
Proof.
  intros Hrep [Hc Hn] Hq Hid buy own. pose proof Hrep as (Hs & Hsides & Hnx).
  destruct (Hsides buy) as [Hok Hflat].
  eapply wp_mono.
  - apply (restOrder_spec e buy G po (set_r_qty q r)); try done; [apply Hok|].
    by rewrite (repG_ids _ _ _ Hrep).
  - intros pl e' (g1 & g & g2 & -> & Hgp & Hch & Hso & Hs' & Hnx' & Hfr).
    destruct (rest_groups buy e _ g1 g g2 po (set_r_qty q r) Hok Hch) as [Hok' Hfl]; try done.
    rewrite Hflat in Hfl. fold own in Hfl. split; [|split; [|split; [done|]]].
    + rewrite <- Hfl. eexists. by eapply repG_set.
    + exists (PriceLevel (r_price r) (g_total (push g po (set_r_qty q r)))
        (hd_ptr (g_ords (push g po (set_r_qty q r))) None)
        (last_ptr None (g_ords (push g po (set_r_qty q r))))). split; [|split; [done|]].
      * pose proof (shape_linked buy _ _ Hs') as Hlk. rewrite gside_set_eq, focus_perm in Hlk.
        apply lk_groups in Hlk. apply Forall_cons in Hlk as [[Hlv _] _]. etrans; [exact Hlv|].
        simpl. by rewrite Hgp.
      * cbn [pl_totalQty]. rewrite (side_ok_total _ _ _ _ Hok'), Hfl. simpl. by rewrite Hgp.
    + destruct Hch as [->| -> ->]; [left|by right]. unfold lvl_locs. rewrite fmap_app. set_solver.
Qed.

(** ** The final batch of updates *)

Lemma book_updates_spec cs evs e :
  Forall2 (fun c ev => exists v, st_levels (e_store e) !! snd c = Some v /\
             ev = BookUpdateEvent (fst c) (pl_price v) (pl_totalQty v)) cs evs ->
  wp (book_updates cs) (fun r e' => r = evs /\ e' = e) e.
Proof.
  induction 1 as [|[s l] ev cs evs (v & Hv & ->) _ IH]; [done|]. simpl in *.
  wp_step. eapply wp_load_level; [exact Hv|]. wp_step.
  eapply wp_mono; [exact IH|]. intros r e' [-> ->]. by wp_step.
Qed.

(** The events of the touched levels, as long as the levels still read the same. *)
Lemma changes_ok_events e e' gs side cs ps :
  changes_ok e gs side cs ps ->
  (forall l, l ∈ cs.*2 -> st_levels (e_store e') !! l = st_levels (e_store e) !! l) ->
  Forall2 (fun c ev => exists v, st_levels (e_store e') !! snd c = Some v /\
             ev = BookUpdateEvent (fst c) (pl_price v) (pl_totalQty v))
    cs (update_event side (flat gs) <$> ps).
Proof.
  induction 1 as [|[s l] p cs ps (Hs & (v & Hv & Hp & Ht) & _) _ IH]; intros Hfr; [constructor|].
  simpl in *. constructor.
  - exists v. simpl. rewrite Hfr by set_solver. split; [done|].
    unfold update_event. by rewrite Hs, Hp, Ht.
  - apply IH. intros l' Hl'. apply Hfr. set_solver.
Qed.

(** ** Submitting an order *)

Lemma linked_lookup e gs l : linked e gs -> l ∈ ord_locs gs -> is_Some (st_orders (e_store e) !! l).
Proof.
  intros [Hg _ _ _ _] Hin. apply list_elem_of_fmap in Hin as ([l' r] & -> & Hin).
  apply elem_of_pairs in Hin as (g & Hgin & Hin). rewrite Forall_forall in Hg.
  destruct (Hg g Hgin) as [_ Hd]. destruct (dll_lookup _ _ _ _ _ _ _ Hd Hin) as (pv & nx & Hl).
  simpl. by rewrite Hl.
Qed.

(** Allocating the incoming order, with the next id. *)
Lemma shape_alloc e G o n :
  shape e G ->
  let l := st_fresh (e_store e) in
  let e' := with_book (set_nextOrderId n) (with_fresh (S l) (with_orders <[l := o]> e)) in
  shape e' G /\ l ∉ ord_locs (gall G).
Proof.
  intros [Hb Ha Hlk [B1 B2]] l e'.
  assert (Hl : l ∉ ord_locs (gall G)).
  { intros Hin. apply (linked_lookup _ _ _ Hlk), B1 in Hin. lia. }
  split; [|done]. constructor; [done..| |split; simpl].
  - destruct Hlk as [Hg ? ? ? ?]. constructor; try done.
    eapply groups_rep_frame; [| |exact Hg]; [|done].
    intros l' Hl'. simpl. rewrite lookup_insert_ne; [done|]. by intros ->.
  - intros l'. rewrite lookup_insert. case_decide; [lia|]. intros H'. specialize (B1 l' H'). lia.
  - intros l' H'. specialize (B2 l' H'). lia.
Qed.

Lemma sweep_left_range t q opp :
  0 <= q -> Forall (fun m => 0 < r_qty m) opp -> 0 <= snd (sweep t q opp) <= q.
Proof.
  intros Hq H. revert q Hq. induction H as [|m opp Hm _ IH]; intros q Hq; [simpl; lia|]. simpl.
  destruct (_ && _); [|simpl; lia]. destruct (_ =? _); [|simpl; lia].
  specialize (IH (q - Z.min (r_qty m) q)). destruct (sweep _ _ _) as [[fs l] q']. simpl in *. lia.
Qed.

Lemma sweep_ids t q opp : r_id <$> snd (fst (sweep t q opp)) ⊆ r_id <$> opp.
Proof.
  revert q. induction opp as [|m opp IH]; intros q; [done|]. simpl.
  destruct (_ && _); [|done]. destruct (_ =? _); [|done].
  specialize (IH (q - Z.min (r_qty m) q)). destruct (sweep _ _ _) as [[fs l] q']. simpl in *.
  set_solver.
Qed.

Lemma side_ok_positive buy gs : side_ok buy gs -> Forall (fun m => 0 < r_qty m) (flat gs).
Proof.
  intros [_ H]. induction H as [|g gs Hg _ IH]; [done|]. rewrite flat_cons. apply Forall_app.
  split; [|done]. eapply Forall_impl; [apply Hg|]. intros r (_ & _ & ?). lia.
Qed.

Lemma side_ids_subset buy b l :
  r_id <$> l ⊆ r_id <$> side_of buy b ->
  r_id <$> all_orders (set_side buy l b) ⊆ r_id <$> all_orders b.
Proof. unfold all_orders. destruct buy; simpl; rewrite !fmap_app; set_solver. Qed.

(** The whole matching phase, from a represented book. *)
Lemma matchOrder_refines e G b tk t :
  repG e G b -> detached e G tk t (r_qty t) -> 0 < r_qty t <= MaxInt64 ->
  let oppBuy := r_side t =? Sell in
  let sw := sweep t (r_qty t) (side_of oppBuy b) in
  forall ev,
  wp (matchOrder tk ev [])
    (fun r e' => exists G',
       repG e' G' (set_side oppBuy (snd (fst sw)) b) /\
       detached e' G' tk t (snd sw) /\
       fst r = ev ++ concat (fill_events t <$> fst (fst sw)) /\
       changes_ok e' (gside oppBuy G') (if oppBuy then Buy else Sell) (snd r)
         (touched (fst (fst sw))) /\
       (snd r).*2 ⊆ lvl_locs (gside oppBuy G) /\
       gside (negb oppBuy) G' = gside (negb oppBuy) G) e.
Proof.
  intros Hrep Ht Hq oppBuy sw ev. pose proof Hrep as (Hs & Hsides & Hnx).
  destruct (Hsides oppBuy) as [Hok Hflat].
  unfold matchOrder. wp_step. wp_step.
  eapply wp_mono; [apply (match_loop_spec _ e G tk t (r_qty t) ev [] [])|]; try done; [lia|..].
  - constructor.
  - lia.
  - intros _. fold oppBuy. destruct (sh_linked _ _ Hs) as [_ _ _ Hi ->].
    rewrite index_size by done. rewrite (gall_perm oppBuy), pairs_app, length_app.
    unfold flat. rewrite length_fmap. lia.
  - intros r e' (gs' & [H1 H2 H3 H4 H5 H6 H7 H8]). fold oppBuy in H1, H2, H3, H4, H5, H6, H7.
    rewrite Hflat in H3, H4, H5, H6. fold sw in H3, H4, H5, H6.
    exists (set_gside oppBuy gs' G). rewrite gside_set_eq, gside_set_ne.
    split_and!; try done.
    rewrite <- H3. by eapply repG_set.
Qed.

(** The level an order rests on was not touched by its own trades. *)
Lemma rest_level_untouched e' G G' t pl (cs : list (Side * loc)) q :
  shape e' G' ->
  NoDup (lvl_locs (gall G)) ->
  cs.*2 ⊆ lvl_locs (gside (r_side t =? Sell) G) ->
  (forall l, l ∈ cs.*2 -> is_Some (st_levels (e_store e') !! l)) ->
  gside (negb (r_side t =? Sell)) G' = gside (negb (r_side t =? Sell)) G ->
  (r_side t <> Sell -> r_side t <> Buy -> 0 < q -> gside false G' = []) ->
  0 < q ->
  pl ∈ lvl_locs (gside (is_buy (r_side t)) G') \/ pl = st_fresh (e_store e') ->
  pl ∉ cs.*2.
Proof.
  intros Hs Hnd Hsub Hsome Hsame Hempty Hq Hpl Hin.
  destruct Hpl as [Hpl| ->].
  2: { apply Hsome in Hin. apply (proj2 (sh_bounded _ _ Hs)) in Hin. lia. }
  apply Hsub in Hin. unfold is_buy in Hpl.
  assert (Hlv : lvl_locs (gall G) ≡ₚ lvl_locs (gside (r_side t =? Sell) G) ++
                  lvl_locs (gside (negb (r_side t =? Sell)) G)).
  { unfold lvl_locs. by rewrite (gall_perm (r_side t =? Sell)), fmap_app. }
  rewrite Hlv in Hnd. apply NoDup_app in Hnd as (_ & Hd & _). apply (Hd _ Hin).
  rewrite <- Hsame.
  destruct (Z.eqb_spec (r_side t) Sell) as [HS|HS], (Z.eqb_spec (r_side t) Buy) as [HB|HB];
    simpl in *; try done.
  - unfold Buy, Sell in *. lia.
  - rewrite Hempty in Hpl by done. by apply elem_of_nil in Hpl.
Qed.

(** A taker whose side is neither [Buy] nor [Sell] stops only when the asks
    are exhausted. *)
Lemma sweep_unlimited t q opp :
  r_side t <> Buy -> r_side t <> Sell -> 0 <= q -> Forall (fun m => 0 < r_qty m) opp ->
  0 < snd (sweep t q opp) -> snd (fst (sweep t q opp)) = [].
Proof.
  intros HB HS Hq H. revert q Hq. induction H as [|m opp Hm _ IH]; intros q Hq; [done|]. simpl.
  unfold crosses. rewrite (proj2 (Z.eqb_neq _ _) HB), (proj2 (Z.eqb_neq _ _) HS). simpl.
  rewrite andb_true_r. destruct (Z.ltb_spec 0 q); [|simpl; lia].
  destruct (Z.eqb_spec (r_qty m) (Z.min (r_qty m) q)); [|simpl; lia].
  specialize (IH (q - Z.min (r_qty m) q)). destruct (sweep _ _ _) as [[fs l] q']. simpl in *.
  apply IH. lia.
Qed.

Lemma side_ok_nil buy gs : side_ok buy gs -> flat gs = [] -> gs = [].
Proof.
  intros [_ [|g gs' [Hne _ _] _]]; [done|]. rewrite flat_cons. by destruct (g_ords g).
Qed.

(** The changed levels exist. *)
Lemma changes_ok_some e gs side cs ps l :
  changes_ok e gs side cs ps -> l ∈ cs.*2 -> is_Some (st_levels (e_store e) !! l).
Proof.
  intros Hcs (c & -> & Hc)%list_elem_of_fmap. apply list_elem_of_lookup in Hc as [i Hi].
  destruct (Forall2_lookup_l _ _ _ _ _ Hcs Hi) as (p & _ & _ & (v & -> & _) & _). done.
Qed.

(** The end of [NewLimitOrder] when the taker has a remainder: it rests, and
    its level is published after the levels it traded with. *)
Lemma remainder_spec e G b tk t q gs side cs ps evs :
  repG e G b -> detached e G tk t q -> 0 < q <= MaxInt64 -> r_id t ∉ (r_id <$> all_orders b) ->
  changes_ok e gs side cs ps ->
  (forall pl, pl ∈ lvl_locs (gside (is_buy (r_side t)) G) \/ pl = st_fresh (e_store e) -> pl ∉ cs.*2) ->
  let buy := is_buy (r_side t) in
  let own := insert_order buy (set_r_qty q t) (side_of buy b) in
  wp (changed ← (lvl ← restOrder tk; mret (touch (r_side t) lvl cs));
      updates ← book_updates changed;
      mret (evs ++ updates))
    (fun r e' => r = evs ++ (update_event side (flat gs) <$> ps) ++ [update_event (r_side t) own (r_price t)] /\
                 rep e' (set_side buy own b)) e.
Proof.
  intros Hrep Ht Hq Hid Hcs Hnew buy own.
  wp_step. wp_step. eapply wp_mono; [by apply (restOrder_refines e G b tk t q)|].
  intros pl e1 (Hrep1 & (v & Hv & Hvp & Hvt) & Hfr & Hpl). wp_step. apply Hnew in Hpl.
  destruct (touch_cases (r_side t) pl cs) as [[? _]|[_ ->]]; [done|].
  wp_step. eapply wp_mono.
  { eapply book_updates_spec, Forall2_app; [eapply changes_ok_events; [exact Hcs|]|].
    - intros l Hl. apply Hfr. by intros ->.
    - constructor; [|constructor]. exists v. split; [exact Hv|]. by rewrite Hvp, Hvt. }
  intros us e2 [-> ->]. wp_step. done.
Qed.

Lemma NewLimitOrder_rep e b cmd :
  rep e b -> c_Qty cmd <= MaxInt64 -> s_next b ∉ (r_id <$> all_orders b) ->
  wp (NewLimitOrder cmd) (fun evs e' => evs = fst (place cmd b) /\ rep e' (snd (place cmd b))) e.
Proof.
  intros [G Hrep] Hq Hfresh. pose proof Hrep as (Hs & Hsides & Hnx).
  unfold NewLimitOrder, place.
  destruct (Z.leb_spec (c_Qty cmd) 0); [wp_step; split; [done|by exists G]|].
  destruct (Z.leb_spec (c_Price cmd) 0); [wp_step; split; [done|by exists G]|].
  wp_step. wp_step. rewrite Hnx. wp_step. apply wp_alloc_order. wp_step. wp_step.
  set (t := incoming b cmd). set (tk := st_fresh (e_store e)).
  destruct (shape_alloc e G (cell t None None None) (int64 (s_next b + 1)) Hs) as [Hs1 Hn1].
  fold tk in Hs1, Hn1. unfold with_book at 1. simpl e_book. rewrite Hnx.
  set (b1 := mkBook (s_bids b) (s_asks b) (int64 (s_next b + 1))).
  set (e1 := mkEngine _ _).
  assert (Hrep1 : repG e1 G b1).
  { split; [exact Hs1|]. split; [|done]. intros buy. specialize (Hsides buy). by destruct buy. }
  assert (Ht1 : detached e1 G tk t (r_qty t)).
  { split; [|exact Hn1]. simpl. by rewrite lookup_insert_eq. }
  wp_step. eapply wp_load_order; [exact (proj1 Ht1)|]. cbn zeta.
  wp_step. eapply wp_mono; [apply (matchOrder_refines e1 G b1 tk t Hrep1 Ht1); simpl; lia|].
  intros [evs cs] e2 (G2 & Hrep2 & Ht2 & Hev & Hcs & Hsub & Hother). cbn [fst snd] in *. subst evs.
  assert (Hsw : sweep t (r_qty t) (side_of (r_side t =? Sell) b1) =
                sweep t (r_qty t) (side_of (r_side t =? Sell) b)) by by destruct (r_side t =? Sell).
  unfold execute. rewrite Hsw in *. fold b1.
  pose proof (sweep_left_range t (r_qty t) (side_of (r_side t =? Sell) b)) as Hleft.
  pose proof (sweep_ids t (r_qty t) (side_of (r_side t =? Sell) b)) as Hids.
  pose proof (sweep_unlimited t (r_qty t) (side_of (r_side t =? Sell) b)) as Hunl.
  assert (Hpos : Forall (fun m => 0 < r_qty m) (side_of (r_side t =? Sell) b)).
  { destruct (Hsides (r_side t =? Sell)) as [Hok <-]. by eapply side_ok_positive. }
  destruct (sweep t (r_qty t) (side_of (r_side t =? Sell) b)) as [[fs opp] q']. cbn [fst snd] in *.
  assert (Hq' : 0 <= q' <= r_qty t) by (apply Hleft; simpl; [lia|done]).
  pose proof Hrep2 as (Hs2 & Hsides2 & Hnx2).
  assert (Hfl2 : flat (gside (r_side t =? Sell) G2) = opp).
  { destruct (Hsides2 (r_side t =? Sell)) as [_ ->]. by rewrite side_of_set, Bool.eqb_reflx. }
  wp_step. eapply wp_load_order; [exact (proj1 Ht2)|]. cbn [o_qty o_side cell r_qty r_side set_r_qty].
  destruct (Z.ltb_spec 0 q') as [Hq0|Hq0].
  - assert (Hid2 : r_id t ∉ r_id <$> all_orders (set_side (r_side t =? Sell) opp b1)).
    { intros Hin. apply Hfresh. apply (side_ids_subset (r_side t =? Sell) b1) in Hin; [done|].
      by destruct (r_side t =? Sell). }
    eapply wp_mono.
    { eapply (remainder_spec e2 G2 _ tk t q'); [exact Hrep2|exact Ht2|simpl in Hq'; lia|done|exact Hcs|].
      intros pl Hpl. eapply (rest_level_untouched e2 G G2 t pl cs q'); try done.
      - apply (lk_lvl_locs _ _ (sh_linked _ _ Hs)).
      - intros l. by eapply changes_ok_some.
      - intros HS HB _. rewrite (proj2 (Z.eqb_neq _ _) HS) in Hfl2.
        eapply side_ok_nil; [apply (Hsides2 false)|]. rewrite Hfl2.
        apply Hunl; [done|done|lia|done|done]. }
    intros r e3 [-> Hrep3]. rewrite Hfl2. split; [|exact Hrep3]. simpl. by rewrite <- ?app_assoc.
  - wp_step. wp_step. wp_step. eapply wp_mono.
    + eapply book_updates_spec, changes_ok_events; [exact Hcs|done].
    + intros us e3 [-> ->]. wp_step. rewrite Hfl2. split; [done|].
      exists G2. done.
Qed.

(** ** Canceling an order *)

Lemma find_order_None id l : id ∉ (r_id <$> l) -> find_order id l = None.
Proof.
  intros H. unfold find_order. rewrite list_filter_none; [done|]. apply Forall_forall.
  intros r Hr <-. apply H. by apply list_elem_of_fmap_2.
Qed.

Lemma remove_order_absent id l : id ∉ (r_id <$> l) -> remove_order id l = l.
Proof.
  intros H. apply list_filter_all. apply Forall_forall. intros r Hr <-. apply H.
  by apply list_elem_of_fmap_2.
Qed.

Lemma find_order_middle r x y :
  NoDup (r_id <$> x ++ r :: y) -> find_order (r_id r) (x ++ r :: y) = Some r.
Proof.
  rewrite fmap_app, fmap_cons. intros (_ & Hx & _)%NoDup_app.
  unfold find_order. rewrite filter_app, filter_cons, decide_True by done.
  rewrite list_filter_none; [done|]. apply Forall_forall. intros r' Hr' Heq.
  apply (Hx (r_id r')); [by apply list_elem_of_fmap_2|]. rewrite Heq. by left.
Qed.

Lemma remove_order_middle r x y :
  NoDup (r_id <$> x ++ r :: y) -> remove_order (r_id r) (x ++ r :: y) = x ++ y.
Proof.
  rewrite fmap_app, fmap_cons. intros (_ & Hx & [Hy _]%NoDup_cons)%NoDup_app.
  unfold remove_order. rewrite filter_app, filter_cons, decide_False by tauto.
  rewrite !list_filter_all; [done|..]; apply Forall_forall; intros r' Hr' Heq.
  - apply Hy. rewrite <- Heq. by apply list_elem_of_fmap_2.
  - apply (Hx (r_id r')); [by apply list_elem_of_fmap_2|]. rewrite Heq. by left.
Qed.

(** The order a pointer of the id map leads to, with its place in the book. *)
Lemma locate_order e G id po :
  shape e G -> b_orders (e_book e) !! id = Some po ->
  exists buy g1 g g2 a r b',
    gside buy G = g1 ++ g :: g2 /\ g_ords g = a ++ (po, r) :: b' /\ r_id r = id /\
    st_orders (e_store e) !! po =
      Some (cell r (Some (g_loc g)) (last_ptr None a) (hd_ptr b' None)) /\
    st_levels (e_store e) !! g_loc g =
      Some (PriceLevel (g_price g) (g_total g) (hd_ptr (g_ords g) None) (last_ptr None (g_ords g))).
Proof.
  intros Hs Hid. destruct (sh_linked _ _ Hs) as [Hg _ _ _ Hx]. rewrite Hx in Hid.
  apply index_lookup_inv in Hid as (r & Hin & Hr).
  apply elem_of_pairs in Hin as (g & Hgin & Hin).
  rewrite Forall_forall in Hg. destruct (Hg g Hgin) as [Hlv Hd].
  assert (exists buy, g ∈ gside buy G) as [buy Hb].
  { unfold gall in Hgin. apply elem_of_app in Hgin as [?|?]; [by exists true|by exists false]. }
  apply list_elem_of_split in Hb as (g1 & g2 & Hb). apply list_elem_of_split in Hin as (a & b' & Hin).
  exists buy, g1, g, g2, a, r, b'. split_and!; try done.
  rewrite Hin in Hd. by apply dll_app in Hd as [_ [? _]].
Qed.

(** Accounting for a canceled quantity in its level. *)
Lemma shape_set_total e buy G g1 g g2 n :
  shape e G -> gside buy G = g1 ++ g :: g2 ->
  forall v, st_levels (e_store e) !! g_loc g = Some v ->
  shape (with_levels <[g_loc g := set_pl_totalQty n v]> e)
    (set_gside buy (g1 ++ mkGroup (g_loc g) (g_price g) n (g_ords g) :: g2) G).
Proof.
  intros Hs Hg v Hv. pose proof (shape_linked buy _ _ Hs) as Hlk. rewrite Hg, focus_perm in Hlk.
  set (e' := with_levels _ e).
  assert (Hf : frame [] [g_loc g] e e') by (eapply frame_upd_level; [exact Hv|set_solver]).
  apply (shape_set _ _ e); [done|..].
  - change (slice_of buy (e_book e') ) with (slice_of buy (e_book e)).
    rewrite (shape_slice buy _ _ Hs), Hg. unfold lvl_locs. by rewrite !fmap_app.
  - done.
  - rewrite focus_perm. eapply linked_replace; [exact Hlk|exact Hf| |split|done..|].
    + intros l Hl. set_solver.
    + pose proof (lk_groups _ _ Hlk) as [[Hlv _] _]%Forall_cons. rewrite Hlv in Hv. simplify_eq.
      simpl. by rewrite lookup_insert_eq.
    + by pose proof (lk_groups _ _ Hlk) as [[_ ?] _]%Forall_cons.
    + simpl. by rewrite (lk_orders _ _ Hlk), pairs_cons.
  - apply (fr_bounded _ _ _ _ Hf), Hs.
Qed.

(** The groups of a side with one order gone. *)
Lemma shrink_side_ok buy g1 g g2 a po r b' :
  side_ok buy (g1 ++ g :: g2) -> g_ords g = a ++ (po, r) :: b' ->
  let g' := mkGroup (g_loc g) (g_price g) (int64 (g_total g - r_qty r)) (g_ords g) in
  side_ok buy (g1 ++ shrink g' (a ++ b') ++ g2) /\
  level_qty (g_price g) (flat (g1 ++ shrink g' (a ++ b') ++ g2)) = sum_qty (a ++ b').*2 /\
  int64 (g_total g - r_qty r) = int64 (sum_qty (a ++ b').*2).
Proof.
  intros [Hs Hok] Ho g'. apply Forall_app in Hok as [H1 [Hg H2]%Forall_cons].
  assert (Htot : int64 (g_total g - r_qty r) = int64 (sum_qty (a ++ b').*2)).
  { rewrite (go_total _ _ Hg), Ho. apply int64_total_sub.
    rewrite !fmap_app, !sum_qty_app, fmap_cons, sum_qty_cons. simpl. lia. }
  assert (Hos : Forall (order_ok buy (g_price g)) (a ++ b').*2).
  { pose proof (go_orders _ _ Hg) as Hall. rewrite Ho in Hall.
    rewrite fmap_app in Hall |- *. rewrite fmap_cons in Hall.
    apply Forall_app in Hall as [? [_ ?]%Forall_cons]. by apply Forall_app. }
  pose proof (strictly_sorted_NoDup _ _ Hs) as Hnd. rewrite fmap_app, fmap_cons in Hnd.
  apply NoDup_app in Hnd as (_ & Hd & [Hn _]%NoDup_cons).
  split; [|split; [|done]].
  - destruct (a ++ b') as [|p os] eqn:Hab; simpl.
    + split; [|by apply Forall_app]. rewrite !fmap_app, fmap_cons in *.
      unfold strictly_sorted in *. rewrite !StronglySorted_app, StronglySorted_cons in *.
      destruct Hs as (Hs1 & Hs2 & _ & Hs3). split_and!; [|done|done].
      intros x y Hx Hy. apply Hs1; [done|]. by right.
    + split; [by rewrite fmap_app, fmap_cons in *|].
      apply Forall_app. split; [done|]. constructor; [|done]. by constructor.
  - rewrite !flat_app. unfold flat at 2. rewrite pairs_shrink, !level_qty_app.
    rewrite (level_qty_absent _ buy g1), (level_qty_absent _ buy g2); [|done..|].
    + rewrite level_qty_same; [lia|]. eapply Forall_impl; [exact Hos|]. by intros x [? _].
    + intros Hin. apply (Hd _ Hin). by left.
Qed.

(** The abstract book with the order removed, side by side. *)
Lemma cancel_sides b buy r x y :
  NoDup (r_id <$> all_orders b) -> side_of buy b = x ++ r :: y ->
  find_order (r_id r) (all_orders b) = Some r /\
  mkBook (remove_order (r_id r) (s_bids b)) (remove_order (r_id r) (s_asks b)) (s_next b) =
    set_side buy (x ++ y) b.
Proof.
  intros Hnd Hside. unfold all_orders in *. pose proof Hnd as Hnd'.
  rewrite fmap_app in Hnd'. apply NoDup_app in Hnd' as (Hb & Hd & Ha).
  destruct buy; simpl in Hside; rewrite Hside in *; split.
  - rewrite <- app_assoc. rewrite <- app_assoc in Hnd. by apply find_order_middle.
  - simpl. rewrite remove_order_middle by done. rewrite remove_order_absent; [done|].
    apply Hd. rewrite fmap_app, fmap_cons. set_solver.
  - rewrite app_assoc. rewrite app_assoc in Hnd. by apply find_order_middle.
  - simpl. rewrite remove_order_middle by done. rewrite remove_order_absent; [done|].
    intros Hin. apply (Hd _ Hin). rewrite fmap_app, fmap_cons. set_solver.
Qed.

Lemma Cancel_rep e b id owner :
  rep e b ->
  wp (Cancel id owner)
    (fun evs e' => evs = fst (cancel id owner b) /\ rep e' (snd (cancel id owner b))) e.
Proof.
  intros [G Hrep]. pose proof Hrep as (Hs & Hsides & Hnx).
  pose proof (repG_ids _ _ _ Hrep) as Hids.
  assert (Hnd : NoDup (r_id <$> all_orders b)).
  { rewrite <- Hids. apply (lk_ids _ _ (sh_linked _ _ Hs)). }
  unfold Cancel, cancel. wp_step. wp_step.
  destruct (b_orders (e_book e) !! id) as [po|] eqn:Hid.
  2: { rewrite (lk_orders _ _ (sh_linked _ _ Hs)) in Hid. apply index_lookup_None in Hid.
       rewrite Hids in Hid. rewrite find_order_None by done. wp_step. split; [done|by exists G]. }
  destruct (locate_order _ _ _ _ Hs Hid) as (buy & g1 & g & g2 & a & r & b' & Hg & Ho & <- & Hc & Hlv).
  destruct (Hsides buy) as [Hok Hflat]. rewrite Hg in Hok, Hflat.
  destruct (shrink_side_ok _ _ _ _ _ _ _ _ Hok Ho) as (Hok' & Hqty & Htot).
  set (g' := mkGroup (g_loc g) (g_price g) (int64 (g_total g - r_qty r)) (g_ords g)) in *.
  assert (Hr : order_ok buy (g_price g) r).
  { destruct Hok as [_ [_ [Hgo _]%Forall_cons]%Forall_app]. pose proof (go_orders _ _ Hgo) as Hall.
    rewrite Ho, fmap_app, fmap_cons in Hall. by apply Forall_app in Hall as [_ [? _]%Forall_cons]. }
  destruct Hr as (Hrp & Hrb & _).
  rewrite flat_app, flat_cons, Ho, fmap_app, fmap_cons in Hflat.
  assert (Hfl : flat (g1 ++ shrink g' (a ++ b') ++ g2) = (flat g1 ++ a.*2) ++ b'.*2 ++ flat g2).
  { rewrite !flat_app. unfold flat at 2. by rewrite pairs_shrink, fmap_app, <- !app_assoc. }
  destruct (cancel_sides b buy r (flat g1 ++ a.*2) (b'.*2 ++ flat g2) Hnd) as [Hfind Hset].
  { rewrite <- Hflat. simpl. by rewrite <- !app_assoc. }
  rewrite Hfind, Hset, <- Hfl.
  wp_step. eapply wp_load_order; [exact Hc|]. cbn [o_owner o_level o_qty cell].
  destruct (r_owner r =? owner) eqn:Hown; simpl negb; cbv iota; [|wp_step; split; [done|by exists G]].
  wp_step. eapply wp_upd_level; [exact Hlv|].
  pose proof (shape_set_total _ _ _ _ _ _ (int64 (g_total g - r_qty r)) Hs Hg _ Hlv) as Hs1.
  wp_step. eapply wp_mono.
  { eapply (unlink_spec _ buy _ g1 g' g2 a po r b'); [exact Hs1| |exact Ho|done|].
    - by rewrite gside_set_eq.
    - rewrite gside_set_eq. destruct Hok as [Hso _]. by rewrite fmap_app, fmap_cons in *. }
  intros [] e2 (Hs2 & _ & Hnx2 & [Hlv2 _] & Hc2). rewrite set_gside_set in Hs2.
  wp_step. eapply wp_load_order; [exact Hc2|].
  wp_step. eapply wp_load_level; [exact Hlv2|]. wp_step. split.
  - cbn [o_id o_clientOrderId o_owner o_side o_price o_qty cell pl_price pl_totalQty g_price g_total
         with_ords fst].
    rewrite Hrb, side_of_set, Bool.eqb_reflx. unfold update_event. by rewrite Hrp, Hqty, <- Htot.
  - exists (set_gside buy (g1 ++ shrink g' (a ++ b') ++ g2) G).
    eapply repG_set; [exact Hrep|exact Hs2|exact Hok'|]. by rewrite Hnx2.
Qed.
