(* ===== verification/BookProps.v ===== *)
(** * Properties of the abstract book

    Matching as a step relation ([swept]) and what follows from it by rule
    induction: conservation of quantity, price-time priority, limits
    respected; and the invariant of the book under every operation. *)
From S2P Require Import Prelude Events OrderBook BookSpec BookRep BookOps BookRefine.

(** ** Matching as a relation *)

(** [swept t q opp fs opp' q']: with [q] units of [t] left and [opp] resting
    on the other side, the executions [fs] follow, and [opp'] and [q'] are
    left. *)
Inductive swept (t : resting) : Z -> list resting -> list fill -> list resting -> Z -> Prop :=
  | swept_done opp : swept t 0 opp [] opp 0
  | swept_empty q : swept t q [] [] [] q
  | swept_limit q m opp :
      crosses (r_side t) (r_price t) (r_price m) = false ->
      swept t q (m :: opp) [] (m :: opp) q
  | swept_part q m opp :
      0 < q < r_qty m -> crosses (r_side t) (r_price t) (r_price m) = true ->
      swept t q (m :: opp) [mkFill m q 0] (set_r_qty (r_qty m - q) m :: opp) 0
  | swept_full q m opp fs opp' q' :
      0 < r_qty m <= q -> crosses (r_side t) (r_price t) (r_price m) = true ->
      swept t (q - r_qty m) opp fs opp' q' ->
      swept t q (m :: opp) (mkFill m (r_qty m) (q - r_qty m) :: fs) opp' q'.

Lemma sweep_swept t q opp :
  0 <= q -> Forall (fun m => 0 < r_qty m) opp ->
  swept t q opp (fst (fst (sweep t q opp))) (snd (fst (sweep t q opp))) (snd (sweep t q opp)).
Proof.
  intros Hq H. revert q Hq. induction H as [|m opp Hm _ IH]; intros q Hq; [constructor|]. simpl.
  destruct (Z.ltb_spec 0 q) as [Hq0|Hq0].
  2: { replace q with 0 by lia. constructor. }
  destruct (crosses (r_side t) (r_price t) (r_price m)) eqn:Hc; [|by constructor]. simpl.
  destruct (Z.eqb_spec (r_qty m) (Z.min (r_qty m) q)) as [He|He].
  - rewrite <- He. specialize (IH (q - r_qty m)). destruct (sweep _ _ _) as [[fs l] q']. simpl in *.
    constructor; [lia|done|]. apply IH. lia.
  - replace (Z.min (r_qty m) q) with q by lia. simpl. rewrite Z.sub_diag.
    constructor; [lia|done].
Qed.

Definition fill_sum (fs : list fill) : Z := foldr (fun f n => f_qty f + n) 0 fs.

Lemma swept_conserves t q opp fs opp' q' :
  swept t q opp fs opp' q' ->
  q = fill_sum fs + q' /\ sum_qty opp = fill_sum fs + sum_qty opp'.
Proof. induction 1; simpl in *; lia. Qed.

(** Every execution is within the taker's limit, at the maker's price and
    size. *)
Lemma swept_fills t q opp fs opp' q' :
  swept t q opp fs opp' q' ->
  Forall (fun f => crosses (r_side t) (r_price t) (r_price (f_maker f)) = true /\
                   0 < f_qty f <= r_qty (f_maker f)) fs.
Proof. induction 1; constructor; simpl; auto; split; auto; lia. Qed.

(** The makers are the front of the queue, in order, and all but the last
    are filled completely. *)
Lemma swept_priority t q opp fs opp' q' :
  swept t q opp fs opp' q' ->
  exists rest, opp = (f_maker <$> fs) ++ rest /\
    ((Forall (fun f => f_qty f = r_qty (f_maker f)) fs /\ opp' = rest) \/
     (exists fs0 m x, fs = fs0 ++ [mkFill m x 0] /\ 0 < x < r_qty m /\ q' = 0 /\
        Forall (fun f => f_qty f = r_qty (f_maker f)) fs0 /\
        opp' = set_r_qty (r_qty m - x) m :: rest)).
Proof.
  induction 1 as [opp|q|q m opp Hc|q m opp Hq Hc|q m opp fs opp' q' Hq Hc H IH].
  - exists opp. eauto.
  - exists []. eauto.
  - exists (m :: opp). eauto.
  - exists opp. split; [done|]. right. exists [], m, q. split_and!; try done; lia.
  - destruct IH as (rest & -> & [[Hf ->]|(fs0 & m' & x & -> & Hx & -> & Hf & ->)]);
      exists rest; (split; [done|]).
    + left. split; [|done]. by constructor.
    + right. exists (mkFill m (r_qty m) (q - r_qty m) :: fs0), m', x. split_and!; try done; try lia.
      by constructor.
Qed.

(** ** Sortedness *)

(** [a] trades before [b]: a better price, or the same price and an earlier
    id. *)
Definition prio (buy : bool) (a b : resting) : Prop :=
  better buy (r_price a) (r_price b) = true \/ (r_price a = r_price b /\ r_id a < r_id b).

Lemma prio_weak buy a b : prio buy a b -> better buy (r_price b) (r_price a) = false.
Proof. intros [H|[H _]]; [by apply better_asym|]. rewrite H. apply better_irrefl. Qed.

Lemma swept_Forall (P : resting -> Prop) t q opp fs opp' q' :
  (forall m x, P m -> 0 < x < r_qty m -> P (set_r_qty (r_qty m - x) m)) ->
  swept t q opp fs opp' q' -> Forall P opp -> Forall P opp'.
Proof.
  intros HP. induction 1; intros Hall; auto.
  - apply Forall_cons in Hall as [? ?]. constructor; auto.
  - apply Forall_cons in Hall as [? ?]. auto.
Qed.

Lemma swept_sorted buy t q opp fs opp' q' :
  swept t q opp fs opp' q' ->
  StronglySorted (prio buy) opp -> StronglySorted (prio buy) opp'.
Proof.
  induction 1; intros Hs; auto.
  - apply StronglySorted_cons in Hs as [Hm Hs]. apply StronglySorted_cons. split; [|done].
    eapply Forall_impl; [exact Hm|]. intros x. unfold prio. by simpl.
  - apply StronglySorted_cons in Hs as [_ Hs]. auto.
Qed.

Lemma swept_ids t q opp fs opp' q' :
  swept t q opp fs opp' q' -> r_id <$> opp' `sublist_of` r_id <$> opp.
Proof. induction 1; simpl; try done. by constructor. Qed.

(** When the taker is left with a remainder, nothing it could trade with is
    left. *)
Lemma crosses_worse s p m m' :
  better (s =? Sell) (m') (m) = false -> s = Buy \/ s = Sell ->
  crosses s p m = false -> crosses s p m' = false.
Proof. unfold better, crosses, Buy, Sell. intros H [-> | ->] Hc; simpl in *; lia. Qed.

Lemma swept_exhausts t q opp fs opp' q' :
  swept t q opp fs opp' q' -> StronglySorted (prio (r_side t =? Sell)) opp ->
  r_side t = Buy \/ r_side t = Sell -> 0 < q' ->
  Forall (fun m => crosses (r_side t) (r_price t) (r_price m) = false) opp'.
Proof.
  induction 1 as [opp|q|q m opp Hc|q m opp Hq Hc|q m opp fs opp' q' Hq Hc H IH];
    intros Hs Hside Hq'; try lia.
  - constructor.
  - apply StronglySorted_cons in Hs as [Hm _]. constructor; [done|].
    eapply Forall_impl; [exact Hm|]. intros m' Hm'. simpl.
    eapply crosses_worse; [|done|exact Hc]. by apply prio_weak.
  - apply StronglySorted_cons in Hs as [_ Hs]. auto.
Qed.

Lemma insert_order_sorted buy o l :
  StronglySorted (prio buy) l -> Forall (fun x => r_id x < r_id o) l ->
  StronglySorted (prio buy) (insert_order buy o l).
Proof.
  induction l as [|x l IH]; intros Hs Hid; simpl; [repeat constructor|].
  pose proof Hs as [Hx Hl]%StronglySorted_cons. apply Forall_cons in Hid as [Hxo Hid].
  destruct (better buy (r_price o) (r_price x)) eqn:Hb.
  - apply StronglySorted_cons. split; [|done]. constructor; [by left|].
    eapply Forall_impl; [exact Hx|]. intros y [Hy|[Hy _]]; left.
    + by eapply better_trans.
    + by rewrite <- Hy.
  - apply StronglySorted_cons. split; [|by apply IH].
    assert (Hxp : prio buy x o).
    { destruct (decide (r_price x = r_price o)) as [|Hne]; [by right|left].
      apply better_total in Hb; auto. }
    clear -Hx Hxp. induction l as [|y l IH]; simpl; [by constructor|].
    apply Forall_cons in Hx as [Hy Hx]. destruct (better _ _ _); constructor; auto.
Qed.

Lemma insert_order_perm buy o l : insert_order buy o l ≡ₚ o :: l.
Proof.
  induction l as [|x l IH]; simpl; [done|]. destruct (better _ _ _); [done|].
  rewrite IH. apply Permutation_swap.
Qed.

(** ** The invariant of the book *)

Definition side_val (buy : bool) : Side := if buy then Buy else Sell.

Record side_inv (buy : bool) (next : Z) (l : list resting) : Prop := mkSideInv {
  si_sorted : StronglySorted (prio buy) l;
  si_orders : Forall (fun r => r_side r = side_val buy /\ 0 < r_qty r <= MaxInt64 /\
                               0 < r_price r <= MaxInt64 /\ 1 <= r_id r < next) l
}.

Record book_inv (b : Book) : Prop := mkBookInv {
  bi_side : forall buy, side_inv buy (s_next b) (side_of buy b);
  bi_ids : NoDup (r_id <$> all_orders b);
  bi_next : 1 <= s_next b <= MaxInt64;
  bi_uncrossed : forall x y, x ∈ s_bids b -> y ∈ s_asks b -> r_price x < r_price y
}.

(** A command whose fields are the machine integers of the source... *)
Definition cmd_in_range (cmd : NewOrderCmd) : Prop :=
  is_int64 (c_ClientOrderId cmd) /\ is_int64 (c_Owner cmd) /\ is_int8 (c_Side cmd) /\
  is_int64 (c_Price cmd) /\ is_int64 (c_Qty cmd).
(** ... and with one of the two sides. *)
Definition valid_cmd (cmd : NewOrderCmd) : Prop :=
  cmd_in_range cmd /\ (c_Side cmd = Buy \/ c_Side cmd = Sell).

Lemma cmd_in_range_max cmd : cmd_in_range cmd -> c_Qty cmd <= MaxInt64 /\ c_Price cmd <= MaxInt64.
Proof. unfold cmd_in_range, is_sint, MaxInt64. lia. Qed.

Lemma side_inv_mono buy n n' l : n <= n' -> side_inv buy n l -> side_inv buy n' l.
Proof.
  intros Hn [Hs Ho]. constructor; [done|]. eapply Forall_impl; [exact Ho|].
  intros r (? & ? & ? & ?). split_and!; try done; lia.
Qed.

Lemma side_inv_swept buy n t q opp fs opp' q' :
  swept t q opp fs opp' q' -> side_inv buy n opp -> side_inv buy n opp'.
Proof.
  intros Hsw [Hs Ho]. constructor; [by eapply swept_sorted|].
  eapply swept_Forall; [|exact Hsw|exact Ho]. intros m x (? & ? & ? & ?) Hx. simpl.
  split_and!; try done; lia.
Qed.

Lemma side_inv_insert buy n o l :
  side_inv buy n l -> r_id o = n -> 1 <= n -> r_side o = side_val buy ->
  0 < r_qty o <= MaxInt64 -> 0 < r_price o <= MaxInt64 ->
  side_inv buy (n + 1) (insert_order buy o l).
Proof.
  intros [Hs Ho] Hid Hn Hside Hq Hp. constructor.
  - apply insert_order_sorted; [done|]. eapply Forall_impl; [exact Ho|]. simpl. lia.
  - rewrite insert_order_perm. constructor; [split_and!; try done; lia|].
    eapply Forall_impl; [exact Ho|]. intros r (? & ? & ? & ?). split_and!; try done; lia.
Qed.

Lemma side_inv_positive buy n l : side_inv buy n l -> Forall (fun m => 0 < r_qty m) l.
Proof. intros [_ H]. eapply Forall_impl; [exact H|]. simpl. lia. Qed.

Lemma all_orders_perm buy b : all_orders b ≡ₚ side_of buy b ++ side_of (negb buy) b.
Proof. destruct buy; [done|]. apply Permutation_app_comm. Qed.

(** A book from its two sides. *)
Definition of_sides (buy : bool) (own opp : list resting) (n : Z) : Book :=
  if buy then mkBook own opp n else mkBook opp own n.

Lemma book_inv_of_sides buy own opp n :
  side_inv buy n own -> side_inv (negb buy) n opp ->
  NoDup (r_id <$> own ++ opp) -> 1 <= n <= MaxInt64 ->
  (forall x y, x ∈ own -> y ∈ opp -> crosses (side_val buy) (r_price x) (r_price y) = false) ->
  book_inv (of_sides buy own opp n).
Proof.
  intros Hown Hopp Hnd Hn Hun. constructor.
  - by destruct buy; intros [].
  - rewrite (all_orders_perm buy). by destruct buy.
  - by destruct buy.
  - intros x y Hx Hy. destruct buy; simpl in *.
    + specialize (Hun x y Hx Hy). unfold crosses, Buy, Sell in Hun. simpl in Hun. lia.
    + specialize (Hun y x Hy Hx). unfold crosses, Buy, Sell in Hun. simpl in Hun. lia.
Qed.

Lemma book_inv_uncrossed buy b x y :
  book_inv b -> x ∈ side_of buy b -> y ∈ side_of (negb buy) b ->
  crosses (side_val buy) (r_price x) (r_price y) = false.
Proof.
  intros Hb Hx Hy. unfold crosses, Buy, Sell. destruct buy; simpl in *.
  - pose proof (bi_uncrossed _ Hb x y Hx Hy). unfold Buy, Sell. simpl. lia.
  - pose proof (bi_uncrossed _ Hb y x Hy Hx). unfold Buy, Sell. simpl. lia.
Qed.

Lemma execute_of_sides b t :
  (r_side t = Buy \/ r_side t = Sell) ->
  let buy := is_buy (r_side t) in
  let sw := sweep t (r_qty t) (side_of (negb buy) b) in
  snd (execute b t) =
    of_sides buy
      (if 0 <? snd sw then insert_order buy (set_r_qty (snd sw) t) (side_of buy b)
       else side_of buy b)
      (snd (fst sw)) (int64 (s_next b + 1)).
Proof.
  intros Hside buy sw. unfold execute.
  assert (Hopp : (r_side t =? Sell) = negb buy) by (unfold buy, is_buy; by destruct Hside as [-> | ->]).
  rewrite Hopp. fold sw. destruct sw as [[fs opp] q]. simpl. fold buy.
  destruct (0 <? q); by destruct buy.
Qed.

Lemma fresh_ids b buy t q fs opp' q' own :
  book_inv b -> r_id t = s_next b -> swept t q (side_of (negb buy) b) fs opp' q' ->
  own = side_of buy b \/ own ≡ₚ set_r_qty q' t :: side_of buy b ->
  NoDup (r_id <$> own ++ opp').
Proof.
  intros Hb Hid Hsw Hown. pose proof (bi_ids _ Hb) as Hnd. rewrite (all_orders_perm buy) in Hnd.
  assert (Hsub : r_id <$> side_of buy b ++ opp' `sublist_of`
                 r_id <$> side_of buy b ++ side_of (negb buy) b).
  { rewrite !fmap_app. apply sublist_app; [done|]. by eapply swept_ids. }
  assert (Hnd' : NoDup (r_id <$> side_of buy b ++ opp')) by by eapply sublist_NoDup.
  destruct Hown as [->|Hp]; [done|]. rewrite Hp. simpl. constructor; [|done].
  intros Hin. apply (fun H => elem_of_sublist _ _ _ H Hsub) in Hin. rewrite Hid in Hin.
  apply list_elem_of_fmap in Hin as (r & Hr & Hin). rewrite elem_of_app in Hin.
  assert (r_id r < s_next b); [|lia].
  destruct Hin as [Hin|Hin];
    eapply Forall_forall in Hin; try exact (si_orders _ _ _ (bi_side _ Hb _)); simpl in Hin; lia.
Qed.

Lemma execute_inv b t :
  book_inv b -> s_next b < MaxInt64 -> r_id t = s_next b ->
  (r_side t = Buy \/ r_side t = Sell) -> 0 < r_qty t <= MaxInt64 -> 0 < r_price t <= MaxInt64 ->
  book_inv (snd (execute b t)).
Proof.
  intros Hb Hn Hid Hside Hq Hp. rewrite execute_of_sides by done.
  set (buy := is_buy (r_side t)).
  assert (Hval : r_side t = side_val buy) by (unfold buy, is_buy; by destruct Hside as [-> | ->]).
  assert (Hnext : int64 (s_next b + 1) = s_next b + 1).
  { apply sint_id; [done|]. pose proof (bi_next _ Hb). unfold is_sint, MaxInt64 in *. lia. }
  pose proof (sweep_swept t (r_qty t) (side_of (negb buy) b) ltac:(lia)
    (side_inv_positive _ _ _ (bi_side _ Hb (negb buy)))) as Hsw.
  set (sw := sweep _ _ _) in *. destruct sw as [[fs opp'] q']. cbn [fst snd] in *.
  pose proof (swept_conserves _ _ _ _ _ _ Hsw) as [Hcons _].
  pose proof (swept_fills _ _ _ _ _ _ Hsw) as Hfills.
  assert (Hsum : 0 <= fill_sum fs).
  { clear -Hfills. induction Hfills as [|f fs [_ Hf] _ IH]; simpl; lia. }
  rewrite Hnext. apply book_inv_of_sides.
  - destruct (Z.ltb_spec 0 q').
    + apply side_inv_insert; try done; [apply bi_side; done| |simpl; lia].
      pose proof (bi_next _ Hb). lia.
    + eapply side_inv_mono; [|apply bi_side; done]. lia.
  - eapply side_inv_mono; [|eapply side_inv_swept; [exact Hsw|apply bi_side; done]]. lia.
  - eapply fresh_ids; [exact Hb|exact Hid|exact Hsw|].
    destruct (0 <? q'); [right; apply insert_order_perm|by left].
  - pose proof (bi_next _ Hb). lia.
  - assert (Hold : Forall (fun y => forall x, x ∈ side_of buy b ->
        crosses (side_val buy) (r_price x) (r_price y) = false) opp').
    { eapply swept_Forall; [|exact Hsw|]; [by auto|]. apply Forall_forall.
      intros y Hy x Hx. by eapply book_inv_uncrossed. }
    rewrite Forall_forall in Hold. intros x y Hx Hy.
    destruct (Z.ltb_spec 0 q') as [Hq'|_]; [|by apply Hold].
    rewrite insert_order_perm in Hx. apply elem_of_cons in Hx as [->|Hx]; [|by apply Hold].
    eapply swept_exhausts in Hsw; [|..|done|done].
    + rewrite Forall_forall in Hsw. rewrite <- Hval. by apply Hsw.
    + replace (r_side t =? Sell) with (negb buy); [apply bi_side; done|].
      rewrite Hval. by destruct buy.
Qed.

Lemma place_inv b cmd :
  book_inv b -> s_next b < MaxInt64 -> valid_cmd cmd -> book_inv (snd (place cmd b)).
Proof.
  intros Hb Hn [[Hq Hp]%cmd_in_range_max Hs]. unfold place.
  destruct (Z.leb_spec (c_Qty cmd) 0); [done|]. destruct (Z.leb_spec (c_Price cmd) 0); [done|].
  by apply execute_inv.
Qed.

Lemma cancel_inv b id owner : book_inv b -> book_inv (snd (cancel id owner b)).
Proof.
  intros Hb. unfold cancel. destruct (find_order id (all_orders b)) as [r|]; [|done].
  destruct (r_owner r =? owner); [|done]. simpl.
  destruct Hb as [Hside Hids Hnx Hun]. constructor; [|..|done|]; simpl in *.
  - intros buy. destruct (Hside buy) as [Hs Ho].
    destruct buy; (constructor; [by apply list_filter_sorted|by apply list_filter_Forall]).
  - eapply sublist_NoDup; [exact Hids|]. unfold all_orders, remove_order. simpl. f_equiv.
    apply sublist_app; apply sublist_filter.
  - intros x y [_ Hx]%list_elem_of_filter [_ Hy]%list_elem_of_filter. by apply Hun.
Qed.

Lemma empty_book_inv : book_inv empty_book.
Proof.
  constructor; simpl; [intros []; by repeat constructor|constructor|by unfold MaxInt64|set_solver].
Qed.

(** ** Depth and book updates *)

Lemma touched_spec fs ps p :
  p ∈ foldl touch_price ps fs <-> p ∈ ps \/ p ∈ (r_price ∘ f_maker <$> fs).
Proof.
  revert ps. induction fs as [|f fs IH]; intros ps; simpl; [set_solver|].
  rewrite IH. unfold touch_price. case_decide; set_solver.
Qed.

Lemma elem_of_touched fs p : p ∈ touched fs <-> p ∈ (r_price ∘ f_maker <$> fs).
Proof. unfold touched. rewrite touched_spec. set_solver. Qed.

Lemma swept_level_qty t q opp fs opp' q' p :
  swept t q opp fs opp' q' -> p ∉ (r_price ∘ f_maker <$> fs) ->
  level_qty p opp' = level_qty p opp.
Proof.
  induction 1; intros Hp; try done; rewrite !level_qty_cons; simpl in *.
  - by rewrite !decide_False by set_solver.
  - rewrite decide_False, IHswept by set_solver. lia.
Qed.

#[export] Instance level_qty_proper p : Proper ((≡ₚ) ==> eq) (level_qty p).
Proof.
  intros a b H. induction H; rewrite ?level_qty_cons; [done|by f_equal|lia|congruence].
Qed.

(** The depth a subscriber keeps: the last published aggregate per side and
    price. *)
Definition depth : Type := Side -> Z -> Z.
Definition no_depth : depth := fun _ _ => 0.
Definition apply_update (d : depth) (ev : Event) : depth :=
  match ev_Type ev with
  | EvBookUpdate => fun s p =>
      if (ev_Side ev =? s) && (ev_Price ev =? p) then ev_AggregateQty ev else d s p
  | _ => d
  end.

(** [d] shows the quantities of [b], as [int64]s. *)
Definition mirrors (d : depth) (b : Book) : Prop :=
  forall buy p, d (side_val buy) p = int64 (level_qty p (side_of buy b)).

(** The updates of [evs] are accurate for [b'] and cover every level in
    which [b'] differs from [b]. *)
Record updates_ok (b b' : Book) (evs : list Event) : Prop := mkUpdatesOk {
  uo_sound : forall ev, ev ∈ evs -> ev_Type ev = EvBookUpdate ->
    exists buy, ev_Side ev = side_val buy /\
      ev_AggregateQty ev = int64 (level_qty (ev_Price ev) (side_of buy b'));
  uo_complete : forall buy p, level_qty p (side_of buy b') <> level_qty p (side_of buy b) ->
    exists ev, ev ∈ evs /\ ev_Type ev = EvBookUpdate /\ ev_Side ev = side_val buy /\ ev_Price ev = p
}.

Lemma apply_update_other d ev s p :
  ~ (ev_Type ev = EvBookUpdate /\ ev_Side ev = s /\ ev_Price ev = p) ->
  apply_update d ev s p = d s p.
Proof.
  intros Hn. unfold apply_update. destruct (ev_Type ev) eqn:Ht; try done.
  destruct (Z.eqb_spec (ev_Side ev) s), (Z.eqb_spec (ev_Price ev) p); simpl; tauto.
Qed.

Lemma apply_updates_value s p v evs : forall d,
  (forall ev, ev ∈ evs -> ev_Type ev = EvBookUpdate -> ev_Side ev = s -> ev_Price ev = p ->
     ev_AggregateQty ev = v) ->
  foldl apply_update d evs s p = v \/
  (foldl apply_update d evs s p = d s p /\
   forall ev, ev ∈ evs -> ~ (ev_Type ev = EvBookUpdate /\ ev_Side ev = s /\ ev_Price ev = p)).
Proof.
  induction evs as [|ev evs IH]; intros d Hv; [right; split; [done|set_solver]|]. simpl.
  destruct (IH (apply_update d ev)) as [?|[Heq Hno]]; [set_solver|by left|]. rewrite Heq.
  destruct (decide (ev_Type ev = EvBookUpdate /\ ev_Side ev = s /\ ev_Price ev = p))
    as [(Ht & Hs & Hp)|Hn].
  - left. unfold apply_update. rewrite Ht, Hs, Hp, !Z.eqb_refl. simpl. apply Hv; set_solver.
  - right. split; [by apply apply_update_other|]. intros ev' [->|H']%elem_of_cons; auto.
Qed.

Lemma mirrors_updates d b b' evs :
  mirrors d b -> updates_ok b b' evs -> mirrors (foldl apply_update d evs) b'.
Proof.
  intros Hd [Hs Hc] buy p.
  destruct (apply_updates_value (side_val buy) p (int64 (level_qty p (side_of buy b'))) evs d)
    as [?|[-> Hno]]; [|done|].
  - intros ev Hin Ht Hside <-. destruct (Hs ev Hin Ht) as (buy' & Hside' & ->).
    replace buy' with buy; [done|]. rewrite Hside in Hside'. by destruct buy, buy'.
  - rewrite Hd. destruct (decide (level_qty p (side_of buy b') = level_qty p (side_of buy b)))
      as [->|Hne]; [done|]. destruct (Hc _ _ Hne) as (ev & Hin & Hev). by destruct (Hno ev Hin).
Qed.

Lemma updates_ok_none b evs :
  (forall ev, ev ∈ evs -> ev_Type ev <> EvBookUpdate) -> updates_ok b b evs.
Proof. intros H. constructor; [|done]. intros ev Hin Ht. by destruct (H ev Hin). Qed.

(** Accepted and trade events carry no depth. *)
Lemma fill_events_type t fs ev :
  ev ∈ concat (fill_events t <$> fs) -> ev_Type ev <> EvBookUpdate.
Proof.
  induction fs as [|f fs IH]; simpl; [set_solver|].
  rewrite !elem_of_cons. intros [->|[->|[->|Hin]]]; auto.
Qed.

(** The events of a valid order, from its sweep of the opposite side. *)
Lemma execute_events b t :
  (r_side t = Buy \/ r_side t = Sell) ->
  let buy := is_buy (r_side t) in
  let '(fs, opp, q) := sweep t (r_qty t) (side_of (negb buy) b) in
  fst (execute b t) =
    AcceptedEvent (r_id t) (r_clientOrderId t) (r_owner t) (r_side t) (r_price t) (r_qty t) ::
    concat (fill_events t <$> fs) ++
    (update_event (side_val (negb buy)) opp <$> touched fs) ++
    (if 0 <? q
     then [update_event (side_val buy) (insert_order buy (set_r_qty q t) (side_of buy b)) (r_price t)]
     else []).
Proof.
  intros Hside buy. unfold execute.
  assert (Hval : r_side t = side_val buy) by (unfold buy, is_buy; by destruct Hside as [-> | ->]).
  assert (Hopp : (r_side t =? Sell) = negb buy) by (rewrite Hval; by destruct buy).
  rewrite Hopp. destruct (sweep _ _ _) as [[fs opp] q]. fold buy.
  replace (if negb buy then Buy else Sell) with (side_val (negb buy)) by by destruct buy.
  rewrite side_of_set. replace (Bool.eqb (negb buy) buy) with false by by destruct buy.
  rewrite <- Hval. destruct (0 <? q); [by destruct buy|]. by rewrite app_nil_r.
Qed.

Lemma execute_updates b t :
  book_inv b -> (r_side t = Buy \/ r_side t = Sell) -> 0 <= r_qty t ->
  updates_ok b (snd (execute b t)) (fst (execute b t)).
Proof.
  intros Hb Hside Hq. pose proof (execute_of_sides b t Hside) as Hex.
  pose proof (execute_events b t Hside) as Hev. cbn zeta in Hex, Hev.
  set (buy := is_buy (r_side t)) in *.
  pose proof (sweep_swept t (r_qty t) (side_of (negb buy) b) Hq
    (side_inv_positive _ _ _ (bi_side _ Hb (negb buy)))) as Hsw.
  destruct (sweep _ _ _) as [[fs opp'] q']. cbn [fst snd] in *. rewrite Hex, Hev. clear Hex Hev.
  set (own' := if 0 <? q' then _ else _). set (b' := of_sides buy own' opp' _).
  assert (Hown : side_of buy b' = own') by by destruct buy.
  assert (Hop' : side_of (negb buy) b' = opp') by by destruct buy.
  constructor.
  - intros ev Hin Ht. rewrite !elem_of_cons, !elem_of_app in Hin.
    destruct Hin as [->|[Hin|[Hin|Hin]]]; [done|by apply fill_events_type in Hin|..].
    + apply list_elem_of_fmap in Hin as (p & -> & _). exists (negb buy). split; [done|].
      simpl. by rewrite Hop'.
    + unfold own' in Hown. destruct (0 <? q'); [|set_solver].
      apply list_elem_of_singleton in Hin as ->. exists buy. split; [done|]. simpl. by rewrite Hown.
  - intros buy' p Hne. destruct (decide (buy' = buy)) as [->|Hnb].
    + rewrite Hown in Hne. unfold own' in *. destruct (0 <? q'); [|done].
      rewrite insert_order_perm, level_qty_cons in Hne. simpl in Hne.
      destruct (decide (r_price t = p)) as [<-|]; [|lia].
      eexists. split; [rewrite !elem_of_cons, !elem_of_app, list_elem_of_singleton; by do 3 right|].
      done.
    + assert (buy' = negb buy) as -> by by destruct buy, buy'. rewrite Hop' in Hne.
      destruct (decide (p ∈ (r_price ∘ f_maker <$> fs))) as [Hp|Hp].
      * exists (update_event (side_val (negb buy)) opp' p). split; [|done].
        rewrite !elem_of_cons, !elem_of_app. do 2 right. left.
        apply list_elem_of_fmap_2. by apply elem_of_touched.
      * destruct Hne. by eapply swept_level_qty.
Qed.

Lemma place_updates b cmd :
  book_inv b -> valid_cmd cmd -> updates_ok b (snd (place cmd b)) (fst (place cmd b)).
Proof.
  intros Hb [_ Hs]. unfold place.
  destruct (Z.leb_spec (c_Qty cmd) 0); [apply updates_ok_none; set_solver|].
  destruct (Z.leb_spec (c_Price cmd) 0); [apply updates_ok_none; set_solver|].
  apply execute_updates; [done|done|simpl; lia].
Qed.

(** The order an id stands for, with its side. *)
Lemma find_order_side b id r :
  find_order id (all_orders b) = Some r ->
  r_id r = id /\ exists buy x y, side_of buy b = x ++ r :: y.
Proof.
  intros H. assert (Hin : r ∈ filter (fun r => r_id r = id) (all_orders b)).
  { unfold find_order in H. destruct (filter _ _); [done|]. simpl in H. simplify_eq. by left. }
  apply list_elem_of_filter in Hin as [Hid Hin]. split; [done|].
  unfold all_orders in Hin. apply elem_of_app in Hin as [Hin|Hin];
    apply list_elem_of_split in Hin as (x & y & Hin); [exists true|exists false]; eauto.
Qed.

Lemma cancel_updates b id owner :
  book_inv b -> updates_ok b (snd (cancel id owner b)) (fst (cancel id owner b)).
Proof.
  intros Hb. unfold cancel.
  destruct (find_order id (all_orders b)) as [r|] eqn:Hf; [|apply updates_ok_none; set_solver].
  destruct (r_owner r =? owner); [|apply updates_ok_none; set_solver].
  destruct (find_order_side _ _ _ Hf) as (<- & buy & x & y & Hside).
  destruct (cancel_sides b buy r x y (bi_ids _ Hb) Hside) as [_ Hset]. cbn [fst snd].
  assert (Hval : r_side r = side_val buy).
  { pose proof (si_orders _ _ _ (bi_side _ Hb buy)) as Ho. rewrite Hside in Ho.
    apply Forall_app in Ho as [_ [(? & _) _]%Forall_cons]. done. }
  rewrite Hset, Hval. constructor.
  - intros ev Hin Ht. rewrite !elem_of_cons in Hin. destruct Hin as [->|[->|Hin]]; [done| |set_solver].
    exists buy. split; [done|]. simpl. by destruct buy.
  - intros buy' p Hne. rewrite side_of_set in Hne. destruct (Bool.eqb_spec buy buy') as [->|]; [|done].
    rewrite Hside, !level_qty_app, level_qty_cons in Hne.
    destruct (decide (r_price r = p)) as [<-|]; [|lia].
    eexists. split; [right; by left|]. done.
Qed.

(** ** Properties of single orders *)

Section Orders.
Context (P : resting -> Prop) (HP : forall r q, P r -> P (set_r_qty q r)).

Lemma sweep_Forall t opp : forall q, Forall P opp -> Forall P (snd (fst (sweep t q opp))).
Proof.
  induction opp as [|m opp IH]; intros q Hall; [done|]. simpl.
  pose proof Hall as [Hm Hopp]%Forall_cons.
  destruct (_ && _); [|done]. destruct (_ =? _); [|constructor; [by apply HP|done]].
  specialize (IH (q - Z.min (r_qty m) q) Hopp). by destruct (sweep _ _ _) as [[fs l] q'].
Qed.

(** What holds of the orders of a book whatever their quantity, and of an
    incoming order, holds of the orders of the book after it. *)
Lemma execute_Forall b t : Forall P (all_orders b) -> P t -> Forall P (all_orders (snd (execute b t))).
Proof.
  intros Hb Ht. unfold execute. rewrite (all_orders_perm (r_side t =? Sell)) in Hb.
  apply Forall_app in Hb as [Hopp Hown].
  pose proof (sweep_Forall t _ (r_qty t) Hopp) as Hopp'.
  destruct (sweep _ _ _) as [[fs opp] q]. cbn [fst snd] in Hopp'.
  set (b1 := set_side (r_side t =? Sell) opp (mkBook (s_bids b) (s_asks b) (int64 (s_next b + 1)))).
  assert (Hb1 : Forall P (all_orders b1)).
  { rewrite (all_orders_perm (r_side t =? Sell)). apply Forall_app. unfold b1.
    destruct (r_side t =? Sell); by split. }
  destruct (0 <? q); [|done]. cbn [snd]. rewrite (all_orders_perm (is_buy (r_side t))) in Hb1.
  apply Forall_app in Hb1 as [H1 H2]. rewrite (all_orders_perm (is_buy (r_side t))).
  apply Forall_app. rewrite !side_of_set, Bool.eqb_reflx, Bool.eqb_negb2. split; [|done].
  rewrite insert_order_perm. constructor; [by apply HP|done].
Qed.

Lemma cancel_Forall b id owner :
  Forall P (all_orders b) -> Forall P (all_orders (snd (cancel id owner b))).
Proof.
  intros Hb. unfold cancel. destruct (find_order _ _) as [r|]; [|done].
  destruct (r_owner r =? owner); [|done]. unfold all_orders, remove_order in *. simpl.
  apply Forall_app in Hb as [? ?]. apply Forall_app. split; by apply list_filter_Forall.
Qed.
End Orders.

(** The fields that are carried along unchanged have their machine types. *)
Definition order_typed (r : resting) : Prop :=
  is_int64 (r_clientOrderId r) /\ is_int64 (r_owner r) /\ is_int8 (r_side r) /\ is_int64 (r_price r).

Lemma place_typed b cmd :
  Forall order_typed (all_orders b) -> cmd_in_range cmd ->
  Forall order_typed (all_orders (snd (place cmd b))).
Proof.
  intros Hb (? & ? & ? & ? & ?). unfold place. destruct (c_Qty cmd <=? 0); [done|].
  destruct (c_Price cmd <=? 0); [done|]. by apply execute_Forall.
Qed.

(** ** Conservation of quantity

    Quantities are accounted per order: [P] selects the ids looked at, so the
    laws hold for one order, for the orders of an owner and for the whole
    book. *)

Definition sum_events (f : Event -> Z) (evs : list Event) : Z := foldr (fun ev n => f ev + n) 0 evs.

(** What one event says came in for an order, less what it says went out. *)
Definition net_qty (P : Z -> bool) (ev : Event) : Z :=
  if P (ev_OrderId ev) then
    match ev_Type ev with
    | EvAccepted => ev_Qty ev
    | EvFilled => - ev_Qty ev
    | EvCanceled => - ev_RemainingQty ev
    | _ => 0
    end
  else 0.

Definition qty_of (P : Z -> bool) (l : list resting) : Z :=
  foldr (fun r n => (if P (r_id r) then r_qty r else 0) + n) 0 l.

Lemma sum_events_cons f ev a : sum_events f (ev :: a) = f ev + sum_events f a.
Proof. done. Qed.

Lemma sum_events_app f a b : sum_events f (a ++ b) = sum_events f a + sum_events f b.
Proof. induction a as [|ev a IH]; simpl; lia. Qed.

Lemma sum_events_none f evs : (forall ev, ev ∈ evs -> f ev = 0) -> sum_events f evs = 0.
Proof.
  induction evs as [|ev evs IH]; intros H; [done|]. rewrite sum_events_cons.
  rewrite IH by set_solver. rewrite H by set_solver. done.
Qed.

#[export] Instance sum_qty_proper : Proper ((≡ₚ) ==> eq) sum_qty.
Proof. intros a b H. induction H; simpl in *; lia. Qed.

#[export] Instance qty_of_proper P : Proper ((≡ₚ) ==> eq) (qty_of P).
Proof. intros a b H. induction H; simpl in *; lia. Qed.

Lemma qty_of_app P a b : qty_of P (a ++ b) = qty_of P a + qty_of P b.
Proof. induction a as [|r a IH]; simpl in *; lia. Qed.

Lemma net_updates P side l ps : sum_events (net_qty P) (update_event side l <$> ps) = 0.
Proof.
  apply sum_events_none. intros ev (p & -> & _)%list_elem_of_fmap. unfold net_qty. simpl.
  by destruct (P 0).
Qed.

Section Conserve.
Context (P : Z -> bool).

Definition maker_sum (fs : list fill) : Z :=
  foldr (fun f n => (if P (r_id (f_maker f)) then f_qty f else 0) + n) 0 fs.

Lemma swept_qty_of t q opp fs opp' q' :
  swept t q opp fs opp' q' -> qty_of P opp = maker_sum fs + qty_of P opp'.
Proof. induction 1; simpl in *; try lia; destruct (P _); lia. Qed.

Lemma net_fill_events t fs :
  sum_events (net_qty P) (concat (fill_events t <$> fs)) =
    - maker_sum fs - (if P (r_id t) then fill_sum fs else 0).
Proof.
  induction fs as [|f fs IH]; [by destruct (P (r_id t))|]. rewrite fmap_cons. cbn [concat].
  rewrite sum_events_app, IH. unfold net_qty. simpl. destruct (P 0), (P (r_id t)), (P _); lia.
Qed.

Lemma qty_of_sides buy b :
  qty_of P (all_orders b) = qty_of P (side_of buy b) + qty_of P (side_of (negb buy) b).
Proof. by rewrite (all_orders_perm buy), qty_of_app. Qed.

Lemma execute_conserves b t :
  book_inv b -> (r_side t = Buy \/ r_side t = Sell) -> 0 <= r_qty t ->
  qty_of P (all_orders (snd (execute b t))) =
    qty_of P (all_orders b) + sum_events (net_qty P) (fst (execute b t)).
Proof.
  intros Hb Hside Hq. pose proof (execute_of_sides b t Hside) as Hex.
  pose proof (execute_events b t Hside) as Hev. cbn zeta in Hex, Hev.
  set (buy := is_buy (r_side t)) in *.
  pose proof (side_inv_positive _ _ _ (bi_side _ Hb (negb buy))) as Hpos.
  pose proof (sweep_swept t (r_qty t) (side_of (negb buy) b) Hq Hpos) as Hsw.
  pose proof (sweep_left_range t (r_qty t) (side_of (negb buy) b) Hq Hpos) as Hleft.
  destruct (sweep _ _ _) as [[fs opp'] q']. cbn [fst snd] in *. rewrite Hex, Hev.
  pose proof (swept_conserves _ _ _ _ _ _ Hsw) as [H1 _]. apply swept_qty_of in Hsw as H2.
  rewrite !(qty_of_sides buy), sum_events_cons.
  rewrite !sum_events_app, net_fill_events, net_updates.
  replace (side_of buy (of_sides buy _ _ _)) with
    (if 0 <? q' then insert_order buy (set_r_qty q' t) (side_of buy b) else side_of buy b)
    by by destruct buy.
  replace (side_of (negb buy) (of_sides buy _ _ _)) with opp' by by destruct buy.
  replace (sum_events (net_qty P) (if 0 <? q' then _ else _)) with 0.
  2: { destruct (0 <? q'); [|done]. unfold net_qty. simpl. by destruct (P 0). }
  unfold net_qty. simpl. destruct (Z.ltb_spec 0 q').
  - rewrite insert_order_perm. simpl. destruct (P (r_id t)); lia.
  - destruct (P (r_id t)); lia.
Qed.

Lemma place_conserves b cmd :
  book_inv b -> valid_cmd cmd ->
  qty_of P (all_orders (snd (place cmd b))) =
    qty_of P (all_orders b) + sum_events (net_qty P) (fst (place cmd b)).
Proof.
  intros Hb [_ Hs]. unfold place.
  destruct (Z.leb_spec (c_Qty cmd) 0); [unfold net_qty; simpl; destruct (P 0); lia|].
  destruct (Z.leb_spec (c_Price cmd) 0); [unfold net_qty; simpl; destruct (P 0); lia|].
  apply execute_conserves; [done|done|simpl; lia].
Qed.

Lemma cancel_conserves b id owner :
  book_inv b ->
  qty_of P (all_orders (snd (cancel id owner b))) =
    qty_of P (all_orders b) + sum_events (net_qty P) (fst (cancel id owner b)).
Proof.
  intros Hb. unfold cancel.
  destruct (find_order id (all_orders b)) as [r|] eqn:Hf;
    [|unfold net_qty; simpl; destruct (P id); lia].
  destruct (r_owner r =? owner); [|unfold net_qty; simpl; destruct (P id); lia].
  destruct (find_order_side _ _ _ Hf) as (<- & buy & x & y & Hside).
  destruct (cancel_sides b buy r x y (bi_ids _ Hb) Hside) as [_ Hset]. cbn [fst snd]. rewrite Hset.
  rewrite !(qty_of_sides buy), Hside.
  replace (side_of buy (set_side buy (x ++ y) b)) with (x ++ y) by by destruct buy.
  replace (side_of (negb buy) (set_side buy (x ++ y) b)) with (side_of (negb buy) b) by by destruct buy.
  rewrite !qty_of_app. unfold net_qty. simpl. destruct (P (r_id r)), (P 0); lia.
Qed.
End Conserve.

(** ** Quantities in a sweep *)

Definition order_pos (r : resting) : Prop := 0 < r_qty r <= MaxInt64.

Lemma order_pos_positive l : Forall order_pos l -> Forall (fun r => 0 < r_qty r) l.
Proof. intros Hl. eapply Forall_impl; [exact Hl|]. unfold order_pos. simpl. lia. Qed.

Lemma sum_qty_nonneg l : Forall order_pos l -> 0 <= sum_qty l.
Proof. induction 1 as [|r l Hr _ IH]; [done|]. rewrite sum_qty_cons. unfold order_pos in Hr. lia. Qed.

Lemma swept_left t q opp fs opp' q' :
  swept t q opp fs opp' q' -> 0 <= q -> 0 <= q' <= q /\ Forall (fun f => 0 <= f_left f <= q) fs.
Proof.
  induction 1 as [opp|q|q m opp Hc|q m opp Hq Hc|q m opp fs opp' q' Hq Hc H IH]; intros Hq0;
    try (split; [lia|constructor]).
  - simpl. lia.
  - constructor.
  - simpl. lia.
  - destruct (IH ltac:(lia)) as [IH1 IH2]. eapply Forall_impl; [exact IH2|]. simpl. lia.
Qed.

(** What a sweep leaves, and its executions. *)
Lemma swept_parts (P : resting -> Prop) t q opp fs opp' q' :
  swept t q opp fs opp' q' -> 0 <= q <= MaxInt64 -> Forall P opp -> Forall order_pos opp ->
  Forall (fun f => P (f_maker f) /\ order_pos (f_maker f) /\
                   0 < f_qty f <= r_qty (f_maker f) /\ 0 <= f_left f <= MaxInt64) fs /\
  Forall order_pos opp' /\ sum_qty opp' <= sum_qty opp /\ 0 <= q' <= q.
Proof.
  intros Hsw Hq He Hp. destruct (swept_left _ _ _ _ _ _ Hsw ltac:(lia)) as [Hq' Hleft].
  pose proof (swept_fills _ _ _ _ _ _ Hsw) as Hf.
  pose proof (swept_conserves _ _ _ _ _ _ Hsw) as [_ Hc].
  destruct (swept_priority _ _ _ _ _ _ Hsw) as (rest & Hmk & _). split_and!; try lia.
  - rewrite Hmk in He, Hp. apply Forall_app in He as [He _]. apply Forall_app in Hp as [Hp _].
    rewrite Forall_fmap in He, Hp. rewrite Forall_forall in *. intros f Hin.
    specialize (He f Hin). specialize (Hp f Hin). specialize (Hf f Hin). specialize (Hleft f Hin).
    simpl in *. split_and!; try done; try tauto; lia.
  - eapply swept_Forall; [|exact Hsw|exact Hp]. unfold order_pos. simpl. lia.
  - assert (0 <= fill_sum fs); [|lia].
    clear -Hf. induction Hf as [|f fs [_ ?] _ IH]; simpl in *; lia.
Qed.

(** ** Orders that only rest *)

Lemma sweep_uncrossed t q opp :
  Forall (fun m => crosses (r_side t) (r_price t) (r_price m) = false) opp -> sweep t q opp = ([], opp, q).
Proof. destruct 1 as [|m opp Hm _]; [done|]. simpl. by rewrite Hm, andb_false_r. Qed.

(** An order that nothing crosses is accepted and adds its quantity to its
    level, as far as an [int64] goes. *)
Lemma place_resting b cmd :
  c_Side cmd = Buy \/ c_Side cmd = Sell -> 0 < c_Qty cmd -> 0 < c_Price cmd ->
  let buy := is_buy (c_Side cmd) in
  Forall (fun m => crosses (c_Side cmd) (c_Price cmd) (r_price m) = false) (side_of (negb buy) b) ->
  fst (place cmd b) =
    [AcceptedEvent (s_next b) (c_ClientOrderId cmd) (c_Owner cmd) (c_Side cmd) (c_Price cmd) (c_Qty cmd);
     BookUpdateEvent (c_Side cmd) (c_Price cmd)
       (int64 (level_qty (c_Price cmd) (side_of buy b) + c_Qty cmd))].
Proof.
  intros Hside Hq Hp buy Hno. unfold place.
  destruct (Z.leb_spec (c_Qty cmd) 0); [lia|]. destruct (Z.leb_spec (c_Price cmd) 0); [lia|].
  pose proof (execute_events b (incoming b cmd) Hside) as Hev. cbn zeta in Hev.
  change (is_buy (r_side (incoming b cmd))) with buy in Hev.
  rewrite (sweep_uncrossed (incoming b cmd)) in Hev by exact Hno. rewrite Hev.
  cbn [incoming r_id r_clientOrderId r_owner r_side r_price r_qty fmap list_fmap concat app touched foldl].
  rewrite (proj2 (Z.ltb_lt _ _) Hq). f_equal. unfold update_event. rewrite insert_order_perm, level_qty_cons.
  cbn [set_r_qty incoming r_price r_qty]. rewrite decide_True by done.
  replace (side_val buy) with (c_Side cmd) by (unfold buy, is_buy; by destruct Hside as [-> | ->]).
  by rewrite Z.add_comm.
Qed.
