(* ===== verification/Engine.v ===== *)
(** * The matching engine: what the methods of [OrderBook] guarantee

    Commands, runs and reachable states of the book in the store, and the
    theorems about them, obtained from the refinement and the properties of
    the abstract book. *)
From S2P Require Import Prelude Events OrderBook BookSpec BookRep BookOps BookRefine BookProps.

(** ** Commands and runs *)

(** The two calls a client of [engine] makes. *)
Inductive command : Type :=
  | Submit (cmd : NewOrderCmd)
  | Withdraw (orderId owner : Z).

Definition exec (c : command) : go Engine (list Event) :=
  match c with
  | Submit cmd => NewLimitOrder cmd
  | Withdraw id owner => Cancel id owner
  end.

Fixpoint run (cs : list command) : go Engine (list Event) :=
  match cs with
  | [] => mret []
  | c :: cs' => evs ← exec c; rest ← run cs'; mret (evs ++ rest)
  end.

Definition exec_spec (c : command) (b : Book) : list Event * Book :=
  match c with
  | Submit cmd => place cmd b
  | Withdraw id owner => cancel id owner b
  end.

Fixpoint run_spec (cs : list command) (b : Book) : list Event * Book :=
  match cs with
  | [] => ([], b)
  | c :: cs' =>
      let '(evs, b1) := exec_spec c b in
      let '(rest, b2) := run_spec cs' b1 in
      (evs ++ rest, b2)
  end.

Definition in_range (c : command) : Prop :=
  match c with Submit cmd => cmd_in_range cmd | Withdraw _ _ => True end.
Definition valid (c : command) : Prop :=
  match c with Submit cmd => valid_cmd cmd | Withdraw _ _ => True end.

Lemma valid_in_range c : valid c -> in_range c.
Proof. destruct c; [by intros [? _]|done]. Qed.

(** ** Ids stay fresh whatever the commands *)

Definition ids_ok (b : Book) : Prop :=
  1 <= s_next b <= MaxInt64 /\ Forall (fun i => 1 <= i < s_next b) (r_id <$> all_orders b).

Lemma ids_ok_fresh b : ids_ok b -> s_next b ∉ (r_id <$> all_orders b).
Proof. intros [_ H] Hin. rewrite Forall_forall in H. specialize (H _ Hin). lia. Qed.

Lemma ids_ok_subset b l n :
  ids_ok b -> l ⊆ n :: (r_id <$> all_orders b) -> 1 <= n < s_next b + 1 ->
  Forall (fun i => 1 <= i < s_next b + 1) l.
Proof.
  intros [_ H] Hsub Hn. rewrite Forall_forall in H |- *.
  intros i Hi. apply Hsub, elem_of_cons in Hi as [->|Hi]; [lia|]. specialize (H _ Hi). lia.
Qed.

Lemma execute_ids b t :
  let b' := snd (execute b t) in
  r_id <$> all_orders b' ⊆ r_id t :: (r_id <$> all_orders b) /\
  s_next b' = int64 (s_next b + 1).
Proof.
  unfold execute. pose proof (sweep_ids t (r_qty t) (side_of (r_side t =? Sell) b)) as Hids.
  destruct (sweep _ _ _) as [[fs opp] q]. cbn [fst snd] in *.
  set (b1 := set_side _ opp _).
  assert (H1 : r_id <$> all_orders b1 ⊆ r_id <$> all_orders b).
  { apply (side_ids_subset (r_side t =? Sell)
      (mkBook (s_bids b) (s_asks b) (int64 (s_next b + 1)))). by destruct (r_side t =? Sell). }
  assert (Hn : s_next b1 = int64 (s_next b + 1)) by (unfold b1; by destruct (r_side t =? Sell)).
  destruct (0 <? q); cbn [snd]; [|split; [set_solver|done]].
  split; [|unfold set_side; by destruct (is_buy (r_side t))].
  rewrite (all_orders_perm (is_buy (r_side t))), side_of_set, Bool.eqb_reflx.
  rewrite side_of_set, Bool.eqb_negb2, insert_order_perm. simpl. rewrite (all_orders_perm (is_buy (r_side t))) in H1.
  rewrite fmap_app in H1 |- *. set_solver.
Qed.

Lemma ids_ok_remove b id :
  ids_ok b -> ids_ok (mkBook (remove_order id (s_bids b)) (remove_order id (s_asks b)) (s_next b)).
Proof.
  intros [H1 H2]. split; [done|].
  unfold all_orders in *. simpl. rewrite fmap_app in *. apply Forall_app in H2 as [Hb Ha].
  unfold remove_order. rewrite Forall_fmap in *. apply Forall_app.
  split; apply Forall_fmap; by apply list_filter_Forall.
Qed.

Lemma exec_ids_ok c b :
  ids_ok b -> s_next b < MaxInt64 ->
  ids_ok (snd (exec_spec c b)) /\ s_next b <= s_next (snd (exec_spec c b)) <= s_next b + 1.
Proof.
  intros Hok Hn. assert (Hid : ids_ok b /\ s_next b <= s_next b <= s_next b + 1) by (split; [done|lia]).
  destruct c as [cmd|id owner]; simpl.
  - unfold place. destruct (c_Qty cmd <=? 0); [done|]. destruct (c_Price cmd <=? 0); [done|].
    destruct (execute_ids b (incoming b cmd)) as [Hsub Hnx].
    rewrite sint_id in Hnx; [|done|destruct Hok; unfold is_sint, MaxInt64 in *; lia].
    split; [|lia]. split; [destruct Hok; lia|]. rewrite Hnx.
    eapply ids_ok_subset; [exact Hok|exact Hsub|]. destruct Hok. simpl. lia.
  - unfold cancel. destruct (find_order _ _) as [r|]; [|done]. destruct (r_owner r =? owner); [|done].
    simpl. split; [by apply ids_ok_remove|lia].
Qed.

(** ** Execution *)

Lemma exec_rep c e b :
  rep e b -> in_range c -> ids_ok b ->
  wp (exec c) (fun evs e' => evs = fst (exec_spec c b) /\ rep e' (snd (exec_spec c b))) e.
Proof.
  intros Hrep Hr Hids. destruct c as [cmd|id owner]; simpl.
  - apply NewLimitOrder_rep; [done|by apply cmd_in_range_max|by apply ids_ok_fresh].
  - by apply Cancel_rep.
Qed.

Lemma run_rep cs : forall e b,
  rep e b -> Forall in_range cs -> ids_ok b -> s_next b + Z.of_nat (length cs) <= MaxInt64 ->
  wp (run cs) (fun evs e' => evs = fst (run_spec cs b) /\ rep e' (snd (run_spec cs b)) /\
                             ids_ok (snd (run_spec cs b))) e.
Proof.
  induction cs as [|c cs IH]; intros e b Hrep Hr Hids Hlen; simpl; [by wp_step|].
  apply Forall_cons in Hr as [Hc Hr]. simpl in Hlen.
  destruct (exec_ids_ok c b Hids) as [Hids' Hn']; [lia|].
  wp_step. eapply wp_mono; [by apply exec_rep|]. intros evs e1 [-> Hrep1].
  destruct (exec_spec c b) as [evs b1]. simpl in *.
  wp_step. eapply wp_mono; [apply (IH e1 b1); try done; lia|].
  intros rest e2 (-> & Hrep2 & Hids2). destruct (run_spec cs b1) as [rest b2]. by wp_step.
Qed.

Lemma NewOrderBook_rep : rep NewOrderBook empty_book.
Proof.
  exists (mkSides [] []). split; [|split; [|done]].
  - constructor; [done|done| |split; simpl; intros l [x Hx]; by rewrite lookup_empty in Hx].
    by constructor; try constructor.
  - intros []; (split; [split; constructor|done]).
Qed.

Lemma empty_book_ids : ids_ok empty_book.
Proof. split; [simpl; unfold MaxInt64; lia|constructor]. Qed.

(** ** Reachable engines *)

Inductive step (e : Engine) : list Event -> Engine -> Prop :=
  | step_submit cmd evs e' :
      valid_cmd cmd -> b_nextOrderId (e_book e) < MaxInt64 ->
      NewLimitOrder cmd e = Ok (evs, e') -> step e evs e'
  | step_cancel id owner evs e' :
      Cancel id owner e = Ok (evs, e') -> step e evs e'.

(** [reachable evs e]: [e] is reached from an empty book by valid commands
    that emitted [evs]. *)
Inductive reachable : list Event -> Engine -> Prop :=
  | reachable_init : reachable [] NewOrderBook
  | reachable_step evs e evs' e' :
      reachable evs e -> step e evs' e' -> reachable (evs ++ evs') e'.

Lemma wp_result {S A} (c : go S A) Q s a s' : wp c Q s -> c s = Ok (a, s') -> Q a s'.
Proof. unfold wp. intros H Heq. by rewrite Heq in H. Qed.

Lemma rep_next e b : rep e b -> b_nextOrderId (e_book e) = s_next b.
Proof. by intros [G (_ & _ & ?)]. Qed.

Lemma book_inv_ids b : book_inv b -> ids_ok b.
Proof.
  intros Hb. split; [apply (bi_next _ Hb)|]. unfold all_orders. rewrite fmap_app.
  apply Forall_app. split; apply Forall_fmap;
    [pose proof (bi_side _ Hb true) as [_ Ho]|pose proof (bi_side _ Hb false) as [_ Ho]];
    (eapply Forall_impl; [exact Ho|]); simpl; lia.
Qed.

(** One step: the events and the book are those of the abstract operation. *)
Lemma step_spec e b evs e' :
  rep e b -> book_inv b -> step e evs e' ->
  exists c, valid c /\ (forall cmd, c = Submit cmd -> s_next b < MaxInt64) /\
    evs = fst (exec_spec c b) /\ rep e' (snd (exec_spec c b)) /\ book_inv (snd (exec_spec c b)).
Proof.
  intros Hrep Hb Hstep. pose proof (book_inv_ids _ Hb) as Hids.
  destruct Hstep as [cmd evs e' Hv Hn Heq|id owner evs e' Heq].
  - rewrite (rep_next _ _ Hrep) in Hn. exists (Submit cmd).
    destruct (wp_result _ _ _ _ _ (exec_rep (Submit cmd) e b Hrep (proj1 Hv) Hids) Heq) as [-> Hrep'].
    split_and!; try done. by apply place_inv.
  - exists (Withdraw id owner).
    destruct (wp_result _ _ _ _ _ (exec_rep (Withdraw id owner) e b Hrep I Hids) Heq) as [-> Hrep'].
    split_and!; try done. by apply cancel_inv.
Qed.

Lemma exec_updates c b :
  book_inv b -> valid c -> updates_ok b (snd (exec_spec c b)) (fst (exec_spec c b)).
Proof. destruct c; [apply place_updates|intros; by apply cancel_updates]. Qed.

Lemma exec_conserves P c b :
  book_inv b -> valid c ->
  qty_of P (all_orders (snd (exec_spec c b))) =
    qty_of P (all_orders b) + sum_events (net_qty P) (fst (exec_spec c b)).
Proof. destruct c; [apply place_conserves|intros; by apply cancel_conserves]. Qed.

(** The ids given out, in the order of acceptance. *)
Definition accepted_ids (evs : list Event) : list Z :=
  ev_OrderId <$> filter (fun ev => ev_Type ev = EvAccepted) evs.

Lemma accepted_ids_app a b : accepted_ids (a ++ b) = accepted_ids a ++ accepted_ids b.
Proof. unfold accepted_ids. by rewrite filter_app, fmap_app. Qed.

Lemma accepted_ids_none evs :
  Forall (fun ev => ev_Type ev <> EvAccepted) evs -> accepted_ids evs = [].
Proof. intros H. unfold accepted_ids. by rewrite list_filter_none. Qed.

Lemma updates_not_accepted side l ps :
  Forall (fun ev => ev_Type ev <> EvAccepted) (update_event side l <$> ps).
Proof. apply Forall_fmap, Forall_true. done. Qed.

Lemma fills_not_accepted t fs :
  Forall (fun ev => ev_Type ev <> EvAccepted) (concat (fill_events t <$> fs)).
Proof. induction fs as [|f fs IH]; [constructor|]. by repeat constructor. Qed.

Lemma execute_accepted b t : accepted_ids (fst (execute b t)) = [r_id t].
Proof.
  unfold execute. destruct (sweep _ _ _) as [[fs opp] q].
  pose proof (fills_not_accepted t fs) as H1.
  pose proof (updates_not_accepted (if r_side t =? Sell then Buy else Sell) opp (touched fs)) as H2.
  assert (Hcons : forall evs, Forall (fun ev => ev_Type ev <> EvAccepted) evs ->
    accepted_ids (AcceptedEvent (r_id t) (r_clientOrderId t) (r_owner t) (r_side t) (r_price t)
      (r_qty t) :: evs) = [r_id t]).
  { intros evs H. unfold accepted_ids. rewrite filter_cons_True by done.
    fold (accepted_ids evs). rewrite fmap_cons. f_equal. by apply accepted_ids_none. }
  destruct (0 <? q); apply Hcons; rewrite !Forall_app; [|done]. split_and!; try done.
  by repeat constructor.
Qed.

Lemma exec_accepted c b :
  ids_ok b -> (forall cmd, c = Submit cmd -> s_next b < MaxInt64) ->
  accepted_ids (fst (exec_spec c b)) =
    seqZ (s_next b) (s_next (snd (exec_spec c b)) - s_next b).
Proof.
  intros [Hn _] Hlt.
  assert (Hzero : [] = seqZ (s_next b) (s_next b - s_next b)) by by rewrite Z.sub_diag.
  destruct c as [cmd|id owner]; simpl.
  - unfold place. specialize (Hlt cmd eq_refl).
    destruct (c_Qty cmd <=? 0); [done|]. destruct (c_Price cmd <=? 0); [done|].
    rewrite execute_accepted. destruct (execute_ids b (incoming b cmd)) as [_ ->].
    rewrite sint_id; [|done|unfold is_sint, MaxInt64 in *; lia].
    by replace (s_next b + 1 - s_next b) with 1 by lia.
  - unfold cancel. destruct (find_order _ _) as [r|]; [|done]. by destruct (r_owner r =? owner).
Qed.

Lemma exec_next c b :
  ids_ok b -> (forall cmd, c = Submit cmd -> s_next b < MaxInt64) ->
  s_next b <= s_next (snd (exec_spec c b)) <= s_next b + 1.
Proof.
  intros Hok Hlt. destruct c as [cmd|id owner].
  - apply exec_ids_ok; [done|]. by apply (Hlt cmd).
  - simpl. unfold cancel. destruct (find_order _ _) as [r|]; [|simpl; lia].
    destruct (r_owner r =? owner); simpl; lia.
Qed.

(** What every reachable engine satisfies, with the history of its events. *)
Record history_ok (evs : list Event) (e : Engine) (b : Book) : Prop := mkHistory {
  ho_rep : rep e b;
  ho_inv : book_inv b;
  ho_depth : mirrors (foldl apply_update no_depth evs) b;
  ho_qty : forall P, qty_of P (all_orders b) = sum_events (net_qty P) evs;
  ho_typed : Forall order_typed (all_orders b);
  ho_ids : accepted_ids evs = seqZ 1 (s_next b - 1)
}.

Lemma reachable_history evs e : reachable evs e -> exists b, history_ok evs e b.
Proof.
  induction 1 as [|evs e evs' e' _ (b & [Hrep Hb Hd Hq Hty Hi]) Hstep].
  - exists empty_book. constructor; [apply NewOrderBook_rep|apply empty_book_inv| |done|constructor|done].
    by intros [] p.
  - destruct (step_spec _ _ _ _ Hrep Hb Hstep) as (c & Hv & Hlt & -> & Hrep' & Hb').
    pose proof (book_inv_ids _ Hb) as Hids. eexists. constructor; [exact Hrep'|exact Hb'|..].
    + rewrite foldl_app. eapply mirrors_updates; [exact Hd|]. by apply exec_updates.
    + intros P. rewrite sum_events_app, <- Hq. by apply exec_conserves.
    + destruct c; [apply place_typed; [done|apply Hv]|by apply cancel_Forall].
    + rewrite accepted_ids_app, Hi, exec_accepted by done. symmetry.
      pose proof (bi_next _ Hb). pose proof (exec_next c b Hids Hlt).
      replace (s_next (snd (exec_spec c b)) - 1)
        with (s_next b - 1 + (s_next (snd (exec_spec c b)) - s_next b)) by lia.
      rewrite seqZ_app by lia. do 2 f_equal. lia.
Qed.

(** A run of valid commands reaches its final engine. *)
Lemma reachable_run cs : forall evs e evs' e',
  reachable evs e -> Forall valid cs ->
  b_nextOrderId (e_book e) + Z.of_nat (length cs) <= MaxInt64 ->
  run cs e = Ok (evs', e') -> reachable (evs ++ evs') e'.
Proof.
  induction cs as [|c cs IH]; intros evs e evs' e' Hre Hv Hn Hrun; simpl in Hrun.
  { injection Hrun as <- <-. by rewrite app_nil_r. }
  apply Forall_cons in Hv as [Hc Hv]. simpl in Hn.
  destruct (reachable_history _ _ Hre) as (b & [Hrep Hb _ _ _ _]).
  pose proof (book_inv_ids _ Hb) as Hids. rewrite (rep_next _ _ Hrep) in Hn.
  destruct (wp_elim _ _ _ (exec_rep c e b Hrep (valid_in_range _ Hc) Hids))
    as (evs1 & e1 & Hex & _ & Hrep1).
  unfold mbind, go_bind in Hrun. rewrite Hex in Hrun.
  destruct (run cs e1) as [[rest e2]|] eqn:Hrest; [|done]. injection Hrun as <- <-.
  rewrite app_assoc. apply (IH _ e1); [|done| |done].
  - eapply reachable_step; [exact Hre|]. destruct c as [cmd|id owner].
    + eapply step_submit; [exact Hc| |exact Hex]. rewrite (rep_next _ _ Hrep). lia.
    + by eapply step_cancel.
  - rewrite (rep_next _ _ Hrep1).
    destruct (exec_ids_ok c b Hids) as [_ ?]; lia.
Qed.

Lemma repG_head_price e G b buy l v :
  repG e G b -> book_inv b -> head (slice_of buy (e_book e)) = Some l ->
  st_levels (e_store e) !! l = Some v ->
  exists r, r ∈ side_of buy b /\ pl_price v = r_price r.
Proof.
  intros (Hs & Hsides & _) Hb Hh Hv. rewrite (shape_slice buy _ _ Hs) in Hh.
  destruct (Hsides buy) as [[_ Hok] <-].
  pose proof (lk_groups _ _ (shape_linked buy _ _ Hs)) as [Hrep _]%Forall_app.
  destruct (gside buy G) as [|g gs]; [done|]. simpl in Hh. simplify_eq.
  apply Forall_cons in Hrep as [[Hlv _] _]. rewrite Hlv in Hv. simplify_eq. simpl.
  apply Forall_cons in Hok as [[Hne Ho _] _]. destruct (g_ords g) as [|[l r] os] eqn:Hg; [done|].
  exists r. rewrite flat_cons, Hg. split; [set_solver|]. by apply Forall_cons in Ho as [[<- _] _].
Qed.

(** The orders of a book in the store have positive quantities. *)
Lemma rep_pos e b : rep e b -> Forall order_pos (all_orders b).
Proof.
  intros [G (_ & Hsides & _)]. rewrite (all_orders_perm true). apply Forall_app.
  assert (Hside : forall buy, Forall order_pos (side_of buy b)).
  { intros buy. destruct (Hsides buy) as [[_ Hok] <-].
    induction Hok as [|g gs Hg _ IH]; [constructor|]. rewrite flat_cons. apply Forall_app.
    split; [|done]. eapply Forall_impl; [apply (go_orders _ _ Hg)|]. by intros r (_ & _ & ?). }
  split; apply Hside.
Qed.
