(* ===== verification/EngineTheorems.v ===== *)
(** * The matching engine: its theorems

    What the methods of [OrderBook] guarantee, stated of the book in the
    store: total refinement of the price-time book, the invariant of every
    reachable engine, exactness of the published depth, accounting of every
    order, priority of trades, and the two ways in which the code leaves its
    contract. *)
From S2P Require Import Prelude Events OrderBook BookSpec BookRep BookOps BookRefine BookProps Engine.

(** ** Reading the representation at the level of the store *)

(** The group behind a level of a slice. *)
Lemma repG_level e G b buy l v :
  repG e G b -> l ∈ slice_of buy (e_book e) -> st_levels (e_store e) !! l = Some v ->
  exists g, g ∈ gside buy G /\ group_ok buy g /\ pl_price v = g_price g /\ pl_totalQty v = g_total g.
Proof.
  intros (Hs & Hsides & _) Hl Hv. rewrite (shape_slice buy _ _ Hs) in Hl.
  apply list_elem_of_fmap in Hl as (g & -> & Hg). exists g.
  destruct (Hsides buy) as [[_ Hok] _]. rewrite Forall_forall in Hok.
  pose proof (lk_groups _ _ (shape_linked buy _ _ Hs)) as [Hrep _]%Forall_app.
  rewrite Forall_forall in Hrep. destruct (Hrep g Hg) as [Hlv _]. rewrite Hlv in Hv. simplify_eq.
  split_and!; try done. by apply Hok.
Qed.

(** A level object holds the quantity resting at its price. *)
Lemma repG_level_total e G b buy l v :
  repG e G b -> l ∈ slice_of buy (e_book e) -> st_levels (e_store e) !! l = Some v ->
  pl_totalQty v = int64 (level_qty (pl_price v) (side_of buy b)).
Proof.
  intros Hrep Hl Hv. destruct (repG_level _ _ _ _ _ _ Hrep Hl Hv) as (g & Hg & Hok & -> & ->).
  destruct Hrep as (_ & Hsides & _). destruct (Hsides buy) as [[Hsort Hall] <-].
  apply list_elem_of_split in Hg as (g1 & g2 & Heq). rewrite Heq in Hsort, Hall |- *.
  apply Forall_app in Hall as [Hg1 [_ Hg2]%Forall_cons].
  rewrite flat_app, flat_cons, !level_qty_app, (level_qty_group _ buy) by done.
  rewrite decide_True by done. rewrite (go_total buy) by done.
  rewrite fmap_app, fmap_cons in Hsort.
  apply StronglySorted_app in Hsort as (H12 & _ & [H2 _]%StronglySorted_cons).
  rewrite (level_qty_absent _ buy g1), (level_qty_absent _ buy g2); [f_equal; lia|done| |done|].
  - intros Hin. rewrite Forall_forall in H2. specialize (H2 _ Hin). by rewrite better_irrefl in H2.
  - intros Hin. specialize (H12 _ (g_price g) Hin ltac:(set_solver)). by rewrite better_irrefl in H12.
Qed.

(** A price with no level has nothing resting at it. *)
Lemma repG_no_level e G b buy p :
  repG e G b ->
  (forall l v, l ∈ slice_of buy (e_book e) -> st_levels (e_store e) !! l = Some v -> pl_price v <> p) ->
  level_qty p (side_of buy b) = 0.
Proof.
  intros (Hs & Hsides & _) Hno. destruct (Hsides buy) as [[_ Hok] <-].
  apply (level_qty_absent _ buy); [done|]. intros Hin.
  apply list_elem_of_fmap in Hin as (g & -> & Hg).
  pose proof (lk_groups _ _ (shape_linked buy _ _ Hs)) as [Hrep _]%Forall_app.
  rewrite Forall_forall in Hrep. destruct (Hrep g Hg) as [Hlv _].
  eapply Hno; [|exact Hlv|done]. rewrite (shape_slice buy _ _ Hs). by apply list_elem_of_fmap_2.
Qed.

(** The id map leads to the orders of the book. *)
Lemma rep_lookup e b id l o :
  rep e b -> b_orders (e_book e) !! id = Some l -> st_orders (e_store e) !! l = Some o ->
  exists r, r ∈ all_orders b /\ r_id r = id /\ exists lvl pv nx, o = cell r (Some lvl) pv nx.
Proof.
  intros [G (Hs & Hsides & _)] Hid Ho. pose proof (sh_linked _ _ Hs) as Hlk.
  rewrite (lk_orders _ _ Hlk) in Hid. apply index_lookup_inv in Hid as (r & Hin & Hr).
  exists r. apply elem_of_pairs in Hin as Hg. destruct Hg as (g & Hg & Hin').
  pose proof (lk_groups _ _ Hlk) as Hrep. rewrite Forall_forall in Hrep.
  destruct (dll_lookup _ _ _ _ _ _ _ (proj2 (Hrep g Hg)) Hin') as (pv & nx & Hc).
  rewrite Hc in Ho. simplify_eq. split; [|split; [done|eauto]].
  unfold all_orders. change (s_bids b) with (side_of true b). change (s_asks b) with (side_of false b).
  rewrite <- (proj2 (Hsides true)), <- (proj2 (Hsides false)), <- flat_app.
  by apply (list_elem_of_fmap_2 snd _ _ Hin).
Qed.

Lemma rep_index e b id :
  rep e b -> is_Some (b_orders (e_book e) !! id) <-> id ∈ (r_id <$> all_orders b).
Proof.
  intros [G Hrep]. rewrite <- (repG_ids _ _ _ Hrep). destruct Hrep as (Hs & _ & _).
  rewrite (lk_orders _ _ (sh_linked _ _ Hs)). split.
  - intros [l Hl]. apply index_lookup_inv in Hl as (r & Hin & <-).
    unfold ids. apply list_elem_of_fmap_2. by apply (list_elem_of_fmap_2 snd _ _ Hin).
  - intros Hin. destruct (index _ !! id) eqn:Heq; [done|].
    by apply index_lookup_None in Heq.
Qed.

(** An order's own quantity, seen through the accounting of its id. *)
Lemma qty_of_other id l : id ∉ (r_id <$> l) -> qty_of (Z.eqb id) l = 0.
Proof.
  induction l as [|r l IH]; [done|]. rewrite fmap_cons, not_elem_of_cons. intros [Hne Hl].
  simpl. rewrite IH by done. destruct (Z.eqb_spec id (r_id r)); [done|lia].
Qed.

Lemma qty_of_unique l r :
  NoDup (r_id <$> l) -> r ∈ l -> qty_of (Z.eqb (r_id r)) l = r_qty r.
Proof.
  intros Hnd Hin. apply list_elem_of_split in Hin as (a & b & ->).
  assert (Hp : a ++ r :: b ≡ₚ r :: a ++ b) by by rewrite <- Permutation_middle.
  rewrite Hp in Hnd |- *. rewrite fmap_cons in Hnd. apply NoDup_cons in Hnd as [Hn _].
  simpl. rewrite Z.eqb_refl, qty_of_other by done. lia.
Qed.

(** The priority of one order's executions, from the sweep of the opposite
    side. *)
Lemma place_trades b cmd :
  book_inv b -> valid_cmd cmd -> 0 < c_Qty cmd -> 0 < c_Price cmd ->
  let t := incoming b cmd in
  let buy := is_buy (c_Side cmd) in
  exists fs rest updates,
    fst (place cmd b) =
      AcceptedEvent (r_id t) (r_clientOrderId t) (r_owner t) (r_side t) (r_price t) (r_qty t)
        :: concat (fill_events t <$> fs) ++ updates /\
    Forall (fun ev => ev_Type ev = EvBookUpdate) updates /\
    side_of (negb buy) b = (f_maker <$> fs) ++ rest /\
    StronglySorted (prio (negb buy)) (side_of (negb buy) b) /\
    Forall (fun f => crosses (c_Side cmd) (c_Price cmd) (r_price (f_maker f)) = true /\
                     0 < f_qty f <= r_qty (f_maker f)) fs /\
    (forall f f' fs', f :: f' :: fs' `suffix_of` fs -> f_qty f = r_qty (f_maker f)) /\
    (fill_sum fs < c_Qty cmd ->
       Forall (fun m => crosses (c_Side cmd) (c_Price cmd) (r_price m) = false) rest).
Proof.
  intros Hb [_ Hside] Hq Hp t buy. unfold place.
  destruct (Z.leb_spec (c_Qty cmd) 0); [lia|]. destruct (Z.leb_spec (c_Price cmd) 0); [lia|].
  fold t. pose proof (execute_events b t Hside) as Hev. cbn zeta in Hev. fold t in Hev.
  change (is_buy (r_side t)) with buy in Hev.
  pose proof (bi_side _ Hb (negb buy)) as Hsi.
  pose proof (sweep_swept t (r_qty t) (side_of (negb buy) b) ltac:(simpl; lia)
    (side_inv_positive _ _ _ Hsi)) as Hsw.
  destruct (sweep _ _ _) as [[fs opp] q]. cbn [fst snd] in Hsw.
  pose proof (swept_fills _ _ _ _ _ _ Hsw) as Hf.
  pose proof (swept_conserves _ _ _ _ _ _ Hsw) as [Hc _].
  assert (Hss : StronglySorted (prio (r_side t =? Sell)) (side_of (negb buy) b)).
  { replace (r_side t =? Sell) with (negb buy); [by apply Hsi|].
    unfold buy, is_buy. simpl. by destruct Hside as [-> | ->]. }
  pose proof (swept_exhausts _ _ _ _ _ _ Hsw Hss Hside) as Hex.
  destruct (swept_priority _ _ _ _ _ _ Hsw) as (rest & Hopp & Hlast).
  exists fs, rest. eexists. split; [exact Hev|]. split_and!; try done; try apply Hsi.
  - apply Forall_app. split; [by apply Forall_fmap, Forall_true|].
    destruct (0 <? q); by repeat constructor.
  - intros f f' fs' [pre ->].
    assert (Hf0 : forall fs0 x, pre ++ f :: f' :: fs' = fs0 ++ [x] -> f ∈ fs0).
    { intros fs0 x Heq. destruct fs' as [|y ys _] using rev_ind.
      - change (pre ++ [f; f']) with (pre ++ [f] ++ [f']) in Heq. rewrite app_assoc in Heq.
        apply app_inj_tail in Heq as [<- _]. set_solver.
      - change (f :: f' :: ys ++ [y]) with ((f :: f' :: ys) ++ [y]) in Heq.
        rewrite app_assoc in Heq. apply app_inj_tail in Heq as [<- _]. set_solver. }
    destruct Hlast as [[Hfull _]|(fs0 & m & x & Heq & _ & _ & Hfull & _)];
      rewrite Forall_forall in Hfull; apply Hfull; [set_solver|by eapply Hf0].
  - intros Hlt. simpl in Hc. destruct Hlast as [[_ <-]|(fs0 & m & x & _ & _ & Hq0 & _ & _)]; [|lia].
    apply Hex. lia.
Qed.

(** Ranges and sides of concrete commands. *)
Ltac solve_valid := split; [repeat split; by vm_compute|first [by left|by right]].

(** ** A populated engine, on which the theorems are instantiated *)

Definition sample_commands : list command :=
  [Submit (mkNewOrderCmd 1 11 Sell 101 5); Submit (mkNewOrderCmd 2 12 Sell 101 7);
   Submit (mkNewOrderCmd 3 13 Sell 103 4); Submit (mkNewOrderCmd 4 14 Buy 99 6);
   Submit (mkNewOrderCmd 5 15 Buy 101 8)].
Definition sample_result : list Event * Engine :=
  match run sample_commands NewOrderBook with
  | Ok r => r
  | Panic _ => ([], NewOrderBook)
  end.
Definition sample_events : list Event := fst sample_result.
Definition sample_engine : Engine := snd sample_result.
Definition sample_book : Book := snd (run_spec sample_commands empty_book).

Lemma sample_commands_valid : Forall valid sample_commands.
Proof. repeat (constructor; [solve_valid|]); constructor. Qed.

Lemma sample_run : run sample_commands NewOrderBook = Ok (sample_events, sample_engine).
Proof. vm_compute. reflexivity. Qed.

Lemma run_result cs evs e :
  Forall valid cs -> Z.of_nat (length cs) < MaxInt64 -> run cs NewOrderBook = Ok (evs, e) ->
  rep e (snd (run_spec cs empty_book)).
Proof.
  intros Hv Hlen Hrun.
  assert (Hr : Forall in_range cs) by (eapply Forall_impl; [exact Hv|]; apply valid_in_range).
  eapply wp_result in Hrun; [|apply run_rep; [apply NewOrderBook_rep|done|apply empty_book_ids|simpl; lia]].
  apply Hrun.
Qed.

Lemma run_reachable cs evs e :
  Forall valid cs -> Z.of_nat (length cs) < MaxInt64 -> run cs NewOrderBook = Ok (evs, e) ->
  reachable evs e.
Proof.
  intros Hv Hlen Hrun. apply (reachable_run cs [] NewOrderBook evs e reachable_init Hv); [|done].
  simpl. lia.
Qed.

Lemma sample_reachable : reachable sample_events sample_engine.
Proof.
  eapply run_reachable; [apply sample_commands_valid|vm_compute; reflexivity|apply sample_run].
Qed.

Lemma sample_rep : rep sample_engine sample_book.
Proof.
  eapply run_result; [apply sample_commands_valid|vm_compute; reflexivity|apply sample_run].
Qed.

Lemma run_spec_inv cs : forall b,
  book_inv b -> Forall valid cs -> s_next b + Z.of_nat (length cs) <= MaxInt64 ->
  book_inv (snd (run_spec cs b)).
Proof.
  induction cs as [|c cs IH]; intros b Hb Hv Hn; [done|]. apply Forall_cons in Hv as [Hc Hv].
  simpl in *. destruct (exec_ids_ok c b (book_inv_ids _ Hb)) as [_ Hnx]; [lia|].
  assert (Hb' : book_inv (snd (exec_spec c b))).
  { destruct c; [apply place_inv; [done|lia|done]|by apply cancel_inv]. }
  destruct (exec_spec c b) as [evs b1]. simpl in *.
  specialize (IH b1 Hb' Hv ltac:(lia)). by destruct (run_spec cs b1).
Qed.

Lemma sample_inv : book_inv sample_book.
Proof.
  apply run_spec_inv; [apply empty_book_inv|apply sample_commands_valid|vm_compute; discriminate].
Qed.

(** ** Refinement *)

(** C1: On a store that represents a price-time book, [NewLimitOrder]
    returns (it neither panics nor runs out of fuel) exactly the events the
    abstract book prescribes, on every branch, and the store it leaves
    represents the abstract book after the order. *)
Theorem NewLimitOrder_refines e b cmd :
  rep e b -> c_Qty cmd <= MaxInt64 -> s_next b ∉ (r_id <$> all_orders b) ->
  exists e', NewLimitOrder cmd e = Ok (fst (place cmd b), e') /\ rep e' (snd (place cmd b)).
Proof.
  intros Hrep Hq Hn. destruct (wp_elim _ _ _ (NewLimitOrder_rep e b cmd Hrep Hq Hn))
    as (evs & e' & Hrun & -> & Hrep'). eauto.
Qed.

Lemma NewLimitOrder_refines_witness :
  let cmd := mkNewOrderCmd 6 16 Buy 102 9 in
  exists e', NewLimitOrder cmd sample_engine = Ok (fst (place cmd sample_book), e') /\
             rep e' (snd (place cmd sample_book)).
Proof.
  apply NewLimitOrder_refines;
    [apply sample_rep|vm_compute; discriminate|apply ids_ok_fresh, book_inv_ids, sample_inv].
Defined.

(** C2: On a store that represents a price-time book, [Cancel] returns
    exactly the abstract book's events (cancellation and depth, unknown
    order, or not the owner) and the store it leaves represents the abstract
    book after the cancel. *)
Theorem Cancel_refines e b id owner :
  rep e b ->
  exists e', Cancel id owner e = Ok (fst (cancel id owner b), e') /\ rep e' (snd (cancel id owner b)).
Proof.
  intros Hrep. destruct (wp_elim _ _ _ (Cancel_rep e b id owner Hrep))
    as (evs & e' & Hrun & -> & Hrep'). eauto.
Qed.

Lemma Cancel_refines_witness :
  exists e', Cancel 2 12 sample_engine = Ok (fst (cancel 2 12 sample_book), e') /\
             rep e' (snd (cancel 2 12 sample_book)).
Proof. apply Cancel_refines, sample_rep. Defined.

(** C3: From an empty book, no sequence of commands with [int64] fields,
    whatever their sides, makes the engine panic or loop, as long as the id
    counter has not run through the [int64]s: the run returns the events of
    the abstract book. *)
Theorem run_total cs :
  Forall in_range cs -> Z.of_nat (length cs) < MaxInt64 ->
  exists e', run cs NewOrderBook = Ok (fst (run_spec cs empty_book), e') /\
             rep e' (snd (run_spec cs empty_book)).
Proof.
  intros Hr Hlen.
  destruct (wp_elim _ _ _ (run_rep cs NewOrderBook empty_book NewOrderBook_rep Hr empty_book_ids
    ltac:(simpl; lia))) as (evs & e' & Hrun & -> & Hrep' & _). eauto.
Qed.

Lemma run_total_witness :
  exists e', run (sample_commands ++ [Submit (mkNewOrderCmd 6 16 (-128) 1 100)]) NewOrderBook =
    Ok (fst (run_spec (sample_commands ++ [Submit (mkNewOrderCmd 6 16 (-128) 1 100)]) empty_book), e') /\
    rep e' (snd (run_spec (sample_commands ++ [Submit (mkNewOrderCmd 6 16 (-128) 1 100)]) empty_book)).
Proof.
  apply run_total; [|vm_compute; reflexivity].
  repeat (constructor; [repeat split; by vm_compute|]). constructor.
Defined.

(** ** Reachable engines *)

Lemma heads_uncrossed e b bp ap bid ask :
  rep e b -> book_inv b ->
  head (b_bids (e_book e)) = Some bp -> st_levels (e_store e) !! bp = Some bid ->
  head (b_asks (e_book e)) = Some ap -> st_levels (e_store e) !! ap = Some ask ->
  pl_price bid < pl_price ask.
Proof.
  intros [G Hrep] Hinv Hb Hbv Ha Hav.
  destruct (repG_head_price e G b true bp bid Hrep Hinv Hb Hbv) as (x & Hx & ->).
  destruct (repG_head_price e G b false ap ask Hrep Hinv Ha Hav) as (y & Hy & ->).
  by apply (bi_uncrossed _ Hinv).
Qed.

(** C4: Every engine reached by valid commands represents a book in which
    each side is in price-time priority, every order has its own id, a
    positive quantity and price and the side it rests on, and no bid reaches
    an ask; in the store, the level at the head of the bids is priced strictly
    below the level at the head of the asks. *)
Theorem reachable_book evs e :
  reachable evs e ->
  (exists b, rep e b /\ book_inv b) /\
  (forall bp ap bid ask,
     head (b_bids (e_book e)) = Some bp -> st_levels (e_store e) !! bp = Some bid ->
     head (b_asks (e_book e)) = Some ap -> st_levels (e_store e) !! ap = Some ask ->
     pl_price bid < pl_price ask).
Proof.
  intros H. destruct (reachable_history _ _ H) as (b & [Hrep Hinv _ _ _ _]).
  split; [by exists b|]. intros. by eapply heads_uncrossed.
Qed.

Lemma reachable_book_witness :
  (exists b, rep sample_engine b /\ book_inv b) /\
  exists bid ask,
    head (b_bids (e_book sample_engine)) ≫= (st_levels (e_store sample_engine) !!.) = Some bid /\
    head (b_asks (e_book sample_engine)) ≫= (st_levels (e_store sample_engine) !!.) = Some ask /\
    pl_price bid < pl_price ask.
Proof.
  destruct (reachable_book _ _ sample_reachable) as [H1 H2]. split; [exact H1|].
  eexists _, _. split; [vm_compute; reflexivity|]. split; [vm_compute; reflexivity|].
  eapply H2; vm_compute; reflexivity.
Defined.

(** C5: A subscriber that keeps the last [BookUpdate] per side and price has,
    after any history of a reachable engine, exactly the total of every
    level object of the book, and zero where the book has no level. *)
Theorem depth_feed_exact evs e buy :
  reachable evs e ->
  let d := foldl apply_update no_depth evs in
  (forall l v, l ∈ slice_of buy (e_book e) -> st_levels (e_store e) !! l = Some v ->
     d (side_val buy) (pl_price v) = pl_totalQty v) /\
  (forall p, (forall l v, l ∈ slice_of buy (e_book e) -> st_levels (e_store e) !! l = Some v ->
                pl_price v <> p) -> d (side_val buy) p = 0).
Proof.
  intros H d. destruct (reachable_history _ _ H) as (b & [[G Hrep] _ Hd _ _ _]). split.
  - intros l v Hl Hv. rewrite Hd. symmetry. by eapply repG_level_total.
  - intros p Hp. rewrite Hd. by rewrite (repG_no_level _ _ _ _ _ Hrep Hp).
Qed.

Lemma depth_feed_exact_witness :
  let d := foldl apply_update no_depth sample_events in
  (forall l v, l ∈ slice_of false (e_book sample_engine) ->
     st_levels (e_store sample_engine) !! l = Some v ->
     d (side_val false) (pl_price v) = pl_totalQty v) /\
  d Sell 101 = 4 /\ d Sell 103 = 4 /\ d Buy 99 = 6.
Proof.
  split; [apply (depth_feed_exact sample_events sample_engine false sample_reachable)|].
  vm_compute. done.
Defined.

(** C6: Per-order accounting: in every reachable engine the quantity of a
    resting order is what was accepted for its id, less what was filled and
    canceled, summed over the whole history; for an id that is not in the
    book the sum is zero. *)
Theorem order_accounting evs e id :
  reachable evs e ->
  match b_orders (e_book e) !! id with
  | Some l => forall o, st_orders (e_store e) !! l = Some o ->
      o_qty o = sum_events (net_qty (Z.eqb id)) evs
  | None => sum_events (net_qty (Z.eqb id)) evs = 0
  end.
Proof.
  intros H. destruct (reachable_history _ _ H) as (b & [Hrep Hinv _ Hq _ _]). rewrite <- Hq.
  destruct (b_orders (e_book e) !! id) as [l|] eqn:Hl.
  - intros o Ho. destruct (rep_lookup _ _ _ _ _ Hrep Hl Ho) as (r & Hr & <- & ? & ? & ? & ->).
    symmetry. apply qty_of_unique; [apply (bi_ids _ Hinv)|done].
  - apply qty_of_other. intros Hin%(rep_index _ _ _ Hrep). rewrite Hl in Hin. by destruct Hin.
Qed.

Lemma order_accounting_witness :
  sum_events (net_qty (Z.eqb 1)) sample_events = 0 /\
  (forall o, match b_orders (e_book sample_engine) !! 2 with
             | Some l => st_orders (e_store sample_engine) !! l = Some o ->
                         o_qty o = sum_events (net_qty (Z.eqb 2)) sample_events
             | None => True end).
Proof.
  split; [exact (order_accounting _ _ 1 sample_reachable)|]. intros o.
  pose proof (order_accounting _ _ 2 sample_reachable) as H.
  destruct (b_orders (e_book sample_engine) !! 2); [apply H|done].
Defined.

(** C15: Order ids are handed out as 1, 2, 3, ... in the order of acceptance,
    with no gap and no reuse, up to the counter of the book. *)
Theorem ids_sequential evs e :
  reachable evs e -> accepted_ids evs = seqZ 1 (b_nextOrderId (e_book e) - 1).
Proof.
  intros H. destruct (reachable_history _ _ H) as (b & [Hrep _ _ _ _ Hi]).
  by rewrite (rep_next _ _ Hrep).
Qed.

Lemma ids_sequential_witness : accepted_ids sample_events = seqZ 1 5.
Proof. exact (ids_sequential _ _ sample_reachable). Defined.

(** C7: Price-time priority of trades.  A valid order is accepted and then
    trades with a prefix of the opposite side, which is sorted by price and
    then by id; each trade is at the maker's price, within the taker's limit
    and the maker's quantity; all makers but the last are filled completely;
    and if the taker is left with a quantity, no crossing order is left. *)
Theorem trades_follow_priority e b cmd :
  rep e b -> book_inv b -> valid_cmd cmd -> 0 < c_Qty cmd -> 0 < c_Price cmd ->
  let t := incoming b cmd in
  let buy := is_buy (c_Side cmd) in
  exists e' fs rest updates,
    NewLimitOrder cmd e =
      Ok (AcceptedEvent (r_id t) (r_clientOrderId t) (r_owner t) (r_side t) (r_price t) (r_qty t)
            :: concat (fill_events t <$> fs) ++ updates, e') /\
    Forall (fun ev => ev_Type ev = EvBookUpdate) updates /\
    side_of (negb buy) b = (f_maker <$> fs) ++ rest /\
    StronglySorted (prio (negb buy)) (side_of (negb buy) b) /\
    Forall (fun f => crosses (c_Side cmd) (c_Price cmd) (r_price (f_maker f)) = true /\
                     0 < f_qty f <= r_qty (f_maker f)) fs /\
    (forall f f' fs', f :: f' :: fs' `suffix_of` fs -> f_qty f = r_qty (f_maker f)) /\
    (fill_sum fs < c_Qty cmd ->
       Forall (fun m => crosses (c_Side cmd) (c_Price cmd) (r_price m) = false) rest).
Proof.
  intros Hrep Hb Hv Hq Hp t buy.
  destruct (place_trades b cmd Hb Hv Hq Hp) as (fs & rest & us & Hev & Hrest).
  destruct (wp_elim _ _ _ (NewLimitOrder_rep e b cmd Hrep (proj1 (cmd_in_range_max _ (proj1 Hv)))
    (ids_ok_fresh _ (book_inv_ids _ Hb)))) as (evs & e' & Hrun & -> & _).
  rewrite Hev in Hrun. by exists e', fs, rest, us.
Qed.

Lemma trades_follow_priority_witness :
  let cmd := mkNewOrderCmd 6 16 Buy 102 9 in
  let t := incoming sample_book cmd in
  exists e' fs rest updates,
    NewLimitOrder cmd sample_engine =
      Ok (AcceptedEvent (r_id t) (r_clientOrderId t) (r_owner t) (r_side t) (r_price t) (r_qty t)
            :: concat (fill_events t <$> fs) ++ updates, e') /\
    side_of false sample_book = (f_maker <$> fs) ++ rest.
Proof.
  destruct (trades_follow_priority sample_engine sample_book (mkNewOrderCmd 6 16 Buy 102 9)
    sample_rep sample_inv) as (e' & fs & rest & us & H1 & _ & H2 & _).
  - solve_valid.
  - done.
  - done.
  - exists e', fs, rest, us. split; [exact H1|exact H2].
Defined.

(** ** Cancellation *)

(** C14: Only the owner of a resting order can cancel it.  Another owner is
    told so and the engine is untouched; the owner gets the cancellation
    with what was left of the order, the id is gone from the index and every
    other id stays. *)
Theorem cancel_authorised evs e id l o owner :
  reachable evs e -> b_orders (e_book e) !! id = Some l -> st_orders (e_store e) !! l = Some o ->
  exists evs' e', Cancel id owner e = Ok (evs', e') /\
    if o_owner o =? owner then
      head evs' = Some (CanceledEvent id (o_clientOrderId o) owner (o_side o) (o_price o) (o_qty o)) /\
      b_orders (e_book e') !! id = None /\
      (forall id', id' <> id ->
         is_Some (b_orders (e_book e') !! id') <-> is_Some (b_orders (e_book e) !! id'))
    else evs' = [RejectedEvent id 0 owner ReasonNotOwner] /\ e' = e.
Proof.
  intros H Hl Ho. destruct (reachable_history _ _ H) as (b & [Hrep Hinv _ _ _ _]).
  destruct (Z.eqb_spec (o_owner o) owner) as [Hown|Hown].
  2: { exists [RejectedEvent id 0 owner ReasonNotOwner], e. split; [|done].
       unfold Cancel, go_gets, mbind, go_bind. rewrite Hl. unfold load_order. rewrite Ho. cbn zeta.
       apply Z.eqb_neq in Hown. by rewrite Hown. }
  destruct (wp_elim _ _ _ (Cancel_rep e b id owner Hrep)) as (evs' & e' & Hrun & -> & Hrep').
  eexists _, e'. split; [exact Hrun|].
  destruct (rep_lookup _ _ _ _ _ Hrep Hl Ho) as (r & Hr & <- & ? & ? & ? & ->). simpl in Hown.
  assert (Hf : find_order (r_id r) (all_orders b) = Some r).
  { apply list_elem_of_split in Hr as (pre & post & Hxy). rewrite Hxy. apply find_order_middle.
    rewrite <- Hxy. apply (bi_ids _ Hinv). }
  unfold cancel in Hrep' |- *. rewrite Hf, Hown, Z.eqb_refl in Hrep' |- *. simpl in Hrep' |- *.
  assert (Hdom : forall id', is_Some (b_orders (e_book e') !! id') <->
                   id' <> r_id r /\ is_Some (b_orders (e_book e) !! id')).
  { intros id'. rewrite (rep_index _ _ _ Hrep), (rep_index _ _ _ Hrep').
    unfold all_orders, remove_order. simpl. rewrite <- filter_app.
    rewrite !list_elem_of_fmap. setoid_rewrite list_elem_of_filter. naive_solver. }
  split; [done|]. split.
  - apply eq_None_not_Some. rewrite Hdom. tauto.
  - intros id' Hne. rewrite Hdom. tauto.
Qed.

Lemma cancel_authorised_witness :
  exists evs' e', Cancel 4 99 sample_engine = Ok (evs', e') /\
    evs' = [RejectedEvent 4 0 99 ReasonNotOwner] /\ e' = sample_engine.
Proof.
  destruct (b_orders (e_book sample_engine) !! 4) as [l|] eqn:Hl; [|by vm_compute in Hl].
  destruct (st_orders (e_store sample_engine) !! l) as [o|] eqn:Ho.
  - destruct (cancel_authorised sample_events sample_engine 4 l o 99 sample_reachable Hl Ho)
      as (evs' & e' & Hrun & Hcase). exists evs', e'. split; [exact Hrun|].
    vm_compute in Hl. injection Hl as <-. vm_compute in Ho. injection Ho as <-. exact Hcase.
  - vm_compute in Hl. injection Hl as <-. by vm_compute in Ho.
Defined.

(** ** Level search *)

(** C16: On a slice of levels whose prices are strictly sorted (descending
    for bids, ascending for asks) the binary search [levelIndex] returns, for
    every price: the index of the level with that price, or the index where
    a level of that price keeps the slice sorted; it reads only. *)
Theorem levelIndex_correct levels ps price desc e :
  Forall2 (level_price (e_store e)) levels ps -> strictly_sorted desc ps ->
  exists r, levelIndex levels price desc e = Ok (r, e) /\ search_result desc price ps r.
Proof.
  intros Hl Hs. destruct (wp_elim _ _ _ (levelIndex_spec levels ps price desc e Hl Hs))
    as (r & e' & Hrun & -> & Hr). eauto.
Qed.

Lemma levelIndex_correct_witness :
  exists r, levelIndex (b_asks (e_book sample_engine)) 102 false sample_engine =
              Ok (r, sample_engine) /\
            search_result false 102 [101; 103] r.
Proof.
  apply levelIndex_correct.
  - vm_compute. repeat constructor; eexists; split; reflexivity.
  - repeat constructor.
Defined.

(** ** Where the code leaves its contract *)

(** With a side that is neither [Buy] nor [Sell], neither limit test of the
    match loop applies. *)
Lemma crosses_unknown s p m : s <> Buy -> s <> Sell -> crosses s p m = true.
Proof. unfold crosses. intros H1%Z.eqb_neq H2%Z.eqb_neq. by rewrite H1, H2. Qed.

(** A taker without a limit takes all there is, up to its quantity. *)
Lemma swept_unlimited t q opp fs opp' q' :
  swept t q opp fs opp' q' -> (forall p, crosses (r_side t) (r_price t) p = true) ->
  0 <= q -> Forall order_pos opp ->
  fill_sum fs = Z.min q (sum_qty opp) /\ (0 < q' -> opp' = []).
Proof.
  intros Hsw Hall. induction Hsw as [opp|q|q m opp Hc|q m opp Hq Hc|q m opp fs opp' q' Hq Hc H IH];
    intros Hq0 Hpos.
  - pose proof (sum_qty_nonneg _ Hpos). simpl. lia.
  - simpl. split; [lia|done].
  - by rewrite Hall in Hc.
  - apply Forall_cons in Hpos as [_ Hpos]. pose proof (sum_qty_nonneg _ Hpos).
    rewrite sum_qty_cons. simpl. lia.
  - apply Forall_cons in Hpos as [_ Hpos]. pose proof (sum_qty_nonneg _ Hpos).
    destruct (IH ltac:(lia) Hpos) as [IH1 IH2]. rewrite sum_qty_cons. simpl. split; [lia|done].
Qed.

(** An order of unknown side in the abstract book. *)
Lemma place_unknown_side b cmd :
  Forall order_pos (s_asks b) -> c_Side cmd <> Buy -> c_Side cmd <> Sell ->
  0 < c_Qty cmd -> 0 < c_Price cmd ->
  let t := incoming b cmd in
  exists fs rest updates,
    fst (place cmd b) =
      AcceptedEvent (r_id t) (r_clientOrderId t) (r_owner t) (r_side t) (r_price t) (r_qty t)
        :: concat (fill_events t <$> fs) ++ updates /\
    Forall (fun ev => ev_Type ev = EvBookUpdate) updates /\
    s_asks b = (f_maker <$> fs) ++ rest /\
    fill_sum fs = Z.min (c_Qty cmd) (sum_qty (s_asks b)) /\
    s_bids (snd (place cmd b)) = s_bids b /\
    (sum_qty (s_asks b) < c_Qty cmd ->
       s_asks (snd (place cmd b)) = [set_r_qty (c_Qty cmd - sum_qty (s_asks b)) t]).
Proof.
  intros Hpos Hbuy Hsell Hq Hp t. unfold place.
  destruct (Z.leb_spec (c_Qty cmd) 0); [lia|]. destruct (Z.leb_spec (c_Price cmd) 0); [lia|].
  unfold execute, is_buy. cbn [r_side incoming]. fold t.
  pose proof (sweep_swept t (r_qty t) (s_asks b) ltac:(simpl; lia) (order_pos_positive _ Hpos)) as Hsw.
  pose proof (proj2 (Z.eqb_neq _ _) Hbuy) as ->. pose proof (proj2 (Z.eqb_neq _ _) Hsell) as ->.
  cbn [side_of]. destruct (sweep _ _ _) as [[fs opp] q]. cbn [fst snd] in Hsw.
  destruct (swept_unlimited _ _ _ _ _ _ Hsw
    (fun p => crosses_unknown _ _ p Hbuy Hsell) ltac:(simpl; lia) Hpos) as [Hsum Hempty].
  destruct (swept_conserves _ _ _ _ _ _ Hsw) as [Hc _].
  destruct (swept_priority _ _ _ _ _ _ Hsw) as (rest & Hopp & _).
  change (r_qty t) with (c_Qty cmd) in Hsum, Hc.
  assert (Hup : forall us, Forall (fun ev => ev_Type ev = EvBookUpdate) us ->
    Forall (fun ev => ev_Type ev = EvBookUpdate) ((update_event Sell opp <$> touched fs) ++ us)).
  { intros us Hus. apply Forall_app. split; [by apply Forall_fmap, Forall_true|done]. }
  destruct (Z.ltb_spec 0 q) as [Hq'|Hq']; exists fs, rest.
  - eexists. split; [done|]. split; [apply Hup; by repeat constructor|]. split_and!; try done.
    intros Hlt. cbn [snd set_side s_asks]. rewrite Hempty by done. simpl. do 2 f_equal. lia.
  - exists ((update_event Sell opp <$> touched fs) ++ []). rewrite app_nil_r at 1.
    split; [done|]. split; [by apply Hup|]. split_and!; try done. lia.
Qed.

(** C37: A side that is neither [Buy] nor [Sell] is not refused, and the
    order has no limit: on any book it is accepted and trades with a prefix
    of the asks, at the asks' prices whatever its own, until its quantity or
    the asks run out.  The bids are not looked at, and a remainder is all
    that then rests on the asks, so that a bid priced at or above it leaves a
    crossed book. *)
Theorem invalid_side_crosses_book e b cmd :
  rep e b -> ids_ok b -> cmd_in_range cmd -> c_Side cmd <> Buy -> c_Side cmd <> Sell ->
  0 < c_Qty cmd -> 0 < c_Price cmd ->
  let t := incoming b cmd in
  exists e' b' fs rest updates,
    NewLimitOrder cmd e =
      Ok (AcceptedEvent (r_id t) (r_clientOrderId t) (r_owner t) (r_side t) (r_price t) (r_qty t)
            :: concat (fill_events t <$> fs) ++ updates, e') /\
    Forall (fun ev => ev_Type ev = EvBookUpdate) updates /\
    s_asks b = (f_maker <$> fs) ++ rest /\
    fill_sum fs = Z.min (c_Qty cmd) (sum_qty (s_asks b)) /\
    rep e' b' /\ s_bids b' = s_bids b /\
    (sum_qty (s_asks b) < c_Qty cmd ->
       s_asks b' = [set_r_qty (c_Qty cmd - sum_qty (s_asks b)) t] /\
       forall x, x ∈ s_bids b -> c_Price cmd <= r_price x ->
         exists y, x ∈ s_bids b' /\ y ∈ s_asks b' /\ r_price y <= r_price x).
Proof.
  intros Hrep Hids Hr Hbuy Hsell Hq Hp t.
  pose proof (rep_pos _ _ Hrep) as [_ Hpos]%Forall_app.
  destruct (place_unknown_side b cmd Hpos Hbuy Hsell Hq Hp)
    as (fs & rest & us & Hev & Hus & Hpre & Hsum & Hbids & Hrest).
  destruct (wp_elim _ _ _ (NewLimitOrder_rep e b cmd Hrep (proj1 (cmd_in_range_max _ Hr))
    (ids_ok_fresh _ Hids))) as (evs & e' & Hrun & -> & Hrep').
  rewrite Hev in Hrun. exists e', (snd (place cmd b)), fs, rest, us. split_and!; try done.
  intros Hlt. specialize (Hrest Hlt). split; [done|]. intros x Hx Hle. rewrite Hbids, Hrest.
  eexists. split; [done|]. split; [by left|done].
Qed.

(** On the sample book, with a bid at 99 and asks of 4 at 101 and 4 at 103: 9
    units with side -128 and a limit of 90 buy all the asks, above the limit,
    and leave one unit offered at 90 against the bid. *)
Lemma invalid_side_crosses_book_witness :
  let cmd := mkNewOrderCmd 6 16 (-128) 90 9 in
  let t := incoming sample_book cmd in
  exists e' b' fs rest updates,
    NewLimitOrder cmd sample_engine =
      Ok (AcceptedEvent (r_id t) (r_clientOrderId t) (r_owner t) (r_side t) (r_price t) (r_qty t)
            :: concat (fill_events t <$> fs) ++ updates, e') /\
    s_asks sample_book = (f_maker <$> fs) ++ rest /\ fill_sum fs = 8 /\
    rep e' b' /\ s_asks b' = [set_r_qty 1 t] /\
    exists x y, x ∈ s_bids b' /\ y ∈ s_asks b' /\ r_price y < r_price x.
Proof.
  assert (Hsum : sum_qty (s_asks sample_book) = 8) by (vm_compute; reflexivity).
  assert (Hbid : s_bids sample_book = [mkResting 4 4 14 Buy 99 6]) by (vm_compute; reflexivity).
  destruct (invalid_side_crosses_book sample_engine sample_book (mkNewOrderCmd 6 16 (-128) 90 9)
    sample_rep (book_inv_ids _ sample_inv)) as (e' & b' & fs & rest & us & H1 & _ & H2 & H3 & H4 & H5 & H6).
  - repeat split; by vm_compute.
  - done.
  - done.
  - done.
  - done.
  - rewrite Hsum in H3, H6. destruct (H6 eq_refl) as [H7 _]. exists e', b', fs, rest, us.
    split; [exact H1|]. split; [exact H2|]. split; [exact H3|]. split; [exact H4|]. split; [exact H7|].
    rewrite H5, H7, Hbid. eexists _, _. split; [by left|]. split; [by left|].
    cbn [set_r_qty incoming r_price c_Price]. lia.
Defined.

(** The total of a level is kept in an [int64] and nothing bounds it:
    two accepted bids of [MaxInt64] and 1 units at one price publish a depth
    of [MinInt64]. *)
Lemma level_total_overflows :
  exists e',
    run [Submit (mkNewOrderCmd 1 11 Buy 100 MaxInt64); Submit (mkNewOrderCmd 2 11 Buy 100 1)]
      NewOrderBook =
    Ok ([AcceptedEvent 1 1 11 Buy 100 MaxInt64; BookUpdateEvent Buy 100 MaxInt64;
         AcceptedEvent 2 2 11 Buy 100 1; BookUpdateEvent Buy 100 MinInt64], e').
Proof. eexists. vm_compute. reflexivity. Qed.
