(* ===== verification/EngineEvents.v ===== *)
(** * The grammar of the events of the engine

    What a consumer of the events may rely on without knowing the book:
    which sequences of events a command can cause.  An order is refused with
    one event, or accepted and followed by its executions, each a trade and
    the fills of its two parties that agree with it, and then by one depth
    update per price traded at and one for what rests.  A cancel is refused
    with one event or reports what was left and one depth update. *)
From S2P Require Import Prelude Events OrderBook BookSpec BookRep BookOps BookRefine BookProps Engine.

(** ** The grammar *)

(** The executions of the order [cmd], accepted as [id], from [q] units left
    to [q'] units left.  The trade and the two fills name the same parties,
    price and quantity, the maker is an earlier order, the price is within
    the limit, and an execution ends the maker or the taker. *)
Inductive executions (cmd : NewOrderCmd) (id : Z) : Z -> list Event -> Z -> Prop :=
  | executions_done q : executions cmd id q [] q
  | executions_trade q maker makerClientOrderId makerOwner makerSide price x makerLeft evs q' :
      1 <= maker < id -> 0 < price -> crosses (c_Side cmd) (c_Price cmd) price = true ->
      0 < x <= q -> 0 <= makerLeft -> makerLeft = 0 \/ x = q ->
      executions cmd id (q - x) evs q' ->
      executions cmd id q
        (TradeEvent price x maker id makerOwner (c_Owner cmd) ::
         FilledEvent maker makerClientOrderId makerOwner makerSide price x makerLeft ::
         FilledEvent id (c_ClientOrderId cmd) (c_Owner cmd) (c_Side cmd) price x (q - x) :: evs) q'.

Definition trade_prices (evs : list Event) : list Z :=
  ev_Price <$> filter (fun ev => ev_Type ev = EvTrade) evs.

(** The events a command can cause. *)
Inductive response : command -> list Event -> Prop :=
  | response_bad_qty cmd :
      c_Qty cmd <= 0 ->
      response (Submit cmd) [RejectedEvent 0 (c_ClientOrderId cmd) (c_Owner cmd) ReasonBadQty]
  | response_bad_price cmd :
      0 < c_Qty cmd -> c_Price cmd <= 0 ->
      response (Submit cmd) [RejectedEvent 0 (c_ClientOrderId cmd) (c_Owner cmd) ReasonBadPrice]
  | response_order cmd id trades prices aggregate rest q :
      0 < c_Qty cmd -> 0 < c_Price cmd -> 1 <= id ->
      executions cmd id (c_Qty cmd) trades q -> 0 <= q ->
      NoDup prices -> (forall p, p ∈ prices <-> p ∈ trade_prices trades) ->
      (if 0 <? q then exists n, rest = [BookUpdateEvent (c_Side cmd) (c_Price cmd) n] else rest = []) ->
      response (Submit cmd)
        (AcceptedEvent id (c_ClientOrderId cmd) (c_Owner cmd) (c_Side cmd) (c_Price cmd) (c_Qty cmd) ::
         trades ++
         ((fun p => BookUpdateEvent (if c_Side cmd =? Sell then Buy else Sell) p (aggregate p)) <$> prices) ++
         rest)
  | response_unknown id owner :
      response (Withdraw id owner) [RejectedEvent id 0 owner ReasonUnknownOrder]
  | response_not_owner id owner :
      response (Withdraw id owner) [RejectedEvent id 0 owner ReasonNotOwner]
  | response_cancel id owner clientOrderId side price left aggregate :
      0 < price -> 0 < left ->
      response (Withdraw id owner)
        [CanceledEvent id clientOrderId owner side price left; BookUpdateEvent side price aggregate].

(** ** The operations of the book follow it *)

(** A resting order that can be a maker of an order [n]. *)
Definition maker_ok (n : Z) (r : resting) : Prop := order_pos r /\ 1 <= r_id r < n /\ 0 < r_price r.

Lemma swept_executions b cmd q opp fs opp' q' :
  let t := incoming b cmd in
  swept t q opp fs opp' q' -> Forall (maker_ok (s_next b)) opp ->
  executions cmd (s_next b) q (concat (fill_events t <$> fs)) q'.
Proof.
  intros t Hsw. induction Hsw as [opp|q|q m opp Hc|q m opp Hq Hc|q m opp fs opp' q' Hq Hc H IH];
    intros Hall; [constructor..| |]; apply Forall_cons in Hall as [(Hpos & Hid & Hpr) Hall].
  - pose proof (executions_trade cmd (s_next b) q (r_id m) (r_clientOrderId m) (r_owner m) (r_side m)
      (r_price m) q (r_qty m - q) [] 0) as Hex. rewrite Z.sub_diag in Hex.
    apply Hex; try done; try lia. constructor.
  - rewrite fmap_cons. cbn [concat fill_events f_maker f_qty f_left app]. rewrite Z.sub_diag.
    apply (executions_trade cmd (s_next b) q (r_id m)); try done; try lia. by apply IH.
Qed.

Lemma trade_prices_fills t fs : trade_prices (concat (fill_events t <$> fs)) = r_price ∘ f_maker <$> fs.
Proof.
  unfold trade_prices. induction fs as [|f fs IH]; [done|]. rewrite !fmap_cons. cbn [concat].
  rewrite filter_app, fmap_app, IH. done.
Qed.

Lemma touched_NoDup fs : NoDup (touched fs).
Proof.
  unfold touched. assert (H : forall ps, NoDup ps -> NoDup (foldl touch_price ps fs)).
  { induction fs as [|f fs IH]; intros ps Hps; [done|]. simpl. apply IH. unfold touch_price.
    case_decide as Hin; [done|]. apply NoDup_app. split_and!; [done| |apply NoDup_singleton].
    intros p Hp ->%list_elem_of_singleton. done. }
  apply H, NoDup_nil_2.
Qed.

Lemma place_response b cmd :
  1 <= s_next b -> Forall (maker_ok (s_next b)) (all_orders b) ->
  response (Submit cmd) (fst (place cmd b)).
Proof.
  intros Hn Hall. unfold place. destruct (Z.leb_spec (c_Qty cmd) 0); [by constructor|].
  destruct (Z.leb_spec (c_Price cmd) 0); [by constructor|].
  rewrite (all_orders_perm (c_Side cmd =? Sell)) in Hall. apply Forall_app in Hall as [Hopp _].
  set (t := incoming b cmd).
  assert (Hpos : Forall (fun m => 0 < r_qty m) (side_of (c_Side cmd =? Sell) b)).
  { eapply Forall_impl; [exact Hopp|]. by intros r [[? _] _]. }
  pose proof (sweep_swept t (r_qty t) _ ltac:(simpl; lia) Hpos) as Hsw.
  unfold execute. change (r_side t) with (c_Side cmd).
  destruct (sweep t (r_qty t) _) as [[fs opp] q]. cbn [fst snd] in Hsw.
  destruct (swept_left _ _ _ _ _ _ Hsw ltac:(simpl; lia)) as [Hq _].
  pose proof (swept_executions b cmd _ _ _ _ _ Hsw Hopp) as Hex. fold t in Hex.
  assert (Hps : forall p, p ∈ touched fs <-> p ∈ trade_prices (concat (fill_events t <$> fs))).
  { intros p. by rewrite elem_of_touched, trade_prices_fills. }
  destruct (0 <? q) eqn:Hq0; cbn [fst].
  - apply (response_order cmd (s_next b) _ (touched fs) (fun p => int64 (level_qty p opp)) _ q);
      try done; try lia; [apply touched_NoDup|]. rewrite Hq0. by eexists.
  - rewrite <- (app_nil_r (update_event _ _ <$> _)).
    apply (response_order cmd (s_next b) _ (touched fs) (fun p => int64 (level_qty p opp)) [] q);
      try done; try lia; [apply touched_NoDup|]. by rewrite Hq0.
Qed.

Lemma cancel_response b id owner :
  Forall (maker_ok (s_next b)) (all_orders b) -> response (Withdraw id owner) (fst (cancel id owner b)).
Proof.
  intros Hall. unfold cancel. destruct (find_order id (all_orders b)) as [r|] eqn:Hf; [|constructor].
  destruct (Z.eqb_spec (r_owner r) owner) as [<-|]; [|constructor].
  destruct (find_order_side _ _ _ Hf) as (<- & _).
  assert (Hr : r ∈ all_orders b).
  { unfold find_order in Hf. assert (Hin : r ∈ filter (fun x => r_id x = r_id r) (all_orders b)).
    { destruct (filter _ _); [done|]. simpl in Hf. simplify_eq. by left. }
    by apply list_elem_of_filter in Hin as [_ Hin]. }
  rewrite Forall_forall in Hall. destruct (Hall r Hr) as ([? _] & _ & ?). by constructor.
Qed.

(** ** Runs *)

Lemma rep_makers e b :
  rep e b -> ids_ok b -> Forall (fun r => 0 < r_price r) (all_orders b) ->
  Forall (maker_ok (s_next b)) (all_orders b).
Proof.
  intros Hrep [_ Hids] Hpr. pose proof (rep_pos _ _ Hrep) as Hpos. rewrite Forall_fmap in Hids.
  rewrite Forall_forall in *. intros r Hr. split; [by apply Hpos|]. split; [by apply (Hids r Hr)|by apply Hpr].
Qed.

Lemma exec_prices c b :
  Forall (fun r => 0 < r_price r) (all_orders b) ->
  Forall (fun r => 0 < r_price r) (all_orders (snd (exec_spec c b))).
Proof.
  intros Hb. destruct c as [cmd|id owner]; simpl; [|by apply cancel_Forall].
  unfold place. destruct (c_Qty cmd <=? 0); [done|].
  destruct (Z.leb_spec (c_Price cmd) 0); [done|]. by apply execute_Forall.
Qed.

Lemma run_responses cs : forall e b,
  rep e b -> Forall in_range cs -> ids_ok b -> Forall (fun r => 0 < r_price r) (all_orders b) ->
  s_next b + Z.of_nat (length cs) <= MaxInt64 ->
  wp (run cs) (fun evs _ => exists rs, evs = concat rs /\ Forall2 response cs rs) e.
Proof.
  induction cs as [|c cs IH]; intros e b Hrep Hr Hids Hpr Hlen; simpl; [wp_step; by exists []|].
  apply Forall_cons in Hr as [Hc Hr]. simpl in Hlen.
  destruct (exec_ids_ok c b Hids) as [Hids' Hn']; [lia|].
  pose proof (rep_makers _ _ Hrep Hids Hpr) as Hmk.
  assert (Hresp : response c (fst (exec_spec c b))).
  { destruct c; [apply place_response; [apply Hids|done]|by apply cancel_response]. }
  wp_step. eapply wp_mono; [by apply exec_rep|]. intros evs e1 [-> Hrep1].
  wp_step. eapply wp_mono; [apply (IH e1 _ Hrep1 Hr Hids' (exec_prices _ _ Hpr)); lia|].
  intros rest e2 (rs & -> & Hrs). wp_step. exists (fst (exec_spec c b) :: rs). split; [done|].
  by constructor.
Qed.

(** C19: the event stream follows the grammar.  Whatever commands with
    [int64] fields are run from an empty book (unknown sides, zero and
    negative prices and quantities, unknown ids and foreign owners included),
    the run returns and its events are the concatenation of one response per
    command.  An order with a bad quantity or, failing that, a bad price is
    refused with that reason; any other is accepted, and the acceptance is
    followed by executions whose trade and two fills agree with each other
    and count the taker's quantity down, at positive prices within the limit,
    against earlier orders, each ending the maker or the taker; then exactly
    one depth update for each price traded at, and one for the remainder if
    there is one.  A cancel gets one refusal, or the cancellation of a
    positive quantity and its depth update. *)
Theorem events_follow_grammar cs :
  Forall in_range cs -> Z.of_nat (length cs) < MaxInt64 ->
  exists e rs, run cs NewOrderBook = Ok (concat rs, e) /\ Forall2 response cs rs.
Proof.
  intros Hr Hlen. destruct (wp_elim _ _ _ (run_responses cs NewOrderBook empty_book NewOrderBook_rep Hr
    empty_book_ids (Forall_nil_2 _) ltac:(simpl; lia))) as (evs & e & Hrun & rs & -> & Hrs). eauto.
Qed.

Lemma events_follow_grammar_witness :
  let cs := [Submit (mkNewOrderCmd 1 11 Sell 101 5); Submit (mkNewOrderCmd 2 12 Buy 102 8);
             Submit (mkNewOrderCmd 3 13 (-128) 90 4); Submit (mkNewOrderCmd 4 14 Sell 0 4);
             Withdraw 2 11; Withdraw 2 12] in
  exists e rs, run cs NewOrderBook = Ok (concat rs, e) /\ Forall2 response cs rs.
Proof.
  apply events_follow_grammar; [|done].
  repeat (constructor; [repeat split; by vm_compute|]). constructor.
Defined.
