(* ===== verification/Marshal.v ===== *)
(** * protocol/codecs/SbeMarshalling.go: the marshalling layer

    Bytes are [Z]s in 0..255.  A marshaller owns an eight-byte scratch buffer
    of which [b1], [b2] and [b4] are prefixes; every write and read goes
    through it.  Writers are a type class, because the source is written
    against [io.Writer]; readers are the unread bytes of a [bytes.Buffer],
    the only [io.Reader] the program decodes from. *)
From S2P Require Import Prelude.

(** ** Errors and the error monad

    A Go function that returns an [error] leaves its side effects behind when
    it fails, so the state survives an error. *)

Inductive error : Type :=
  | EOF
  | ErrUnexpectedEOF
  | RangeError (field : string) (min value max : Z)
  | EnumError (enum : string) (value : Z)
  | OtherError (what : string) (value : Z).

Definition io (S A : Type) : Type := S -> (A + error) * S.

#[export] Instance io_ret S : MRet (io S) := fun A a s => (inl a, s).
#[export] Instance io_bind S : MBind (io S) := fun A B k c s =>
  match c s with
  | (inl a, s') => k a s'
  | (inr err, s') => (inr err, s')
  end.

Definition io_fail {S A} (err : error) : io S A := fun s => (inr err, s).
(** [if err := f(); err != nil { return err }] for a pure check [f]. *)
Definition io_check {S} (o : option error) : io S unit :=
  match o with None => mret tt | Some err => io_fail err end.

(** ** Writers and readers *)

(** [io.Writer]: the error, if any, and the writer afterwards. *)
Class Writer (W : Type) : Type := Write : list Z -> W -> option error * W.

(** The contract of [io.Writer]: what is written is a prefix of the argument,
    all of it when there is no error. *)
Class LawfulWriter (W : Type) {Hw : Writer W} : Type := {
  written : W -> list Z;
  Write_law : forall bs w,
    exists pre, pre `prefix_of` bs /\ written (snd (Write bs w)) = written w ++ pre /\
                (fst (Write bs w) = None -> pre = bs)
}.

(** A writer that never fails. *)
Class ReliableWriter (W : Type) {Hw : Writer W} : Prop :=
  Write_reliable : forall bs w, fst (Write bs w) = None.

(** [bytes.Buffer] as a writer. *)
Definition Buffer : Type := list Z.
#[export] Instance Buffer_Writer : Writer Buffer := fun bs w => (None, w ++ bs).
#[export] Instance Buffer_Lawful : LawfulWriter Buffer.
Proof. refine {| written := id |}. intros bs w. by exists bs. Defined.
#[export] Instance Buffer_Reliable : ReliableWriter Buffer.
Proof. by intros bs w. Qed.

(** [bytes.Buffer] as a reader: the unread bytes. *)
Abbreviation Reader := (list Z).

(** ** The marshaller *)

Record SbeGoMarshaller : Type := mkMarshaller { b8 : list Z }.
Definition b1 (m : SbeGoMarshaller) : list Z := take 1 (b8 m).
Definition b2 (m : SbeGoMarshaller) : list Z := take 2 (b8 m).
Definition b4 (m : SbeGoMarshaller) : list Z := take 4 (b8 m).

Definition NewSbeGoMarshaller : SbeGoMarshaller := mkMarshaller (replicate 8 0).

(** [m.b8[i] = v]; the slices of a marshaller are never indexed beyond their
    length. *)
Definition put {X} (i : nat) (v : Z) : io (SbeGoMarshaller * X) unit := fun s =>
  (inl tt, (mkMarshaller (<[i := v]> (b8 (fst s))), snd s)).

(** [_, err := w.Write(slice(m))] *)
Definition write_from {W} `{Writer W} (slice : SbeGoMarshaller -> list Z)
    : io (SbeGoMarshaller * W) unit := fun s =>
  match Write (slice (fst s)) (snd s) with
  | (None, w) => (inl tt, (fst s, w))
  | (Some err, w) => (inr err, (fst s, w))
  end.

(** [io.ReadFull(r, b)] for a slice [b] of length [n]: the bytes read and the
    error.  Fewer than [n] bytes are an error; they are consumed and copied
    all the same. *)
Definition ReadFull (n : nat) (r : Reader) : list Z * option error * Reader :=
  if (n <=? length r)%nat then (take n r, None, drop n r)
  else (r, Some (if decide (r = []) then EOF else ErrUnexpectedEOF), []).

(** [io.ReadFull(r, m.b<n>)] *)
Definition read_into (n : nat) : io (SbeGoMarshaller * Reader) unit := fun s =>
  let '(bs, err, r) := ReadFull n (snd s) in
  let m := mkMarshaller (bs ++ drop (length bs) (b8 (fst s))) in
  (match err with None => inl tt | Some e => inr e end, (m, r)).

(** The scratch byte [m.b8[i]]. *)
Definition scratch {X} : io (SbeGoMarshaller * X) (nat -> Z) := fun s =>
  (inl (fun i => nth i (b8 (fst s)) 0), s).

(** A floating-point number, as far as marshalling is concerned, is its
    IEEE 754 bit pattern ([math.Float32bits], [math.Float64bits]). *)
Record float32 : Type := Float32frombits { Float32bits : Z }.
Record float64 : Type := Float64frombits { Float64bits : Z }.

(** ** Writes *)

Section Writes.
Context {W : Type} `{Writer W}.
Abbreviation enc := (io (SbeGoMarshaller * W) unit).

Definition WriteUint8 (v : Z) : enc :=
  put 0 (uint8 v);; write_from b1.

Definition WriteUint16 (v : Z) : enc :=
  put 0 (uint8 v);; put 1 (uint8 (Z.shiftr v 8));; write_from b2.

Definition WriteUint32 (v : Z) : enc :=
  put 0 (uint8 v);; put 1 (uint8 (Z.shiftr v 8));;
  put 2 (uint8 (Z.shiftr v 16));; put 3 (uint8 (Z.shiftr v 24));; write_from b4.

Definition WriteUint64 (v : Z) : enc :=
  put 0 (uint8 v);; put 1 (uint8 (Z.shiftr v 8));;
  put 2 (uint8 (Z.shiftr v 16));; put 3 (uint8 (Z.shiftr v 24));;
  put 4 (uint8 (Z.shiftr v 32));; put 5 (uint8 (Z.shiftr v 40));;
  put 6 (uint8 (Z.shiftr v 48));; put 7 (uint8 (Z.shiftr v 56));; write_from b8.

(** On the signed types [>>] is arithmetic, as [Z.shiftr] is. *)
Definition WriteInt8 (v : Z) : enc :=
  put 0 (uint8 v);; write_from b1.

Definition WriteInt16 (v : Z) : enc :=
  put 0 (uint8 v);; put 1 (uint8 (Z.shiftr v 8));; write_from b2.

Definition WriteInt32 (v : Z) : enc :=
  put 0 (uint8 v);; put 1 (uint8 (Z.shiftr v 8));;
  put 2 (uint8 (Z.shiftr v 16));; put 3 (uint8 (Z.shiftr v 24));; write_from b4.

Definition WriteInt64 (v : Z) : enc :=
  put 0 (uint8 v);; put 1 (uint8 (Z.shiftr v 8));;
  put 2 (uint8 (Z.shiftr v 16));; put 3 (uint8 (Z.shiftr v 24));;
  put 4 (uint8 (Z.shiftr v 32));; put 5 (uint8 (Z.shiftr v 40));;
  put 6 (uint8 (Z.shiftr v 48));; put 7 (uint8 (Z.shiftr v 56));; write_from b8.

Definition WriteFloat32 (v : float32) : enc :=
  let u32 := Float32bits v in
  put 0 (uint8 u32);; put 1 (uint8 (Z.shiftr u32 8));;
  put 2 (uint8 (Z.shiftr u32 16));; put 3 (uint8 (Z.shiftr u32 24));; write_from b4.

Definition WriteFloat64 (v : float64) : enc :=
  let u64 := Float64bits v in
  put 0 (uint8 u64);; put 1 (uint8 (Z.shiftr u64 8));;
  put 2 (uint8 (Z.shiftr u64 16));; put 3 (uint8 (Z.shiftr u64 24));;
  put 4 (uint8 (Z.shiftr u64 32));; put 5 (uint8 (Z.shiftr u64 40));;
  put 6 (uint8 (Z.shiftr u64 48));; put 7 (uint8 (Z.shiftr u64 56));; write_from b8.

Definition WriteBytes (v : list Z) : enc := write_from (fun _ => v).
End Writes.

(** ** Reads *)

Section Reads.
Abbreviation dec := (io (SbeGoMarshaller * Reader) Z).

Definition ReadUint8 : dec :=
  read_into 1;; b ← scratch; mret (b 0%nat).

Definition ReadUint16 : dec :=
  read_into 2;; b ← scratch;
  mret (Z.lor (b 0%nat) (uint16 (Z.shiftl (b 1%nat) 8))).

Definition ReadUint32 : dec :=
  read_into 4;; b ← scratch;
  mret (Z.lor (Z.lor (Z.lor (b 0%nat) (uint32 (Z.shiftl (b 1%nat) 8)))
    (uint32 (Z.shiftl (b 2%nat) 16))) (uint32 (Z.shiftl (b 3%nat) 24))).

Definition ReadUint64 : dec :=
  read_into 8;; b ← scratch;
  mret (Z.lor (Z.lor (Z.lor (Z.lor (Z.lor (Z.lor (Z.lor
    (b 0%nat) (uint64 (Z.shiftl (b 1%nat) 8)))
    (uint64 (Z.shiftl (b 2%nat) 16))) (uint64 (Z.shiftl (b 3%nat) 24)))
    (uint64 (Z.shiftl (b 4%nat) 32))) (uint64 (Z.shiftl (b 5%nat) 40)))
    (uint64 (Z.shiftl (b 6%nat) 48))) (uint64 (Z.shiftl (b 7%nat) 56))).

Definition ReadInt8 : dec :=
  read_into 1;; b ← scratch; mret (int8 (b 0%nat)).

Definition ReadInt16 : dec :=
  read_into 2;; b ← scratch;
  mret (Z.lor (b 0%nat) (sint 16 (Z.shiftl (b 1%nat) 8))).

Definition ReadInt32 : dec :=
  read_into 4;; b ← scratch;
  mret (Z.lor (Z.lor (Z.lor (b 0%nat) (int32 (Z.shiftl (b 1%nat) 8)))
    (int32 (Z.shiftl (b 2%nat) 16))) (int32 (Z.shiftl (b 3%nat) 24))).

Definition ReadInt64 : dec :=
  read_into 8;; b ← scratch;
  mret (Z.lor (Z.lor (Z.lor (Z.lor (Z.lor (Z.lor (Z.lor
    (b 0%nat) (int64 (Z.shiftl (b 1%nat) 8)))
    (int64 (Z.shiftl (b 2%nat) 16))) (int64 (Z.shiftl (b 3%nat) 24)))
    (int64 (Z.shiftl (b 4%nat) 32))) (int64 (Z.shiftl (b 5%nat) 40)))
    (int64 (Z.shiftl (b 6%nat) 48))) (int64 (Z.shiftl (b 7%nat) 56))).

Definition ReadFloat32 : io (SbeGoMarshaller * Reader) float32 :=
  read_into 4;; b ← scratch;
  mret (Float32frombits (Z.lor (Z.lor (Z.lor (b 0%nat) (uint32 (Z.shiftl (b 1%nat) 8)))
    (uint32 (Z.shiftl (b 2%nat) 16))) (uint32 (Z.shiftl (b 3%nat) 24)))).

Definition ReadFloat64 : io (SbeGoMarshaller * Reader) float64 :=
  read_into 8;; b ← scratch;
  mret (Float64frombits (Z.lor (Z.lor (Z.lor (Z.lor (Z.lor (Z.lor (Z.lor
    (b 0%nat) (uint64 (Z.shiftl (b 1%nat) 8)))
    (uint64 (Z.shiftl (b 2%nat) 16))) (uint64 (Z.shiftl (b 3%nat) 24)))
    (uint64 (Z.shiftl (b 4%nat) 32))) (uint64 (Z.shiftl (b 5%nat) 40)))
    (uint64 (Z.shiftl (b 6%nat) 48))) (uint64 (Z.shiftl (b 7%nat) 56)))).

(** [ReadBytes(r, b)] fills the caller's slice, partly when it fails. *)
Definition ReadBytes (b : list Z) (r : Reader) : list Z * option error * Reader :=
  let '(bs, err, r') := ReadFull (length b) r in (bs ++ drop (length bs) b, err, r').
End Reads.

(** ** The standard message header *)

Record SbeGoMessageHeader : Type := mkSbeGoMessageHeader {
  sgh_BlockLength : Z;
  sgh_TemplateId : Z;
  sgh_SchemaId : Z;
  sgh_Version : Z
}.

Definition SbeGoMessageHeader_Encode {W} `{Writer W} (h : SbeGoMessageHeader)
    : io (SbeGoMarshaller * W) unit :=
  put 0 (uint8 (sgh_BlockLength h));; put 1 (uint8 (Z.shiftr (sgh_BlockLength h) 8));;
  put 2 (uint8 (sgh_TemplateId h));; put 3 (uint8 (Z.shiftr (sgh_TemplateId h) 8));;
  put 4 (uint8 (sgh_SchemaId h));; put 5 (uint8 (Z.shiftr (sgh_SchemaId h) 8));;
  put 6 (uint8 (sgh_Version h));; put 7 (uint8 (Z.shiftr (sgh_Version h) 8));;
  write_from b8.

Definition SbeGoMessageHeader_Decode : io (SbeGoMarshaller * Reader) SbeGoMessageHeader :=
  read_into 8;; b ← scratch;
  mret (mkSbeGoMessageHeader
    (Z.lor (b 0%nat) (uint16 (Z.shiftl (b 1%nat) 8)))
    (Z.lor (b 2%nat) (uint16 (Z.shiftl (b 3%nat) 8)))
    (Z.lor (b 4%nat) (uint16 (Z.shiftl (b 5%nat) 8)))
    (Z.lor (b 6%nat) (uint16 (Z.shiftl (b 7%nat) 8)))).

(** ** Little-endian bytes *)

Fixpoint le (n : nat) (v : Z) : list Z :=
  match n with O => [] | S n' => uint8 v :: le n' (Z.shiftr v 8) end.
Definition le_val (bs : list Z) : Z := foldr (fun b a => b + 256 * a) 0 bs.

Lemma le_length n v : length (le n v) = n.
Proof. revert v. induction n as [|n IH]; intros v; simpl; [done|]. by rewrite IH. Qed.

Lemma le_bytes n v : Forall is_byte (le n v).
Proof.
  revert v. induction n as [|n IH]; intros v; constructor; [|apply IH]. apply uint_range. lia.
Qed.

Lemma le_val_le n v : le_val (le n v) = uint (8 * Z.of_nat n) v.
Proof.
  unfold uint. revert v. induction n as [|n IH]; intros v.
  - simpl. by rewrite Z.mod_1_r.
  - change (le_val (le (S n) v)) with (uint8 v + 256 * le_val (le n (Z.shiftr v 8))).
    rewrite IH, Z.shiftr_div_pow2 by lia. unfold uint.
    replace (8 * Z.of_nat (S n)) with (8 + 8 * Z.of_nat n) by lia.
    rewrite Z.pow_add_r by lia. rewrite Z.rem_mul_r by (apply Z.pow_nonzero || apply Z.pow_pos_nonneg; lia).
    done.
Qed.

Lemma le_val_app a b : le_val (a ++ b) = le_val a + 2 ^ (8 * Z.of_nat (length a)) * le_val b.
Proof.
  induction a as [|x a IH]; [simpl; destruct (le_val b); reflexivity|].
  simpl le_val. rewrite IH.
  replace (8 * Z.of_nat (length (x :: a))) with (8 + 8 * Z.of_nat (length a)) by (simpl; lia).
  rewrite Z.pow_add_r by lia. lia.
Qed.

(** Bitwise or of a low part and a shifted high part is their sum. *)
Lemma lor_shiftl n a b : 0 <= n -> 0 <= a < 2 ^ n -> Z.lor a (Z.shiftl b n) = a + b * 2 ^ n.
Proof.
  intros Hn Ha. rewrite <- Z.shiftl_mul_pow2 by done. symmetry.
  rewrite Z.add_nocarry_lxor; [apply Z.lxor_lor|];
    apply Z.bits_inj'; intros i Hi; rewrite Z.land_spec, Z.bits_0, Z.shiftl_spec by done;
    (destruct (Z.ltb_spec i n); [rewrite (Z.testbit_neg_r b) by lia; apply andb_false_r|]);
    replace (Z.testbit a i) with false; try done; symmetry;
    (destruct (decide (a = 0)) as [->|]; [apply Z.bits_0|]); apply Z.bits_above_log2; try lia;
    (assert (Z.log2 a < n) by (apply Z.log2_lt_pow2; lia)); lia.
Qed.

Lemma sint_shiftl w n b :
  0 <= n -> n + 8 = w -> is_byte b -> sint w (Z.shiftl b n) = Z.shiftl (int8 b) n.
Proof.
  intros Hn <- Hb. rewrite !Z.shiftl_mul_pow2 by done.
  assert (Hp : 0 < 2 ^ n) by (apply Z.pow_pos_nonneg; lia).
  rewrite <- (sint_id (n + 8) (int8 b * 2 ^ n)).
  - apply sint_eqm; [lia|]. rewrite <- Z.mul_sub_distr_r, (Z.add_comm n), Z.pow_add_r by lia.
    rewrite Z.mul_mod_distr_r by lia.
    replace ((b - int8 b) mod 2 ^ 8) with 0; [done|].
    pose proof (sint_sub_mod 8 b ltac:(lia)) as H. apply Z.mod_divide in H as [k Hk]; [|lia].
    symmetry. apply Z.mod_divide; [lia|]. exists (- k). lia.
  - lia.
  - pose proof (sint_range 8 b ltac:(lia)) as Hr. unfold is_sint in *.
    replace (n + 8 - 1) with (7 + n) by lia. rewrite Z.pow_add_r by lia.
    change (8 - 1) with 7 in Hr. nia.
Qed.

Lemma shiftl_byte b k : 0 <= k -> is_byte b -> 0 <= Z.shiftl b k < 2 ^ (k + 8).
Proof.
  unfold is_uint. intros Hk Hb. rewrite Z.shiftl_mul_pow2, Z.pow_add_r by lia.
  assert (0 < 2 ^ k) by (apply Z.pow_pos_nonneg; lia). nia.
Qed.

Lemma uint_shiftl w k b : 0 <= k -> k + 8 <= w -> is_byte b -> uint w (Z.shiftl b k) = Z.shiftl b k.
Proof.
  intros Hk Hw Hb. apply uint_id. pose proof (shiftl_byte b k Hk Hb).
  assert (2 ^ (k + 8) <= 2 ^ w) by (apply Z.pow_le_mono_r; lia). unfold is_uint. lia.
Qed.

Lemma sint_shiftl_low w k b : 0 <= k -> k + 8 < w -> is_byte b -> sint w (Z.shiftl b k) = Z.shiftl b k.
Proof.
  intros Hk Hw Hb. apply sint_id; [lia|]. pose proof (shiftl_byte b k Hk Hb).
  assert (2 ^ (k + 8) <= 2 ^ (w - 1)) by (apply Z.pow_le_mono_r; lia). unfold is_sint. lia.
Qed.

(** The shape of the expressions in the reads. *)
Fixpoint lor_le (k acc : Z) (bs : list Z) : Z :=
  match bs with [] => acc | b :: bs' => lor_le (k + 8) (Z.lor acc (Z.shiftl b k)) bs' end.

Lemma lor_le_spec bs : forall k acc,
  0 <= k -> 0 <= acc < 2 ^ k -> Forall is_byte bs ->
  lor_le k acc bs = acc + le_val bs * 2 ^ k /\
  0 <= lor_le k acc bs < 2 ^ (k + 8 * Z.of_nat (length bs)).
Proof.
  induction bs as [|b bs IH]; intros k acc Hk Hacc Hbs.
  - cbn [lor_le le_val foldr length]. change (Z.of_nat 0) with 0.
    replace (k + 8 * 0) with k by lia. lia.
  - apply Forall_cons in Hbs as [Hb Hbs]. simpl lor_le. rewrite lor_shiftl by done.
    destruct (IH (k + 8) (acc + b * 2 ^ k)) as [-> Hr]; [lia| |done|].
    { rewrite Z.pow_add_r by lia. unfold is_uint in Hb. nia. }
    split; [simpl le_val; rewrite Z.pow_add_r by lia; lia|].
    replace (k + 8 * Z.of_nat (length (b :: bs))) with (k + 8 + 8 * Z.of_nat (length bs))
      by (simpl length; lia). done.
Qed.

(** The unsigned and the signed value of a list of bytes. *)
Lemma lor_unsigned b bs :
  Forall is_byte (b :: bs) -> lor_le 8 b bs = le_val (b :: bs).
Proof.
  intros [Hb Hbs]%Forall_cons.
  destruct (lor_le_spec bs 8 b) as [-> _]; [lia|exact Hb|done|]. simpl le_val. lia.
Qed.

Lemma lor_signed w b bs t :
  Forall is_byte (b :: bs ++ [t]) -> w = 8 * Z.of_nat (length (b :: bs ++ [t])) ->
  Z.lor (lor_le 8 b bs) (sint w (Z.shiftl t (w - 8))) = sint w (le_val (b :: bs ++ [t])).
Proof.
  intros [Hb Hall]%Forall_cons Hw. apply Forall_app in Hall as [Hbs [Ht _]%Forall_cons].
  assert (Hlen : w - 8 = 8 + 8 * Z.of_nat (length bs)) by (rewrite Hw; simpl; rewrite length_app; simpl; lia).
  destruct (lor_le_spec bs 8 b) as [Heq Hr]; [lia|exact Hb|done|].
  rewrite sint_shiftl; [|lia|lia|exact Ht]. rewrite lor_shiftl; [|lia|rewrite Hlen; exact Hr].
  rewrite Heq. change (b :: bs ++ [t]) with ((b :: bs) ++ [t]). rewrite le_val_app.
  replace (8 * Z.of_nat (length (b :: bs))) with (w - 8) by (rewrite Hlen; simpl length; lia).
  simpl le_val. set (x := b + 256 * le_val bs).
  replace (b + le_val bs * 2 ^ 8) with x in * by (unfold x; lia).
  rewrite Heq, <- Hlen in Hr.
  rewrite <- (sint_id w (x + int8 t * 2 ^ (w - 8))).
  - apply sint_eqm; [lia|].
    replace (_ - _) with ((int8 t - t) * 2 ^ (w - 8)) by lia.
    replace w with (8 + (w - 8)) at 2 by lia. rewrite Z.pow_add_r by lia.
    rewrite Z.mul_mod_distr_r by (try apply Z.pow_nonzero; lia). by rewrite sint_sub_mod.
  - lia.
  - pose proof (sint_range 8 t ltac:(lia)) as Hs. unfold is_sint in *. change (8 - 1) with 7 in Hs.
    replace (w - 1) with (7 + (w - 8)) by lia. rewrite Z.pow_add_r by lia. nia.
Qed.

(** ** What a read does *)

Definition marsh_ok (m : SbeGoMarshaller) : Prop := length (b8 m) = 8%nat.

(** The error of a reader with too few bytes. *)
Definition short (r : Reader) : error := if decide (r = []) then EOF else ErrUnexpectedEOF.

(** [c] consumes [n] bytes and returns [f] of them, or consumes what there is
    and fails. *)
Definition reads {A} (c : io (SbeGoMarshaller * Reader) A) (n : nat) (f : list Z -> A) : Prop :=
  forall m r, marsh_ok m -> Forall is_byte r ->
    exists m', marsh_ok m' /\
      c (m, r) = if (n <=? length r)%nat then (inl (f (take n r)), (m', drop n r))
                 else (inr (short r), (m', [])).

Lemma reads_scratch {A} n (g : (nat -> Z) -> A) f :
  (n <= 8)%nat ->
  (forall bs tail, length bs = n -> Forall is_byte bs ->
     g (fun i => nth i (bs ++ tail) 0) = f bs) ->
  reads (read_into n;; b ← scratch; mret (g b)) n f.
Proof.
  intros Hn Hg m r Hm Hr. unfold mbind, io_bind, read_into, ReadFull. cbn [fst snd].
  destruct (Nat.leb_spec n (length r)) as [Hle|Hlt].
  - exists (mkMarshaller (take n r ++ drop (length (take n r)) (b8 m))). split.
    + unfold marsh_ok in *. cbn [b8]. rewrite length_app, length_drop, length_take. lia.
    + unfold scratch, mret, io_ret. cbn [fst b8].
      rewrite Hg; [done|rewrite length_take; lia|by apply Forall_take].
  - exists (mkMarshaller (r ++ drop (length r) (b8 m))). split; [|done].
    unfold marsh_ok in *. cbn [b8]. rewrite length_app, length_drop. lia.
Qed.

Ltac split_forall :=
  repeat match goal with H : Forall _ (_ :: _) |- _ => apply Forall_cons in H as [? H] end.

Lemma ReadInt8_reads : reads ReadInt8 1 (fun bs => int8 (le_val bs)).
Proof.
  apply (reads_scratch 1 (fun b => int8 (b 0%nat))); [lia|]. intros [|x [|]] tail Hlen Hb; try done.
  simpl. f_equal. lia.
Qed.

Lemma ReadUint8_reads : reads ReadUint8 1 le_val.
Proof.
  apply (reads_scratch 1 (fun b => b 0%nat)); [lia|]. intros [|x [|]] tail Hlen Hb; try done.
  simpl. lia.
Qed.

Lemma ReadUint16_reads : reads ReadUint16 2 le_val.
Proof.
  apply (reads_scratch 2 (fun b => Z.lor (b 0%nat) (uint16 (Z.shiftl (b 1%nat) 8)))); [lia|].
  intros [|x0 [|x1 [|]]] tail Hlen Hb; try done. cbn [nth app].
  pose proof (lor_unsigned x0 [x1] Hb) as <-. split_forall. by rewrite uint_shiftl.
Qed.

Lemma ReadInt64_reads : reads ReadInt64 8 (fun bs => int64 (le_val bs)).
Proof.
  apply (reads_scratch 8 (fun b => Z.lor (Z.lor (Z.lor (Z.lor (Z.lor (Z.lor (Z.lor
      (b 0%nat) (int64 (Z.shiftl (b 1%nat) 8)))
      (int64 (Z.shiftl (b 2%nat) 16))) (int64 (Z.shiftl (b 3%nat) 24)))
      (int64 (Z.shiftl (b 4%nat) 32))) (int64 (Z.shiftl (b 5%nat) 40)))
      (int64 (Z.shiftl (b 6%nat) 48))) (int64 (Z.shiftl (b 7%nat) 56)))); [lia|].
  intros [|x0 [|x1 [|x2 [|x3 [|x4 [|x5 [|x6 [|x7 [|]]]]]]]]] tail Hlen Hb; try done. cbn [nth app].
  pose proof (lor_signed 64 x0 [x1; x2; x3; x4; x5; x6] x7 Hb eq_refl) as Hv. cbn [app] in Hv.
  rewrite <- Hv. split_forall. 
  by rewrite (sint_shiftl_low 64 8), (sint_shiftl_low 64 16), (sint_shiftl_low 64 24),
    (sint_shiftl_low 64 32), (sint_shiftl_low 64 40), (sint_shiftl_low 64 48).
Qed.

Lemma ReadInt16_reads : reads ReadInt16 2 (fun bs => sint 16 (le_val bs)).
Proof.
  apply (reads_scratch 2 (fun b => Z.lor (b 0%nat) (sint 16 (Z.shiftl (b 1%nat) 8)))); [lia|].
  intros [|x0 [|x1 [|]]] tail Hlen Hb; try done.
  exact (lor_signed 16 x0 [] x1 Hb eq_refl).
Qed.

Lemma ReadInt32_reads : reads ReadInt32 4 (fun bs => int32 (le_val bs)).
Proof.
  apply (reads_scratch 4 (fun b => Z.lor (Z.lor (Z.lor (b 0%nat) (int32 (Z.shiftl (b 1%nat) 8)))
    (int32 (Z.shiftl (b 2%nat) 16))) (int32 (Z.shiftl (b 3%nat) 24)))); [lia|].
  intros [|x0 [|x1 [|x2 [|x3 [|]]]]] tail Hlen Hb; try done. cbn [nth app].
  pose proof (lor_signed 32 x0 [x1; x2] x3 Hb eq_refl) as Hv. cbn [app] in Hv. rewrite <- Hv.
  split_forall. by rewrite (sint_shiftl_low 32 8), (sint_shiftl_low 32 16).
Qed.

Lemma ReadUint32_reads : reads ReadUint32 4 le_val.
Proof.
  apply (reads_scratch 4 (fun b => Z.lor (Z.lor (Z.lor (b 0%nat) (uint32 (Z.shiftl (b 1%nat) 8)))
    (uint32 (Z.shiftl (b 2%nat) 16))) (uint32 (Z.shiftl (b 3%nat) 24)))); [lia|].
  intros [|x0 [|x1 [|x2 [|x3 [|]]]]] tail Hlen Hb; try done. cbn [nth app].
  rewrite <- (lor_unsigned x0 [x1; x2; x3] Hb). split_forall.
  by rewrite (uint_shiftl 32 8), (uint_shiftl 32 16), (uint_shiftl 32 24).
Qed.

Lemma ReadUint64_reads : reads ReadUint64 8 le_val.
Proof.
  apply (reads_scratch 8 (fun b => Z.lor (Z.lor (Z.lor (Z.lor (Z.lor (Z.lor (Z.lor
      (b 0%nat) (uint64 (Z.shiftl (b 1%nat) 8)))
      (uint64 (Z.shiftl (b 2%nat) 16))) (uint64 (Z.shiftl (b 3%nat) 24)))
      (uint64 (Z.shiftl (b 4%nat) 32))) (uint64 (Z.shiftl (b 5%nat) 40)))
      (uint64 (Z.shiftl (b 6%nat) 48))) (uint64 (Z.shiftl (b 7%nat) 56)))); [lia|].
  intros [|x0 [|x1 [|x2 [|x3 [|x4 [|x5 [|x6 [|x7 [|]]]]]]]]] tail Hlen Hb; try done. cbn [nth app].
  rewrite <- (lor_unsigned x0 [x1; x2; x3; x4; x5; x6; x7] Hb). split_forall.
  by rewrite (uint_shiftl 64 8), (uint_shiftl 64 16), (uint_shiftl 64 24), (uint_shiftl 64 32),
    (uint_shiftl 64 40), (uint_shiftl 64 48), (uint_shiftl 64 56).
Qed.

(** ** What a write does *)

Section Emits.
Context {W : Type} `{LawfulWriter W}.

(** The writer can fail. *)
Definition fallible : Prop := exists bs w, fst (Write bs w) <> None.

(** The pieces handed to [Write] one after the other, up to the first error:
    that error, if any, and the writer it leaves. *)
Fixpoint write_all (pieces : list (list Z)) (w : W) : option error * W :=
  match pieces with
  | [] => (None, w)
  | bs :: pieces =>
      match Write bs w with
      | (None, w) => write_all pieces w
      | (Some err, w) => (Some err, w)
      end
  end.

(** What a chain of [if err := ...; err != nil { return err }] returns. *)
Definition returned (o : option error) : unit + error :=
  match o with None => inl tt | Some err => inr err end.

(** [c] hands [bs] to the writer, in pieces that depend on neither the writer
    nor the scratch, and returns the writer's first error and no other. *)
Definition emits (c : io (SbeGoMarshaller * W) unit) (bs : list Z) : Prop :=
  exists pieces, concat pieces = bs /\
    forall m w, marsh_ok m ->
      exists m', marsh_ok m' /\
        c (m, w) = (returned (fst (write_all pieces w)), (m', snd (write_all pieces w))).

Lemma write_all_app a b w :
  write_all (a ++ b) w =
    match write_all a w with
    | (None, w') => write_all b w'
    | (Some err, w') => (Some err, w')
    end.
Proof.
  revert w. induction a as [|bs a IH]; intros w; simpl; [done|].
  destruct (Write bs w) as [[err|] w']; [done|apply IH].
Qed.

(** What a lawful writer holds afterwards. *)
Lemma write_all_law pieces w :
  exists pre, pre `prefix_of` concat pieces /\ written (snd (write_all pieces w)) = written w ++ pre /\
    (fst (write_all pieces w) = None -> pre = concat pieces).
Proof.
  revert w. induction pieces as [|bs pieces IH]; intros w; simpl; [exists []; by rewrite app_nil_r|].
  destruct (Write_law bs w) as (p & Hp & Hpw & Hall).
  destruct (Write bs w) as [[err|] w']; cbn [fst snd] in *.
  - exists p. split_and!; [by apply prefix_app_r|done..].
  - rewrite Hall in Hpw by done. destruct (IH w') as (q & Hq & Hq' & Hrest).
    exists (bs ++ q). rewrite Hq', Hpw, app_assoc. split_and!; [by apply prefix_app|done|].
    intros Hn. by rewrite Hrest.
Qed.

Lemma emits_ret : emits (mret tt) [].
Proof. exists []. split; [done|]. intros m w Hm. by exists m. Qed.

Lemma emits_seq c1 c2 a b : emits c1 a -> emits c2 b -> emits (c1;; c2) (a ++ b).
Proof.
  intros (p & <- & H1) (q & <- & H2). exists (p ++ q). split; [apply concat_app|].
  intros m w Hm. unfold mbind, io_bind. rewrite write_all_app.
  destruct (H1 m w Hm) as (m1 & Hm1 & ->). destruct (write_all p w) as [[err|] w1]; [by exists m1|].
  apply H2, Hm1.
Qed.

(** A write whose scratch prefix, once filled, is [bs]. *)
Lemma emits_write (f : list Z -> list Z) (slice : SbeGoMarshaller -> list Z) bs c :
  (forall m w, c (m, w) = write_from slice (mkMarshaller (f (b8 m)), w)) ->
  (forall x, length x = 8%nat -> length (f x) = 8%nat /\ slice (mkMarshaller (f x)) = bs) ->
  emits c bs.
Proof.
  intros Hc Hf. exists [bs]. split; [apply app_nil_r|]. intros m w Hm.
  destruct (Hf (b8 m) Hm) as [Hlen Hs]. exists (mkMarshaller (f (b8 m))). split; [done|].
  rewrite Hc. unfold write_from. cbn [fst snd write_all]. rewrite Hs. by destruct (Write bs w) as [[err|] w'].
Qed.

Lemma WriteInt8_emits v : emits (WriteInt8 v) (le 1 v).
Proof.
  apply (emits_write (fun x => <[0%nat := uint8 v]> x) b1); [done|].
  intros [|x0 x] Hx; [done|]. by rewrite length_insert.
Qed.

Lemma WriteUint16_emits v : emits (WriteUint16 v) (le 2 v).
Proof.
  apply (emits_write (fun x => <[1%nat := uint8 (Z.shiftr v 8)]> (<[0%nat := uint8 v]> x)) b2); [done|].
  intros [|x0 [|x1 x]] Hx; [done..|]. by rewrite !length_insert.
Qed.

Lemma WriteInt64_emits v : emits (WriteInt64 v) (le 8 v).
Proof.
  apply (emits_write (fun x => <[7%nat := uint8 (Z.shiftr v 56)]> (<[6%nat := uint8 (Z.shiftr v 48)]>
    (<[5%nat := uint8 (Z.shiftr v 40)]> (<[4%nat := uint8 (Z.shiftr v 32)]>
    (<[3%nat := uint8 (Z.shiftr v 24)]> (<[2%nat := uint8 (Z.shiftr v 16)]>
    (<[1%nat := uint8 (Z.shiftr v 8)]> (<[0%nat := uint8 v]> x)))))))) b8); [done|].
  intros x Hx. rewrite !length_insert. split; [done|].
  destruct x as [|? [|? [|? [|? [|? [|? [|? [|? [|]]]]]]]]]; try done.
Qed.
End Emits.

Lemma write_all_reliable {W} `{ReliableWriter W} pieces (w : W) : fst (write_all pieces w) = None.
Proof.
  revert w. induction pieces as [|bs pieces IH]; intros w; simpl; [done|].
  pose proof (Write_reliable bs w) as Hr. destruct (Write bs w) as [[err|] w']; [done|apply IH].
Qed.

(** A reliable writer gets everything. *)
Lemma emits_reliable {W} `{LawfulWriter W} `{!ReliableWriter W}
  (c : io (SbeGoMarshaller * W) unit) bs m w :
  emits c bs -> marsh_ok m ->
  exists m' w', c (m, w) = (inl tt, (m', w')) /\ marsh_ok m' /\ written w' = written w ++ bs.
Proof.
  intros (pieces & <- & Hc) Hm. destruct (Hc m w Hm) as (m' & Hm' & ->).
  destruct (write_all_law pieces w) as (pre & _ & Hpw & Hall).
  exists m', (snd (write_all pieces w)). rewrite Hpw, Hall, write_all_reliable by apply write_all_reliable.
  done.
Qed.
