(* ===== verification/Codecs.v ===== *)
(** * protocol/codecs: the generated SBE codecs

    One record per message with its [Encode], [Decode] and [RangeCheck], and
    one metadata value per field (id, versions, limits, null value, meta
    attributes), as the generated methods give them.  [Decode] fills the
    message it is called on, so the message is part of the decoding state and
    keeps what was read before an error. *)
From S2P Require Import Prelude Marshal.

(** ** Fields *)

(** The constant methods generated for a field: [<F>Id], [<F>SinceVersion],
    [<F>Deprecated], [<F>MinValue], [<F>MaxValue], [<F>NullValue] and
    [<F>MetaAttribute]. *)
Record field : Type := mkField {
  fieldId : Z;
  SinceVersion : Z;
  Deprecated : Z;
  MinValue : Z;
  MaxValue : Z;
  NullValue : Z;
  MetaAttribute : Z -> string
}.

(** [actingVersion >= m.<F>SinceVersion()] *)
Definition InActingVersion (f : field) (actingVersion : Z) : bool := SinceVersion f <=? actingVersion.

Definition required_meta (meta : Z) : string :=
  if meta =? 1 then EmptyString else if meta =? 2 then EmptyString
  else if meta =? 3 then EmptyString else if meta =? 4 then "required" else EmptyString.

(** A required [int64] field. *)
Definition int64_field (id : Z) : field :=
  mkField id 0 0 (MinInt64 + 1) MaxInt64 MinInt64 required_meta.

(** ** Decoding into a message *)

Section Decoding.
Context {M : Type}.
Abbreviation dec := (io (SbeGoMarshaller * Reader * M) unit).

(** [if err := read(&m.F); err != nil { return err }] *)
Definition read_field (set : Z -> M -> M) (rd : io (SbeGoMarshaller * Reader) Z) : dec := fun s =>
  match rd (fst s) with
  | (inl x, s') => (inl tt, (s', set x (snd s)))
  | (inr err, s') => (inr err, (s', snd s))
  end.

Definition set_field (set : Z -> M -> M) (x : Z) : dec := fun s => (inl tt, (fst s, set x (snd s))).

(** The decoding of a primitive field: the null value where the acting
    version does not have the field. *)
Definition decode_prim (f : field) (rd : io (SbeGoMarshaller * Reader) Z) (set : Z -> M -> M)
    (actingVersion : Z) : dec :=
  if negb (InActingVersion f actingVersion) then set_field set (NullValue f)
  else read_field set rd.

(** The decoding of an enum field: untouched where the acting version does
    not have the field. *)
Definition decode_enum (f : field) (rd : io (SbeGoMarshaller * Reader) Z) (set : Z -> M -> M)
    (actingVersion : Z) : dec :=
  if InActingVersion f actingVersion then read_field set rd else mret tt.

(** [io.CopyN(ioutil.Discard, r, int64(blockLength-SbeBlockLength()))] for a
    block that is longer than this version's: the error is ignored. *)
Definition skip_rest (actingVersion blockLength schemaVersion sbeBlockLength : Z) : dec := fun s =>
  if (schemaVersion <? actingVersion) && (sbeBlockLength <? blockLength) then
    (inl tt, ((fst (fst s), drop (Z.to_nat (uint16 (blockLength - sbeBlockLength))) (snd (fst s))),
              snd s))
  else (inl tt, s).

(** [if doRangeCheck { if err := m.RangeCheck(...); err != nil { return err } }] *)
Definition range_check (doRangeCheck : bool) (check : M -> option error) : dec := fun s =>
  if doRangeCheck then io_check (check (snd s)) s else (inl tt, s).
End Decoding.

(** ** Range checks *)

(** The checks of a [RangeCheck], in order: the first error wins. *)
Fixpoint first_error (l : list (option error)) : option error :=
  match l with
  | [] => None
  | Some err :: _ => Some err
  | None :: l' => first_error l'
  end.

Definition check_prim (name : string) (f : field) (x actingVersion : Z) : option error :=
  if InActingVersion f actingVersion then
    if (x <? MinValue f) || (MaxValue f <? x)
    then Some (RangeError name (MinValue f) x (MaxValue f)) else None
  else None.

(** ** Enumerations *)

(** A constant of an enumeration, with its generated version methods. *)
Record enum_const : Type := mkEnumConst {
  ec_value : Z;
  ec_SinceVersion : Z;
  ec_Deprecated : Z
}.

(** A required enum field; it has no limits and no null value of its own. *)
Definition enum_field (id : Z) : field := mkField id 0 0 0 0 0 required_meta.

(** The loop over the fields of the values struct. *)
Definition enum_check (name : string) (values : list Z) (v actingVersion schemaVersion : Z)
    : option error :=
  if schemaVersion <? actingVersion then None
  else if existsb (Z.eqb v) values then None
  else Some (EnumError name v).

(** *** Side.go *)

Definition Side_BUY : enum_const := mkEnumConst 0 0 0.
Definition Side_SELL : enum_const := mkEnumConst 1 0 0.
Definition Side_NullValue : Z := -128.

(** The [int8] values of the struct [SideValues]. *)
Definition SideValues : list Z :=
  [ec_value Side_BUY; ec_value Side_SELL; Side_NullValue].

Definition SideEnum_Encode {W} `{Writer W} (s : Z) : io (SbeGoMarshaller * W) unit := WriteInt8 s.
Definition SideEnum_Decode (actingVersion : Z) : io (SbeGoMarshaller * Reader) Z := ReadInt8.
Definition SideEnum_RangeCheck (s actingVersion schemaVersion : Z) : option error :=
  enum_check "Side" SideValues s actingVersion schemaVersion.
Definition SideEnum_EncodedLength : Z := 1.

(** *** OrderStatus.go *)

Definition OrderStatus_ACCEPTED : enum_const := mkEnumConst 0 0 0.
Definition OrderStatus_REJECTED : enum_const := mkEnumConst 1 0 0.
Definition OrderStatus_PARTIALLY_FILLED : enum_const := mkEnumConst 2 0 0.
Definition OrderStatus_FILLED : enum_const := mkEnumConst 3 0 0.
Definition OrderStatus_CANCELED : enum_const := mkEnumConst 4 0 0.
Definition OrderStatus_NullValue : Z := -128.

(** The [int8] values of the struct [OrderStatusValues]. *)
Definition OrderStatusValues : list Z :=
  [ec_value OrderStatus_ACCEPTED; ec_value OrderStatus_REJECTED; ec_value OrderStatus_PARTIALLY_FILLED; ec_value OrderStatus_FILLED; ec_value OrderStatus_CANCELED; OrderStatus_NullValue].

Definition OrderStatusEnum_Encode {W} `{Writer W} (s : Z) : io (SbeGoMarshaller * W) unit := WriteInt8 s.
Definition OrderStatusEnum_Decode (actingVersion : Z) : io (SbeGoMarshaller * Reader) Z := ReadInt8.
Definition OrderStatusEnum_RangeCheck (s actingVersion schemaVersion : Z) : option error :=
  enum_check "OrderStatus" OrderStatusValues s actingVersion schemaVersion.
Definition OrderStatusEnum_EncodedLength : Z := 1.

(** *** RejectReason.go *)

Definition RejectReason_NONE : enum_const := mkEnumConst 0 0 0.
Definition RejectReason_BAD_QTY : enum_const := mkEnumConst 1 0 0.
Definition RejectReason_BAD_PRICE : enum_const := mkEnumConst 2 0 0.
Definition RejectReason_UNKNOWN_ORDER : enum_const := mkEnumConst 3 0 0.
Definition RejectReason_NOT_OWNER : enum_const := mkEnumConst 4 0 0.
Definition RejectReason_NullValue : Z := -128.

(** The [int8] values of the struct [RejectReasonValues]. *)
Definition RejectReasonValues : list Z :=
  [ec_value RejectReason_NONE; ec_value RejectReason_BAD_QTY; ec_value RejectReason_BAD_PRICE; ec_value RejectReason_UNKNOWN_ORDER; ec_value RejectReason_NOT_OWNER; RejectReason_NullValue].

Definition RejectReasonEnum_Encode {W} `{Writer W} (s : Z) : io (SbeGoMarshaller * W) unit := WriteInt8 s.
Definition RejectReasonEnum_Decode (actingVersion : Z) : io (SbeGoMarshaller * Reader) Z := ReadInt8.
Definition RejectReasonEnum_RangeCheck (s actingVersion schemaVersion : Z) : option error :=
  enum_check "RejectReason" RejectReasonValues s actingVersion schemaVersion.
Definition RejectReasonEnum_EncodedLength : Z := 1.

(** ** MessageHeader.go *)

Record MessageHeader : Type := mkMessageHeader {
  mh_BlockLength : Z;
  mh_TemplateId : Z;
  mh_SchemaId : Z;
  mh_Version : Z
}.

(** The four fields have the same limits and versions, and no id. *)
Definition header_field : field :=
  mkField 0 0 0 0 (MaxUint16 - 1) MaxUint16 (fun _ => EmptyString).

Definition MessageHeader_Encode {W} `{Writer W} (m : MessageHeader) : io (SbeGoMarshaller * W) unit :=
  WriteUint16 (mh_BlockLength m);;
  WriteUint16 (mh_TemplateId m);;
  WriteUint16 (mh_SchemaId m);;
  WriteUint16 (mh_Version m);;
  mret tt.

Definition set_mh_BlockLength (x : Z) (m : MessageHeader) : MessageHeader :=
  mkMessageHeader x (mh_TemplateId m) (mh_SchemaId m) (mh_Version m).
Definition set_mh_TemplateId (x : Z) (m : MessageHeader) : MessageHeader :=
  mkMessageHeader (mh_BlockLength m) x (mh_SchemaId m) (mh_Version m).
Definition set_mh_SchemaId (x : Z) (m : MessageHeader) : MessageHeader :=
  mkMessageHeader (mh_BlockLength m) (mh_TemplateId m) x (mh_Version m).
Definition set_mh_Version (x : Z) (m : MessageHeader) : MessageHeader :=
  mkMessageHeader (mh_BlockLength m) (mh_TemplateId m) (mh_SchemaId m) x.

Definition MessageHeader_Decode (actingVersion : Z) : io (SbeGoMarshaller * Reader * MessageHeader) unit :=
  decode_prim header_field ReadUint16 set_mh_BlockLength actingVersion;;
  decode_prim header_field ReadUint16 set_mh_TemplateId actingVersion;;
  decode_prim header_field ReadUint16 set_mh_SchemaId actingVersion;;
  decode_prim header_field ReadUint16 set_mh_Version actingVersion.

Definition MessageHeader_RangeCheck (m : MessageHeader) (actingVersion schemaVersion : Z) : option error :=
  first_error
    [check_prim "m.BlockLength" header_field (mh_BlockLength m) actingVersion;
     check_prim "m.TemplateId" header_field (mh_TemplateId m) actingVersion;
     check_prim "m.SchemaId" header_field (mh_SchemaId m) actingVersion;
     check_prim "m.Version" header_field (mh_Version m) actingVersion].

Definition MessageHeader_EncodedLength : Z := 8.
Definition MessageHeader_Init (m : MessageHeader) : MessageHeader := m.

(** ** Messages *)

(** *** NewOrder.go *)

Record NewOrder : Type := mkNewOrder {
  no_ClientOrderId : Z;
  no_Side : Z;
  no_Price : Z;
  no_Qty : Z
}.

Definition NewOrder_ClientOrderId : field := int64_field 1.
Definition NewOrder_Side : field := enum_field 2.
Definition NewOrder_Price : field := int64_field 3.
Definition NewOrder_Qty : field := int64_field 4.

Definition set_no_ClientOrderId (x : Z) (m : NewOrder) : NewOrder :=
  mkNewOrder x (no_Side m) (no_Price m) (no_Qty m).
Definition set_no_Side (x : Z) (m : NewOrder) : NewOrder :=
  mkNewOrder (no_ClientOrderId m) x (no_Price m) (no_Qty m).
Definition set_no_Price (x : Z) (m : NewOrder) : NewOrder :=
  mkNewOrder (no_ClientOrderId m) (no_Side m) x (no_Qty m).
Definition set_no_Qty (x : Z) (m : NewOrder) : NewOrder :=
  mkNewOrder (no_ClientOrderId m) (no_Side m) (no_Price m) x.

Definition NewOrder_SbeBlockLength : Z := 25.
Definition NewOrder_SbeTemplateId : Z := 1.
Definition NewOrder_SbeSchemaId : Z := 901.
Definition NewOrder_SbeSchemaVersion : Z := 1.
Definition NewOrder_SbeSemanticVersion : string := "1.0".
Definition NewOrder_SbeSemanticType : list Z := [].
(** The schema has no constant fields to set. *)
Definition NewOrder_Init (n : NewOrder) : NewOrder := n.

Definition NewOrder_RangeCheck (n : NewOrder) (actingVersion schemaVersion : Z) : option error :=
  first_error
    [check_prim "n.ClientOrderId" NewOrder_ClientOrderId (no_ClientOrderId n) actingVersion;
     SideEnum_RangeCheck (no_Side n) actingVersion schemaVersion;
     check_prim "n.Price" NewOrder_Price (no_Price n) actingVersion;
     check_prim "n.Qty" NewOrder_Qty (no_Qty n) actingVersion].

Definition NewOrder_Encode {W} `{Writer W} (n : NewOrder) (doRangeCheck : bool)
    : io (SbeGoMarshaller * W) unit :=
  (if doRangeCheck
   then io_check (NewOrder_RangeCheck n NewOrder_SbeSchemaVersion NewOrder_SbeSchemaVersion)
   else mret tt);;
  WriteInt64 (no_ClientOrderId n);;
  SideEnum_Encode (no_Side n);;
  WriteInt64 (no_Price n);;
  WriteInt64 (no_Qty n);;
  mret tt.

Definition NewOrder_Decode (actingVersion blockLength : Z) (doRangeCheck : bool)
    : io (SbeGoMarshaller * Reader * NewOrder) unit :=
  decode_prim NewOrder_ClientOrderId ReadInt64 set_no_ClientOrderId actingVersion;;
  decode_enum NewOrder_Side (SideEnum_Decode actingVersion) set_no_Side actingVersion;;
  decode_prim NewOrder_Price ReadInt64 set_no_Price actingVersion;;
  decode_prim NewOrder_Qty ReadInt64 set_no_Qty actingVersion;;
  skip_rest actingVersion blockLength NewOrder_SbeSchemaVersion NewOrder_SbeBlockLength;;
  range_check doRangeCheck (fun n => NewOrder_RangeCheck n actingVersion NewOrder_SbeSchemaVersion).

(** *** CancelOrder.go *)

Record CancelOrder : Type := mkCancelOrder {
  co_OrderId : Z
}.

Definition CancelOrder_OrderId : field := int64_field 1.

Definition set_co_OrderId (x : Z) (m : CancelOrder) : CancelOrder :=
  mkCancelOrder x.

Definition CancelOrder_SbeBlockLength : Z := 8.
Definition CancelOrder_SbeTemplateId : Z := 2.
Definition CancelOrder_SbeSchemaId : Z := 901.
Definition CancelOrder_SbeSchemaVersion : Z := 1.
Definition CancelOrder_SbeSemanticVersion : string := "1.0".
Definition CancelOrder_SbeSemanticType : list Z := [].
(** The schema has no constant fields to set. *)
Definition CancelOrder_Init (c : CancelOrder) : CancelOrder := c.

Definition CancelOrder_RangeCheck (c : CancelOrder) (actingVersion schemaVersion : Z) : option error :=
  first_error
    [check_prim "c.OrderId" CancelOrder_OrderId (co_OrderId c) actingVersion].

Definition CancelOrder_Encode {W} `{Writer W} (c : CancelOrder) (doRangeCheck : bool)
    : io (SbeGoMarshaller * W) unit :=
  (if doRangeCheck
   then io_check (CancelOrder_RangeCheck c CancelOrder_SbeSchemaVersion CancelOrder_SbeSchemaVersion)
   else mret tt);;
  WriteInt64 (co_OrderId c);;
  mret tt.

Definition CancelOrder_Decode (actingVersion blockLength : Z) (doRangeCheck : bool)
    : io (SbeGoMarshaller * Reader * CancelOrder) unit :=
  decode_prim CancelOrder_OrderId ReadInt64 set_co_OrderId actingVersion;;
  skip_rest actingVersion blockLength CancelOrder_SbeSchemaVersion CancelOrder_SbeBlockLength;;
  range_check doRangeCheck (fun c => CancelOrder_RangeCheck c actingVersion CancelOrder_SbeSchemaVersion).

(** *** ExecutionReport.go *)

Record ExecutionReport : Type := mkExecutionReport {
  er_OrderId : Z;
  er_ClientOrderId : Z;
  er_Status : Z;
  er_Reason : Z;
  er_Side : Z;
  er_Price : Z;
  er_Qty : Z;
  er_RemainingQty : Z;
  er_Timestamp : Z
}.

Definition ExecutionReport_OrderId : field := int64_field 1.
Definition ExecutionReport_ClientOrderId : field := int64_field 2.
Definition ExecutionReport_Status : field := enum_field 3.
Definition ExecutionReport_Reason : field := enum_field 4.
Definition ExecutionReport_Side : field := enum_field 5.
Definition ExecutionReport_Price : field := int64_field 6.
Definition ExecutionReport_Qty : field := int64_field 7.
Definition ExecutionReport_RemainingQty : field := int64_field 8.
Definition ExecutionReport_Timestamp : field := int64_field 9.

Definition set_er_OrderId (x : Z) (m : ExecutionReport) : ExecutionReport :=
  mkExecutionReport x (er_ClientOrderId m) (er_Status m) (er_Reason m) (er_Side m) (er_Price m) (er_Qty m) (er_RemainingQty m) (er_Timestamp m).
Definition set_er_ClientOrderId (x : Z) (m : ExecutionReport) : ExecutionReport :=
  mkExecutionReport (er_OrderId m) x (er_Status m) (er_Reason m) (er_Side m) (er_Price m) (er_Qty m) (er_RemainingQty m) (er_Timestamp m).
Definition set_er_Status (x : Z) (m : ExecutionReport) : ExecutionReport :=
  mkExecutionReport (er_OrderId m) (er_ClientOrderId m) x (er_Reason m) (er_Side m) (er_Price m) (er_Qty m) (er_RemainingQty m) (er_Timestamp m).
Definition set_er_Reason (x : Z) (m : ExecutionReport) : ExecutionReport :=
  mkExecutionReport (er_OrderId m) (er_ClientOrderId m) (er_Status m) x (er_Side m) (er_Price m) (er_Qty m) (er_RemainingQty m) (er_Timestamp m).
Definition set_er_Side (x : Z) (m : ExecutionReport) : ExecutionReport :=
  mkExecutionReport (er_OrderId m) (er_ClientOrderId m) (er_Status m) (er_Reason m) x (er_Price m) (er_Qty m) (er_RemainingQty m) (er_Timestamp m).
Definition set_er_Price (x : Z) (m : ExecutionReport) : ExecutionReport :=
  mkExecutionReport (er_OrderId m) (er_ClientOrderId m) (er_Status m) (er_Reason m) (er_Side m) x (er_Qty m) (er_RemainingQty m) (er_Timestamp m).
Definition set_er_Qty (x : Z) (m : ExecutionReport) : ExecutionReport :=
  mkExecutionReport (er_OrderId m) (er_ClientOrderId m) (er_Status m) (er_Reason m) (er_Side m) (er_Price m) x (er_RemainingQty m) (er_Timestamp m).
Definition set_er_RemainingQty (x : Z) (m : ExecutionReport) : ExecutionReport :=
  mkExecutionReport (er_OrderId m) (er_ClientOrderId m) (er_Status m) (er_Reason m) (er_Side m) (er_Price m) (er_Qty m) x (er_Timestamp m).
Definition set_er_Timestamp (x : Z) (m : ExecutionReport) : ExecutionReport :=
  mkExecutionReport (er_OrderId m) (er_ClientOrderId m) (er_Status m) (er_Reason m) (er_Side m) (er_Price m) (er_Qty m) (er_RemainingQty m) x.

Definition ExecutionReport_SbeBlockLength : Z := 51.
Definition ExecutionReport_SbeTemplateId : Z := 10.
Definition ExecutionReport_SbeSchemaId : Z := 901.
Definition ExecutionReport_SbeSchemaVersion : Z := 1.
Definition ExecutionReport_SbeSemanticVersion : string := "1.0".
Definition ExecutionReport_SbeSemanticType : list Z := [].
(** The schema has no constant fields to set. *)
Definition ExecutionReport_Init (e : ExecutionReport) : ExecutionReport := e.

Definition ExecutionReport_RangeCheck (e : ExecutionReport) (actingVersion schemaVersion : Z) : option error :=
  first_error
    [check_prim "e.OrderId" ExecutionReport_OrderId (er_OrderId e) actingVersion;
     check_prim "e.ClientOrderId" ExecutionReport_ClientOrderId (er_ClientOrderId e) actingVersion;
     OrderStatusEnum_RangeCheck (er_Status e) actingVersion schemaVersion;
     RejectReasonEnum_RangeCheck (er_Reason e) actingVersion schemaVersion;
     SideEnum_RangeCheck (er_Side e) actingVersion schemaVersion;
     check_prim "e.Price" ExecutionReport_Price (er_Price e) actingVersion;
     check_prim "e.Qty" ExecutionReport_Qty (er_Qty e) actingVersion;
     check_prim "e.RemainingQty" ExecutionReport_RemainingQty (er_RemainingQty e) actingVersion;
     check_prim "e.Timestamp" ExecutionReport_Timestamp (er_Timestamp e) actingVersion].

Definition ExecutionReport_Encode {W} `{Writer W} (e : ExecutionReport) (doRangeCheck : bool)
    : io (SbeGoMarshaller * W) unit :=
  (if doRangeCheck
   then io_check (ExecutionReport_RangeCheck e ExecutionReport_SbeSchemaVersion ExecutionReport_SbeSchemaVersion)
   else mret tt);;
  WriteInt64 (er_OrderId e);;
  WriteInt64 (er_ClientOrderId e);;
  OrderStatusEnum_Encode (er_Status e);;
  RejectReasonEnum_Encode (er_Reason e);;
  SideEnum_Encode (er_Side e);;
  WriteInt64 (er_Price e);;
  WriteInt64 (er_Qty e);;
  WriteInt64 (er_RemainingQty e);;
  WriteInt64 (er_Timestamp e);;
  mret tt.

Definition ExecutionReport_Decode (actingVersion blockLength : Z) (doRangeCheck : bool)
    : io (SbeGoMarshaller * Reader * ExecutionReport) unit :=
  decode_prim ExecutionReport_OrderId ReadInt64 set_er_OrderId actingVersion;;
  decode_prim ExecutionReport_ClientOrderId ReadInt64 set_er_ClientOrderId actingVersion;;
  decode_enum ExecutionReport_Status (OrderStatusEnum_Decode actingVersion) set_er_Status actingVersion;;
  decode_enum ExecutionReport_Reason (RejectReasonEnum_Decode actingVersion) set_er_Reason actingVersion;;
  decode_enum ExecutionReport_Side (SideEnum_Decode actingVersion) set_er_Side actingVersion;;
  decode_prim ExecutionReport_Price ReadInt64 set_er_Price actingVersion;;
  decode_prim ExecutionReport_Qty ReadInt64 set_er_Qty actingVersion;;
  decode_prim ExecutionReport_RemainingQty ReadInt64 set_er_RemainingQty actingVersion;;
  decode_prim ExecutionReport_Timestamp ReadInt64 set_er_Timestamp actingVersion;;
  skip_rest actingVersion blockLength ExecutionReport_SbeSchemaVersion ExecutionReport_SbeBlockLength;;
  range_check doRangeCheck (fun e => ExecutionReport_RangeCheck e actingVersion ExecutionReport_SbeSchemaVersion).

(** *** TradeEvent.go *)

Record TradeEvent : Type := mkTradeEvent {
  te_Price : Z;
  te_Qty : Z;
  te_MakerOrderId : Z;
  te_TakerOrderId : Z;
  te_Timestamp : Z
}.

Definition TradeEvent_Price : field := int64_field 1.
Definition TradeEvent_Qty : field := int64_field 2.
Definition TradeEvent_MakerOrderId : field := int64_field 3.
Definition TradeEvent_TakerOrderId : field := int64_field 4.
Definition TradeEvent_Timestamp : field := int64_field 5.

Definition set_te_Price (x : Z) (m : TradeEvent) : TradeEvent :=
  mkTradeEvent x (te_Qty m) (te_MakerOrderId m) (te_TakerOrderId m) (te_Timestamp m).
Definition set_te_Qty (x : Z) (m : TradeEvent) : TradeEvent :=
  mkTradeEvent (te_Price m) x (te_MakerOrderId m) (te_TakerOrderId m) (te_Timestamp m).
Definition set_te_MakerOrderId (x : Z) (m : TradeEvent) : TradeEvent :=
  mkTradeEvent (te_Price m) (te_Qty m) x (te_TakerOrderId m) (te_Timestamp m).
Definition set_te_TakerOrderId (x : Z) (m : TradeEvent) : TradeEvent :=
  mkTradeEvent (te_Price m) (te_Qty m) (te_MakerOrderId m) x (te_Timestamp m).
Definition set_te_Timestamp (x : Z) (m : TradeEvent) : TradeEvent :=
  mkTradeEvent (te_Price m) (te_Qty m) (te_MakerOrderId m) (te_TakerOrderId m) x.

Definition TradeEvent_SbeBlockLength : Z := 40.
Definition TradeEvent_SbeTemplateId : Z := 11.
Definition TradeEvent_SbeSchemaId : Z := 901.
Definition TradeEvent_SbeSchemaVersion : Z := 1.
Definition TradeEvent_SbeSemanticVersion : string := "1.0".
Definition TradeEvent_SbeSemanticType : list Z := [].
(** The schema has no constant fields to set. *)
Definition TradeEvent_Init (t : TradeEvent) : TradeEvent := t.

Definition TradeEvent_RangeCheck (t : TradeEvent) (actingVersion schemaVersion : Z) : option error :=
  first_error
    [check_prim "t.Price" TradeEvent_Price (te_Price t) actingVersion;
     check_prim "t.Qty" TradeEvent_Qty (te_Qty t) actingVersion;
     check_prim "t.MakerOrderId" TradeEvent_MakerOrderId (te_MakerOrderId t) actingVersion;
     check_prim "t.TakerOrderId" TradeEvent_TakerOrderId (te_TakerOrderId t) actingVersion;
     check_prim "t.Timestamp" TradeEvent_Timestamp (te_Timestamp t) actingVersion].

Definition TradeEvent_Encode {W} `{Writer W} (t : TradeEvent) (doRangeCheck : bool)
    : io (SbeGoMarshaller * W) unit :=
  (if doRangeCheck
   then io_check (TradeEvent_RangeCheck t TradeEvent_SbeSchemaVersion TradeEvent_SbeSchemaVersion)
   else mret tt);;
  WriteInt64 (te_Price t);;
  WriteInt64 (te_Qty t);;
  WriteInt64 (te_MakerOrderId t);;
  WriteInt64 (te_TakerOrderId t);;
  WriteInt64 (te_Timestamp t);;
  mret tt.

Definition TradeEvent_Decode (actingVersion blockLength : Z) (doRangeCheck : bool)
    : io (SbeGoMarshaller * Reader * TradeEvent) unit :=
  decode_prim TradeEvent_Price ReadInt64 set_te_Price actingVersion;;
  decode_prim TradeEvent_Qty ReadInt64 set_te_Qty actingVersion;;
  decode_prim TradeEvent_MakerOrderId ReadInt64 set_te_MakerOrderId actingVersion;;
  decode_prim TradeEvent_TakerOrderId ReadInt64 set_te_TakerOrderId actingVersion;;
  decode_prim TradeEvent_Timestamp ReadInt64 set_te_Timestamp actingVersion;;
  skip_rest actingVersion blockLength TradeEvent_SbeSchemaVersion TradeEvent_SbeBlockLength;;
  range_check doRangeCheck (fun t => TradeEvent_RangeCheck t actingVersion TradeEvent_SbeSchemaVersion).

(** *** BookUpdate.go *)

Record BookUpdate : Type := mkBookUpdate {
  bu_Side : Z;
  bu_Price : Z;
  bu_AggregateQty : Z;
  bu_Timestamp : Z
}.

Definition BookUpdate_Side : field := enum_field 1.
Definition BookUpdate_Price : field := int64_field 2.
Definition BookUpdate_AggregateQty : field := int64_field 3.
Definition BookUpdate_Timestamp : field := int64_field 4.

Definition set_bu_Side (x : Z) (m : BookUpdate) : BookUpdate :=
  mkBookUpdate x (bu_Price m) (bu_AggregateQty m) (bu_Timestamp m).
Definition set_bu_Price (x : Z) (m : BookUpdate) : BookUpdate :=
  mkBookUpdate (bu_Side m) x (bu_AggregateQty m) (bu_Timestamp m).
Definition set_bu_AggregateQty (x : Z) (m : BookUpdate) : BookUpdate :=
  mkBookUpdate (bu_Side m) (bu_Price m) x (bu_Timestamp m).
Definition set_bu_Timestamp (x : Z) (m : BookUpdate) : BookUpdate :=
  mkBookUpdate (bu_Side m) (bu_Price m) (bu_AggregateQty m) x.

Definition BookUpdate_SbeBlockLength : Z := 25.
Definition BookUpdate_SbeTemplateId : Z := 12.
Definition BookUpdate_SbeSchemaId : Z := 901.
Definition BookUpdate_SbeSchemaVersion : Z := 1.
Definition BookUpdate_SbeSemanticVersion : string := "1.0".
Definition BookUpdate_SbeSemanticType : list Z := [].
(** The schema has no constant fields to set. *)
Definition BookUpdate_Init (b : BookUpdate) : BookUpdate := b.

Definition BookUpdate_RangeCheck (b : BookUpdate) (actingVersion schemaVersion : Z) : option error :=
  first_error
    [SideEnum_RangeCheck (bu_Side b) actingVersion schemaVersion;
     check_prim "b.Price" BookUpdate_Price (bu_Price b) actingVersion;
     check_prim "b.AggregateQty" BookUpdate_AggregateQty (bu_AggregateQty b) actingVersion;
     check_prim "b.Timestamp" BookUpdate_Timestamp (bu_Timestamp b) actingVersion].

Definition BookUpdate_Encode {W} `{Writer W} (b : BookUpdate) (doRangeCheck : bool)
    : io (SbeGoMarshaller * W) unit :=
  (if doRangeCheck
   then io_check (BookUpdate_RangeCheck b BookUpdate_SbeSchemaVersion BookUpdate_SbeSchemaVersion)
   else mret tt);;
  SideEnum_Encode (bu_Side b);;
  WriteInt64 (bu_Price b);;
  WriteInt64 (bu_AggregateQty b);;
  WriteInt64 (bu_Timestamp b);;
  mret tt.

Definition BookUpdate_Decode (actingVersion blockLength : Z) (doRangeCheck : bool)
    : io (SbeGoMarshaller * Reader * BookUpdate) unit :=
  decode_enum BookUpdate_Side (SideEnum_Decode actingVersion) set_bu_Side actingVersion;;
  decode_prim BookUpdate_Price ReadInt64 set_bu_Price actingVersion;;
  decode_prim BookUpdate_AggregateQty ReadInt64 set_bu_AggregateQty actingVersion;;
  decode_prim BookUpdate_Timestamp ReadInt64 set_bu_Timestamp actingVersion;;
  skip_rest actingVersion blockLength BookUpdate_SbeSchemaVersion BookUpdate_SbeBlockLength;;
  range_check doRangeCheck (fun b => BookUpdate_RangeCheck b actingVersion BookUpdate_SbeSchemaVersion).
