(* ===== verification/CodecLaws.v ===== *)
(** * The codecs: their interface and its laws

    [SbeMessage] is the interface [sbeMessage] of service/encoding.go (and
    the anonymous one of client/client.go).  [SbeCodec] adds the decoder and
    the laws a codec obeys; each generated message is an instance, and what
    follows about frames is proved from the laws alone. *)
From S2P Require Import Prelude Marshal Codecs.

Class SbeMessage (M : Type) : Type := {
  Encode : forall {W} `{Writer W}, M -> bool -> io (SbeGoMarshaller * W) unit;
  SbeBlockLength : Z;
  SbeTemplateId : Z;
  SbeSchemaId : Z;
  SbeSchemaVersion : Z
}.
Arguments SbeBlockLength M {_}.
Arguments SbeTemplateId M {_}.
Arguments SbeSchemaId M {_}.
Arguments SbeSchemaVersion M {_}.

(** What a block of a later version of the schema has beyond this version's
    fields: how many bytes [Decode] skips. *)
Definition surplus (schemaVersion sbeBlockLength actingVersion blockLength : Z) : nat :=
  if (schemaVersion <? actingVersion) && (sbeBlockLength <? blockLength)
  then Z.to_nat (uint16 (blockLength - sbeBlockLength)) else 0.

Class SbeCodec (M : Type) {HM : SbeMessage M} : Type := {
  Decode : Z -> Z -> bool -> io (SbeGoMarshaller * Reader * M) unit;
  RangeCheck : M -> Z -> Z -> option error;
  (** The fields are values of their machine types. *)
  typed : M -> Prop;
  (** The bytes of the message. *)
  wire : M -> list Z;
  header_typed : is_uint16 (SbeBlockLength M) /\ is_uint16 (SbeTemplateId M) /\
                 is_uint16 (SbeSchemaId M) /\ is_uint16 (SbeSchemaVersion M);
  wire_length : forall x, length (wire x) = Z.to_nat (SbeBlockLength M);
  wire_bytes : forall x, Forall is_byte (wire x);
  (** [Encode] with a range check refuses with its error, writing nothing... *)
  Encode_refuses : forall W `{Writer W} x err (s : SbeGoMarshaller * W),
    RangeCheck x (SbeSchemaVersion M) (SbeSchemaVersion M) = Some err ->
    Encode x true s = (inr err, s);
  (** ... and otherwise writes the bytes of the message. *)
  Encode_emits : forall W `{LawfulWriter W} x (check : bool),
    (check = true -> RangeCheck x (SbeSchemaVersion M) (SbeSchemaVersion M) = None) ->
    emits (Encode (W := W) x check) (wire x);
  (** [Decode] reads the bytes of a message back, skips what a later version
      added, and then checks ranges. *)
  Decode_wire : forall x x0 m rest actingVersion blockLength (check : bool),
    typed x -> marsh_ok m -> Forall is_byte rest -> 0 <= actingVersion ->
    exists m', marsh_ok m' /\
      Decode actingVersion blockLength check ((m, wire x ++ rest), x0) =
        (match (if check then RangeCheck x actingVersion (SbeSchemaVersion M) else None) with
         | None => inl tt
         | Some err => inr err
         end,
         ((m', drop (surplus (SbeSchemaVersion M) (SbeBlockLength M) actingVersion blockLength) rest), x));
  (** [Decode] of fewer bytes than a block fails. *)
  Decode_short : forall x0 m r actingVersion blockLength (check : bool),
    marsh_ok m -> Forall is_byte r -> 0 <= actingVersion -> (length r < Z.to_nat (SbeBlockLength M))%nat ->
    exists m' x' err, marsh_ok m' /\
      Decode actingVersion blockLength check ((m, r), x0) = (inr err, ((m', []), x')) /\
      (err = EOF \/ err = ErrUnexpectedEOF)
}.

(** ** Sequences of fields *)

Section Fields.
Context {M : Type}.
Abbreviation dec := (io (SbeGoMarshaller * Reader * M) unit).

(** [c] reads [bs] and updates the message with [g]. *)
Definition decodes (c : dec) (bs : list Z) (g : M -> M) : Prop :=
  Forall is_byte bs /\
  forall m rest x, marsh_ok m -> Forall is_byte rest ->
    exists m', marsh_ok m' /\ c ((m, bs ++ rest), x) = (inl tt, ((m', rest), g x)).

(** [c] consumes [n] bytes whatever they are, or fails on fewer. *)
Definition consumes (c : dec) (n : nat) : Prop :=
  forall m r x, marsh_ok m -> Forall is_byte r ->
    exists m' x', marsh_ok m' /\
      if (n <=? length r)%nat then c ((m, r), x) = (inl tt, ((m', drop n r), x'))
      else exists err, c ((m, r), x) = (inr err, ((m', []), x')) /\
                       (err = EOF \/ err = ErrUnexpectedEOF).

Lemma short_error r : short r = EOF \/ short r = ErrUnexpectedEOF.
Proof. unfold short. destruct (decide _); auto. Qed.

Lemma read_field_decodes set rd n f v :
  reads rd n f -> decodes (read_field set rd) (le n v) (set (f (le n v))).
Proof.
  intros Hrd. split; [apply le_bytes|]. intros m rest x Hm Hr. unfold read_field. cbn [fst snd].
  destruct (Hrd m (le n v ++ rest) Hm) as (m' & Hm' & Hc);
    [apply Forall_app; split; [apply le_bytes|done]|].
  rewrite length_app, le_length in Hc. rewrite (proj2 (Nat.leb_le _ _)) in Hc by lia.
  rewrite take_app_length', drop_app_length' in Hc by by rewrite le_length.
  exists m'. by rewrite Hc.
Qed.

Lemma read_field_consumes set rd n f : reads rd n f -> consumes (read_field set rd) n.
Proof.
  intros Hrd m r x Hm Hr. unfold read_field. cbn [fst snd].
  destruct (Hrd m r Hm Hr) as (m' & Hm' & Hc). rewrite Hc. destruct (n <=? length r)%nat.
  - eauto.
  - exists m', x. split; [done|]. exists (short r). split; [done|]. apply short_error.
Qed.

Lemma in_acting (fld : field) v : SinceVersion fld = 0 -> 0 <= v -> InActingVersion fld v = true.
Proof. unfold InActingVersion. intros ->. by apply Z.leb_le. Qed.
End Fields.

(** The fields of the messages: eight bytes of an [int64], one of an enum. *)
Lemma int64_decodes {M} (set : Z -> M -> M) id v av :
  0 <= av -> is_int64 v ->
  decodes (decode_prim (int64_field id) ReadInt64 set av) (le 8 v) (set v).
Proof.
  intros Hav Hv. unfold decode_prim. rewrite in_acting by done. simpl negb. cbv iota.
  pose proof (read_field_decodes set _ _ _ v ReadInt64_reads) as H. cbv beta in H.
  rewrite le_val_le in H. change (8 * Z.of_nat 8) with 64 in H.
  by rewrite sint_uint, sint_id in H.
Qed.

Lemma int64_consumes {M} (set : Z -> M -> M) id av :
  0 <= av -> consumes (decode_prim (int64_field id) ReadInt64 set av) 8.
Proof.
  intros Hav. unfold decode_prim. rewrite in_acting by done.
  exact (read_field_consumes set _ _ _ ReadInt64_reads).
Qed.

Lemma enum_decodes {M} (set : Z -> M -> M) id v av :
  0 <= av -> is_int8 v -> decodes (decode_enum (enum_field id) ReadInt8 set av) (le 1 v) (set v).
Proof.
  intros Hav Hv. unfold decode_enum. rewrite in_acting by done.
  pose proof (read_field_decodes set _ _ _ v ReadInt8_reads) as H. cbv beta in H.
  rewrite le_val_le in H. change (8 * Z.of_nat 1) with 8 in H.
  by rewrite sint_uint, sint_id in H.
Qed.

Lemma enum_consumes {M} (set : Z -> M -> M) id av :
  0 <= av -> consumes (decode_enum (enum_field id) ReadInt8 set av) 1.
Proof.
  intros Hav. unfold decode_enum. rewrite in_acting by done.
  exact (read_field_consumes set _ _ _ ReadInt8_reads).
Qed.

Lemma header_decodes {M} (set : Z -> M -> M) v av :
  0 <= av -> is_uint16 v -> decodes (decode_prim header_field ReadUint16 set av) (le 2 v) (set v).
Proof.
  intros Hav Hv. unfold decode_prim. rewrite in_acting by done. simpl negb. cbv iota.
  pose proof (read_field_decodes set _ _ _ v ReadUint16_reads) as H. cbv beta in H.
  rewrite le_val_le in H. change (8 * Z.of_nat 2) with 16 in H. by rewrite uint_id in H.
Qed.

(** ** Whole messages *)

Section Messages.
Context {M : Type}.
Abbreviation dec := (io (SbeGoMarshaller * Reader * M) unit).

(** [c] run on the input [r] and the message [x] ends in [out]. *)
Definition ends (c : dec) (r : Reader) (x : M)
    (out : SbeGoMarshaller -> (unit + error) * (SbeGoMarshaller * Reader * M)) : Prop :=
  forall m, marsh_ok m -> exists m', marsh_ok m' /\ c ((m, r), x) = out m'.

(** One decoded field, and the rest of the code on the rest of the input. *)
Lemma ends_seq c k a g rest x out :
  decodes c a g -> Forall is_byte rest -> ends k rest (g x) out -> ends (c;; k) (a ++ rest) x out.
Proof.
  intros [_ Hc] Hr Hk m Hm. destruct (Hc m rest x Hm Hr) as (m' & Hm' & Hrun).
  unfold mbind, io_bind. setoid_rewrite Hrun. by apply Hk.
Qed.

(** [c] fails on fewer than [n] bytes. *)
Definition starves (c : dec) (n : nat) : Prop :=
  forall m r x, marsh_ok m -> Forall is_byte r -> (length r < n)%nat ->
    exists m' x' err, marsh_ok m' /\ c ((m, r), x) = (inr err, ((m', []), x')) /\
                      (err = EOF \/ err = ErrUnexpectedEOF).

Lemma starves_nil c : starves c 0.
Proof. intros m r x _ _ H. lia. Qed.

Lemma starves_eq c n n' : starves c n -> n = n' -> starves c n'.
Proof. by intros ? <-. Qed.

Lemma starves_seq c1 c2 n1 n2 : consumes c1 n1 -> starves c2 n2 -> starves (c1;; c2) (n1 + n2).
Proof.
  intros H1 H2 m r x Hm Hr Hlen. unfold mbind, io_bind.
  destruct (H1 m r x Hm Hr) as (m1 & x1 & Hm1 & Hc1).
  destruct (Nat.leb_spec n1 (length r)) as [Hle|Hlt].
  - rewrite Hc1. apply H2; [done|by apply Forall_drop|]. rewrite length_drop. lia.
  - destruct Hc1 as (err & -> & Herr). by exists m1, x1, err.
Qed.

(** What a [Decode] that has read [x] answers. *)
Definition decoded (sv bl av abl : Z) (o : option error) (r : Reader) (x : M)
    (m : SbeGoMarshaller) : (unit + error) * (SbeGoMarshaller * Reader * M) :=
  (match o with None => inl tt | Some err => inr err end,
   ((m, drop (surplus sv bl av abl) r), x)).

Lemma ends_eq c r x out out' : ends c r x out -> out = out' -> ends c r x out'.
Proof. by intros ? <-. Qed.

(** The end of every [Decode]. *)
Lemma ends_tail sv bl av abl (check : bool) rc r (x : M) :
  ends (skip_rest av abl sv bl;; range_check check rc) r x
    (decoded sv bl av abl (if check then rc x else None) r x).
Proof.
  intros m Hm. exists m. split; [done|].
  unfold mbind, io_bind, skip_rest, surplus, range_check, io_check, io_fail, mret, io_ret, decoded, surplus.
  destruct (_ && _); cbn [fst snd]; (destruct check; [|done]); by destruct (rc x).
Qed.
End Messages.

Section Encoding.
Context {W : Type} `{LawfulWriter W}.

Lemma emits_last (c : io (SbeGoMarshaller * W) unit) a : emits c a -> emits (c;; mret tt) a.
Proof. intros Hc. rewrite <- (app_nil_r a). apply emits_seq; [done|apply emits_ret]. Qed.

Lemma emits_check (check : bool) o (c : io (SbeGoMarshaller * W) unit) a :
  (check = true -> o = None) -> emits c a ->
  emits ((if check then io_check o else mret tt);; c) a.
Proof. intros Ho Hc. destruct check; [rewrite Ho by done|]; exact Hc. Qed.
End Encoding.

(** ** The five messages

    The laws hold for every message for the same reasons: a field of the
    encoder writes what the field of the decoder reads. *)

Ltac solve_bytes := repeat (apply Forall_app; split); first [apply le_bytes | done].
Ltac solve_emits :=
  apply emits_check; [done|];
  repeat first [apply emits_last | apply emits_seq | apply WriteInt64_emits
               | apply WriteInt8_emits | apply WriteUint16_emits].
Ltac solve_ends x :=
  rewrite <- ?app_assoc;
  repeat (eapply ends_seq; [first [by apply int64_decodes | by apply enum_decodes]|solve_bytes|]);
  eapply ends_eq; [apply ends_tail|by destruct x].
Ltac solve_starves :=
  eapply starves_eq;
  [repeat (apply starves_seq; [first [by apply int64_consumes | by apply enum_consumes]|]);
   apply starves_nil
  |reflexivity].

(** The laws of a message whose definitions are in the hint base [codec]. *)
Ltac solve_codec :=
  [> by repeat split
  | intros x; autounfold with codec; by rewrite ?length_app, ?le_length
  | intros x; autounfold with codec; solve_bytes
  | intros W HW x err s Hrc; simpl in *; autounfold with codec; by rewrite Hrc
  | intros W HW HL x check Hrc; simpl in *; autounfold with codec; solve_emits
  | intros x x0 m rest av bl check Ht Hm Hr Hav; revert m Hm;
    lazymatch goal with
    | |- forall m, marsh_ok m -> exists m', marsh_ok m' /\ ?dec _ _ _ (_, ?r, _) =
          (match ?o with None => _ | Some _ => _ end, _) =>
        change (ends (dec av bl check) r x0
          (decoded (SbeSchemaVersion _) (SbeBlockLength _) av bl o rest x))
    end;
    autounfold with codec in *; destruct_and? Ht; solve_ends x
  | intros x0 m r av bl check Hm Hr Hav Hlen; revert m r x0 Hm Hr Hlen;
    lazymatch goal with
    | |- forall m r x, _ -> _ -> (_ < ?n)%nat -> exists m' x' err, _ /\ ?dec _ _ _ _ = _ /\ _ =>
        change (starves (dec av bl check) n)
    end;
    autounfold with codec; solve_starves ].

(** *** NewOrder *)

#[export] Instance NewOrder_SbeMessage : SbeMessage NewOrder := {
  Encode W _ := NewOrder_Encode;
  SbeBlockLength := NewOrder_SbeBlockLength;
  SbeTemplateId := NewOrder_SbeTemplateId;
  SbeSchemaId := NewOrder_SbeSchemaId;
  SbeSchemaVersion := NewOrder_SbeSchemaVersion
}.

Definition NewOrder_typed (x : NewOrder) : Prop :=
  is_int64 (no_ClientOrderId x) /\ is_int8 (no_Side x) /\ is_int64 (no_Price x) /\ is_int64
  (no_Qty x).
Definition NewOrder_wire (x : NewOrder) : list Z :=
  le 8 (no_ClientOrderId x) ++ le 1 (no_Side x) ++ le 8 (no_Price x) ++ le 8 (no_Qty x).
#[export] Hint Unfold NewOrder_typed NewOrder_wire NewOrder_Encode NewOrder_Decode SideEnum_Encode SideEnum_Decode : codec.

#[export] Instance NewOrder_SbeCodec : SbeCodec NewOrder.
Proof.
  refine {| Decode := NewOrder_Decode; RangeCheck := NewOrder_RangeCheck;
            typed := NewOrder_typed; wire := NewOrder_wire |}.
  all: solve_codec.
Defined.

(** *** CancelOrder *)

#[export] Instance CancelOrder_SbeMessage : SbeMessage CancelOrder := {
  Encode W _ := CancelOrder_Encode;
  SbeBlockLength := CancelOrder_SbeBlockLength;
  SbeTemplateId := CancelOrder_SbeTemplateId;
  SbeSchemaId := CancelOrder_SbeSchemaId;
  SbeSchemaVersion := CancelOrder_SbeSchemaVersion
}.

Definition CancelOrder_typed (x : CancelOrder) : Prop :=
  is_int64 (co_OrderId x).
Definition CancelOrder_wire (x : CancelOrder) : list Z :=
  le 8 (co_OrderId x).
#[export] Hint Unfold CancelOrder_typed CancelOrder_wire CancelOrder_Encode CancelOrder_Decode : codec.

#[export] Instance CancelOrder_SbeCodec : SbeCodec CancelOrder.
Proof.
  refine {| Decode := CancelOrder_Decode; RangeCheck := CancelOrder_RangeCheck;
            typed := CancelOrder_typed; wire := CancelOrder_wire |}.
  all: solve_codec.
Defined.

(** *** ExecutionReport *)

#[export] Instance ExecutionReport_SbeMessage : SbeMessage ExecutionReport := {
  Encode W _ := ExecutionReport_Encode;
  SbeBlockLength := ExecutionReport_SbeBlockLength;
  SbeTemplateId := ExecutionReport_SbeTemplateId;
  SbeSchemaId := ExecutionReport_SbeSchemaId;
  SbeSchemaVersion := ExecutionReport_SbeSchemaVersion
}.

Definition ExecutionReport_typed (x : ExecutionReport) : Prop :=
  is_int64 (er_OrderId x) /\ is_int64 (er_ClientOrderId x) /\ is_int8 (er_Status x) /\ is_int8
  (er_Reason x) /\ is_int8 (er_Side x) /\ is_int64 (er_Price x) /\ is_int64 (er_Qty x) /\
  is_int64 (er_RemainingQty x) /\ is_int64 (er_Timestamp x).
Definition ExecutionReport_wire (x : ExecutionReport) : list Z :=
  le 8 (er_OrderId x) ++ le 8 (er_ClientOrderId x) ++ le 1 (er_Status x) ++ le 1 (er_Reason x)
  ++ le 1 (er_Side x) ++ le 8 (er_Price x) ++ le 8 (er_Qty x) ++ le 8 (er_RemainingQty x) ++ le
  8 (er_Timestamp x).
#[export] Hint Unfold ExecutionReport_typed ExecutionReport_wire ExecutionReport_Encode ExecutionReport_Decode OrderStatusEnum_Encode OrderStatusEnum_Decode RejectReasonEnum_Encode RejectReasonEnum_Decode SideEnum_Encode SideEnum_Decode : codec.

#[export] Instance ExecutionReport_SbeCodec : SbeCodec ExecutionReport.
Proof.
  refine {| Decode := ExecutionReport_Decode; RangeCheck := ExecutionReport_RangeCheck;
            typed := ExecutionReport_typed; wire := ExecutionReport_wire |}.
  all: solve_codec.
Defined.

(** *** TradeEvent *)

#[export] Instance TradeEvent_SbeMessage : SbeMessage TradeEvent := {
  Encode W _ := TradeEvent_Encode;
  SbeBlockLength := TradeEvent_SbeBlockLength;
  SbeTemplateId := TradeEvent_SbeTemplateId;
  SbeSchemaId := TradeEvent_SbeSchemaId;
  SbeSchemaVersion := TradeEvent_SbeSchemaVersion
}.

Definition TradeEvent_typed (x : TradeEvent) : Prop :=
  is_int64 (te_Price x) /\ is_int64 (te_Qty x) /\ is_int64 (te_MakerOrderId x) /\ is_int64
  (te_TakerOrderId x) /\ is_int64 (te_Timestamp x).
Definition TradeEvent_wire (x : TradeEvent) : list Z :=
  le 8 (te_Price x) ++ le 8 (te_Qty x) ++ le 8 (te_MakerOrderId x) ++ le 8 (te_TakerOrderId x)
  ++ le 8 (te_Timestamp x).
#[export] Hint Unfold TradeEvent_typed TradeEvent_wire TradeEvent_Encode TradeEvent_Decode : codec.

#[export] Instance TradeEvent_SbeCodec : SbeCodec TradeEvent.
Proof.
  refine {| Decode := TradeEvent_Decode; RangeCheck := TradeEvent_RangeCheck;
            typed := TradeEvent_typed; wire := TradeEvent_wire |}.
  all: solve_codec.
Defined.

(** *** BookUpdate *)

#[export] Instance BookUpdate_SbeMessage : SbeMessage BookUpdate := {
  Encode W _ := BookUpdate_Encode;
  SbeBlockLength := BookUpdate_SbeBlockLength;
  SbeTemplateId := BookUpdate_SbeTemplateId;
  SbeSchemaId := BookUpdate_SbeSchemaId;
  SbeSchemaVersion := BookUpdate_SbeSchemaVersion
}.

Definition BookUpdate_typed (x : BookUpdate) : Prop :=
  is_int8 (bu_Side x) /\ is_int64 (bu_Price x) /\ is_int64 (bu_AggregateQty x) /\ is_int64
  (bu_Timestamp x).
Definition BookUpdate_wire (x : BookUpdate) : list Z :=
  le 1 (bu_Side x) ++ le 8 (bu_Price x) ++ le 8 (bu_AggregateQty x) ++ le 8 (bu_Timestamp x).
#[export] Hint Unfold BookUpdate_typed BookUpdate_wire BookUpdate_Encode BookUpdate_Decode SideEnum_Encode SideEnum_Decode : codec.

#[export] Instance BookUpdate_SbeCodec : SbeCodec BookUpdate.
Proof.
  refine {| Decode := BookUpdate_Decode; RangeCheck := BookUpdate_RangeCheck;
            typed := BookUpdate_typed; wire := BookUpdate_wire |}.
  all: solve_codec.
Defined.
