(* ===== verification/CodecTheorems.v ===== *)
(** * The codecs: their theorems

    Round trips of the integers, of the two headers and of every message,
    forward compatibility, truncation, and what the range checks accept. *)
From S2P Require Import Prelude Marshal Codecs CodecLaws.

(** ** Integers *)

(** The types of the marshaller; a float is written as the integer of its
    bits. *)
Inductive prim : Type := U8 | U16 | U32 | U64 | I8 | I16 | I32 | I64 | F32 | F64.

Definition prim_size (p : prim) : nat :=
  match p with U8 | I8 => 1 | U16 | I16 => 2 | U32 | I32 | F32 => 4 | U64 | I64 | F64 => 8 end.
Definition prim_bits (p : prim) : Z := 8 * Z.of_nat (prim_size p).
Definition prim_range (p : prim) (v : Z) : Prop :=
  match p with
  | U8 | U16 | U32 | U64 | F32 | F64 => is_uint (prim_bits p) v
  | I8 | I16 | I32 | I64 => is_sint (prim_bits p) v
  end.

Definition write_prim {W} `{Writer W} (p : prim) : Z -> io (SbeGoMarshaller * W) unit :=
  match p with
  | U8 => WriteUint8 | U16 => WriteUint16 | U32 => WriteUint32 | U64 => WriteUint64
  | I8 => WriteInt8 | I16 => WriteInt16 | I32 => WriteInt32 | I64 => WriteInt64
  | F32 => fun bits => WriteFloat32 (Float32frombits bits)
  | F64 => fun bits => WriteFloat64 (Float64frombits bits)
  end.
Definition read_prim (p : prim) : io (SbeGoMarshaller * Reader) Z :=
  match p with
  | U8 => ReadUint8 | U16 => ReadUint16 | U32 => ReadUint32 | U64 => ReadUint64
  | I8 => ReadInt8 | I16 => ReadInt16 | I32 => ReadInt32 | I64 => ReadInt64
  | F32 => v ← ReadFloat32; mret (Float32bits v)
  | F64 => v ← ReadFloat64; mret (Float64bits v)
  end.

Lemma WriteInt32_emits {W} `{LawfulWriter W} v : emits (WriteInt32 v) (le 4 v).
Proof.
  apply (emits_write (fun x => <[3%nat := uint8 (Z.shiftr v 24)]> (<[2%nat := uint8 (Z.shiftr v 16)]>
    (<[1%nat := uint8 (Z.shiftr v 8)]> (<[0%nat := uint8 v]> x)))) b4); [done|].
  intros [|? [|? [|? [|? x]]]] Hx; try done.
Qed.

Lemma write_prim_emits {W} `{LawfulWriter W} p v : emits (write_prim p v) (le (prim_size p) v).
Proof.
  destruct p;
    [apply (WriteInt8_emits v)|apply (WriteUint16_emits v)|apply (WriteInt32_emits v)
    |apply (WriteInt64_emits v)|apply (WriteInt8_emits v)|apply (WriteUint16_emits v)
    |apply (WriteInt32_emits v)|apply (WriteInt64_emits v)|apply (WriteInt32_emits v)
    |apply (WriteInt64_emits v)].
Qed.

Lemma reads_ext {A} (c c' : io (SbeGoMarshaller * Reader) A) n f : (forall s, c s = c' s) -> reads c n f -> reads c' n f.
Proof. intros Hc H m r Hm Hr. destruct (H m r Hm Hr) as (m' & Hm' & H'). exists m'. by rewrite <- Hc. Qed.

Lemma ReadFloat32_reads : reads (read_prim F32) 4 le_val.
Proof.
  eapply reads_ext; [|exact ReadUint32_reads]. intros s.
  unfold read_prim, ReadFloat32, ReadUint32, mbind, io_bind. by destruct (read_into 4 s) as [[|] ?].
Qed.

Lemma ReadFloat64_reads : reads (read_prim F64) 8 le_val.
Proof.
  eapply reads_ext; [|exact ReadUint64_reads]. intros s.
  unfold read_prim, ReadFloat64, ReadUint64, mbind, io_bind. by destruct (read_into 8 s) as [[|] ?].
Qed.

Lemma read_prim_reads p :
  exists f, reads (read_prim p) (prim_size p) f /\ forall v, prim_range p v -> f (le (prim_size p) v) = v.
Proof.
  destruct p; eexists;
    (split; [first [apply ReadUint8_reads | apply ReadUint16_reads | apply ReadUint32_reads
                   | apply ReadUint64_reads | apply ReadInt8_reads | apply ReadInt16_reads
                   | apply ReadInt32_reads | apply ReadInt64_reads | apply ReadFloat32_reads
                   | apply ReadFloat64_reads]|]);
    intros v Hv; cbv beta; rewrite le_val_le; first [by apply uint_id | by rewrite sint_uint, sint_id].
Qed.

(** C23: Every value of the ten types the marshaller supports is written
    as its size in bytes and read back as itself (a float by its bits), with the rest of the input
    left for the next read, whatever was in the scratch buffers. *)
Theorem marshal_roundtrip p v m1 m2 rest :
  prim_range p v -> marsh_ok m1 -> marsh_ok m2 -> Forall is_byte rest ->
  exists m1' m2' bs,
    write_prim p v (m1, ([] : Buffer)) = (inl tt, (m1', bs)) /\ length bs = prim_size p /\
    read_prim p (m2, bs ++ rest) = (inl v, (m2', rest)) /\ marsh_ok m1' /\ marsh_ok m2'.
Proof.
  intros Hv Hm1 Hm2 Hr.
  destruct (emits_reliable (write_prim p v) (le (prim_size p) v) m1 [] (write_prim_emits p v) Hm1)
    as (m1' & w & Hw & Hm1' & Hbs). simpl in Hbs. change (w = le (prim_size p) v) in Hbs. subst w.
  destruct (read_prim_reads p) as (f & Hf & Hval).
  destruct (Hf m2 (le (prim_size p) v ++ rest) Hm2) as (m2' & Hm2' & Hrd);
    [apply Forall_app; split; [apply le_bytes|done]|].
  rewrite length_app, le_length, (proj2 (Nat.leb_le _ _)) in Hrd by lia.
  rewrite take_app_length', drop_app_length', Hval in Hrd by (rewrite ?le_length; done).
  exists m1', m2', (le (prim_size p) v). rewrite le_length. by split_and!.
Qed.

Lemma marshal_roundtrip_witness :
  exists m1' m2' bs,
    write_prim I64 (-2) (NewSbeGoMarshaller, ([] : Buffer)) = (inl tt, (m1', bs)) /\
    length bs = 8%nat /\
    read_prim I64 (NewSbeGoMarshaller, bs ++ [1; 2]) = (inl (-2), (m2', [1; 2])) /\
    marsh_ok m1' /\ marsh_ok m2'.
Proof.
  apply (marshal_roundtrip I64 (-2)); [|done|done|repeat constructor; done].
  split; vm_compute; [discriminate|reflexivity].
Defined.

(** ** Headers *)

Definition header_wire (h : MessageHeader) : list Z :=
  le 2 (mh_BlockLength h) ++ le 2 (mh_TemplateId h) ++ le 2 (mh_SchemaId h) ++ le 2 (mh_Version h).
Definition header_ok (h : MessageHeader) : Prop :=
  is_uint16 (mh_BlockLength h) /\ is_uint16 (mh_TemplateId h) /\
  is_uint16 (mh_SchemaId h) /\ is_uint16 (mh_Version h).
(** The hand-written header with the same fields. *)
Definition sbe_go_header (h : MessageHeader) : SbeGoMessageHeader :=
  mkSbeGoMessageHeader (mh_BlockLength h) (mh_TemplateId h) (mh_SchemaId h) (mh_Version h).

Lemma header_emits {W} `{LawfulWriter W} h : emits (MessageHeader_Encode h) (header_wire h).
Proof.
  unfold MessageHeader_Encode, header_wire.
  repeat first [apply emits_last | apply emits_seq | apply WriteUint16_emits].
Qed.

Lemma sbe_go_header_emits {W} `{LawfulWriter W} h :
  emits (SbeGoMessageHeader_Encode (sbe_go_header h)) (header_wire h).
Proof.
  set (b := fun v => uint8 v). set (c := fun v => uint8 (Z.shiftr v 8)).
  apply (emits_write (fun x => <[7%nat := c (mh_Version h)]> (<[6%nat := b (mh_Version h)]>
    (<[5%nat := c (mh_SchemaId h)]> (<[4%nat := b (mh_SchemaId h)]>
    (<[3%nat := c (mh_TemplateId h)]> (<[2%nat := b (mh_TemplateId h)]>
    (<[1%nat := c (mh_BlockLength h)]> (<[0%nat := b (mh_BlockLength h)]> x)))))))) b8); [done|].
  intros [|? [|? [|? [|? [|? [|? [|? [|? [|]]]]]]]]] Hx; done.
Qed.

Lemma le_two v a b :
  is_uint16 v -> le 2 v = [a; b] -> Z.lor a (uint16 (Z.shiftl b 8)) = v.
Proof.
  intros Hv Hle. pose proof (le_bytes 2 v) as Hb. pose proof (le_val_le 2 v) as Hval.
  rewrite Hle in Hb, Hval. rewrite <- (lor_unsigned a [b] Hb) in Hval.
  split_forall. rewrite uint_shiftl by done. simpl in Hval. rewrite Hval.
  by apply uint_id.
Qed.

Lemma header_ends h h0 rest av :
  header_ok h -> Forall is_byte rest -> 0 <= av ->
  ends (MessageHeader_Decode av) (header_wire h ++ rest) h0 (fun m => (inl tt, ((m, rest), h))).
Proof.
  intros (H1 & H2 & H3 & H4) Hr Hav. unfold header_wire, MessageHeader_Decode.
  rewrite <- !app_assoc.
  do 3 (eapply ends_seq; [by apply header_decodes|solve_bytes|]).
  intros m Hm. destruct (proj2 (header_decodes set_mh_Version (mh_Version h) av Hav H4) m rest
    (set_mh_SchemaId (mh_SchemaId h) (set_mh_TemplateId (mh_TemplateId h)
       (set_mh_BlockLength (mh_BlockLength h) h0))) Hm Hr) as (m' & Hm' & Hrun).
  exists m'. split; [done|]. setoid_rewrite Hrun. by destruct h.
Qed.

Lemma sbe_go_header_reads :
  exists f, reads SbeGoMessageHeader_Decode 8 f /\
            forall h, header_ok h -> f (header_wire h) = sbe_go_header h.
Proof.
  set (g := fun b : nat -> Z => mkSbeGoMessageHeader
    (Z.lor (b 0%nat) (uint16 (Z.shiftl (b 1%nat) 8)))
    (Z.lor (b 2%nat) (uint16 (Z.shiftl (b 3%nat) 8)))
    (Z.lor (b 4%nat) (uint16 (Z.shiftl (b 5%nat) 8)))
    (Z.lor (b 6%nat) (uint16 (Z.shiftl (b 7%nat) 8)))).
  exists (fun bs => g (fun i => nth i bs 0)). split.
  - apply (reads_scratch 8 g); [lia|].
    intros [|? [|? [|? [|? [|? [|? [|? [|? [|]]]]]]]]] tail Hlen _; done.
  - intros h (H1 & H2 & H3 & H4). unfold g, header_wire, sbe_go_header. cbn [le app nth].
    by rewrite (le_two _ _ _ H1 eq_refl), (le_two _ _ _ H2 eq_refl), (le_two _ _ _ H3 eq_refl),
      (le_two _ _ _ H4 eq_refl).
Qed.

(** C24: The hand-optimised [SbeGoMessageHeader] and the generated
    [MessageHeader] are the same format: they write the same eight bytes to a
    buffer, and each decoder reads those bytes, followed by anything, back to
    the same field values, leaving the rest unread. *)
Theorem headers_agree h h0 m rest :
  header_ok h -> marsh_ok m -> Forall is_byte rest ->
  exists bs m1 m2 m3 m4,
    length bs = 8%nat /\
    MessageHeader_Encode h (m, ([] : Buffer)) = (inl tt, (m1, bs)) /\
    SbeGoMessageHeader_Encode (sbe_go_header h) (m, ([] : Buffer)) = (inl tt, (m2, bs)) /\
    MessageHeader_Decode 0 ((m, bs ++ rest), h0) = (inl tt, ((m3, rest), h)) /\
    SbeGoMessageHeader_Decode (m, bs ++ rest) = (inl (sbe_go_header h), (m4, rest)).
Proof.
  intros Hh Hm Hr.
  assert (Hlen : length (header_wire h) = 8%nat) by done.
  assert (Hb : Forall is_byte (header_wire h)) by (unfold header_wire; solve_bytes).
  destruct (emits_reliable (MessageHeader_Encode h) _ m [] (header_emits h) Hm) as (m1 & w1 & H1 & _ & Hw1).
  destruct (emits_reliable _ _ m [] (sbe_go_header_emits h) Hm) as (m2 & w2 & H2 & _ & Hw2).
  destruct (header_ends h h0 rest 0 Hh Hr ltac:(lia) m Hm) as (m3 & _ & H3).
  destruct sbe_go_header_reads as (f & Hf & Hval).
  destruct (Hf m (header_wire h ++ rest) Hm) as (m4 & _ & H4); [by apply Forall_app|].
  rewrite length_app, Hlen, (proj2 (Nat.leb_le _ _)) in H4 by lia.
  rewrite take_app_length', drop_app_length', Hval in H4 by done.
  change (w1 = header_wire h) in Hw1. change (w2 = header_wire h) in Hw2. subst w1 w2.
  by exists (header_wire h), m1, m2, m3, m4.
Qed.

Lemma headers_agree_witness :
  let h := mkMessageHeader 25 1 901 1 in
  exists bs m1 m2 m3 m4,
    length bs = 8%nat /\
    MessageHeader_Encode h (NewSbeGoMarshaller, ([] : Buffer)) = (inl tt, (m1, bs)) /\
    SbeGoMessageHeader_Encode (sbe_go_header h) (NewSbeGoMarshaller, ([] : Buffer)) = (inl tt, (m2, bs)) /\
    MessageHeader_Decode 0 ((NewSbeGoMarshaller, bs ++ [7]), h) = (inl tt, ((m3, [7]), h)) /\
    SbeGoMessageHeader_Decode (NewSbeGoMarshaller, bs ++ [7]) = (inl (sbe_go_header h), (m4, [7])).
Proof.
  apply headers_agree; [by repeat split|done|by repeat constructor].
Defined.

(** ** Messages *)

Section Messages.
Context {M : Type} `{SbeCodec M}.

(** A message encoded into a buffer. *)
Lemma Encode_buffer (x : M) (check : bool) m w :
  (check = true -> RangeCheck x (SbeSchemaVersion M) (SbeSchemaVersion M) = None) -> marsh_ok m ->
  exists m', marsh_ok m' /\
    Encode (W := Buffer) x check (m, w) = (inl tt, (m', w ++ wire x)).
Proof.
  intros Hrc Hm.
  destruct (emits_reliable _ _ m w (Encode_emits Buffer x check Hrc) Hm)
    as (m' & w' & Hrun & Hm' & Hw'). exists m'. split; [done|].
  change (w' = w ++ wire x) in Hw'. by subst w'.
Qed.
End Messages.

(** C13: Round trip of every message (the theorem is about any codec; the five
    generated messages are its instances): a message whose fields have their
    machine types and pass the range check is encoded as exactly its block
    length in bytes, and decoding these bytes, followed by anything, into any
    message yields the same message and leaves the rest unread. *)
Theorem message_roundtrip {M : Type} `{SbeCodec M} (x x0 : M) m1 m2 rest :
  typed x -> RangeCheck x (SbeSchemaVersion M) (SbeSchemaVersion M) = None ->
  marsh_ok m1 -> marsh_ok m2 -> Forall is_byte rest ->
  exists m1' m2' bs,
    Encode x true (m1, ([] : Buffer)) = (inl tt, (m1', bs)) /\
    length bs = Z.to_nat (SbeBlockLength M) /\
    Decode (SbeSchemaVersion M) (SbeBlockLength M) true ((m2, bs ++ rest), x0) =
      (inl tt, ((m2', rest), x)).
Proof.
  intros Ht Hrc Hm1 Hm2 Hr.
  destruct (Encode_buffer x true m1 [] (fun _ => Hrc) Hm1) as (m1' & _ & He).
  assert (Hv : 0 <= SbeSchemaVersion M) by (destruct header_typed as (_ & _ & _ & [? _]); done).
  destruct (Decode_wire x x0 m2 rest (SbeSchemaVersion M) (SbeBlockLength M) true Ht Hm2 Hr Hv)
    as (m2' & _ & Hd).
  rewrite Hrc in Hd. unfold surplus in Hd. rewrite Z.ltb_irrefl in Hd. simpl in Hd.
  exists m1', m2', (wire x). split_and!; [done|apply wire_length|done].
Qed.

Lemma message_roundtrip_witness :
  let x := mkExecutionReport 7 70 0 0 1 (-5) 3 MaxInt64 99 in
  let x0 := mkExecutionReport 0 0 0 0 0 0 0 0 0 in
  exists m1' m2' bs,
    Encode x true (NewSbeGoMarshaller, ([] : Buffer)) = (inl tt, (m1', bs)) /\
    length bs = 51%nat /\
    Decode 1 51 true ((NewSbeGoMarshaller, bs ++ [9]), x0) = (inl tt, ((m2', [9]), x)).
Proof.
  refine (message_roundtrip (mkExecutionReport 7 70 0 0 1 (-5) 3 MaxInt64 99)
    (mkExecutionReport 0 0 0 0 0 0 0 0 0) NewSbeGoMarshaller NewSbeGoMarshaller [9] _ _ _ _ _);
    [|reflexivity|done|done|by repeat constructor].
  repeat split; by vm_compute.
Defined.

(** C20: Forward compatibility: a block of a later schema version, which
    carries bytes after the known fields, is decoded to the known fields and
    exactly the added bytes are skipped.  At a later version an enum value
    is not checked, so the ranges that must hold are those of the integers. *)
Theorem decode_later_version {M : Type} `{SbeCodec M} (x x0 : M) m extra rest actingVersion :
  typed x -> marsh_ok m -> Forall is_byte (extra ++ rest) ->
  SbeSchemaVersion M < actingVersion ->
  SbeBlockLength M + Z.of_nat (length extra) < 2 ^ 16 -> extra <> [] ->
  RangeCheck x actingVersion (SbeSchemaVersion M) = None ->
  exists m',
    Decode actingVersion (SbeBlockLength M + Z.of_nat (length extra)) true
      ((m, wire x ++ extra ++ rest), x0) = (inl tt, ((m', rest), x)).
Proof.
  intros Ht Hm Hr Hv Hlen Hne Hrc.
  destruct header_typed as ([Hbl _] & _ & _ & [Hsv _]).
  destruct (Decode_wire x x0 m (extra ++ rest) actingVersion
    (SbeBlockLength M + Z.of_nat (length extra)) true Ht Hm Hr ltac:(lia)) as (m' & _ & Hd).
  exists m'. rewrite Hd, Hrc. do 3 f_equal. unfold surplus.
  destruct extra as [|b extra]; [done|]. clear Hne.
  rewrite (proj2 (Z.ltb_lt _ _)), (proj2 (Z.ltb_lt _ _)) by (simpl; lia). simpl andb. cbv iota.
  rewrite Z.add_simpl_l, uint_id by (unfold is_uint; lia). rewrite Nat2Z.id.
  by rewrite drop_app_length'.
Qed.

Lemma decode_later_version_witness :
  let x := mkNewOrder 5 0 100 7 in
  exists m', Decode 2 (SbeBlockLength NewOrder + Z.of_nat (length [1; 2; 3])) true
               ((NewSbeGoMarshaller, wire x ++ [1; 2; 3] ++ [4]), mkNewOrder 0 0 0 0) =
             (inl tt, ((m', [4]), x)).
Proof.
  intros x. refine (decode_later_version x (mkNewOrder 0 0 0 0) NewSbeGoMarshaller
    [1; 2; 3] [4] 2 _ _ _ _ _ _ _);
    [repeat split; by vm_compute|done|by repeat constructor|done|done|done|reflexivity].
Defined.

(** C21: Truncation: decoding a body with fewer bytes than the block of the
    message is an error, [io.EOF] or [io.ErrUnexpectedEOF], whatever the bytes
    are; nothing past the end is read. *)
Theorem decode_truncated {M : Type} `{SbeCodec M} (x0 : M) m body actingVersion blockLength check :
  marsh_ok m -> Forall is_byte body -> 0 <= actingVersion ->
  (length body < Z.to_nat (SbeBlockLength M))%nat ->
  exists err s, Decode actingVersion blockLength check ((m, body), x0) = (inr err, s) /\
                (err = EOF \/ err = ErrUnexpectedEOF).
Proof.
  intros Hm Hr Hv Hlen.
  destruct (Decode_short x0 m body actingVersion blockLength check Hm Hr Hv Hlen)
    as (m' & x' & err & _ & Hd & Herr). eauto.
Qed.

Lemma decode_truncated_witness :
  exists err s, Decode 1 40 true ((NewSbeGoMarshaller, replicate 39 1), mkTradeEvent 0 0 0 0 0) =
                  (inr err, s) /\ (err = EOF \/ err = ErrUnexpectedEOF).
Proof.
  apply decode_truncated; [done| |done|vm_compute; lia].
  apply Forall_replicate. done.
Defined.

(** C22: [Encode] of a message in range hands the message's bytes to the
    writer, in pieces that depend on the message alone, stops at the first
    error of the writer and returns that error and no other: it succeeds
    exactly when no piece is refused, and then the whole message is written;
    otherwise, against any lawful writer, one that may fail at any byte, a
    prefix of it is.  Out of range, it returns the range error and writes
    nothing. *)
Theorem encode_all_or_prefix {M : Type} `{SbeCodec M} {W : Type} `{LawfulWriter W} (x : M) :
  match RangeCheck x (SbeSchemaVersion M) (SbeSchemaVersion M) with
  | Some err => forall m (w : W), Encode x true (m, w) = (inr err, (m, w))
  | None => exists pieces, concat pieces = wire x /\
      forall m (w : W), marsh_ok m ->
        exists m' pre,
          Encode x true (m, w) =
            (returned (fst (write_all pieces w)), (m', snd (write_all pieces w))) /\
          pre `prefix_of` wire x /\ written (snd (write_all pieces w)) = written w ++ pre /\
          (fst (write_all pieces w) = None -> pre = wire x)
  end.
Proof.
  destruct (RangeCheck x _ _) as [err|] eqn:Hrc; [intros m w; by apply Encode_refuses|].
  destruct (Encode_emits W x true (fun _ => Hrc)) as (pieces & Hcat & Henc).
  exists pieces. split; [done|]. intros m w Hm. destruct (Henc m w Hm) as (m' & _ & ->).
  destruct (write_all_law pieces w) as (pre & Hp & Hpw & Hall). rewrite <- Hcat. by exists m', pre.
Qed.

(** A writer with room for a fixed number of bytes. *)
Definition Bounded : Type := list Z * nat.
#[export] Instance Bounded_Writer : Writer Bounded := fun bs w =>
  if (length bs <=? snd w)%nat then (None, (fst w ++ bs, (snd w - length bs)%nat))
  else (Some (OtherError "short write" (Z.of_nat (snd w))), (fst w ++ take (snd w) bs, 0%nat)).
#[export] Instance Bounded_Lawful : LawfulWriter Bounded.
Proof.
  refine {| written := fst |}. intros bs w. unfold Write, Bounded_Writer.
  destruct (length bs <=? snd w)%nat; simpl; [by exists bs|].
  exists (take (snd w) bs). split; [|done]. exists (drop (snd w) bs). by rewrite take_drop.
Defined.

Lemma encode_all_or_prefix_witness :
  exists pieces, concat pieces = wire (mkCancelOrder 258) /\
    forall m (w : Bounded), marsh_ok m ->
      exists m' pre,
        Encode (mkCancelOrder 258) true (m, w) =
          (returned (fst (write_all pieces w)), (m', snd (write_all pieces w))) /\
        pre `prefix_of` wire (mkCancelOrder 258) /\
        written (snd (write_all pieces w)) = written w ++ pre /\
        (fst (write_all pieces w) = None -> pre = wire (mkCancelOrder 258)).
Proof. exact (encode_all_or_prefix (W := Bounded) (mkCancelOrder 258)). Defined.

(** Three bytes of room: the writer's own error comes back, and the three
    bytes are there. *)
Example encode_short_write :
  Encode (mkCancelOrder 258) true (NewSbeGoMarshaller, ([], 3%nat) : Bounded) =
    (inr (OtherError "short write" 3), (mkMarshaller [2; 1; 0; 0; 0; 0; 0; 0], ([2; 1; 0], 0%nat))).
Proof. reflexivity. Qed.

(** ** What the range checks accept *)

Lemma first_error_none l : first_error l = None <-> Forall (fun o => o = None) l.
Proof.
  induction l as [|[err|] l IH]; simpl; [by split|split; [done|by intros [? _]%Forall_cons]|].
  rewrite IH, Forall_cons. tauto.
Qed.

Lemma check_int64_none name id v av :
  0 <= av -> is_int64 v -> check_prim name (int64_field id) v av = None <-> v <> MinInt64.
Proof.
  intros Hav Hv. unfold check_prim. rewrite in_acting by done.
  cbn [int64_field MinValue MaxValue]. unfold is_sint, MinInt64, MaxInt64 in *.
  destruct (Z.ltb_spec v (- 2 ^ 63 + 1)), (Z.ltb_spec (2 ^ 63 - 1) v); simpl orb; cbv iota;
    (split; intros ?; first [done | lia | exfalso; lia]).
Qed.

Lemma side_check_none s :
  SideEnum_RangeCheck s 1 1 = None <->
  s = ec_value Side_BUY \/ s = ec_value Side_SELL \/ s = Side_NullValue.
Proof.
  unfold SideEnum_RangeCheck, enum_check, SideValues, Side_NullValue. simpl.
  destruct (Z.eqb_spec s 0), (Z.eqb_spec s 1), (Z.eqb_spec s (-128)); simpl; split; (done || lia || tauto).
Qed.

(** C25: What a [NewOrder] must satisfy to be decoded at the schema's own
    version: no integer is the null value and the side is [BUY], [SELL] or,
    although the field is required, the null value of the enum. *)
Theorem NewOrder_range_exact x :
  NewOrder_typed x ->
  NewOrder_RangeCheck x 1 1 = None <->
  no_ClientOrderId x <> MinInt64 /\ no_Price x <> MinInt64 /\ no_Qty x <> MinInt64 /\
  (no_Side x = ec_value Side_BUY \/ no_Side x = ec_value Side_SELL \/ no_Side x = Side_NullValue).
Proof.
  intros (H1 & H2 & H3 & H4). unfold NewOrder_RangeCheck. rewrite first_error_none.
  rewrite !Forall_cons, Forall_nil, side_check_none.
  unfold NewOrder_ClientOrderId, NewOrder_Price, NewOrder_Qty.
  rewrite !check_int64_none by done. tauto.
Qed.

Lemma NewOrder_range_exact_witness :
  NewOrder_RangeCheck (mkNewOrder 1 (-128) 100 5) 1 1 = None.
Proof.
  apply (NewOrder_range_exact (mkNewOrder 1 (-128) 100 5)); [repeat split; by vm_compute|].
  repeat split; try discriminate. right. by right.
Defined.
