(* ===== verification/Snapshot.v ===== *)
(** * engine/snapshot.go: the book as a byte stream

    [Snapshot] walks the levels and their FIFOs in the store and writes the
    orders; [RestoreOrderBook] reads them back and rests them in a new book.
    [encoding/binary] in little-endian order writes an integer with one call
    of the writer and reads it with [io.ReadFull]. *)
From S2P Require Import Prelude Events OrderBook Marshal.

(** ** Code that can fail or panic *)

(** A function with a state [S] that returns an [A] or an [error], or
    panics. *)
Definition act (S A : Type) : Type := S -> outcome ((A + error) * S).

#[export] Instance act_ret S : MRet (act S) := fun A a s => Ok (inl a, s).
#[export] Instance act_bind S : MBind (act S) := fun A B k c s =>
  match c s with
  | Ok (inl a, s') => k a s'
  | Ok (inr err, s') => Ok (inr err, s')
  | Panic p => Panic p
  end.

Definition act_fail {S A} (err : error) : act S A := fun s => Ok (inr err, s).
Definition act_panic {S A} (p : panic) : act S A := fun _ => Panic p.

(** Engine code next to another state [X]. *)
Definition on_engine {X A} (c : go Engine A) : act (Engine * X) A := fun s =>
  match c (fst s) with
  | Ok (a, e) => Ok (inl a, (e, snd s))
  | Panic p => Panic p
  end.

Definition snapshotMagic : Z := 0x474D5331.
Definition snapshotVersion : Z := 1.

(** ** Writing *)

(** A value with its size in bytes. *)
Definition i8 (v : Z) : nat * Z := (1%nat, v).
Definition i32 (v : Z) : nat * Z := (4%nat, v).
Definition i64 (v : Z) : nat * Z := (8%nat, v).

Section Write.
Context {W : Type} `{Writer W}.
Abbreviation out := (act (Engine * W) unit).

(** [binary.Write(w, binary.LittleEndian, v)] for an integer of [n] bytes. *)
Definition binary_Write (n : nat) (v : Z) : out := fun s =>
  match Write (le n v) (snd s) with
  | (None, w) => Ok (inl tt, (fst s, w))
  | (Some err, w) => Ok (inr err, (fst s, w))
  end.

(** [for _, v := range []any{...} { if err := binary.Write(...) ... }] *)
Fixpoint write_values (vs : list (nat * Z)) : out :=
  match vs with
  | [] => mret tt
  | (n, v) :: vs' => binary_Write n v;; write_values vs'
  end.

(** [for o := lvl.head; o != nil; o = o.next] *)
Fixpoint write_fifo (fuel : nat) (p : ptr) : out :=
  match p with
  | None => mret tt
  | Some _ =>
      match fuel with
      | O => act_panic Diverge
      | S fuel' =>
          o ← on_engine (load_order p);
          write_values [i64 (o_id o); i64 (o_clientOrderId o); i64 (o_owner o);
                        i8 (int8 (o_side o)); i64 (o_price o); i64 (o_qty o)];;
          write_fifo fuel' (o_next o)
      end
  end.

(** The closure [writeSide]. *)
Fixpoint writeSide (fuel : nat) (levels : list loc) : out :=
  match levels with
  | [] => mret tt
  | l :: levels' =>
      lvl ← on_engine (load_level (Some l));
      write_fifo fuel (pl_head lvl);;
      writeSide fuel levels'
  end.

(** Every FIFO holds orders of the map, so the number of orders is enough
    fuel for the walk along any of them. *)
Definition Snapshot : out :=
  b ← on_engine (go_gets e_book);
  let n := size (b_orders b) in
  write_values [i32 snapshotMagic; i32 snapshotVersion; i64 1; i64 (b_nextOrderId b);
                i32 (int32 (Z.of_nat n))];;
  writeSide n (b_bids b);;
  writeSide n (b_asks b).
End Write.

(** ** Reading *)

Section Read.
Context {X : Type}.

(** [binary.Read(r, binary.LittleEndian, &v)] for an integer of [n] bytes,
    [conv] its type. *)
Definition binary_Read (n : nat) (conv : Z -> Z) : act (X * Reader) Z := fun s =>
  match ReadFull n (snd s) with
  | (bs, None, r) => Ok (inl (conv (le_val bs)), (fst s, r))
  | (_, Some err, r) => Ok (inr err, (fst s, r))
  end.
End Read.

Fixpoint restore_orders (count : nat) : act (Engine * Reader) unit :=
  match count with
  | O => mret tt
  | S count' =>
      id ← binary_Read 8 int64;
      clientOrderId ← binary_Read 8 int64;
      owner ← binary_Read 8 int64;
      side ← binary_Read 1 int8;
      price ← binary_Read 8 int64;
      qty ← binary_Read 8 int64;
      o ← on_engine (alloc_order (Order id clientOrderId owner side price qty None None None));
      on_engine (restOrder o);;
      restore_orders count'
  end.

Definition restore_body : act (Engine * Reader) unit :=
  magic ← binary_Read 4 uint32;
  version ← binary_Read 4 int32;
  instrument ← binary_Read 8 int64;
  nextOrderId ← binary_Read 8 int64;
  count ← binary_Read 4 int32;
  if negb (magic =? snapshotMagic) then act_fail (OtherError "bad snapshot magic" magic)
  else if negb (version =? snapshotVersion)
  then act_fail (OtherError "unsupported snapshot version" version)
  else
    restore_orders (Z.to_nat count);;
    on_engine (go_modify (with_book (set_nextOrderId nextOrderId))).

(** The new book, or the error, and the unread input. *)
Definition RestoreOrderBook (r : Reader) : outcome ((Engine + error) * Reader) :=
  match restore_body (NewOrderBook, r) with
  | Ok (inl _, (e, r')) => Ok (inl e, r')
  | Ok (inr err, (_, r')) => Ok (inr err, r')
  | Panic p => Panic p
  end.
