(* ===== verification/SnapshotLaws.v ===== *)
(** * Snapshots: what is written and what is read back

    The byte image of an abstract book, [Snapshot] as its printer on any
    lawful writer, and [RestoreOrderBook] as its parser. *)
From S2P Require Import Prelude Events OrderBook BookSpec BookRep BookOps BookRefine BookProps Engine.
From S2P Require Import Marshal CodecLaws Snapshot.

(** ** The format *)

Definition order_bytes (r : resting) : list Z :=
  le 8 (r_id r) ++ le 8 (r_clientOrderId r) ++ le 8 (r_owner r) ++ le 1 (int8 (r_side r)) ++
  le 8 (r_price r) ++ le 8 (r_qty r).

Definition orders_bytes (l : list resting) : list Z := concat (order_bytes <$> l).

Definition header_bytes (next count : Z) : list Z :=
  le 4 snapshotMagic ++ le 4 snapshotVersion ++ le 8 1 ++ le 8 next ++ le 4 count.

Definition snapshot_bytes (b : Book) : list Z :=
  header_bytes (s_next b) (int32 (Z.of_nat (length (all_orders b)))) ++ orders_bytes (all_orders b).

Lemma orders_bytes_app a b : orders_bytes (a ++ b) = orders_bytes a ++ orders_bytes b.
Proof. unfold orders_bytes. by rewrite fmap_app, concat_app. Qed.

Lemma order_bytes_length r : length (order_bytes r) = 41%nat.
Proof. unfold order_bytes. by rewrite !length_app, !le_length. Qed.

(** ** Printing *)

Section Prints.
Context {W : Type} `{LawfulWriter W}.
Abbreviation out := (act (Engine * W) unit).

(** From the engine [e], which it leaves alone, [c] writes [bs]; if the
    writer fails, it has a prefix of [bs]. *)
Definition prints (e : Engine) (c : out) (bs : list Z) : Prop :=
  forall w, exists w' pre, pre `prefix_of` bs /\ written w' = written w ++ pre /\
    ((c (e, w) = Ok (inl tt, (e, w')) /\ pre = bs) \/
     ((exists err, c (e, w) = Ok (inr err, (e, w'))) /\ fallible (W := W))).

Lemma prints_ret e : prints e (mret tt) [].
Proof. intros w. exists w, []. rewrite app_nil_r. split_and!; auto. Qed.

Lemma prints_seq e c1 c2 a b : prints e c1 a -> prints e c2 b -> prints e (c1;; c2) (a ++ b).
Proof.
  intros H1 H2 w. unfold mbind, act_bind.
  destruct (H1 w) as (w1 & p1 & Hp1 & Hw1 & [[-> ->]|[[err ->] Hf]]).
  - destruct (H2 w1) as (w2 & p2 & Hp2 & Hw2 & Hc). exists w2, (a ++ p2).
    rewrite Hw2, Hw1, app_assoc. split_and!; [by apply prefix_app|done|].
    destruct Hc as [[-> ->]|[[err ->] Hf]]; [by left|right; split; [by exists err|done]].
  - exists w1, p1. split_and!; [by apply prefix_app_r|done|]. right. split; [by exists err|done].
Qed.

(** Reading the engine first. *)
Lemma prints_read {A} e (c : go Engine A) (k : A -> out) a bs :
  c e = Ok (a, e) -> prints e (k a) bs -> prints e (on_engine c ≫= k) bs.
Proof.
  intros Hc Hk w. unfold mbind, act_bind, on_engine. cbn [fst snd]. rewrite Hc. apply Hk.
Qed.

Lemma prints_write e n v : prints e (binary_Write n v) (le n v).
Proof.
  intros w. destruct (Write_law (le n v) w) as (pre & Hp & Hwr & Hn).
  exists (snd (Write (le n v) w)), pre. split_and!; [done..|].
  unfold binary_Write. cbn [fst snd].
  destruct (Write (le n v) w) as [[err|] w'] eqn:Heq; cbn [fst snd] in *; [right|left; by rewrite Hn].
  split; [by exists err|]. exists (le n v), w. by rewrite Heq.
Qed.

Lemma prints_values e vs : prints e (write_values vs) (concat ((fun p => le p.1 p.2) <$> vs)).
Proof.
  induction vs as [|[n v] vs IH]; [apply prints_ret|]. apply prints_seq; [apply prints_write|done].
Qed.

Lemma prints_fifo e lvl os : forall fuel pv,
  dll (st_orders (e_store e)) lvl pv os None -> (length os <= fuel)%nat ->
  prints e (write_fifo fuel (hd_ptr os None)) (orders_bytes os.*2).
Proof.
  induction os as [|[l r] os IH]; intros fuel pv; simpl.
  - intros _ _. destruct fuel; apply prints_ret.
  - intros [Hl Hd] Hf. destruct fuel as [|fuel]; [lia|].
    cbn [write_fifo]. eapply prints_read; [unfold load_order; by rewrite Hl|].
    unfold orders_bytes. rewrite fmap_cons. cbn [concat]. apply prints_seq.
    + pose proof (prints_values e [i64 (r_id r); i64 (r_clientOrderId r); i64 (r_owner r);
        i8 (int8 (r_side r)); i64 (r_price r); i64 (r_qty r)]) as Hv.
      cbn [fmap list_fmap concat fst snd i64 i8] in Hv. rewrite app_nil_r in Hv. exact Hv.
    + apply (IH fuel (Some l)); [done|]. simpl in Hf. lia.
Qed.

Lemma prints_side e fuel gs :
  Forall (group_rep (e_store e)) gs -> Forall (fun g => (length (g_ords g) <= fuel)%nat) gs ->
  prints e (writeSide fuel (lvl_locs gs)) (orders_bytes (flat gs)).
Proof.
  induction 1 as [|g gs [Hlv Hd] _ IH]; intros Hf; [apply prints_ret|].
  apply Forall_cons in Hf as [Hg Hf]. unfold lvl_locs. rewrite fmap_cons. cbn [writeSide].
  eapply prints_read; [unfold load_level; by rewrite Hlv|]. cbn [pl_head].
  rewrite flat_cons, orders_bytes_app. apply prints_seq; [by eapply prints_fifo|by apply IH].
Qed.

Lemma prints_snapshot e b : rep e b -> prints e Snapshot (snapshot_bytes b).
Proof.
  intros [G Hrep]. pose proof Hrep as (Hs & Hsides & Hnx). unfold Snapshot.
  eapply prints_read; [done|]. cbn zeta.
  pose proof (repG_ids _ _ _ Hrep) as Hids. pose proof (sh_linked _ _ Hs) as Hlk.
  assert (Hsize : size (b_orders (e_book e)) = length (all_orders b)).
  { rewrite (lk_orders _ _ Hlk), index_size by apply (lk_ids _ _ Hlk).
    rewrite <- (length_fmap r_id (all_orders b)), <- Hids. unfold ids. by rewrite !length_fmap. }
  assert (Hfuel : Forall (fun g => (length (g_ords g) <= length (all_orders b))%nat) (gall G)).
  { rewrite <- Hsize, (lk_orders _ _ Hlk), index_size by apply (lk_ids _ _ Hlk).
    apply Forall_forall. intros g Hg. apply list_elem_of_split in Hg as (g1 & g2 & ->).
    rewrite pairs_app, pairs_cons, !length_app. lia. }
  rewrite Hsize, Hnx. apply Forall_app in Hfuel as [Hfb Hfa].
  pose proof (lk_groups _ _ Hlk) as [Hgb Hga]%Forall_app.
  change (b_bids (e_book e)) with (slice_of true (e_book e)).
  change (b_asks (e_book e)) with (slice_of false (e_book e)).
  rewrite (shape_slice true _ _ Hs), (shape_slice false _ _ Hs).
  unfold snapshot_bytes. apply prints_seq.
  - pose proof (prints_values e [i32 snapshotMagic; i32 snapshotVersion; i64 1; i64 (s_next b);
      i32 (int32 (Z.of_nat (length (all_orders b))))]) as Hv.
    cbn [fmap list_fmap concat fst snd i64 i32] in Hv. rewrite app_nil_r in Hv. exact Hv.
  - unfold all_orders at 3. change (s_bids b) with (side_of true b). change (s_asks b) with (side_of false b).
    rewrite <- (proj2 (Hsides true)), <- (proj2 (Hsides false)), orders_bytes_app.
    apply prints_seq; by apply prints_side.
Qed.
End Prints.

(** ** Parsing *)

Section Reads.
Context {X : Type}.

Lemma read_le (x : X) n conv v rest :
  binary_Read n conv (x, le n v ++ rest) = Ok (inl (conv (uint (8 * Z.of_nat n) v)), (x, rest)).
Proof.
  unfold binary_Read, ReadFull. cbn [fst snd]. rewrite length_app, le_length.
  rewrite (proj2 (Nat.leb_le _ _)) by lia.
  by rewrite take_app_length', drop_app_length', le_val_le by (by rewrite le_length).
Qed.

(** [c] fails, with an end-of-file error, on fewer than [n] bytes. *)
Definition underflows {A} (c : act (X * Reader) A) (n : nat) : Prop :=
  forall x r, (length r < n)%nat ->
    exists err s, c (x, r) = Ok (inr err, s) /\ (err = EOF \/ err = ErrUnexpectedEOF).

Lemma underflows_read {A} m conv (k : Z -> act (X * Reader) A) n :
  (forall v, underflows (k v) n) -> underflows (binary_Read m conv ≫= k) (m + n).
Proof.
  intros Hk x r Hr. unfold mbind, act_bind, binary_Read, ReadFull. cbn [fst snd].
  destruct (Nat.leb_spec m (length r)).
  - apply Hk. rewrite length_drop. lia.
  - exists (short r), (x, []). split; [done|]. apply short_error.
Qed.

Lemma underflows_nil {A} (c : act (X * Reader) A) : underflows c 0.
Proof. intros x r Hr. lia. Qed.
End Reads.

Lemma order_underflows k : underflows (restore_orders (S k)) 41.
Proof.
  change 41%nat with (8 + (8 + (8 + (1 + (8 + (8 + 0))))))%nat. cbn [restore_orders].
  repeat (apply underflows_read; intros ?). apply underflows_nil.
Qed.

Lemma header_underflows : underflows restore_body 28.
Proof.
  change 28%nat with (4 + (4 + (8 + (8 + (4 + 0)))))%nat. unfold restore_body.
  repeat (apply underflows_read; intros ?). apply underflows_nil.
Qed.

(** An order whose fields have their machine types. *)
Definition restorable (r : resting) : Prop :=
  order_typed r /\ is_int64 (r_id r) /\ 0 < r_qty r <= MaxInt64.

Lemma restore_one k e r rest :
  restorable r ->
  restore_orders (S k) (e, order_bytes r ++ rest) =
    (o ← on_engine (alloc_order (cell r None None None));
     on_engine (restOrder o);; restore_orders k) (e, rest).
Proof.
  intros ((H1 & H2 & H3 & H4) & H5 & H6). unfold order_bytes. rewrite <- !app_assoc.
  assert (H7 : is_int64 (r_qty r)) by (unfold is_sint, MaxInt64 in *; lia).
  cbn [restore_orders].
  do 6 (unfold mbind at 1, act_bind at 1; rewrite read_le).
  change (8 * Z.of_nat 8) with 64. change (8 * Z.of_nat 1) with 8.
  rewrite !sint_uint by done. by rewrite !(sint_id 64), !(sint_id 8 (r_side r)) by done.
Qed.

(** The order joins the book the way [restOrder] does it. *)
Definition rest_order (b : Book) (r : resting) : Book :=
  let buy := is_buy (r_side r) in set_side buy (insert_order buy r (side_of buy b)) b.

Lemma rest_order_perm b r : all_orders (rest_order b r) ≡ₚ r :: all_orders b.
Proof.
  unfold rest_order. rewrite !(all_orders_perm (is_buy (r_side r))).
  by rewrite !side_of_set, Bool.eqb_reflx, Bool.eqb_negb2, insert_order_perm.
Qed.

Lemma restore_rests e b r :
  rep e b -> restorable r -> r_id r ∉ (r_id <$> all_orders b) ->
  exists o e1 pl e2, alloc_order (cell r None None None) e = Ok (o, e1) /\
    restOrder o e1 = Ok (pl, e2) /\ rep e2 (rest_order b r).
Proof.
  intros [G Hrep] (_ & _ & Hq) Hid. pose proof Hrep as (Hs & Hsides & Hnx).
  destruct (shape_alloc e G (cell r None None None) (b_nextOrderId (e_book e)) Hs) as [Hs1 Hn].
  eexists _, _. set (l := st_fresh (e_store e)) in *.
  set (e1 := with_book _ _) in Hs1.
  assert (He1 : e1 = with_fresh (S l) (with_orders <[l := cell r None None None]> e)).
  { unfold e1. destruct e as [st [? ? ? ?]]. done. }
  destruct (wp_elim _ _ _ (restOrder_refines e1 G b l r (r_qty r) ltac:(by split_and!)
    ltac:(split; [unfold e1; simpl; by rewrite lookup_insert_eq; destruct r|done]) Hq Hid))
    as (pl & e2 & Hrun & Hrep2 & _).
  exists pl, e2. split; [unfold alloc_order; fold l; by rewrite <- He1|]. split; [done|].
  unfold rest_order. by destruct r.
Qed.

Lemma restore_orders_rep l : forall e b rest,
  rep e b -> Forall restorable l -> NoDup (r_id <$> l ++ all_orders b) ->
  exists e', restore_orders (length l) (e, orders_bytes l ++ rest) = Ok (inl tt, (e', rest)) /\
             rep e' (foldl rest_order b l).
Proof.
  induction l as [|r l IH]; intros e b rest Hrep Hl Hnd; [by exists e|].
  apply Forall_cons in Hl as [Hr Hl]. rewrite fmap_app, fmap_cons in Hnd.
  cbn [app] in Hnd. apply NoDup_cons in Hnd as [Hn Hnd]. rewrite elem_of_app in Hn.
  destruct (restore_rests e b r Hrep Hr ltac:(tauto)) as (o & e1 & pl & e2 & Ha & Hro & Hrep2).
  destruct (IH e2 (rest_order b r) rest Hrep2 Hl) as (e' & Hrun & Hrep').
  { rewrite fmap_app, rest_order_perm, fmap_cons, <- Permutation_middle. constructor; [|done].
    by rewrite elem_of_app. }
  exists e'. split; [|done]. unfold orders_bytes. rewrite fmap_cons. cbn [concat length].
  rewrite <- app_assoc, restore_one by done. unfold mbind, act_bind, on_engine. cbn [fst snd].
  rewrite Ha. cbn [fst snd]. by rewrite Hro.
Qed.

(** A strict prefix of the orders is refused. *)
Lemma restore_orders_torn l : forall e b n,
  rep e b -> Forall restorable l -> NoDup (r_id <$> l ++ all_orders b) ->
  (n < length (orders_bytes l))%nat ->
  exists err s, restore_orders (length l) (e, take n (orders_bytes l)) = Ok (inr err, s) /\
                (err = EOF \/ err = ErrUnexpectedEOF).
Proof.
  induction l as [|r l IH]; intros e b n Hrep Hl Hnd Hlen; [simpl in Hlen; lia|].
  unfold orders_bytes in *. rewrite fmap_cons in *. cbn [concat length] in *.
  rewrite length_app, order_bytes_length in Hlen.
  destruct (decide (n < 41)%nat) as [Hlt|Hge].
  { apply order_underflows. rewrite length_take. lia. }
  apply Forall_cons in Hl as [Hr Hl]. cbn [app] in Hnd. rewrite fmap_cons in Hnd.
  apply NoDup_cons in Hnd as [Hn Hnd]. rewrite fmap_app, elem_of_app in Hn.
  destruct (restore_rests e b r Hrep Hr ltac:(tauto)) as (o & e1 & pl & e2 & Ha & Hro & Hrep2).
  rewrite take_app_ge, order_bytes_length by (rewrite order_bytes_length; lia).
  destruct (IH e2 (rest_order b r) (n - 41)%nat Hrep2 Hl) as (err & s & Hrun & Herr); [|lia|].
  { rewrite fmap_app, rest_order_perm, fmap_cons, <- Permutation_middle.
    constructor; [by rewrite elem_of_app|by rewrite fmap_app in Hnd]. }
  exists err, s. split; [|done]. rewrite restore_one by done.
  unfold mbind, act_bind, on_engine. cbn [fst snd].
  rewrite Ha. cbn [fst snd]. by rewrite Hro.
Qed.

(** ** Resting a side in its own order rebuilds it *)

(** A list in which no order has a better price than one before it. *)
Definition in_order (buy : bool) (l : list resting) : Prop :=
  StronglySorted (fun a c => better buy (r_price c) (r_price a) = false) l.

Lemma insert_order_last buy r l :
  Forall (fun x => better buy (r_price r) (r_price x) = false) l -> insert_order buy r l = l ++ [r].
Proof. induction 1 as [|x l Hx _ IH]; simpl; [done|]. by rewrite Hx, IH. Qed.

Lemma rest_side buy l : forall b,
  in_order buy (side_of buy b ++ l) -> Forall (fun r => is_buy (r_side r) = buy) l ->
  foldl rest_order b l = set_side buy (side_of buy b ++ l) b.
Proof.
  induction l as [|r l IH]; intros b Hs Hb; simpl.
  - rewrite app_nil_r. by destruct buy, b.
  - apply Forall_cons in Hb as [Hr Hb].
    assert (Hins : insert_order buy r (side_of buy b) = side_of buy b ++ [r]).
    { apply insert_order_last, Forall_forall. intros x Hx.
      apply StronglySorted_app in Hs as (Hs & _ & _). apply Hs; [done|]. by left. }
    unfold rest_order at 2. rewrite Hr, Hins, IH; [|by rewrite side_of_set, Bool.eqb_reflx, <- app_assoc|done].
    rewrite side_of_set, Bool.eqb_reflx, <- app_assoc. by destruct buy.
Qed.

(** What a book must satisfy for its snapshot to be restored: the fields have
    their machine types, the sides are in order, and the number of orders
    fits the [int32] of the header. *)
Record snapshotable (b : Book) : Prop := mkSnapshotable {
  sn_sorted : forall buy, in_order buy (side_of buy b);
  sn_side : forall buy, Forall (fun r => is_buy (r_side r) = buy) (side_of buy b);
  sn_orders : Forall restorable (all_orders b);
  sn_ids : NoDup (r_id <$> all_orders b);
  sn_next : is_int64 (s_next b);
  sn_count : Z.of_nat (length (all_orders b)) < 2 ^ 31
}.

Lemma rest_all b : snapshotable b -> foldl rest_order empty_book (all_orders b) = mkBook (s_bids b) (s_asks b) 1.
Proof.
  intros Hb. unfold all_orders. rewrite foldl_app.
  rewrite (rest_side true (s_bids b) empty_book); [|apply (sn_sorted _ Hb true)|apply (sn_side _ Hb true)].
  by rewrite (rest_side false); [|apply (sn_sorted _ Hb false)|apply (sn_side _ Hb false)].
Qed.

Lemma rep_set_next e b n : rep e b -> rep (with_book (set_nextOrderId n) e) (mkBook (s_bids b) (s_asks b) n).
Proof.
  intros [G (Hs & Hsides & _)]. exists G. split; [|split; [|done]].
  - destruct Hs as [? ? [? ? ? ? ?] [? ?]]. by repeat constructor.
  - intros buy. specialize (Hsides buy). by destruct buy.
Qed.

(** The header, read. *)
Lemma restore_header e next count rest :
  is_int64 next -> is_int32 count ->
  restore_body (e, header_bytes next count ++ rest) =
    (restore_orders (Z.to_nat count);;
     on_engine (go_modify (with_book (set_nextOrderId next)))) (e, rest).
Proof.
  intros Hn Hc. unfold header_bytes. rewrite <- !app_assoc. unfold restore_body.
  do 5 (unfold mbind at 1, act_bind at 1; rewrite read_le).
  change (8 * Z.of_nat 8) with 64. change (8 * Z.of_nat 4) with 32.
  rewrite !sint_uint by done. rewrite (sint_id 64 next), (sint_id 32 count) by done. done.
Qed.

Lemma count_int32 b : snapshotable b ->
  int32 (Z.of_nat (length (all_orders b))) = Z.of_nat (length (all_orders b)).
Proof. intros Hb. apply sint_id; [done|]. pose proof (sn_count _ Hb). unfold is_sint. lia. Qed.

Lemma restore_snapshot_bytes b rest :
  snapshotable b ->
  exists e', RestoreOrderBook (snapshot_bytes b ++ rest) = Ok (inl e', rest) /\ rep e' b.
Proof.
  intros Hb. unfold RestoreOrderBook, snapshot_bytes. rewrite <- app_assoc.
  rewrite restore_header; [|apply (sn_next _ Hb)|apply sint_range; lia].
  rewrite count_int32, Nat2Z.id by done.
  destruct (restore_orders_rep (all_orders b) NewOrderBook empty_book rest NewOrderBook_rep
    (sn_orders _ Hb)) as (e' & Hrun & Hrep').
  { simpl. rewrite app_nil_r. apply (sn_ids _ Hb). }
  rewrite rest_all in Hrep' by done.
  exists (with_book (set_nextOrderId (s_next b)) e'). unfold mbind, act_bind. rewrite Hrun.
  split; [done|]. pose proof (rep_set_next _ _ (s_next b) Hrep') as H. by destruct b.
Qed.

Lemma restore_torn b n :
  snapshotable b -> (n < length (snapshot_bytes b))%nat ->
  exists err r, RestoreOrderBook (take n (snapshot_bytes b)) = Ok (inr err, r) /\
                (err = EOF \/ err = ErrUnexpectedEOF).
Proof.
  intros Hb Hn. unfold snapshot_bytes in *. set (h := header_bytes _ _) in *.
  assert (Hh : length h = 28%nat) by (unfold h, header_bytes; by rewrite !length_app, !le_length).
  destruct (decide (n < 28)%nat) as [Hlt|Hge].
  - destruct (header_underflows NewOrderBook (take n (h ++ orders_bytes (all_orders b))))
      as (err & [e r] & Hrun & Herr); [rewrite length_take; lia|].
    exists err, r. split; [|done]. unfold RestoreOrderBook. by rewrite Hrun.
  - rewrite take_app_ge, Hh by lia. rewrite length_app in Hn. unfold h, RestoreOrderBook.
    rewrite restore_header; [|apply (sn_next _ Hb)|apply sint_range; lia].
    rewrite count_int32, Nat2Z.id by done.
    destruct (restore_orders_torn (all_orders b) NewOrderBook empty_book (n - 28)%nat NewOrderBook_rep
      (sn_orders _ Hb)) as (err & [e r] & Hrun & Herr); [|lia|].
    { simpl. rewrite app_nil_r. apply (sn_ids _ Hb). }
    exists err, r. split; [|done]. unfold mbind, act_bind. by rewrite Hrun.
Qed.

(** Reachable books can be snapshotted. *)
Lemma inv_snapshotable b :
  book_inv b -> Forall order_typed (all_orders b) -> Z.of_nat (length (all_orders b)) < 2 ^ 31 ->
  snapshotable b.
Proof.
  intros Hb Ht Hc. constructor; [| | |apply (bi_ids _ Hb)| |done].
  - intros buy. unfold in_order. induction (si_sorted _ _ _ (bi_side _ Hb buy)) as [|r l _ IH Hr];
      constructor; [done|]. eapply Forall_impl; [exact Hr|]. intros c. apply prio_weak.
  - intros buy. eapply Forall_impl; [apply (si_orders _ _ _ (bi_side _ Hb buy))|].
    intros r (-> & _). by destruct buy.
  - apply Forall_forall. intros r Hr. rewrite Forall_forall in Ht. split; [by apply Ht|].
    rewrite (all_orders_perm true) in Hr.
    pose proof (bi_next _ Hb).
    apply elem_of_app in Hr as [Hr|Hr]; eapply Forall_forall in Hr;
      try exact (si_orders _ _ _ (bi_side _ Hb _)); simpl in Hr; unfold is_sint, MaxInt64 in *; lia.
  - pose proof (bi_next _ Hb). unfold is_sint, MaxInt64 in *. lia.
Qed.
