(* ===== verification/SnapshotTheorems.v ===== *)
(** * Snapshots: their theorems

    A restored book behaves as the one that was snapshotted, replicas write
    the same bytes, and damaged streams are refused. *)
From S2P Require Import Prelude Events OrderBook BookSpec BookRep BookOps BookRefine BookProps Engine.
From S2P Require Import EngineTheorems Marshal CodecLaws Snapshot SnapshotLaws.

Lemma rep_size e b : rep e b -> size (b_orders (e_book e)) = length (all_orders b).
Proof.
  intros [G Hrep]. pose proof Hrep as (Hs & _ & _). pose proof (sh_linked _ _ Hs) as Hlk.
  rewrite (lk_orders _ _ Hlk), index_size by apply (lk_ids _ _ Hlk).
  rewrite <- (length_fmap r_id (all_orders b)), <- (repG_ids _ _ _ Hrep). unfold ids.
  by rewrite !length_fmap.
Qed.

(** A snapshot into a buffer. *)
Lemma Snapshot_buffer e b : rep e b -> Snapshot (e, ([] : Buffer)) = Ok (inl tt, (e, snapshot_bytes b)).
Proof.
  intros Hrep. destruct (prints_snapshot (W := Buffer) e b Hrep [])
    as (w' & pre & _ & Hw & [[Hrun ->]|[_ (bs & w & Hf)]]); [|by destruct Hf].
  rewrite Hrun. change (w' = snapshot_bytes b) in Hw. by subst.
Qed.

(** C8: Snapshot and restore: the snapshot of every reachable engine with
    fewer than 2^31 orders is restored, consuming all of it, to an engine
    that answers every further sequence of commands with the same events as
    the original, and both keep representing the same book. *)
Theorem restored_engine_equivalent evs e :
  reachable evs e -> Z.of_nat (size (b_orders (e_book e))) < 2 ^ 31 ->
  exists bs e' b,
    Snapshot (e, ([] : Buffer)) = Ok (inl tt, (e, bs)) /\
    RestoreOrderBook bs = Ok (inl e', []) /\ rep e b /\ rep e' b /\
    forall cs, Forall in_range cs ->
      b_nextOrderId (e_book e) + Z.of_nat (length cs) <= MaxInt64 ->
      exists evs' e1 e2 b', run cs e = Ok (evs', e1) /\ run cs e' = Ok (evs', e2) /\
                            rep e1 b' /\ rep e2 b'.
Proof.
  intros H Hsize. destruct (reachable_history _ _ H) as (b & [Hrep Hinv _ _ Ht _]).
  rewrite (rep_size _ _ Hrep) in Hsize.
  destruct (restore_snapshot_bytes b [] (inv_snapshotable b Hinv Ht Hsize)) as (e' & Hres & Hrep').
  rewrite app_nil_r in Hres. exists (snapshot_bytes b), e', b.
  split_and!; try done; [by apply Snapshot_buffer|].
  intros cs Hr Hn. rewrite (rep_next _ _ Hrep) in Hn. pose proof (book_inv_ids _ Hinv) as Hids.
  destruct (wp_elim _ _ _ (run_rep cs e b Hrep Hr Hids Hn)) as (ev1 & e1 & Hrun1 & -> & Hrep1 & _).
  destruct (wp_elim _ _ _ (run_rep cs e' b Hrep' Hr Hids Hn)) as (ev2 & e2 & Hrun2 & -> & Hrep2 & _).
  eauto 10.
Qed.

Lemma restored_engine_equivalent_witness :
  exists bs e', Snapshot (sample_engine, ([] : Buffer)) = Ok (inl tt, (sample_engine, bs)) /\
                RestoreOrderBook bs = Ok (inl e', []).
Proof.
  destruct (restored_engine_equivalent sample_events sample_engine sample_reachable)
    as (bs & e' & b & H1 & H2 & _); [by vm_compute|]. exists bs, e'. split; [exact H1|exact H2].
Defined.

Lemma snapshot_bytes_length b : length (snapshot_bytes b) = (28 + 41 * length (all_orders b))%nat.
Proof.
  unfold snapshot_bytes, header_bytes. rewrite !length_app, !le_length. unfold orders_bytes.
  cut (length (concat (order_bytes <$> all_orders b)) = (41 * length (all_orders b))%nat); [lia|].
  induction (all_orders b) as [|r l IH]; [done|]. rewrite fmap_cons. cbn [concat length].
  rewrite length_app, order_bytes_length, IH. lia.
Qed.

(** C17: Replicas agree: two engines whose stores represent the same book,
    however their objects are laid out, answer every sequence of commands
    with the same events, end in stores that represent the same book, and
    then write the same snapshot, byte for byte, which changes neither. *)
Theorem replicas_agree cs e1 e2 b :
  rep e1 b -> rep e2 b -> ids_ok b -> Forall in_range cs ->
  s_next b + Z.of_nat (length cs) <= MaxInt64 ->
  exists evs e1' e2' b' bs,
    run cs e1 = Ok (evs, e1') /\ run cs e2 = Ok (evs, e2') /\ rep e1' b' /\ rep e2' b' /\
    Snapshot (e1', ([] : Buffer)) = Ok (inl tt, (e1', bs)) /\
    Snapshot (e2', ([] : Buffer)) = Ok (inl tt, (e2', bs)) /\
    length bs = (28 + 41 * length (all_orders b'))%nat.
Proof.
  intros H1 H2 Hids Hr Hn.
  destruct (wp_elim _ _ _ (run_rep cs e1 b H1 Hr Hids Hn)) as (evs & e1' & Hrun1 & -> & Hrep1 & _).
  destruct (wp_elim _ _ _ (run_rep cs e2 b H2 Hr Hids Hn)) as (evs & e2' & Hrun2 & -> & Hrep2 & _).
  eexists _, e1', e2', _, (snapshot_bytes _).
  split_and!; [exact Hrun1|exact Hrun2|exact Hrep1|exact Hrep2|by apply Snapshot_buffer..|].
  apply snapshot_bytes_length.
Qed.

Lemma replicas_agree_witness :
  exists evs e1' e2' b' bs,
    run [Withdraw 4 14] sample_engine = Ok (evs, e1') /\
    run [Withdraw 4 14] sample_engine = Ok (evs, e2') /\ rep e1' b' /\ rep e2' b' /\
    Snapshot (e1', ([] : Buffer)) = Ok (inl tt, (e1', bs)) /\
    Snapshot (e2', ([] : Buffer)) = Ok (inl tt, (e2', bs)) /\
    length bs = (28 + 41 * length (all_orders b'))%nat.
Proof.
  apply (replicas_agree [Withdraw 4 14] sample_engine sample_engine sample_book);
    [apply sample_rep|apply sample_rep|apply book_inv_ids, sample_inv|by repeat constructor|].
  vm_compute. discriminate.
Defined.

(** A full header with another magic number or version. *)
Lemma restore_foreign magic version instrument next count rest :
  is_uint 32 magic -> is_int32 version ->
  magic <> snapshotMagic \/ version <> snapshotVersion ->
  RestoreOrderBook (le 4 magic ++ le 4 version ++ le 8 instrument ++ le 8 next ++ le 4 count ++ rest) =
    Ok (inr (if magic =? snapshotMagic then OtherError "unsupported snapshot version" version
             else OtherError "bad snapshot magic" magic), rest).
Proof.
  intros Hm Hv Hne. unfold RestoreOrderBook, restore_body.
  do 5 (unfold mbind at 1, act_bind at 1; rewrite read_le).
  change (8 * Z.of_nat 4) with 32. rewrite (sint_uint 32 version), (sint_id 32 version) by done.
  rewrite (uint_id 32 magic) by done. rewrite (uint_id 32 magic) by done.
  destruct (Z.eqb_spec magic snapshotMagic); [|done]. simpl negb. cbv iota.
  by destruct (Z.eqb_spec version snapshotVersion); [tauto|].
Qed.

(** C18: A damaged snapshot is refused: of the snapshot of a reachable engine
    every strict prefix makes [RestoreOrderBook] return an end-of-file error,
    and the same bytes after another magic number or version make it return
    the error that names it; it never panics and never yields a partial book. *)
Theorem damaged_snapshot_refused evs e bs :
  reachable evs e -> Z.of_nat (size (b_orders (e_book e))) < 2 ^ 31 ->
  Snapshot (e, ([] : Buffer)) = Ok (inl tt, (e, bs)) ->
  (forall n, (n < length bs)%nat ->
     exists err r, RestoreOrderBook (take n bs) = Ok (inr err, r) /\ (err = EOF \/ err = ErrUnexpectedEOF)) /\
  (forall magic version, is_uint 32 magic -> is_int32 version ->
     magic <> snapshotMagic \/ version <> snapshotVersion ->
     exists r, RestoreOrderBook (le 4 magic ++ le 4 version ++ drop 8 bs) =
       Ok (inr (if magic =? snapshotMagic then OtherError "unsupported snapshot version" version
                else OtherError "bad snapshot magic" magic), r)).
Proof.
  intros H Hsize Hsnap. destruct (reachable_history _ _ H) as (b & [Hrep Hinv _ _ Ht _]).
  rewrite (rep_size _ _ Hrep) in Hsize. rewrite (Snapshot_buffer e b Hrep) in Hsnap.
  injection Hsnap as <-. split.
  - intros n Hn. apply restore_torn; [by apply inv_snapshotable|done].
  - intros magic version Hm Hv Hne. unfold snapshot_bytes, header_bytes. rewrite <- !app_assoc.
    rewrite (app_assoc (le 4 snapshotMagic) (le 4 snapshotVersion)).
    rewrite (drop_app_length' (le 4 snapshotMagic ++ le 4 snapshotVersion)) by (by rewrite length_app, !le_length).
    eexists. by apply restore_foreign.
Qed.

Lemma damaged_snapshot_refused_witness :
  let bs := snapshot_bytes sample_book in
  (exists err r, RestoreOrderBook (take 100 bs) = Ok (inr err, r) /\ (err = EOF \/ err = ErrUnexpectedEOF)) /\
  exists r, RestoreOrderBook (le 4 snapshotMagic ++ le 4 2 ++ drop 8 bs) =
    Ok (inr (OtherError "unsupported snapshot version" 2), r).
Proof.
  assert (Hmagic : is_uint 32 snapshotMagic) by (split; [discriminate|reflexivity]).
  assert (Hversion : is_int32 2) by done.
  assert (Hne : 2 <> snapshotVersion) by done.
  assert (Hsize : Z.of_nat (size (b_orders (e_book sample_engine))) < 2 ^ 31) by by vm_compute.
  destruct (damaged_snapshot_refused sample_events sample_engine (snapshot_bytes sample_book)
    sample_reachable Hsize (Snapshot_buffer _ _ sample_rep)) as [H1 H2]. split.
  - apply H1. rewrite snapshot_bytes_length. vm_compute. lia.
  - specialize (H2 snapshotMagic 2). rewrite Z.eqb_refl in H2.
    exact (H2 Hmagic Hversion (or_intror Hne)).
Defined.

(** C38: The number of orders is written as an [int32] that wraps at 2^31
    orders, and a negative count is not an error: such a stream is accepted
    as an empty book and the orders that follow are left unread. *)
Theorem negative_count_accepted next count rest :
  is_int64 next -> is_int32 count -> count < 0 ->
  exists e, RestoreOrderBook (header_bytes next count ++ rest) = Ok (inl e, rest) /\
            rep e (mkBook [] [] next).
Proof.
  intros Hn Hc Hneg. unfold RestoreOrderBook. rewrite restore_header by done.
  replace (Z.to_nat count) with 0%nat by lia.
  exists (with_book (set_nextOrderId next) NewOrderBook). split; [done|].
  apply (rep_set_next NewOrderBook empty_book), NewOrderBook_rep.
Qed.

Lemma negative_count_accepted_witness :
  exists e, RestoreOrderBook (header_bytes 9 (int32 (2 ^ 31)) ++ order_bytes (mkResting 1 1 1 0 5 5)) =
              Ok (inl e, order_bytes (mkResting 1 1 1 0 5 5)) /\ rep e (mkBook [] [] 9).
Proof. apply negative_count_accepted; by vm_compute. Defined.
