(* ===== verification/Service.v ===== *)
(** * service/: the clustered service

    [MatchingService] decodes ingress frames, drives the engine and routes
    its events to the sessions.  The cluster library it runs on is not part
    of the program: its sessions, its transport and its buffers are the type
    classes below, and everything outside the service is a state [X]. *)
From S2P Require Import Prelude Events OrderBook Marshal Codecs CodecLaws Snapshot.

(** ** The cluster library, as far as the service uses it *)

(** [atomic.Buffer]: [GetUInt16(offset)], and the bytes [WriteBytes] copies
    or [GetBytesArray] returns. *)
Class AtomicBuffer (B : Type) : Type := {
  GetUInt16 : B -> Z -> Z;
  GetBytes : B -> Z -> Z -> list Z
}.

(** [cluster.ClientSession], [aeron.Publication], [aeron.Image] and the idle
    strategy.  [Poll] hands over the fragments it received. *)
Class Cluster (Sess X : Type) : Type := {
  session_Id : Sess -> Z;
  session_Offer : Sess -> list Z -> X -> Z * X;
  publication_Offer : list Z -> X -> Z * X;
  image_Poll : X -> list (list Z) * X;
  image_Done : X -> bool;
  Idle : X -> X;
  BackPressured : Z;
  AdminAction : Z
}.

(** ** service/encoding.go *)

Section Encoding.
Context {M : Type} `{SbeMessage M}.

Definition frame_header : MessageHeader :=
  mkMessageHeader (SbeBlockLength M) (SbeTemplateId M) (SbeSchemaId M) (SbeSchemaVersion M).

Definition encodeFrame (msg : M) (m : SbeGoMarshaller) : (list Z + error) * SbeGoMarshaller :=
  match (MessageHeader_Encode frame_header;; Encode msg true) (m, ([] : Buffer)) with
  | (inl _, (m', buf)) => (inl buf, m')
  | (inr err, (m', _)) => (inr err, m')
  end.
End Encoding.
Arguments frame_header M {_}.

Definition statusOf (ev : Event) : Z :=
  match ev_Type ev with
  | EvAccepted => ec_value OrderStatus_ACCEPTED
  | EvRejected => ec_value OrderStatus_REJECTED
  | EvCanceled => ec_value OrderStatus_CANCELED
  | EvFilled => if ev_RemainingQty ev =? 0 then ec_value OrderStatus_FILLED
                else ec_value OrderStatus_PARTIALLY_FILLED
  | _ => ec_value OrderStatus_REJECTED
  end.

(** The messages of an event, the composite literals of the source. *)
Definition report_of (ev : Event) (timestamp : Z) : ExecutionReport :=
  mkExecutionReport (ev_OrderId ev) (ev_ClientOrderId ev) (statusOf ev) (ev_Reason ev) (ev_Side ev)
    (ev_Price ev) (ev_Qty ev) (ev_RemainingQty ev) timestamp.
Definition trade_of (ev : Event) (timestamp : Z) : Codecs.TradeEvent :=
  mkTradeEvent (ev_Price ev) (ev_Qty ev) (ev_MakerOrderId ev) (ev_TakerOrderId ev) timestamp.
Definition update_of (ev : Event) (timestamp : Z) : BookUpdate :=
  mkBookUpdate (ev_Side ev) (ev_Price ev) (ev_AggregateQty ev) timestamp.

Definition encodeExecutionReport (ev : Event) (timestamp : Z) := encodeFrame (report_of ev timestamp).
Definition encodeTrade (ev : Event) (timestamp : Z) := encodeFrame (trade_of ev timestamp).
Definition encodeBookUpdate (ev : Event) (timestamp : Z) := encodeFrame (update_of ev timestamp).

(** ** service/service.go *)

Definition sbeHeaderLength : Z := 8.
Definition schemaId : Z := 901.
Definition newOrderTemplateId : Z := 1.
Definition cancelOrderTemplateId : Z := 2.
Definition snapshotChunkSize : nat := 1024.

Record MatchingService (Sess : Type) : Type := mkMatchingService {
  ms_book : Engine;
  ms_sessions : gmap Z Sess;
  ms_sessionIds : list Z;
  ms_marshaller : SbeGoMarshaller
}.
Arguments mkMatchingService {Sess} _ _ _ _.
Arguments ms_book {Sess} _.
Arguments ms_sessions {Sess} _.
Arguments ms_sessionIds {Sess} _.
Arguments ms_marshaller {Sess} _.

Section Service.
Context {Sess X B : Type} `{Cluster Sess X} `{AtomicBuffer B}.
(** How often an offer or a poll is tried before the model gives up; the
    loops of the source have no bound. *)
Context (fuel : nat).

Abbreviation svc := (go (MatchingService Sess * X)).

Definition NewMatchingService : MatchingService Sess :=
  mkMatchingService NewOrderBook ∅ [] NewSbeGoMarshaller.

Definition set_book (e : Engine) (s : MatchingService Sess) : MatchingService Sess :=
  mkMatchingService e (ms_sessions s) (ms_sessionIds s) (ms_marshaller s).
Definition set_sessions (m : gmap Z Sess) (ids : list Z) (s : MatchingService Sess) : MatchingService Sess :=
  mkMatchingService (ms_book s) m ids (ms_marshaller s).
Definition set_marshaller (m : SbeGoMarshaller) (s : MatchingService Sess) : MatchingService Sess :=
  mkMatchingService (ms_book s) (ms_sessions s) (ms_sessionIds s) m.

(** A method of [s.book]. *)
Definition on_book {A} (c : go Engine A) : svc A := fun s =>
  match c (ms_book (fst s)) with
  | Ok (a, e) => Ok (a, (set_book e (fst s), snd s))
  | Panic p => Panic p
  end.

(** A codec call with [s.marshaller]. *)
Definition with_marshaller {A} (c : SbeGoMarshaller -> A * SbeGoMarshaller) : svc A := fun s =>
  let '(a, m) := c (ms_marshaller (fst s)) in Ok (a, (set_marshaller m (fst s), snd s)).

Definition on_world {A} (c : X -> A * X) : svc A := fun s =>
  let '(a, x) := c (snd s) in Ok (a, (fst s, x)).

Definition OnSessionOpen (session : Sess) (timestamp : Z) : svc unit :=
  go_modify (fun s => (set_sessions (<[session_Id session := session]> (ms_sessions (fst s)))
                         (ms_sessionIds (fst s) ++ [session_Id session]) (fst s), snd s)).

(** The loop that drops the first occurrence of the id. *)
Fixpoint remove_id (id : Z) (l : list Z) : list Z :=
  match l with
  | [] => []
  | x :: l' => if x =? id then l' else x :: remove_id id l'
  end.

Definition OnSessionClose (session : Sess) (timestamp : Z) : svc unit :=
  go_modify (fun s => (set_sessions (delete (session_Id session) (ms_sessions (fst s)))
                         (remove_id (session_Id session) (ms_sessionIds (fst s))) (fst s), snd s)).

(** A failed encoding panics. *)
Definition mustEncode (r : list Z + error) : svc (list Z) :=
  match r with inl frame => mret frame | inr _ => go_panic (Raised "mustEncode") end.

(** The loop of [offer]. *)
Fixpoint offer_loop (n : nat) (sess : Sess) (frame : list Z) : svc unit :=
  match n with
  | O => go_panic Diverge
  | S n' =>
      result ← on_world (session_Offer sess frame);
      if 0 <=? result then mret tt
      else if negb (result =? BackPressured) && negb (result =? AdminAction) then mret tt
      else on_world (fun x => (tt, Idle x));; offer_loop n' sess frame
  end.
Definition offer (sess : Sess) (frame : list Z) : svc unit := offer_loop fuel sess frame.

Definition sendTo (sessionId : Z) (frame : list Z) : svc unit :=
  found ← go_gets (fun s => ms_sessions (fst s) !! sessionId);
  match (found : option Sess) with Some sess => offer sess frame | None => mret tt end.

(** The loop of [broadcast], over the ids as they are when it starts. *)
Fixpoint broadcast_loop (ids : list Z) (frame : list Z) : svc unit :=
  match ids with
  | [] => mret tt
  | id :: ids' => sendTo id frame;; broadcast_loop ids' frame
  end.
Definition broadcast (frame : list Z) : svc unit :=
  ids ← go_gets (fun s => ms_sessionIds (fst s)); broadcast_loop ids frame.

Definition route_event (ev : Event) (timestamp : Z) : svc unit :=
  match ev_Type ev with
  | EvAccepted | EvRejected | EvCanceled | EvFilled =>
      r ← with_marshaller (encodeExecutionReport ev timestamp);
      frame ← mustEncode r; sendTo (ev_Owner ev) frame
  | EvTrade =>
      r ← with_marshaller (encodeTrade ev timestamp);
      frame ← mustEncode r; broadcast frame
  | EvBookUpdate =>
      r ← with_marshaller (encodeBookUpdate ev timestamp);
      frame ← mustEncode r; broadcast frame
  end.

Fixpoint route (events : list Event) (timestamp : Z) : svc unit :=
  match events with
  | [] => mret tt
  | ev :: events' => route_event ev timestamp;; route events' timestamp
  end.

(** [msg := M{}; err := msg.Decode(s.marshaller, body, ...)] *)
Definition decode_msg {M} (dec : io (SbeGoMarshaller * Reader * M) unit) (zero : M) (body : list Z)
    : svc (M + error) :=
  with_marshaller (fun m =>
    match dec ((m, body), zero) with
    | (inl _, ((m', _), msg)) => (inl msg, m')
    | (inr err, ((m', _), _)) => (inr err, m')
    end).

Definition OnSessionMessage (session : Sess) (timestamp : Z) (buffer : B) (offset length : Z) : svc unit :=
  if length <? sbeHeaderLength then mret tt
  else
    let blockLength := GetUInt16 buffer offset in
    let templateId := GetUInt16 buffer (int32 (offset + 2)) in
    let msgSchemaId := GetUInt16 buffer (int32 (offset + 4)) in
    let version := GetUInt16 buffer (int32 (offset + 6)) in
    if negb (msgSchemaId =? schemaId) then mret tt
    else
      let body := GetBytes buffer (int32 (offset + sbeHeaderLength)) (int32 (length - sbeHeaderLength)) in
      if templateId =? newOrderTemplateId then
        r ← decode_msg (NewOrder_Decode version blockLength true) (mkNewOrder 0 0 0 0) body;
        match r with
        | inr _ => mret tt
        | inl msg =>
            events ← on_book (NewLimitOrder (mkNewOrderCmd (no_ClientOrderId msg) (session_Id session)
                                               (no_Side msg) (no_Price msg) (no_Qty msg)));
            route events timestamp
        end
      else if templateId =? cancelOrderTemplateId then
        r ← decode_msg (CancelOrder_Decode version blockLength true) (mkCancelOrder 0) body;
        match r with
        | inr _ => mret tt
        | inl msg =>
            events ← on_book (Cancel (co_OrderId msg) (session_Id session));
            route events timestamp
        end
      else mret tt.

(** The loop of [writeSnapshot]: chunks of at most [snapshotChunkSize]
    bytes; each takes at least one, so the length of the data is enough. *)
Fixpoint emit_chunks (n : nat) (emit : list Z -> svc (option error)) (data : list Z)
    : svc (option error) :=
  match n, data with
  | _, [] => mret None
  | O, _ => go_panic Diverge
  | S n', _ =>
      let k := Nat.min snapshotChunkSize (length data) in
      err ← emit (take k data);
      match (err : option error) with
      | Some e => mret (Some e)
      | None => emit_chunks n' emit (drop k data)
      end
  end.

(** [s.book.Snapshot(&stream)] *)
Definition book_snapshot : svc (list Z + error) := fun s =>
  match Snapshot (ms_book (fst s), ([] : Buffer)) with
  | Ok (inl _, (e, stream)) => Ok (inl stream, (set_book e (fst s), snd s))
  | Ok (inr err, (e, _)) => Ok (inr err, (set_book e (fst s), snd s))
  | Panic p => Panic p
  end.

Definition writeSnapshot (emit : list Z -> svc (option error)) : svc (option error) :=
  r ← book_snapshot;
  match r with
  | inr err => mret (Some err)
  | inl data => emit_chunks (length data) emit data
  end.

(** The closure that offers one chunk to the publication. *)
Fixpoint offer_chunk (n : nat) (chunk : list Z) : svc (option error) :=
  match n with
  | O => go_panic Diverge
  | S n' =>
      result ← on_world (publication_Offer chunk);
      if 0 <=? result then mret None
      else if negb (result =? BackPressured) && negb (result =? AdminAction)
      then mret (Some (OtherError "snapshot offer failed" result))
      else on_world (fun x => (tt, Idle x));; offer_chunk n' chunk
  end.

(** An error is only logged. *)
Definition OnTakeSnapshot : svc unit :=
  writeSnapshot (offer_chunk fuel);; mret tt.

(** The polling loop of [OnStart]. *)
Fixpoint poll_stream (n : nat) (stream : list Z) : svc (list Z) :=
  match n with
  | O => go_panic Diverge
  | S n' =>
      fragments ← on_world image_Poll;
      done ← go_gets (fun s => image_Done (snd s));
      let stream := stream ++ concat fragments in
      if (done : bool) then mret stream
      else
        (if Nat.eqb (length fragments) 0 then on_world (fun x => (tt, Idle x)) else mret tt);;
        poll_stream n' stream
  end.

Definition restoreSnapshot (stream : list Z) : svc (option error) := fun s =>
  match RestoreOrderBook stream with
  | Ok (inl book, _) => Ok (None, (set_book book (fst s), snd s))
  | Ok (inr err, _) => Ok (Some err, s)
  | Panic p => Panic p
  end.

Definition OnStart (image : bool) : svc unit :=
  if image then
    stream ← poll_stream fuel [];
    err ← restoreSnapshot stream;
    match (err : option error) with
    | Some _ => go_panic (Raised "gomatch: snapshot restore failed")
    | None => mret tt
    end
  else mret tt.

(** The callbacks that do nothing but log. *)
Definition OnTimerEvent (correlationId timestamp : Z) : svc unit := mret tt.
Definition OnRoleChange (role : Z) : svc unit := mret tt.
Definition OnTerminate : svc unit := mret tt.
Definition OnNewLeadershipTermEvent
    (leadershipTermId logPosition timestamp termBaseLogPosition : Z)
    (leaderMemberId logSessionId timeUnit appVersion : Z) : svc unit := mret tt.
End Service.
