(* ===== verification/ServiceLaws.v ===== *)
(** * The service: what is asked of the cluster library, and what follows

    The laws of the transport and of the buffers, the frame of a message, and
    the exact effect of routing and of ingress on the sessions. *)
From S2P Require Import Prelude Events OrderBook BookSpec BookRep BookOps BookRefine BookProps Engine.
From S2P Require Import Marshal Codecs CodecLaws CodecTheorems Snapshot SnapshotLaws Service.

(** ** The cluster library *)

(** What the sessions and the snapshot publication have taken: an offer that
    returns a position (not negative) has taken the message, another has
    not, and idling does nothing.  [delivered] is what the offers of this node
    took: on a node that is not the leader the library answers an offer with
    a mocked position, so that the same frames count as taken there although
    only the leader's reach the client. *)
Class LawfulCluster (Sess X : Type) {HC : Cluster Sess X} : Type := {
  delivered : X -> list (Z * list Z);
  published : X -> list (list Z);
  session_law : forall s f x,
    delivered (snd (session_Offer s f x)) =
      delivered x ++ (if 0 <=? fst (session_Offer s f x) then [(session_Id s, f)] else []);
  publication_law : forall c x,
    published (snd (publication_Offer (Sess := Sess) c x)) =
      published x ++ (if 0 <=? fst (publication_Offer (Sess := Sess) c x) then [c] else []);
  Idle_law : forall x, delivered (Idle (Sess := Sess) x) = delivered x /\
                       published (Idle (Sess := Sess) x) = published x
}.

(** The result is one after which the caller tries again. *)
Definition retry {Sess X} `{Cluster Sess X} (result : Z) : bool :=
  (result =? BackPressured (Sess := Sess) (X := X)) || (result =? AdminAction (Sess := Sess) (X := X)).

(** An offer is taken within [n] tries. *)
Fixpoint taken_within {Sess X} `{Cluster Sess X} (offer : X -> Z * X) (n : nat) (x : X) : bool :=
  match n with
  | O => false
  | S n' => let '(r, x') := offer x in
            (0 <=? r) || (retry (Sess := Sess) (X := X) r &&
                          taken_within (Sess := Sess) offer n' (Idle (Sess := Sess) x'))
  end.

(** Back pressure lasts less than [n] tries and no session is lost. *)
Class PromptCluster (Sess X : Type) {HC : Cluster Sess X} (n : nat) : Prop := {
  session_prompt : forall (s : Sess) f x,
    taken_within (Sess := Sess) (session_Offer s f) n x = true;
  publication_prompt : forall c x,
    taken_within (Sess := Sess) (publication_Offer (Sess := Sess) c) n x = true
}.

(** An offer ends within [n] tries: it is taken, or it fails for good. *)
Fixpoint settled_within {Sess X} `{Cluster Sess X} (offer : X -> Z * X) (n : nat) (x : X) : bool :=
  match n with
  | O => false
  | S n' => let '(r, x') := offer x in
            (0 <=? r) || negb (retry (Sess := Sess) (X := X) r) ||
            settled_within (Sess := Sess) offer n' (Idle (Sess := Sess) x')
  end.

(** Back pressure lasts less than [n] tries, but a session may be lost, full
    or closed. *)
Class SettlingCluster (Sess X : Type) {HC : Cluster Sess X} (n : nat) : Prop := {
  session_settles : forall (s : Sess) f x,
    settled_within (Sess := Sess) (session_Offer s f) n x = true
}.

(** What routing relies on: [offer] returns, and what was sent is related by
    [R] to what should have been. *)
Definition moved {Sess X} `{LawfulCluster Sess X} (R : relation (list (Z * list Z))) (x x' : X)
    (out : list (Z * list Z)) : Prop :=
  exists sent, delivered x' = delivered x ++ sent /\ R sent out.

Class Transport (Sess X : Type) `{LawfulCluster Sess X} (fuel : nat)
    (R : relation (list (Z * list Z))) : Prop := {
  transport_nil : R [] [];
  transport_app : forall a b c d, R a b -> R c d -> R (a ++ c) (b ++ d);
  transport_offer : forall (sess : Sess) f s (x : X),
    exists x', offer fuel sess f (s, x) = Ok (tt, (s, x')) /\ moved R x x' [(session_Id sess, f)]
}.

(** The buffer has a content, and reads are reads of it. *)
Class LawfulBuffer (B : Type) {HB : AtomicBuffer B} : Type := {
  content : B -> list Z;
  content_bytes : forall b, Forall is_byte (content b);
  GetUInt16_law : forall b o, 0 <= o -> (Z.to_nat o + 2 <= length (content b))%nat ->
    GetUInt16 b o = le_val (take 2 (drop (Z.to_nat o) (content b)));
  GetBytes_law : forall b o n, 0 <= o -> 0 <= n ->
    (Z.to_nat o + Z.to_nat n <= length (content b))%nat ->
    GetBytes b o n = take (Z.to_nat n) (drop (Z.to_nat o) (content b))
}.

(** ** Frames *)

Section Frames.
Context {M : Type} `{SbeCodec M}.

(** The bytes of a message behind its header. *)
Definition frame_of (x : M) : list Z := header_wire (frame_header M) ++ wire x.

Lemma encodeFrame_ok (x : M) m :
  marsh_ok m -> RangeCheck x (SbeSchemaVersion M) (SbeSchemaVersion M) = None ->
  exists m', marsh_ok m' /\ encodeFrame x m = (inl (frame_of x), m').
Proof.
  intros Hm Hrc. unfold encodeFrame.
  destruct (emits_reliable (W := Buffer) (MessageHeader_Encode (frame_header M);; Encode x true)
    (frame_of x) m []) as (m' & w & Hrun & Hm' & Hw); [|done|].
  - apply emits_seq; [apply header_emits|]. by apply (Encode_emits Buffer).
  - exists m'. split; [done|]. rewrite Hrun. change (w = frame_of x) in Hw. by subst.
Qed.

Lemma encodeFrame_refused (x : M) m err :
  marsh_ok m -> RangeCheck x (SbeSchemaVersion M) (SbeSchemaVersion M) = Some err ->
  exists m', encodeFrame x m = (inr err, m').
Proof.
  intros Hm Hrc. unfold encodeFrame, mbind, io_bind.
  destruct (emits_reliable (W := Buffer) (MessageHeader_Encode (frame_header M)) _ m []
    (header_emits (frame_header M)) Hm) as (m' & w & Hrun & _ & _).
  rewrite Hrun, (Encode_refuses Buffer x err) by done. eauto.
Qed.

End Frames.

(** ** Routing *)

(** The frame of an event and whether it can be encoded. *)
Definition event_frame (ev : Event) (ts : Z) : list Z :=
  match ev_Type ev with
  | EvTrade => frame_of (trade_of ev ts)
  | EvBookUpdate => frame_of (update_of ev ts)
  | _ => frame_of (report_of ev ts)
  end.
Definition encodable (ts : Z) (ev : Event) : Prop :=
  match ev_Type ev with
  | EvTrade => TradeEvent_RangeCheck (trade_of ev ts) 1 1 = None
  | EvBookUpdate => BookUpdate_RangeCheck (update_of ev ts) 1 1 = None
  | _ => ExecutionReport_RangeCheck (report_of ev ts) 1 1 = None
  end.

(** Who gets an event: everyone for the public ones, the owner if its
    session is open for the others. *)
Definition recipients (ids : list Z) (ev : Event) : list Z :=
  match ev_Type ev with
  | EvTrade | EvBookUpdate => ids
  | _ => filter (fun id => id = ev_Owner ev) ids
  end.
Definition deliveries (ids : list Z) (ts : Z) (ev : Event) : list (Z * list Z) :=
  (fun id => (id, event_frame ev ts)) <$> recipients ids ev.

(** A prompt cluster takes everything... *)
Section Prompt.
Context {Sess X : Type} `{LawfulCluster Sess X}.

Lemma offer_loop_delivers n sess f : forall s x,
  taken_within (Sess := Sess) (session_Offer sess f) n x = true ->
  exists x', offer_loop n sess f (s, x) = Ok (tt, (s, x')) /\
             delivered x' = delivered x ++ [(session_Id sess, f)].
Proof.
  induction n as [|n IH]; intros s x Hn; [done|]. simpl in Hn.
  cbn [offer_loop]. unfold mbind, go_bind, on_world. cbn [fst snd].
  pose proof (session_law sess f x) as Hlaw. destruct (session_Offer sess f x) as [r x1].
  cbn [fst snd] in Hlaw. destruct (0 <=? r); [eauto|]. simpl in Hn.
  apply andb_true_iff in Hn as [Hr Hn]. unfold retry in Hr.
  rewrite <- negb_orb, Hr. simpl negb. cbv iota.
  destruct (IH s (Idle (Sess := Sess) x1) Hn) as (x' & Hrun & Hx'). exists x'. split; [done|].
  rewrite Hx', (proj1 (Idle_law x1)), Hlaw. by rewrite app_nil_r.
Qed.

Lemma prompt_transport n : PromptCluster Sess X n -> Transport Sess X n eq.
Proof.
  intros Hp. constructor; [done|congruence|]. intros sess f s x.
  destruct (offer_loop_delivers n sess f s x) as (x' & Hrun & Hx'); [apply session_prompt|].
  exists x'. split; [done|]. by eexists.
Qed.

(** ... and one that settles loses frames but keeps the order. *)
Lemma offer_loop_settles n sess f : forall s x,
  settled_within (Sess := Sess) (session_Offer sess f) n x = true ->
  exists x', offer_loop n sess f (s, x) = Ok (tt, (s, x')) /\
             moved sublist x x' [(session_Id sess, f)].
Proof.
  induction n as [|n IH]; intros s x Hn; [done|]. simpl in Hn.
  cbn [offer_loop]. unfold mbind, go_bind, on_world. cbn [fst snd].
  pose proof (session_law sess f x) as Hlaw. destruct (session_Offer sess f x) as [r x1].
  cbn [fst snd] in Hlaw.
  destruct (0 <=? r); [exists x1; split; [done|]; by eexists|]. simpl in Hn. unfold retry in Hn.
  rewrite <- negb_orb. destruct ((r =? BackPressured) || (r =? AdminAction)); simpl negb in *; cbv iota.
  - destruct (IH s (Idle (Sess := Sess) x1) Hn) as (x' & Hrun & sent & Hx' & Hs). exists x'. split; [done|].
    exists sent. split; [|done]. by rewrite Hx', (proj1 (Idle_law x1)), Hlaw, app_nil_r.
  - exists x1. split; [done|]. exists []. split; [done|apply sublist_nil_l].
Qed.

Lemma settling_transport n : SettlingCluster Sess X n -> Transport Sess X n sublist.
Proof.
  intros Hp. constructor; [done|by apply sublist_app|]. intros sess f s x.
  apply offer_loop_settles, session_settles.
Qed.
End Prompt.

Section Route.
Context {Sess X B : Type} `{LawfulCluster Sess X} (fuel : nat) (R : relation (list (Z * list Z))).
Context `{!Transport Sess X fuel R}.

Lemma moved_nil (x : X) : moved R x x [].
Proof. exists []. split; [by rewrite app_nil_r|apply transport_nil]. Qed.

Lemma moved_app (x y z : X) a b : moved R x y a -> moved R y z b -> moved R x z (a ++ b).
Proof.
  intros (sa & Ha & HRa) (sb & Hb & HRb). exists (sa ++ sb). split; [by rewrite Hb, Ha, app_assoc|].
  by apply transport_app.
Qed.

(** The session map and the list of ids agree. *)
Record sessions_ok (s : MatchingService Sess) : Prop := mkSessionsOk {
  so_ids : NoDup (ms_sessionIds s);
  so_map : forall id sess, ms_sessions s !! id = Some sess -> session_Id sess = id;
  so_dom : forall id, id ∈ ms_sessionIds s <-> is_Some (ms_sessions s !! id)
}.

Lemma sendTo_open s x id f :
  sessions_ok s -> id ∈ ms_sessionIds s ->
  exists x', sendTo fuel id f (s, x) = Ok (tt, (s, x')) /\ moved R x x' [(id, f)].
Proof.
  intros [_ Hmap Hdom] [sess Hs]%Hdom. unfold sendTo, mbind, go_bind, go_gets. cbn [fst].
  rewrite Hs, <- (Hmap _ _ Hs). apply transport_offer.
Qed.

Lemma sendTo_closed s x id f :
  sessions_ok s -> id ∉ ms_sessionIds s -> sendTo fuel id f (s, x) = Ok (tt, (s, x)).
Proof.
  intros [_ _ Hdom] Hn. unfold sendTo, mbind, go_bind, go_gets. cbn [fst].
  destruct (ms_sessions s !! id) eqn:Hs; [|done]. destruct Hn. apply Hdom. by rewrite Hs.
Qed.

Lemma filter_unique (id : Z) l : NoDup l -> id ∈ l -> filter (fun i => i = id) l = [id].
Proof.
  intros Hnd Hin. apply list_elem_of_split in Hin as (a & b & ->).
  apply NoDup_app in Hnd as (_ & Ha & [Hb _]%NoDup_cons).
  rewrite filter_app, filter_cons_True by done.
  rewrite (list_filter_none _ a), (list_filter_none _ b); [done|..]; apply Forall_forall.
  - by intros i Hi ->.
  - intros i Hi ->. apply (Ha _ Hi). by left.
Qed.

Lemma sendTo_delivers s x id f :
  sessions_ok s ->
  exists x', sendTo fuel id f (s, x) = Ok (tt, (s, x')) /\
    moved R x x' ((fun i => (i, f)) <$> filter (fun i => i = id) (ms_sessionIds s)).
Proof.
  intros Hok. destruct (decide (id ∈ ms_sessionIds s)) as [Hin|Hn].
  - rewrite filter_unique by (done || apply Hok). by apply sendTo_open.
  - exists x. rewrite sendTo_closed by done. split; [done|].
    rewrite list_filter_none; [apply moved_nil|]. apply Forall_forall. by intros i Hi ->.
Qed.

Lemma broadcast_delivers s f : sessions_ok s -> forall ids x,
  ids ⊆ ms_sessionIds s ->
  exists x', broadcast_loop fuel ids f (s, x) = Ok (tt, (s, x')) /\
             moved R x x' ((fun i => (i, f)) <$> ids).
Proof.
  intros Hok. induction ids as [|id ids IH]; intros x Hsub; [exists x; split; [done|apply moved_nil]|].
  destruct (sendTo_open s x id f Hok) as (x1 & H1 & Hx1); [set_solver|].
  destruct (IH x1) as (x' & H2 & Hx'); [set_solver|]. exists x'.
  cbn [broadcast_loop]. unfold mbind, go_bind. rewrite H1. split; [done|].
  exact (moved_app _ _ _ [(id, f)] _ Hx1 Hx').
Qed.

(** The effect of a step that only uses the marshaller and the transport. *)
Definition sends (c : go (MatchingService Sess * X) unit) (s : MatchingService Sess)
    (out : list (Z * list Z)) : Prop :=
  forall m x, marsh_ok m ->
    exists m' x', marsh_ok m' /\
      c (set_marshaller m s, x) = Ok (tt, (set_marshaller m' s, x')) /\ moved R x x' out.

Lemma sends_nil s : sends (mret tt) s [].
Proof. intros m x Hm. exists m, x. split_and!; [done|done|apply moved_nil]. Qed.

Lemma sends_seq c1 c2 s a b : sends c1 s a -> sends c2 s b -> sends (c1;; c2) s (a ++ b).
Proof.
  intros H1 H2 m x Hm. destruct (H1 m x Hm) as (m1 & x1 & Hm1 & Hr1 & Hx1).
  destruct (H2 m1 x1 Hm1) as (m2 & x2 & Hm2 & Hr2 & Hx2). exists m2, x2.
  unfold mbind, go_bind. rewrite Hr1. split_and!; [done|done|by eapply moved_app].
Qed.

(** Encoding a message and handing the frame on. *)
Lemma sends_encoded {M} `{SbeCodec M} (msg : M) k s out :
  RangeCheck msg (SbeSchemaVersion M) (SbeSchemaVersion M) = None ->
  (forall m x, exists x', k (frame_of msg) (set_marshaller m s, x) = Ok (tt, (set_marshaller m s, x')) /\
     moved R x x' out) ->
  sends (r ← with_marshaller (encodeFrame msg); frame ← mustEncode r; k frame) s out.
Proof.
  intros Hrc Hk m x Hm. destruct (encodeFrame_ok msg m Hm Hrc) as (m' & Hm' & He).
  destruct (Hk m' x) as (x' & Hrun & Hx'). exists m', x'.
  unfold mbind, go_bind, with_marshaller. cbn [fst snd ms_marshaller set_marshaller].
  rewrite He. by split_and!.
Qed.

Lemma sessions_ok_marshaller m s : sessions_ok s -> sessions_ok (set_marshaller m s).
Proof. by intros []. Qed.

Lemma route_event_sends s ev ts :
  sessions_ok s -> encodable ts ev ->
  sends (route_event fuel ev ts) s (deliveries (ms_sessionIds s) ts ev).
Proof.
  intros Hok He. unfold encodable, route_event, deliveries, recipients, event_frame in *.
  assert (Hall : forall f m x, exists x',
    broadcast fuel f (set_marshaller m s, x) = Ok (tt, (set_marshaller m s, x')) /\
    moved R x x' ((fun i => (i, f)) <$> ms_sessionIds s)).
  { intros f m x. unfold broadcast, mbind, go_bind, go_gets. cbn [fst].
    by apply (broadcast_delivers (set_marshaller m s) f (sessions_ok_marshaller m s Hok)). }
  assert (Hone : forall id f m x, exists x',
    sendTo fuel id f (set_marshaller m s, x) = Ok (tt, (set_marshaller m s, x')) /\
    moved R x x' ((fun i => (i, f)) <$> filter (fun i => i = id) (ms_sessionIds s))).
  { intros id f m x. by apply (sendTo_delivers (set_marshaller m s)), sessions_ok_marshaller. }
  destruct (ev_Type ev).
  - apply (sends_encoded (report_of ev ts) (sendTo fuel (ev_Owner ev))); [exact He|apply Hone].
  - apply (sends_encoded (report_of ev ts) (sendTo fuel (ev_Owner ev))); [exact He|apply Hone].
  - apply (sends_encoded (trade_of ev ts) (broadcast fuel)); [exact He|apply Hall].
  - apply (sends_encoded (report_of ev ts) (sendTo fuel (ev_Owner ev))); [exact He|apply Hone].
  - apply (sends_encoded (report_of ev ts) (sendTo fuel (ev_Owner ev))); [exact He|apply Hone].
  - apply (sends_encoded (update_of ev ts) (broadcast fuel)); [exact He|apply Hall].
Qed.

Lemma route_sends s ts evs :
  sessions_ok s -> Forall (encodable ts) evs ->
  sends (route fuel evs ts) s (evs ≫= deliveries (ms_sessionIds s) ts).
Proof.
  intros Hok. induction 1 as [|ev evs He _ IH]; [apply sends_nil|].
  rewrite bind_cons. apply sends_seq; [by apply route_event_sends|done].
Qed.
End Route.

(** ** Ingress *)

Section Ingress.
Context {Sess X B : Type} `{LawfulCluster Sess X} `{LawfulBuffer B} (fuel : nat).

(** The bytes of the buffer from [offset] on are those of [frame]. *)
Definition holds (buffer : B) (offset : Z) (frame : list Z) : Prop :=
  0 <= offset /\ offset + Z.of_nat (length frame) < 2 ^ 31 /\
  exists pre post, content buffer = pre ++ frame ++ post /\ length pre = Z.to_nat offset.

Lemma window {A} (pre a b post : list A) n :
  n = (length pre + length a)%nat -> take (length b) (drop n (pre ++ (a ++ b) ++ post)) = b.
Proof.
  intros ->. rewrite <- drop_drop, drop_app_length. rewrite <- app_assoc, drop_app_length.
  apply take_app_length.
Qed.

Lemma holds_u16 buffer offset a b c :
  holds buffer offset (a ++ b ++ c) -> length b = 2%nat ->
  GetUInt16 buffer (int32 (offset + Z.of_nat (length a))) = le_val b.
Proof.
  intros (H1 & H2 & pre & post & Hc & Hpre) Hb. rewrite !length_app in H2.
  rewrite sint_id by (unfold is_sint; lia).
  rewrite GetUInt16_law by (rewrite ?Hc, ?length_app; lia). f_equal.
  rewrite Hc, <- Hb. replace ((a ++ b ++ c) ++ post) with ((a ++ b) ++ c ++ post)
    by by rewrite <- !app_assoc.
  apply window. lia.
Qed.

Lemma holds_body buffer offset a b :
  holds buffer offset (a ++ b) ->
  GetBytes buffer (int32 (offset + Z.of_nat (length a))) (int32 (Z.of_nat (length b))) = b.
Proof.
  intros (H1 & H2 & pre & post & Hc & Hpre). rewrite length_app in H2.
  rewrite !sint_id by (unfold is_sint; lia).
  rewrite GetBytes_law by (rewrite ?Hc, ?length_app; lia). rewrite Hc, Nat2Z.id. apply window. lia.
Qed.

(** What the service reads of a frame: the header fields and the body. *)
Lemma holds_frame buffer offset h body :
  holds buffer offset (header_wire h ++ body) -> header_ok h ->
  GetUInt16 buffer offset = mh_BlockLength h /\
  GetUInt16 buffer (int32 (offset + 2)) = mh_TemplateId h /\
  GetUInt16 buffer (int32 (offset + 4)) = mh_SchemaId h /\
  GetUInt16 buffer (int32 (offset + 6)) = mh_Version h /\
  GetBytes buffer (int32 (offset + 8)) (int32 (Z.of_nat (length body))) = body.
Proof.
  intros Hh (H1 & H2 & H3 & H4).
  assert (Hv : forall v, is_uint16 v -> le_val (le 2 v) = v).
  { intros v Hv. rewrite le_val_le. by apply uint_id. }
  set (a := le 2 (mh_BlockLength h)). set (b := le 2 (mh_TemplateId h)).
  set (c := le 2 (mh_SchemaId h)). set (d := le 2 (mh_Version h)).
  pose proof Hh as Hoff. destruct Hoff as (Ho & Hend & _). unfold header_wire in Hh, Hend.
  fold a b c d in Hh, Hend. rewrite <- !app_assoc in Hh, Hend. split_and!.
  - pose proof (holds_u16 buffer offset [] a (b ++ c ++ d ++ body) Hh eq_refl) as Hu.
    rewrite !length_app in Hend. simpl in Hu. rewrite Z.add_0_r, sint_id in Hu by (unfold is_sint; lia).
    rewrite Hu. by apply Hv.
  - etrans; [exact (holds_u16 buffer offset a b (c ++ d ++ body) Hh eq_refl)|by apply Hv].
  - etrans; [|by apply Hv]. apply (holds_u16 buffer offset (a ++ b) c (d ++ body)); [|done].
    by rewrite <- app_assoc.
  - etrans; [|by apply Hv]. apply (holds_u16 buffer offset (a ++ b ++ c) d body); [|done].
    by rewrite <- !app_assoc.
  - apply (holds_body buffer offset (a ++ b ++ c ++ d) body). by rewrite <- !app_assoc.
Qed.

Lemma decode_msg_wire {M} `{SbeCodec M} (x zero : M) rest version bl s (w : X) :
  typed x -> Forall is_byte rest -> 0 <= version -> marsh_ok (ms_marshaller s) ->
  exists m', marsh_ok m' /\
    decode_msg (Sess := Sess) (Decode version bl true) zero (wire x ++ rest) (s, w) =
      Ok (match RangeCheck x version (SbeSchemaVersion M) with None => inl x | Some err => inr err end,
          (set_marshaller m' s, w)).
Proof.
  intros Ht Hr Hv Hm.
  destruct (Decode_wire x zero (ms_marshaller s) rest version bl true Ht Hm Hr Hv) as (m' & Hm' & Hd).
  exists m'. split; [done|]. unfold decode_msg, with_marshaller. cbn [fst snd].
  setoid_rewrite Hd. by destruct (RangeCheck x version _).
Qed.

Lemma decode_msg_short {M} `{SbeCodec M} (zero : M) body version bl s (w : X) :
  Forall is_byte body -> 0 <= version -> marsh_ok (ms_marshaller s) ->
  (length body < Z.to_nat (SbeBlockLength M))%nat ->
  exists m' err, marsh_ok m' /\
    decode_msg (Sess := Sess) (Decode version bl true) zero body (s, w) =
      Ok (inr err, (set_marshaller m' s, w)).
Proof.
  intros Hr Hv Hm Hlen.
  destruct (Decode_short zero (ms_marshaller s) body version bl true Hm Hr Hv Hlen)
    as (m' & x' & err & Hm' & Hd & _).
  exists m', err. split; [done|]. unfold decode_msg, with_marshaller. cbn [fst snd].
  by setoid_rewrite Hd.
Qed.

(** The header an ingress frame starts with. *)
Definition ingress_header (blockLength templateId version : Z) : MessageHeader :=
  mkMessageHeader blockLength templateId schemaId version.

(** What [OnSessionMessage] does once it has read the header. *)
Lemma ingress_unfold sess ts buffer offset bl tid version body (s : MatchingService Sess) (w : X) :
  header_ok (ingress_header bl tid version) ->
  holds buffer offset (header_wire (ingress_header bl tid version) ++ body) ->
  OnSessionMessage fuel sess ts buffer offset (8 + Z.of_nat (length body)) (s, w) =
    (if tid =? newOrderTemplateId then
       r ← decode_msg (NewOrder_Decode version bl true) (mkNewOrder 0 0 0 0) body;
       match r with
       | inr _ => mret tt
       | inl msg =>
           events ← on_book (NewLimitOrder (mkNewOrderCmd (no_ClientOrderId msg) (session_Id sess)
                                              (no_Side msg) (no_Price msg) (no_Qty msg)));
           route fuel events ts
       end
     else if tid =? cancelOrderTemplateId then
       r ← decode_msg (CancelOrder_Decode version bl true) (mkCancelOrder 0) body;
       match r with
       | inr _ => mret tt
       | inl msg => events ← on_book (Cancel (co_OrderId msg) (session_Id sess)); route fuel events ts
       end
     else mret tt) (s, w).
Proof.
  intros Hok Hh. destruct (holds_frame _ _ _ _ Hh Hok) as (Hbl & Htid & Hsid & Hver & Hbody).
  unfold OnSessionMessage, sbeHeaderLength.
  destruct (Z.ltb_spec (8 + Z.of_nat (length body)) 8); [lia|]. cbn zeta.
  rewrite Hbl, Htid, Hsid, Hver.
  replace (8 + Z.of_nat (length body) - 8) with (Z.of_nat (length body)) by lia.
  rewrite Hbody. done.
Qed.

(** The engine step and the routing that follow a decoded command. *)
Lemma engine_step_sends R (c : go Engine (list Event)) (s : MatchingService Sess) m w ts evs e' :
  Transport Sess X fuel R -> marsh_ok m -> sessions_ok s -> c (ms_book s) = Ok (evs, e') ->
  Forall (encodable ts) evs ->
  exists m' w', marsh_ok m' /\
    (events ← on_book c; route fuel events ts) (set_marshaller m s, w) =
      Ok (tt, (set_marshaller m' (set_book e' s), w')) /\
    moved R w w' (evs ≫= deliveries (ms_sessionIds s) ts).
Proof.
  intros Hp Hm Hok Hc He.
  assert (Hok' : sessions_ok (set_book e' s)) by by destruct Hok.
  destruct (route_sends fuel R (set_book e' s) ts evs Hok' He m w Hm) as (m' & w' & Hm' & Hrun & Hw).
  exists m', w'. split; [done|]. split; [|done].
  unfold mbind, go_bind, on_book. cbn [fst snd]. change (ms_book (set_marshaller m s)) with (ms_book s).
  rewrite Hc. exact Hrun.
Qed.
End Ingress.

(** ** Which events can be encoded *)

Definition enc_int (v : Z) : Prop := is_int64 v /\ v <> MinInt64.
Definition enc_side (s : Z) : Prop :=
  s = ec_value Side_BUY \/ s = ec_value Side_SELL \/ s = Side_NullValue.
(** The fields of an order that do not change have encodable values. *)
Definition order_enc (r : resting) : Prop :=
  enc_int (r_id r) /\ enc_int (r_clientOrderId r) /\ enc_side (r_side r) /\ enc_int (r_price r).
(** The single checks of a [RangeCheck]. *)
Ltac split_checks :=
  apply first_error_none; repeat (apply Forall_cons; split); [..|apply Forall_nil; done].

Lemma enc_int_nonneg v : 0 <= v <= MaxInt64 -> enc_int v.
Proof. unfold enc_int, is_sint, MinInt64, MaxInt64. lia. Qed.

Lemma check_enc name id v : enc_int v -> check_prim name (int64_field id) v 1 = None.
Proof. intros [H1 H2]. by apply check_int64_none. Qed.

Lemma report_enc oid cid st rs sd p q rq ts :
  enc_int oid -> enc_int cid -> 0 <= st <= 4 -> 0 <= rs <= 4 -> enc_side sd -> enc_int p ->
  enc_int q -> enc_int rq -> enc_int ts ->
  ExecutionReport_RangeCheck (mkExecutionReport oid cid st rs sd p q rq ts) 1 1 = None.
Proof.
  intros ? ? Hst Hrs Hsd ? ? ? ?. unfold ExecutionReport_RangeCheck.
  assert (Hst' : OrderStatusEnum_RangeCheck st 1 1 = None).
  { assert (st = 0 \/ st = 1 \/ st = 2 \/ st = 3 \/ st = 4) as Hcase by lia.
    by destruct Hcase as [->|[->|[->|[->| ->]]]]. }
  assert (Hrs' : RejectReasonEnum_RangeCheck rs 1 1 = None).
  { assert (rs = 0 \/ rs = 1 \/ rs = 2 \/ rs = 3 \/ rs = 4) as Hcase by lia.
    by destruct Hcase as [->|[->|[->|[->| ->]]]]. }
  split_checks; try (by apply check_enc); try done. by apply side_check_none.
Qed.

Lemma level_qty_bounds p l :
  Forall (fun r => 0 < r_qty r) l -> 0 <= level_qty p l <= sum_qty l.
Proof.
  induction 1 as [|r l Hr _ IH]; [unfold level_qty; simpl; lia|].
  rewrite level_qty_cons, sum_qty_cons. case_decide; lia.
Qed.

(** Depths other than the null value can be published. *)
Lemma depth_encodable ts sd p q :
  enc_int ts -> enc_side sd -> enc_int p -> enc_int q -> encodable ts (BookUpdateEvent sd p q).
Proof.
  intros Hts Hsd Hp Hq. unfold encodable. cbn [ev_Type BookUpdateEvent]. unfold BookUpdate_RangeCheck.
  split_checks; [by apply side_check_none|by apply check_enc..].
Qed.

Lemma update_encodable ts side l p :
  enc_int ts -> enc_side side -> enc_int p -> Forall (fun r => 0 < r_qty r) l ->
  sum_qty l <= MaxInt64 -> encodable ts (update_event side l p).
Proof.
  intros Hts Hside Hp Hl Hsum. pose proof (level_qty_bounds p l Hl). apply depth_encodable; [done..|].
  rewrite sint_id; [apply enc_int_nonneg; lia|done|]. unfold is_sint, MaxInt64 in *. lia.
Qed.

Lemma filled_encodable ts oid cid owner sd p q rq :
  enc_int ts -> enc_int oid -> enc_int cid -> enc_side sd -> enc_int p ->
  0 <= q <= MaxInt64 -> 0 <= rq <= MaxInt64 ->
  encodable ts (FilledEvent oid cid owner sd p q rq).
Proof.
  intros Hts H1 H2 H3 H4 Hq Hrq.
  change (ExecutionReport_RangeCheck (mkExecutionReport oid cid
    (if rq =? 0 then 3 else 2) 0 sd p q rq ts) 1 1 = None).
  apply report_enc; try assumption; [destruct (rq =? 0); lia|lia|by apply enc_int_nonneg..].
Qed.

Lemma fills_encodable ts t fs :
  enc_int ts -> order_enc t ->
  Forall (fun f => order_enc (f_maker f) /\ order_pos (f_maker f) /\
                   0 < f_qty f <= r_qty (f_maker f) /\ 0 <= f_left f <= MaxInt64) fs ->
  Forall (encodable ts) (concat (fill_events t <$> fs)).
Proof.
  intros Hts (T1 & T2 & T3 & T4). unfold order_pos.
  induction 1 as [|f fs ((M1 & M2 & M3 & M4) & Hm & Hq & Hl) _ IH]; [constructor|].
  rewrite fmap_cons. cbn [concat fill_events app].
  constructor; [|constructor; [|constructor; [|done]]].
  - change (TradeEvent_RangeCheck (mkTradeEvent (r_price (f_maker f)) (f_qty f) (r_id (f_maker f))
      (r_id t) ts) 1 1 = None). unfold TradeEvent_RangeCheck.
    split_checks; apply check_enc; try done. apply enc_int_nonneg. simpl. lia.
  - apply filled_encodable; try done; lia.
  - apply filled_encodable; try done; lia.
Qed.

Lemma sum_qty_filter id l : Forall order_pos l -> sum_qty (remove_order id l) <= sum_qty l.
Proof.
  induction 1 as [|r l Hr _ IH]; [done|]. unfold remove_order, order_pos in *. rewrite filter_cons.
  case_decide; rewrite ?sum_qty_cons; lia.
Qed.

(** Two lists that together hold at most [MaxInt64]. *)
Lemma sum_qty_side buy b n :
  Forall order_pos (all_orders b) -> sum_qty (all_orders b) + n <= MaxInt64 ->
  0 <= sum_qty (side_of buy b) /\ sum_qty (side_of buy b) + n <= MaxInt64.
Proof.
  intros Hp Hs. rewrite (all_orders_perm buy) in Hp, Hs. rewrite sum_qty_app in Hs.
  apply Forall_app in Hp as [H1 H2]. pose proof (sum_qty_nonneg _ H1). pose proof (sum_qty_nonneg _ H2).
  lia.
Qed.

Lemma accepted_encodable ts t :
  enc_int ts -> order_enc t -> order_pos t ->
  encodable ts (AcceptedEvent (r_id t) (r_clientOrderId t) (r_owner t) (r_side t) (r_price t) (r_qty t)).
Proof.
  intros Hts (T1 & T2 & T3 & T4) Hq.
  change (ExecutionReport_RangeCheck (mkExecutionReport (r_id t) (r_clientOrderId t) 0 0 (r_side t)
    (r_price t) (r_qty t) 0 ts) 1 1 = None).
  unfold order_pos in Hq. apply report_enc; try assumption; try lia; apply enc_int_nonneg; lia.
Qed.

Lemma touched_encodable ts side opp fs :
  enc_int ts -> enc_side side -> Forall order_pos opp -> sum_qty opp <= MaxInt64 ->
  Forall (fun f => order_enc (f_maker f)) fs ->
  Forall (encodable ts) (update_event side opp <$> touched fs).
Proof.
  intros Hts Hside Hp Hsum Hfs. apply Forall_fmap, Forall_forall. intros p Hin.
  rewrite elem_of_touched in Hin. apply list_elem_of_fmap in Hin as (f & -> & Hin).
  rewrite Forall_forall in Hfs. destruct (Hfs f Hin) as (_ & _ & _ & Hpr).
  apply update_encodable; try done. by apply order_pos_positive.
Qed.

Lemma execute_encodable ts b t :
  enc_int ts -> Forall order_enc (all_orders b) -> Forall order_pos (all_orders b) ->
  order_enc t -> order_pos t -> sum_qty (all_orders b) + r_qty t <= MaxInt64 ->
  Forall (encodable ts) (fst (execute b t)).
Proof.
  intros Hts He Hp Ht Htq Hsum. unfold execute. set (oppBuy := r_side t =? Sell).
  destruct (sum_qty_side oppBuy b _ Hp Hsum) as [_ Hopps].
  pose proof Hp as Hp'. rewrite (all_orders_perm oppBuy) in He, Hp'.
  apply Forall_app in He as [Heo _]. apply Forall_app in Hp' as [Hpo _].
  assert (Hq : 0 <= r_qty t <= MaxInt64) by (unfold order_pos in Htq; lia).
  pose proof (sweep_swept t (r_qty t) (side_of oppBuy b) ltac:(lia) (order_pos_positive _ Hpo)) as Hsw.
  destruct (sweep t (r_qty t) (side_of oppBuy b)) as [[fs opp] q]. cbn [fst snd] in Hsw.
  destruct (swept_parts order_enc _ _ _ _ _ _ Hsw Hq Heo Hpo) as (Hfs & Hpos & Hle & Hq').
  pose proof (swept_conserves _ _ _ _ _ _ Hsw) as [_ Hc].
  assert (Hbase : Forall (encodable ts)
    (AcceptedEvent (r_id t) (r_clientOrderId t) (r_owner t) (r_side t) (r_price t) (r_qty t) ::
     concat (fill_events t <$> fs) ++ (update_event (if oppBuy then Buy else Sell) opp <$> touched fs))).
  { constructor; [by apply accepted_encodable|]. apply Forall_app. split; [by apply fills_encodable|].
    apply touched_encodable; try done; [unfold enc_side; destruct oppBuy; auto|lia|].
    eapply Forall_impl; [exact Hfs|]. simpl. tauto. }
  destruct (Z.ltb_spec 0 q); [|done]. cbn [fst]. rewrite app_comm_cons, app_assoc.
  apply Forall_app. split; [done|]. constructor; [|constructor].
  set (b1 := set_side oppBuy opp _).
  assert (Hb1 : Forall order_pos (side_of (is_buy (r_side t)) b1) /\
                0 <= sum_qty (side_of (is_buy (r_side t)) b1) /\
                sum_qty (side_of (is_buy (r_side t)) b1) + r_qty t <= MaxInt64).
  { destruct (sum_qty_side (is_buy (r_side t)) b (r_qty t) Hp Hsum) as [? ?].
    rewrite (all_orders_perm (is_buy (r_side t))) in Hp. apply Forall_app in Hp as [Hp2 _].
    pose proof (sum_qty_nonneg _ Hpos). unfold b1. rewrite side_of_set.
    destruct (Bool.eqb _ _); [split_and!; try done; lia|].
    by destruct (is_buy (r_side t)). }
  destruct Hb1 as (Hb1 & Hb2 & Hb3). destruct Ht as (T1 & T2 & T3 & T4).
  apply update_encodable; try done.
  - rewrite insert_order_perm. constructor; [done|]. by apply order_pos_positive.
  - rewrite insert_order_perm, sum_qty_cons. simpl. lia.
Qed.

(** An accepted order with an unknown side cannot be reported. *)
Lemma report_refused {Sess X} `{Cluster Sess X} fuel (s : MatchingService Sess) (w : X) ts
    oid cid owner sd p q evs :
  ~ enc_side sd -> marsh_ok (ms_marshaller s) ->
  route fuel (AcceptedEvent oid cid owner sd p q :: evs) ts (s, w) = Panic (Raised "mustEncode").
Proof.
  intros Hsd Hm. set (ev := AcceptedEvent oid cid owner sd p q).
  destruct (ExecutionReport_RangeCheck (report_of ev ts) 1 1) as [err|] eqn:Hrc.
  2: { exfalso. unfold ExecutionReport_RangeCheck in Hrc. apply first_error_none in Hrc.
       rewrite !Forall_cons in Hrc. destruct Hrc as (_ & _ & _ & _ & Hs & _).
       by apply Hsd, side_check_none. }
  change (RangeCheck (report_of ev ts) (SbeSchemaVersion ExecutionReport)
    (SbeSchemaVersion ExecutionReport) = Some err) in Hrc.
  destruct (encodeFrame_refused (report_of ev ts) (ms_marshaller s) err Hm Hrc) as (m' & He).
  cbn [route]. unfold route_event. cbn [ev ev_Type AcceptedEvent].
  unfold mbind, go_bind, with_marshaller, encodeExecutionReport. cbn [fst snd].
  setoid_rewrite He. done.
Qed.

(** A depth that is the null value of the schema cannot be published. *)
Lemma update_refused {Sess X} `{Cluster Sess X} fuel (s : MatchingService Sess) (w : X) ts sd p evs :
  marsh_ok (ms_marshaller s) ->
  route fuel (BookUpdateEvent sd p MinInt64 :: evs) ts (s, w) = Panic (Raised "mustEncode").
Proof.
  intros Hm. set (ev := BookUpdateEvent sd p MinInt64).
  destruct (BookUpdate_RangeCheck (update_of ev ts) 1 1) as [err|] eqn:Hrc.
  2: { exfalso. unfold BookUpdate_RangeCheck in Hrc. apply first_error_none in Hrc.
       rewrite !Forall_cons in Hrc. by destruct Hrc as (_ & _ & Hq & _). }
  change (RangeCheck (update_of ev ts) (SbeSchemaVersion BookUpdate)
    (SbeSchemaVersion BookUpdate) = Some err) in Hrc.
  destruct (encodeFrame_refused (update_of ev ts) (ms_marshaller s) err Hm Hrc) as (m' & He).
  cbn [route]. unfold route_event. cbn [ev ev_Type BookUpdateEvent].
  unfold mbind, go_bind, with_marshaller, encodeBookUpdate. cbn [fst snd].
  setoid_rewrite He. done.
Qed.

Lemma rejected_encodable ts oid cid owner reason :
  enc_int ts -> enc_int oid -> enc_int cid -> 0 <= reason <= 4 ->
  encodable ts (RejectedEvent oid cid owner reason).
Proof.
  intros Hts H1 H2 H3.
  change (ExecutionReport_RangeCheck (mkExecutionReport oid cid 1 reason 0 0 0 0 ts) 1 1 = None).
  apply report_enc; try assumption; try lia; try (by left); by apply enc_int_nonneg.
Qed.

(** The events of an order, and of a cancel. *)
Lemma place_encodable ts b cmd :
  enc_int ts -> Forall order_enc (all_orders b) -> Forall order_pos (all_orders b) ->
  order_enc (incoming b cmd) -> c_Qty cmd <= MaxInt64 ->
  (0 < c_Qty cmd -> sum_qty (all_orders b) + c_Qty cmd <= MaxInt64) ->
  Forall (encodable ts) (fst (place cmd b)).
Proof.
  intros Hts He Hp Hi Hq Hsum. unfold place.
  assert (Hrej : forall reason, 0 <= reason <= 4 ->
    Forall (encodable ts) [RejectedEvent 0 (c_ClientOrderId cmd) (c_Owner cmd) reason]).
  { intros reason Hr. constructor; [|constructor].
    apply rejected_encodable; [done|by apply enc_int_nonneg|apply Hi|done]. }
  destruct (Z.leb_spec (c_Qty cmd) 0); [by apply Hrej|].
  destruct (Z.leb_spec (c_Price cmd) 0); [by apply Hrej|].
  apply execute_encodable; try done. by apply Hsum.
Qed.

Lemma cancel_encodable ts b id owner :
  enc_int ts -> enc_int id -> Forall order_enc (all_orders b) -> Forall order_pos (all_orders b) ->
  sum_qty (all_orders b) <= MaxInt64 -> Forall (encodable ts) (fst (cancel id owner b)).
Proof.
  intros Hts Hid He Hp Hsum. unfold cancel.
  assert (Hrej : forall reason, 0 <= reason <= 4 ->
    Forall (encodable ts) [RejectedEvent id 0 owner reason]).
  { intros reason Hr. constructor; [|constructor].
    apply rejected_encodable; [done|done|by apply enc_int_nonneg|done]. }
  destruct (find_order id (all_orders b)) as [r|] eqn:Hf; [|by apply Hrej].
  destruct (r_owner r =? owner); [|by apply Hrej]. cbn [fst].
  destruct (find_order_side _ _ _ Hf) as (_ & buy' & x & y & Hside).
  assert (Hr : r ∈ all_orders b).
  { rewrite (all_orders_perm buy'), Hside. set_solver. }
  rewrite Forall_forall in He. destruct (He r Hr) as (R1 & R2 & R3 & R4).
  assert (Hrq : order_pos r) by by eapply Forall_forall in Hr; [exact Hr|exact Hp].
  constructor; [|constructor; [|constructor]].
  - change (ExecutionReport_RangeCheck (mkExecutionReport (r_id r) (r_clientOrderId r) 4 0 (r_side r)
      (r_price r) 0 (r_qty r) ts) 1 1 = None).
    unfold order_pos in Hrq. apply report_enc; try assumption; try lia; apply enc_int_nonneg; lia.
  - set (b' := mkBook _ _ _). destruct (sum_qty_side (is_buy (r_side r)) b 0 Hp ltac:(lia)) as [_ Hs].
    pose proof Hp as Hp'. rewrite (all_orders_perm (is_buy (r_side r))) in Hp'.
    apply Forall_app in Hp' as [Hps _].
    assert (Hb' : side_of (is_buy (r_side r)) b' = remove_order id (side_of (is_buy (r_side r)) b))
      by (unfold b'; by destruct (is_buy (r_side r))).
    rewrite Hb'. apply update_encodable; try done.
    + apply order_pos_positive. by apply list_filter_Forall.
    + pose proof (sum_qty_filter id _ Hps). lia.
Qed.

(** ** The quantity a book holds *)

Lemma sum_qty_sides buy b :
  sum_qty (all_orders b) = sum_qty (side_of buy b) + sum_qty (side_of (negb buy) b).
Proof. by rewrite (all_orders_perm buy), sum_qty_app. Qed.

Lemma sum_qty_set buy l b :
  sum_qty (all_orders (set_side buy l b)) = sum_qty l + sum_qty (side_of (negb buy) b).
Proof. rewrite (sum_qty_sides buy). by destruct buy. Qed.

Lemma execute_sum b t :
  Forall order_pos (all_orders b) -> 0 <= r_qty t ->
  sum_qty (all_orders (snd (execute b t))) <= sum_qty (all_orders b) + r_qty t.
Proof.
  intros Hp Hq. unfold execute. set (ob := r_side t =? Sell).
  assert (Hopp : Forall (fun r => 0 < r_qty r) (side_of ob b)).
  { rewrite (all_orders_perm ob) in Hp. apply Forall_app in Hp as [Hp _]. by apply order_pos_positive. }
  pose proof (sweep_swept t (r_qty t) (side_of ob b) Hq Hopp) as Hsw.
  destruct (sweep _ _ _) as [[fs opp] q]. cbn [fst snd] in Hsw.
  destruct (swept_conserves _ _ _ _ _ _ Hsw) as [Hc1 Hc2].
  assert (Hf : 0 <= fill_sum fs).
  { destruct (swept_left _ _ _ _ _ _ Hsw Hq) as [? _]. lia. }
  set (b1 := set_side ob opp _).
  assert (Hb1 : sum_qty (all_orders b1) = sum_qty (all_orders b) - fill_sum fs).
  { unfold b1. rewrite sum_qty_set, (sum_qty_sides ob b), Hc2. destruct ob; simpl; lia. }
  destruct (Z.ltb_spec 0 q); cbn [snd]; [|lia].
  rewrite sum_qty_set, insert_order_perm, sum_qty_cons. cbn [r_qty set_r_qty].
  rewrite (sum_qty_sides (is_buy (r_side t)) b1) in Hb1. lia.
Qed.

Lemma place_sum b cmd :
  Forall order_pos (all_orders b) ->
  sum_qty (all_orders (snd (place cmd b))) <= sum_qty (all_orders b) + Z.max 0 (c_Qty cmd).
Proof.
  intros Hp. unfold place. destruct (Z.leb_spec (c_Qty cmd) 0); [simpl; lia|].
  destruct (c_Price cmd <=? 0); [simpl; lia|].
  pose proof (execute_sum b (incoming b cmd) Hp). simpl in *. lia.
Qed.

Lemma cancel_sum b id owner :
  Forall order_pos (all_orders b) ->
  sum_qty (all_orders (snd (cancel id owner b))) <= sum_qty (all_orders b).
Proof.
  intros Hp. unfold cancel. destruct (find_order _ _) as [r|]; [|done].
  destruct (r_owner r =? owner); [|done]. unfold all_orders in *. simpl. apply Forall_app in Hp as [H1 H2].
  rewrite !sum_qty_app. pose proof (sum_qty_filter id _ H1). pose proof (sum_qty_filter id _ H2). lia.
Qed.
