(* ===== verification/ServiceRefine.v ===== *)
(** * The service refines the abstract engine

    The state invariant of the service, the effect of one message, and the
    log of a cluster: an abstract service over the abstract book, which the
    service implements entry by entry. *)
From S2P Require Import Prelude Events OrderBook BookSpec BookRep BookOps BookRefine BookProps Engine.
From S2P Require Import Marshal Codecs CodecLaws CodecTheorems Service ServiceLaws.

(** ** The state of a service *)

(** The service's sessions agree, its marshaller is usable and its book is
    that of [b], whose orders can all be reported. *)
Record service_ok {Sess X} `{Cluster Sess X} (s : MatchingService Sess) (b : Book) : Prop := mkServiceOk {
  sv_sessions : sessions_ok (X := X) s;
  sv_marsh : marsh_ok (ms_marshaller s);
  sv_rep : rep (ms_book s) b;
  sv_ids : ids_ok b;
  sv_enc : Forall order_enc (all_orders b)
}.
Arguments service_ok {Sess} X {_} s b.

(** The command an order of a session becomes. *)
Definition order_cmd (owner : Z) (x : NewOrder) : NewOrderCmd :=
  mkNewOrderCmd (no_ClientOrderId x) owner (no_Side x) (no_Price x) (no_Qty x).

Lemma incoming_enc b owner x :
  ids_ok b -> NewOrder_typed x -> NewOrder_RangeCheck x 1 1 = None ->
  order_enc (incoming b (order_cmd owner x)).
Proof.
  intros [Hn _] (H1 & H2 & H3 & H4) Hrc. unfold NewOrder_RangeCheck in Hrc.
  apply first_error_none in Hrc. rewrite !Forall_cons in Hrc.
  destruct Hrc as (Hc & Hs & Hp & Hq & _). unfold NewOrder_ClientOrderId, NewOrder_Price in *.
  rewrite check_int64_none in Hc, Hp by done. rewrite side_check_none in Hs.
  split_and!; try done; simpl; apply enc_int_nonneg; lia.
Qed.

Section Service.
Context {Sess X B : Type} `{LawfulCluster Sess X} `{LawfulBuffer B}.
Context (fuel : nat) (R : relation (list (Z * list Z))) `{!Transport Sess X fuel R}.

Lemma service_ok_step s b e' b' m :
  service_ok X s b -> marsh_ok m -> rep e' b' -> ids_ok b' -> Forall order_enc (all_orders b') ->
  service_ok X (set_marshaller m (set_book e' s)) b'.
Proof. intros [[] ? ? ? ?] ? ? ? ?. constructor; [by constructor|done..]. Qed.

(** Ingress of an order: a [NewOrder] frame in the buffer of a session makes
    the service return with the book of the abstract engine after this order,
    owned by the session, and with exactly the engine's events delivered. *)
Lemma new_order_ingress s b w sess ts buffer offset x :
  service_ok X s b -> NewOrder_typed x -> NewOrder_RangeCheck x 1 1 = None -> enc_int ts ->
  s_next b < MaxInt64 -> (0 < no_Qty x -> sum_qty (all_orders b) + no_Qty x <= MaxInt64) ->
  holds buffer offset (frame_of x) ->
  let cmd := order_cmd (session_Id sess) x in
  exists s' w',
    OnSessionMessage fuel sess ts buffer offset (Z.of_nat (length (frame_of x))) (s, w) =
      Ok (tt, (s', w')) /\
    service_ok X s' (snd (place cmd b)) /\ ms_sessionIds s' = ms_sessionIds s /\
    moved R w w' (fst (place cmd b) ≫= deliveries (ms_sessionIds s) ts) /\
    Forall (encodable ts) (fst (place cmd b)).
Proof.
  intros Hs Ht Hrc Hts Hn Hsum Hh cmd. pose proof Hs as [Hsess Hm Hrep Hids Henc].
  pose proof (incoming_enc b (session_Id sess) x Hids Ht Hrc) as Hinc.
  assert (Hq : c_Qty cmd <= MaxInt64).
  { destruct Ht as (_ & _ & _ & Hq). unfold is_sint, MaxInt64, cmd in *. simpl in *. lia. }
  destruct (wp_elim _ _ _ (NewLimitOrder_rep _ b cmd Hrep Hq (ids_ok_fresh _ Hids)))
    as (evs & e' & Hrun & -> & Hrep').
  destruct (exec_ids_ok (Submit cmd) b Hids Hn) as [Hids' _]. simpl in Hids'.
  assert (He : Forall (encodable ts) (fst (place cmd b))).
  { apply place_encodable; try done. by apply (rep_pos _ _ Hrep). }
  assert (Htx : typed x) by exact Ht.
  destruct (decode_msg_wire x (mkNewOrder 0 0 0 0) [] 1 25 s w Htx ltac:(constructor) ltac:(lia) Hm)
    as (m1 & Hm1 & Hdec). rewrite app_nil_r in Hdec. change (RangeCheck x 1 (SbeSchemaVersion NewOrder))
    with (NewOrder_RangeCheck x 1 1) in Hdec. rewrite Hrc in Hdec.
  destruct (engine_step_sends fuel R (NewLimitOrder cmd) s m1 w ts _ e' ltac:(done) Hm1 Hsess Hrun He)
    as (m' & w' & Hm' & Hstep & Hw').
  exists (set_marshaller m' (set_book e' s)), w'. split_and!; try done.
  - unfold frame_of in *. rewrite length_app, Nat2Z.inj_add.
    change (Z.of_nat (length (header_wire (frame_header NewOrder)))) with 8.
    etrans; [eapply (ingress_unfold fuel sess ts buffer offset 25 1 1 (wire x)); [by repeat split|done]|].
    etrans; [exact (go_bind_ok _ _ _ _ _ Hdec)|exact Hstep].
  - apply (service_ok_step s b); try done. unfold place. destruct (c_Qty cmd <=? 0); [done|].
    destruct (c_Price cmd <=? 0); [done|]. by apply execute_Forall.
Qed.

(** Ingress of a cancel: a [CancelOrder] frame makes the service return with
    the book after the abstract cancel by this session, and with exactly its
    events delivered. *)
Lemma cancel_order_ingress s b w sess ts buffer offset x :
  service_ok X s b -> is_int64 (co_OrderId x) -> co_OrderId x <> MinInt64 -> enc_int ts ->
  sum_qty (all_orders b) <= MaxInt64 -> holds buffer offset (frame_of x) ->
  let cs := cancel (co_OrderId x) (session_Id sess) b in
  exists s' w',
    OnSessionMessage fuel sess ts buffer offset (Z.of_nat (length (frame_of x))) (s, w) =
      Ok (tt, (s', w')) /\
    service_ok X s' (snd cs) /\ ms_sessionIds s' = ms_sessionIds s /\
    moved R w w' (fst cs ≫= deliveries (ms_sessionIds s) ts) /\
    Forall (encodable ts) (fst cs).
Proof.
  intros Hs Ht Hmin Hts Hsum Hh cs. pose proof Hs as [Hsess Hm Hrep Hids Henc].
  destruct (wp_elim _ _ _ (Cancel_rep _ b (co_OrderId x) (session_Id sess) Hrep))
    as (evs & e' & Hrun & -> & Hrep').
  assert (Hrc : CancelOrder_RangeCheck x 1 1 = None).
  { unfold CancelOrder_RangeCheck. apply first_error_none. constructor; [|constructor].
    by apply check_int64_none. }
  assert (He : Forall (encodable ts) (fst cs)).
  { apply cancel_encodable; try done. by apply (rep_pos _ _ Hrep). }
  assert (Htx : typed x) by exact Ht.
  destruct (decode_msg_wire x (mkCancelOrder 0) [] 1 8 s w Htx ltac:(constructor) ltac:(lia) Hm)
    as (m1 & Hm1 & Hdec). rewrite app_nil_r in Hdec. change (RangeCheck x 1 (SbeSchemaVersion CancelOrder))
    with (CancelOrder_RangeCheck x 1 1) in Hdec. rewrite Hrc in Hdec.
  destruct (engine_step_sends fuel R (Cancel (co_OrderId x) (session_Id sess)) s m1 w ts _ e'
    ltac:(done) Hm1 Hsess Hrun He) as (m' & w' & Hm' & Hstep & Hw').
  exists (set_marshaller m' (set_book e' s)), w'. split_and!; try done.
  - unfold frame_of in *. rewrite length_app, Nat2Z.inj_add.
    change (Z.of_nat (length (header_wire (frame_header CancelOrder)))) with 8.
    etrans; [eapply (ingress_unfold fuel sess ts buffer offset 8 2 1 (wire x)); [by repeat split|done]|].
    etrans; [exact (go_bind_ok _ _ _ _ _ Hdec)|exact Hstep].
  - apply (service_ok_step s b); try done; [|by apply cancel_Forall].
    unfold cs, cancel. destruct (find_order _ _) as [r|]; [|done].
    destruct (r_owner r =? session_Id sess); [|done].
    by apply (ids_ok_remove b (co_OrderId x)).
Qed.

(** ** Sessions *)

Lemma remove_id_filter id l : NoDup l -> remove_id id l = filter (fun i => i <> id) l.
Proof.
  induction 1 as [|x l Hx _ IH]; [done|]. simpl. rewrite filter_cons.
  destruct (Z.eqb_spec x id) as [->|Hne]; case_decide; try done.
  - rewrite list_filter_all; [done|]. apply Forall_forall. by intros y Hy ->.
  - by rewrite IH.
Qed.

Lemma open_sessions_ok s sess :
  sessions_ok (X := X) s -> session_Id sess ∉ ms_sessionIds s ->
  sessions_ok (X := X) (set_sessions (<[session_Id sess := sess]> (ms_sessions s))
                 (ms_sessionIds s ++ [session_Id sess]) s).
Proof.
  intros [Hnd Hmap Hdom] Hn. constructor; simpl.
  - apply NoDup_app. split_and!; [done| |apply NoDup_singleton].
    intros i Hi ->%list_elem_of_singleton. done.
  - intros id x Hid. destruct (decide (id = session_Id sess)) as [->|Hne].
    + rewrite lookup_insert_eq in Hid. by simplify_eq.
    + rewrite lookup_insert_ne in Hid by done. by apply Hmap.
  - intros id. rewrite elem_of_app, list_elem_of_singleton, Hdom, lookup_insert_is_Some.
    destruct (decide (id = session_Id sess)) as [->|Hne]; naive_solver.
Qed.

Lemma close_sessions_ok s id0 :
  sessions_ok (X := X) s ->
  sessions_ok (X := X) (set_sessions (delete id0 (ms_sessions s))
                 (filter (fun id => id <> id0) (ms_sessionIds s)) s).
Proof.
  intros [Hnd Hmap Hdom]. constructor; simpl.
  - by apply NoDup_filter.
  - intros id x Hid. apply lookup_delete_Some in Hid as [_ Hid]. by apply Hmap.
  - intros id. rewrite list_elem_of_filter, lookup_delete_is_Some, Hdom.
    split; intros [? ?]; split; try done; by intros ->.
Qed.

(** ** The replicated log

    The abstract service keeps the open sessions, in the order of opening,
    and the abstract book; its output says which session hears of which event
    at which time. *)

Inductive client_msg : Type :=
  | NewOrderMsg (x : NewOrder)
  | CancelOrderMsg (x : CancelOrder).

Definition msg_frame (m : client_msg) : list Z :=
  match m with NewOrderMsg x => frame_of x | CancelOrderMsg x => frame_of x end.
Definition msg_ok (m : client_msg) : Prop :=
  match m with
  | NewOrderMsg x => NewOrder_typed x /\ NewOrder_RangeCheck x 1 1 = None
  | CancelOrderMsg x => is_int64 (co_OrderId x) /\ co_OrderId x <> MinInt64
  end.
Definition msg_cmd (owner : Z) (m : client_msg) : command :=
  match m with
  | NewOrderMsg x => Submit (order_cmd owner x)
  | CancelOrderMsg x => Withdraw (co_OrderId x) owner
  end.
(** The quantity a message can add to the book. *)
Definition msg_qty (m : client_msg) : Z :=
  match m with NewOrderMsg x => Z.max 0 (no_Qty x) | CancelOrderMsg _ => 0 end.

(** What the cluster hands to the service, in the order of the log. *)
Inductive log_entry : Type :=
  | SessionOpened (sess : Sess) (ts : Z)
  | SessionClosed (sess : Sess) (ts : Z)
  | SessionMessage (sess : Sess) (ts : Z) (buffer : B) (offset : Z) (m : client_msg).

Definition handle (e : log_entry) : go (MatchingService Sess * X) unit :=
  match e with
  | SessionOpened sess ts => OnSessionOpen sess ts
  | SessionClosed sess ts => OnSessionClose sess ts
  | SessionMessage sess ts buffer offset m =>
      OnSessionMessage fuel sess ts buffer offset (Z.of_nat (length (msg_frame m)))
  end.
Fixpoint handle_log (log : list log_entry) : go (MatchingService Sess * X) unit :=
  match log with
  | [] => mret tt
  | e :: log' => handle e;; handle_log log'
  end.

(** An event of time [ts] that a session hears of. *)
Definition heard : Type := Z * (Z * Event).
Definition hearing (ids : list Z) (ts : Z) (ev : Event) : list heard :=
  (fun id => (id, (ts, ev))) <$> recipients ids ev.
Definition to_wire (h : heard) : Z * list Z := (fst h, event_frame (snd (snd h)) (fst (snd h))).

(** The sessions, the output and the book after an entry. *)
Definition open_ids (e : log_entry) (ids : list Z) : list Z :=
  match e with
  | SessionOpened sess _ => ids ++ [session_Id sess]
  | SessionClosed sess _ => filter (fun id => id <> session_Id sess) ids
  | SessionMessage _ _ _ _ _ => ids
  end.
Definition log_step (e : log_entry) (ids : list Z) (b : Book) : list heard * Book :=
  match e with
  | SessionMessage sess ts _ _ m =>
      let '(evs, b') := exec_spec (msg_cmd (session_Id sess) m) b in (evs ≫= hearing ids ts, b')
  | _ => ([], b)
  end.
Fixpoint log_spec (log : list log_entry) (ids : list Z) (b : Book) : list heard * Book :=
  match log with
  | [] => ([], b)
  | e :: log' =>
      let '(out, b1) := log_step e ids b in
      let '(rest, b2) := log_spec log' (open_ids e ids) b1 in (out ++ rest, b2)
  end.
Fixpoint log_ids (log : list log_entry) (ids : list Z) : list Z :=
  match log with [] => ids | e :: log' => log_ids log' (open_ids e ids) end.

(** No session is opened while it is open, and every message is a frame of
    well-typed fields in its buffer. *)
Definition entry_ok (ids : list Z) (e : log_entry) : Prop :=
  match e with
  | SessionOpened sess _ => session_Id sess ∉ ids
  | SessionClosed _ _ => True
  | SessionMessage _ ts buffer offset m =>
      msg_ok m /\ enc_int ts /\ holds buffer offset (msg_frame m)
  end.
Fixpoint log_ok (log : list log_entry) (ids : list Z) : Prop :=
  match log with
  | [] => True
  | e :: log' => entry_ok ids e /\ log_ok log' (open_ids e ids)
  end.
Definition entry_qty (e : log_entry) : Z :=
  match e with SessionMessage _ _ _ _ m => msg_qty m | _ => 0 end.
Fixpoint log_qty (log : list log_entry) : Z :=
  match log with [] => 0 | e :: log' => entry_qty e + log_qty log' end.


Lemma deliveries_wire ids ts evs :
  (evs ≫= deliveries ids ts) = to_wire <$> (evs ≫= hearing ids ts).
Proof.
  induction evs as [|ev evs IH]; [done|]. rewrite !bind_cons, fmap_app, IH. f_equal.
  unfold deliveries, hearing. by rewrite <- list_fmap_compose.
Qed.

Lemma hearing_encodable ids ts evs :
  Forall (encodable ts) evs -> Forall (fun h => encodable (fst (snd h)) (snd (snd h))) (evs ≫= hearing ids ts).
Proof.
  induction 1 as [|ev evs Hev _ IH]; [constructor|]. rewrite bind_cons. apply Forall_app. split; [|done].
  apply Forall_fmap, Forall_true. done.
Qed.

(** One entry of the log. *)
Lemma handle_step e s b w :
  service_ok X s b -> entry_ok (ms_sessionIds s) e -> s_next b < MaxInt64 ->
  sum_qty (all_orders b) + entry_qty e <= MaxInt64 ->
  let out := fst (log_step e (ms_sessionIds s) b) in
  exists s' w', handle e (s, w) = Ok (tt, (s', w')) /\
    service_ok X s' (snd (log_step e (ms_sessionIds s) b)) /\
    ms_sessionIds s' = open_ids e (ms_sessionIds s) /\
    moved R w w' (to_wire <$> out) /\
    Forall (fun h => encodable (fst (snd h)) (snd (snd h))) out.
Proof.
  intros Hs He Hn Hq. pose proof Hs as [Hsess Hm Hrep Hids Henc].
  destruct e as [sess ts|sess ts|sess ts buffer offset [x|x]]; simpl in *.
  - eexists _, _. split; [done|]. cbn [fst snd]. split_and!; try done; try by apply moved_nil with fuel.
    constructor; try done. by apply open_sessions_ok.
  - eexists _, _. split; [done|]. cbn [fst snd]. rewrite remove_id_filter by apply Hsess.
    split_and!; try done; try by apply moved_nil with fuel. constructor; try done. by apply close_sessions_ok.
  - destruct He as ((Ht & Hrc) & Hts & Hh).
    destruct (new_order_ingress s b w sess ts buffer offset x) as (s' & w' & Hrun & Hok & Hi & Hw & Hev);
      try done; [lia|]. exists s', w'. destruct (place _ b) as [evs b'].
    cbn [fst snd] in *. rewrite <- deliveries_wire. split_and!; try done. by apply hearing_encodable.
  - destruct He as ((Ht & Hrc) & Hts & Hh).
    destruct (cancel_order_ingress s b w sess ts buffer offset x) as (s' & w' & Hrun & Hok & Hi & Hw & Hev);
      try done; [lia|]. exists s', w'. destruct (cancel _ _ b) as [evs b'].
    cbn [fst snd] in *. rewrite <- deliveries_wire. split_and!; try done. by apply hearing_encodable.
Qed.

(** An entry uses one id at most and adds its quantity at most. *)
Lemma log_step_bounds e ids b :
  ids_ok b -> s_next b < MaxInt64 -> Forall order_pos (all_orders b) ->
  let b' := snd (log_step e ids b) in
  s_next b' <= s_next b + 1 /\ sum_qty (all_orders b') <= sum_qty (all_orders b) + entry_qty e.
Proof.
  intros Hids Hn Hp. destruct e as [sess ts|sess ts|sess ts buffer offset m]; simpl; try lia.
  destruct (exec_ids_ok (msg_cmd (session_Id sess) m) b Hids Hn) as (_ & _ & Hnext).
  assert (Hsum : sum_qty (all_orders (snd (exec_spec (msg_cmd (session_Id sess) m) b))) <=
                 sum_qty (all_orders b) + msg_qty m).
  { destruct m as [x|x]; simpl; [by apply (place_sum b (order_cmd (session_Id sess) x))|].
    pose proof (cancel_sum b (co_OrderId x) (session_Id sess) Hp). lia. }
  by destruct (exec_spec _ b) as [evs b'].
Qed.

Lemma entry_qty_nonneg e : 0 <= entry_qty e.
Proof. destruct e as [| |? ? ? ? []]; simpl; lia. Qed.

Lemma log_qty_nonneg log : 0 <= log_qty log.
Proof. induction log as [|e log IH]; simpl; [done|]. pose proof (entry_qty_nonneg e). lia. Qed.

(** The whole log. *)
Lemma log_run log : forall s b w,
  service_ok X s b -> log_ok log (ms_sessionIds s) ->
  s_next b + Z.of_nat (length log) <= MaxInt64 -> sum_qty (all_orders b) + log_qty log <= MaxInt64 ->
  let out := fst (log_spec log (ms_sessionIds s) b) in
  exists s' w', handle_log log (s, w) = Ok (tt, (s', w')) /\
    service_ok X s' (snd (log_spec log (ms_sessionIds s) b)) /\
    ms_sessionIds s' = log_ids log (ms_sessionIds s) /\
    moved R w w' (to_wire <$> out) /\
    Forall (fun h => encodable (fst (snd h)) (snd (snd h))) out /\
    s_next (snd (log_spec log (ms_sessionIds s) b)) <= s_next b + Z.of_nat (length log) /\
    sum_qty (all_orders (snd (log_spec log (ms_sessionIds s) b))) <= sum_qty (all_orders b) + log_qty log.
Proof.
  induction log as [|e log IH]; intros s b w Hs Hlog Hn Hq.
  { exists s, w. simpl. split_and!; try done; [by apply moved_nil with fuel|lia|lia]. }
  destruct Hlog as [He Hlog]. cbn [length log_qty] in *. pose proof (log_qty_nonneg log).
  pose proof Hs as [_ _ Hrep Hids _]. pose proof (rep_pos _ _ Hrep) as Hpos.
  destruct (handle_step e s b w Hs He) as (s1 & w1 & Hrun & Hs1 & Hi1 & Hw1 & He1); [lia|lia|].
  destruct (log_step_bounds e (ms_sessionIds s) b Hids ltac:(lia) Hpos) as [Hn1 Hq1].
  rewrite <- Hi1 in Hlog. cbn [log_spec log_ids handle_log].
  destruct (log_step e (ms_sessionIds s) b) as [out b1]. cbn [fst snd] in *.
  destruct (IH s1 b1 w1 Hs1 Hlog) as (s' & w' & Hrun' & Hs' & Hi' & Hw' & He' & Hn' & Hq');
    [lia|lia|].
  rewrite <- Hi1. destruct (log_spec log (ms_sessionIds s1) b1) as [rest b2]. cbn [fst snd] in *.
  exists s', w'. split_and!; try done; try lia.
  - etrans; [exact (go_bind_ok _ _ _ _ _ Hrun)|exact Hrun'].
  - rewrite fmap_app. by eapply moved_app.
  - by apply Forall_app.
Qed.
End Service.
