(* ===== verification/ServiceTheorems.v ===== *)
(** * The service: its theorems

    Over a log of version-1 frames in range whose ids and quantities stay
    within an [int64] ([log_ok] and the bounds of the theorems) the service
    refines the abstract one, on a transport that takes every frame and on one
    that loses some; malformed ingress does nothing; and the two ways in which
    ingress outside those bounds brings the service down. *)
From S2P Require Import Prelude Events OrderBook BookSpec BookRep BookOps BookRefine BookProps Engine.
From S2P Require Import Marshal Codecs CodecLaws CodecTheorems Snapshot SnapshotLaws SnapshotTheorems.
From S2P Require Import Service ServiceLaws ServiceRefine.

(** ** A cluster to run on *)

(** A transport that pushes back on every other offer and records what it
    takes, with a snapshot image that arrives one fragment per poll. *)
Record World : Type := mkWorld {
  w_delivered : list (Z * list Z);
  w_published : list (list Z);
  w_busy : bool;
  w_image : list (list Z)
}.

#[export] Instance World_Cluster : Cluster Z World := {
  session_Id s := s;
  session_Offer s f x :=
    if w_busy x then (-2, mkWorld (w_delivered x) (w_published x) false (w_image x))
    else (0, mkWorld (w_delivered x ++ [(s, f)]) (w_published x) true (w_image x));
  publication_Offer c x :=
    if w_busy x then (-2, mkWorld (w_delivered x) (w_published x) false (w_image x))
    else (0, mkWorld (w_delivered x) (w_published x ++ [c]) true (w_image x));
  image_Poll x := (take 1 (w_image x),
                   mkWorld (w_delivered x) (w_published x) (w_busy x) (drop 1 (w_image x)));
  image_Done x := match w_image x with [] => true | _ => false end;
  Idle x := x;
  BackPressured := -2;
  AdminAction := -3
}.

#[export] Instance World_Lawful : LawfulCluster Z World.
Proof.
  refine {| delivered := w_delivered; published := w_published |}.
  - intros s f [d p [] i]; simpl; by rewrite ?app_nil_r.
  - intros c [d p [] i]; simpl; by rewrite ?app_nil_r.
  - done.
Defined.

#[export] Instance World_Prompt : PromptCluster Z World 2.
Proof. split; [intros s f [d p [] i]|intros c [d p [] i]]; done. Qed.

(** A buffer that is a list of bytes. *)
Definition Bytes : Type := list Z.
#[export] Instance Bytes_Buffer : AtomicBuffer Bytes := {
  GetUInt16 b o := le_val (take 2 (drop (Z.to_nat o) (uint8 <$> b)));
  GetBytes b o n := take (Z.to_nat n) (drop (Z.to_nat o) (uint8 <$> b))
}.
#[export] Instance Bytes_Lawful : LawfulBuffer Bytes.
Proof.
  refine {| content := fmap (M := list) uint8 |}; [|done|done].
  intros b. apply Forall_fmap, Forall_true. intros x. by apply uint_range.
Defined.

Lemma bytes_content frame : Forall is_byte frame -> content (frame : Bytes) = frame.
Proof.
  induction 1 as [|x l Hx _ IH]; [done|]. change (uint8 x :: content (l : Bytes) = x :: l).
  by rewrite IH, uint_id.
Qed.

(** ** The log *)

Section Lossy.
Context {Sess X B : Type} `{LawfulCluster Sess X} `{LawfulBuffer B}.
Context (fuel : nat) `{!SettlingCluster Sess X fuel}.

(** C10: The state does not depend on the transport.  Take a log in which no
    session is opened while it is open and every message is a version-1 frame
    with typed fields in range and an encodable timestamp; let the ids and the
    quantity resting plus submitted stay within an [int64]; and let every
    offer end within [fuel] tries, although it may end with a failure for good
    (the session is not connected, the publication is closed).  Then the log
    is handled to the end with the same book and the same sessions as on a
    transport that takes everything, and what was sent is the abstract output
    with frames left out: none is sent twice, out of order, or to another
    session. *)
Theorem lossy_transport log (s : MatchingService Sess) b (w : X) :
  service_ok X s b -> log_ok log (ms_sessionIds s) ->
  s_next b + Z.of_nat (length log) <= MaxInt64 -> sum_qty (all_orders b) + log_qty log <= MaxInt64 ->
  exists s' w' sent, handle_log (B := B) fuel log (s, w) = Ok (tt, (s', w')) /\
    service_ok X s' (snd (log_spec log (ms_sessionIds s) b)) /\
    ms_sessionIds s' = log_ids log (ms_sessionIds s) /\
    delivered w' = delivered w ++ sent /\
    sent `sublist_of` (to_wire <$> fst (log_spec log (ms_sessionIds s) b)).
Proof.
  intros Hs Hlog Hn Hq. pose proof (settling_transport fuel _).
  destruct (log_run fuel sublist log s b w Hs Hlog Hn Hq) as (s' & w' & ? & ? & ? & (sent & ? & ?) & _).
  by exists s', w', sent.
Qed.
End Lossy.

Section Service.
Context {Sess X B : Type} `{LawfulCluster Sess X} `{LawfulBuffer B}.
Context (fuel : nat) `{!PromptCluster Sess X fuel}.

(** C9: The service refines the abstract one.  Take a log in which no session
    is opened while it is open and every message is a version-1 frame with
    typed fields in range and an encodable timestamp; let the ids and the
    quantity resting plus submitted stay within an [int64]; and let the
    cluster take every offer within [fuel] tries.  Then the service handles
    the log without a panic and ends with the book of the abstract engine
    after the same commands, each owned by the session it came from, and with
    the abstract list of open sessions; and the transport has taken exactly
    the frames of the abstract output, in order: trades and depth for every
    session open at the time, in the order of opening, reports for the session
    of the owner.  Frames of later versions and larger quantities can make
    the service panic, as the theorems on ingress below show. *)
Theorem service_refines log (s : MatchingService Sess) b (w : X) :
  service_ok X s b -> log_ok log (ms_sessionIds s) ->
  s_next b + Z.of_nat (length log) <= MaxInt64 -> sum_qty (all_orders b) + log_qty log <= MaxInt64 ->
  exists s' w', handle_log (B := B) fuel log (s, w) = Ok (tt, (s', w')) /\
    service_ok X s' (snd (log_spec log (ms_sessionIds s) b)) /\
    ms_sessionIds s' = log_ids log (ms_sessionIds s) /\
    delivered w' = delivered w ++ (to_wire <$> fst (log_spec log (ms_sessionIds s) b)).
Proof.
  intros Hs Hlog Hn Hq. pose proof (prompt_transport fuel _).
  destruct (log_run fuel eq log s b w Hs Hlog Hn Hq) as (s' & w' & ? & ? & ? & (sent & ? & ->) & _).
  by exists s', w'.
Qed.

(** ** Ingress *)

(** C39: One frame brings the service down: an order with positive price and
    quantity whose side is no value of the enum is refused at the schema's
    own version, but not when its header names a later version; the engine
    then accepts it and reporting the acceptance panics. *)
Theorem unknown_side_panics s b w sess ts buffer offset x version :
  service_ok X s b -> NewOrder_typed x -> is_uint16 version -> 1 < version ->
  no_ClientOrderId x <> MinInt64 -> 0 < no_Price x -> 0 < no_Qty x -> ~ enc_side (no_Side x) ->
  holds buffer offset (header_wire (ingress_header 25 1 version) ++ wire x) ->
  OnSessionMessage fuel sess ts buffer offset 33 (s, w) = Panic (Raised "mustEncode").
Proof.
  intros Hs Ht Hv Hv1 Hcid Hp Hq Hside Hh. pose proof Hs as [Hsess Hm Hrep Hids Henc].
  set (cmd := order_cmd (session_Id sess) x).
  pose proof Ht as (T1 & T2 & T3 & T4).
  assert (Hrc : NewOrder_RangeCheck x version 1 = None).
  { unfold NewOrder_RangeCheck. apply first_error_none. assert (0 <= version) by lia.
    repeat (apply Forall_cons; split); [..|done].
    - by apply check_int64_none.
    - unfold SideEnum_RangeCheck, enum_check. by rewrite (proj2 (Z.ltb_lt _ _) Hv1).
    - apply check_int64_none; [done|done|]. unfold MinInt64. lia.
    - apply check_int64_none; [done|done|]. unfold MinInt64. lia. }
  assert (Hqm : c_Qty cmd <= MaxInt64) by (unfold is_sint, MaxInt64, cmd in *; simpl in *; lia).
  destruct (wp_elim _ _ _ (NewLimitOrder_rep _ b cmd Hrep Hqm (ids_ok_fresh _ Hids)))
    as (evs & e' & Hrun & -> & _).
  assert (Htx : typed x) by exact Ht.
  destruct (decode_msg_wire x (mkNewOrder 0 0 0 0) [] version 25 s w Htx ltac:(constructor) ltac:(lia) Hm)
    as (m1 & Hm1 & Hdec). rewrite app_nil_r in Hdec. change (RangeCheck x version (SbeSchemaVersion NewOrder))
    with (NewOrder_RangeCheck x version 1) in Hdec. rewrite Hrc in Hdec.
  assert (Hev : exists evs, fst (place cmd b) = AcceptedEvent (s_next b) (no_ClientOrderId x)
    (session_Id sess) (no_Side x) (no_Price x) (no_Qty x) :: evs).
  { unfold place. destruct (Z.leb_spec (c_Qty cmd) 0); [simpl in *; lia|].
    destruct (Z.leb_spec (c_Price cmd) 0); [simpl in *; lia|]. unfold execute.
    destruct (sweep _ _ _) as [[fs opp] q]. destruct (0 <? q); simpl; eauto. }
  destruct Hev as [evs Hev]. rewrite Hev in Hrun.
  change 33 with (8 + Z.of_nat (length (wire x))).
  etrans; [eapply (ingress_unfold fuel sess ts buffer offset 25 1 version (wire x)); [by split_and!|done]|].
  etrans; [exact (go_bind_ok _ _ _ _ _ Hdec)|].
  assert (Hbook : on_book (NewLimitOrder cmd) (set_marshaller m1 s, w) =
    Ok (AcceptedEvent (s_next b) (no_ClientOrderId x) (session_Id sess) (no_Side x) (no_Price x)
          (no_Qty x) :: evs, (set_book e' (set_marshaller m1 s), w))).
  { unfold on_book. cbn [fst snd ms_book set_marshaller]. by rewrite Hrun. }
  etrans; [exact (go_bind_ok _ _ _ _ _ Hbook)|]. by apply report_refused.
Qed.



(** ** Malformed ingress *)

(** C28: Malformed ingress does nothing: a frame of a foreign schema, of an
    unknown template, or with fewer bytes than the block of its template is
    dropped; the book, the sessions and the transport are untouched, and only
    the scratch of the marshaller may differ. *)
Theorem malformed_ingress_ignored (s : MatchingService Sess) (w : X) sess ts buffer offset bl tid sid version body :
  marsh_ok (ms_marshaller s) -> header_ok (mkMessageHeader bl tid sid version) ->
  Forall is_byte body -> holds buffer offset (header_wire (mkMessageHeader bl tid sid version) ++ body) ->
  sid <> schemaId \/ (tid <> newOrderTemplateId /\ tid <> cancelOrderTemplateId) \/
  (tid = newOrderTemplateId /\ Z.of_nat (length body) < NewOrder_SbeBlockLength) \/
  (tid = cancelOrderTemplateId /\ Z.of_nat (length body) < CancelOrder_SbeBlockLength) ->
  exists m', OnSessionMessage fuel sess ts buffer offset (8 + Z.of_nat (length body)) (s, w) =
               Ok (tt, (set_marshaller m' s, w)).
Proof.
  intros Hm Hok Hb Hh Hbad. assert (Hid : (s, w) = (set_marshaller (ms_marshaller s) s, w)) by by destruct s.
  destruct (decide (sid = schemaId)) as [->|Hsid].
  2: { exists (ms_marshaller s). rewrite <- Hid.
       destruct (holds_frame _ _ _ _ Hh Hok) as (_ & _ & Hs & _). simpl in Hs.
       unfold OnSessionMessage, sbeHeaderLength.
       destruct (Z.ltb_spec (8 + Z.of_nat (length body)) 8); [lia|]. cbn zeta. rewrite Hs.
       apply Z.eqb_neq in Hsid. by rewrite Hsid. }
  assert (Hver : 0 <= version) by (destruct Hok as (_ & _ & _ & [? _]); done).
  pose proof (ingress_unfold fuel sess ts buffer offset bl tid version body s w Hok Hh) as Hun.
  destruct (decide (tid = newOrderTemplateId)) as [->|H1].
  - assert (Hlen : (length body < Z.to_nat (SbeBlockLength NewOrder))%nat).
    { change (SbeBlockLength NewOrder) with NewOrder_SbeBlockLength.
      unfold newOrderTemplateId, cancelOrderTemplateId in Hbad. lia. }
    destruct (decode_msg_short (mkNewOrder 0 0 0 0) body version bl s w Hb Hver Hm Hlen)
      as (m' & err & _ & Hdec).
    exists m'. rewrite Hun. exact (go_bind_ok _ _ _ _ _ Hdec).
  - destruct (decide (tid = cancelOrderTemplateId)) as [->|H2].
    + assert (Hlen : (length body < Z.to_nat (SbeBlockLength CancelOrder))%nat).
      { change (SbeBlockLength CancelOrder) with CancelOrder_SbeBlockLength.
        unfold newOrderTemplateId, cancelOrderTemplateId in Hbad. lia. }
      destruct (decode_msg_short (mkCancelOrder 0) body version bl s w Hb Hver Hm Hlen)
        as (m' & err & _ & Hdec).
      exists m'. rewrite Hun. exact (go_bind_ok _ _ _ _ _ Hdec).
    + exists (ms_marshaller s). rewrite Hun, <- Hid.
      apply Z.eqb_neq in H1, H2. by rewrite H1, H2.
Qed.
End Service.

(** ** Concrete runs *)

(** Sessions 7 and 8 are open on a new service. *)
Definition sample : MatchingService Z :=
  mkMatchingService NewOrderBook {[ 7 := 7; 8 := 8 ]} [7; 8] NewSbeGoMarshaller.
Definition idle_world : World := mkWorld [] [] true [].

Lemma sample_sessions : sessions_ok (X := World) sample.
Proof.
  constructor; simpl.
  - apply (bool_decide_unpack _). by vm_compute.
  - intros id sess. rewrite lookup_insert_Some, lookup_singleton_Some. naive_solver.
  - intros id. rewrite lookup_insert_is_Some', lookup_singleton_is_Some. set_solver.
Qed.

Lemma sample_ok : service_ok World sample empty_book.
Proof.
  constructor; [apply sample_sessions|done|apply NewOrderBook_rep|apply empty_book_ids|constructor].
Qed.

(** Three bytes and a frame. *)
Lemma bytes_hold pre frame :
  Forall is_byte pre -> Forall is_byte frame -> Z.of_nat (length pre) + Z.of_nat (length frame) < 2 ^ 31 ->
  holds (B := Bytes) (pre ++ frame : Bytes) (Z.of_nat (length pre)) frame.
Proof.
  intros Hp Hf Hlen. split_and!; [lia|done|]. exists pre, []. rewrite Nat2Z.id, app_nil_r.
  split; [|done]. apply bytes_content. by apply Forall_app.
Qed.

Ltac bytes := vm_compute; repeat constructor; discriminate.

Definition padding : list Z := [170; 187; 204].
Definition buy_order : NewOrder := mkNewOrder 5 0 100 10.
Definition odd_order : NewOrder := mkNewOrder 5 9 100 10.
Definition first_cancel : CancelOrder := mkCancelOrder 1.

(** Session 9 joins and buys, session 7 tries to cancel that order and leaves. *)
Definition sample_log : list (log_entry (Sess := Z) (B := Bytes)) :=
  [SessionOpened 9 98;
   SessionMessage 9 99 (padding ++ frame_of buy_order) 3 (NewOrderMsg buy_order);
   SessionMessage 7 100 (padding ++ frame_of first_cancel) 3 (CancelOrderMsg first_cancel);
   SessionClosed 7 101].

Lemma sample_log_ok : log_ok (X := World) sample_log [7; 8].
Proof.
  - split; [simpl; set_solver|]. split; [|split; [|by split]].
    + split_and!; [by repeat split|by repeat split|by apply (bytes_hold padding); [bytes|bytes|]].
    + split_and!; [by repeat split|by repeat split|by apply (bytes_hold padding); [bytes|bytes|]].
Qed.

Lemma service_refines_witness :
  exists s' w', handle_log (B := Bytes) 2 sample_log (sample, idle_world) = Ok (tt, (s', w')) /\
    service_ok World s' (snd (log_spec sample_log [7; 8] empty_book)) /\
    ms_sessionIds s' = [8; 9] /\
    delivered w' = to_wire <$>
      [(9, (99, AcceptedEvent 1 5 9 Buy 100 10)); (7, (99, BookUpdateEvent Buy 100 10));
       (8, (99, BookUpdateEvent Buy 100 10)); (9, (99, BookUpdateEvent Buy 100 10));
       (7, (100, RejectedEvent 1 0 7 ReasonNotOwner))].
Proof.
  refine (service_refines (B := Bytes) 2 sample_log sample empty_book idle_world _ _ _ _).
  - apply sample_ok.
  - apply sample_log_ok.
  - done.
  - done.
Defined.

(** A cluster that has lost session 8. *)
Record LossyWorld : Type := mkLossyWorld { lw_delivered : list (Z * list Z) }.
#[export] Instance LossyWorld_Cluster : Cluster Z LossyWorld := {
  session_Id s := s;
  session_Offer s f x := if s =? 8 then (-1, x) else (0, mkLossyWorld (lw_delivered x ++ [(s, f)]));
  publication_Offer c x := (-1, x);
  image_Poll x := ([], x);
  image_Done x := true;
  Idle x := x;
  BackPressured := -2;
  AdminAction := -3
}.
#[export] Instance LossyWorld_Lawful : LawfulCluster Z LossyWorld.
Proof.
  refine {| delivered := lw_delivered; published _ := [] |}; [|done|done].
  intros s f x. simpl. destruct (s =? 8); simpl; by rewrite ?app_nil_r.
Defined.
#[export] Instance LossyWorld_Settling : SettlingCluster Z LossyWorld 1.
Proof. constructor. intros s f x. simpl. by destruct (s =? 8). Qed.

Lemma sample_ok_lossy : service_ok LossyWorld sample empty_book.
Proof. destruct sample_ok as [[] ? ? ? ?]. by constructor; [constructor|..]. Qed.

Lemma lossy_transport_witness :
  exists s' w' sent, handle_log (B := Bytes) 1 sample_log (sample, mkLossyWorld []) = Ok (tt, (s', w')) /\
    service_ok LossyWorld s' (snd (log_spec (X := LossyWorld) sample_log [7; 8] empty_book)) /\
    ms_sessionIds s' = [8; 9] /\ delivered w' = [] ++ sent /\
    sent `sublist_of` (to_wire <$> fst (log_spec (X := LossyWorld) sample_log [7; 8] empty_book)).
Proof.
  refine (lossy_transport (B := Bytes) 1 sample_log sample empty_book (mkLossyWorld []) _ _ _ _).
  - apply sample_ok_lossy.
  - exact sample_log_ok.
  - done.
  - done.
Defined.

Lemma unknown_side_panics_witness :
  OnSessionMessage (B := Bytes) 2 (7 : Z) 99
    (padding ++ header_wire (ingress_header 25 1 2) ++ wire odd_order) 3 33 (sample, idle_world) =
  Panic (Raised "mustEncode").
Proof.
  refine (unknown_side_panics (B := Bytes) 2 sample empty_book idle_world (7 : Z) 99
            (padding ++ header_wire (ingress_header 25 1 2) ++ wire odd_order) 3 odd_order 2
            _ _ _ _ _ _ _ _ _).
  - apply sample_ok.
  - by repeat split.
  - by repeat split.
  - done.
  - done.
  - done.
  - done.
  - by intros [?|[?|?]].
  - by apply (bytes_hold padding); [bytes|bytes|].
Defined.

(** A frame of schema 1 is dropped. *)
Lemma malformed_ingress_ignored_witness :
  exists m', OnSessionMessage (B := Bytes) 2 (7 : Z) 99
    (padding ++ header_wire (mkMessageHeader 25 1 1 1) ++ []) 3 8 (sample, idle_world) =
    Ok (tt, (set_marshaller m' sample, idle_world)).
Proof.
  refine (malformed_ingress_ignored (B := Bytes) 2 sample idle_world (7 : Z) 99
            (padding ++ header_wire (mkMessageHeader 25 1 1 1) ++ []) 3 25 1 1 1 [] _ _ _ _ _).
  - done.
  - by repeat split.
  - constructor.
  - by apply (bytes_hold padding); [bytes|bytes|].
  - by left.
Defined.


