(* ===== verification/ServiceRecovery.v ===== *)
(** * The service: snapshots and recovery

    A snapshot is taken in chunks, a new service is started on an image of
    it, and the log goes on: the recovered service has the book of one that
    never stopped, and it tells the sessions that open after the restart what
    that one would have told them.  Sessions are not part of a snapshot, so
    those that were open when it was taken are told nothing any more. *)
From S2P Require Import Prelude Events OrderBook BookSpec BookRep BookOps BookRefine BookProps Engine.
From S2P Require Import Marshal Codecs CodecLaws CodecTheorems Snapshot SnapshotLaws SnapshotTheorems.
From S2P Require Import Service ServiceLaws ServiceRefine ServiceTheorems.

(** ** What can be snapshotted *)

(** The sides of a represented book are in order. *)
Lemma flat_in_order buy gs : side_ok buy gs -> in_order buy (flat gs).
Proof.
  intros [Hs Hg]. unfold in_order, strictly_sorted in *.
  induction Hg as [|g gs Hgo Hgs IH]; [constructor|]. rewrite fmap_cons in Hs.
  apply StronglySorted_inv in Hs as [Hs Hp]. rewrite flat_cons. apply StronglySorted_app_2.
  - intros a c Ha Hc. pose proof (group_ok_prices _ _ Hgo) as Hpa. rewrite Forall_forall in Hpa.
    rewrite (Hpa a Ha). pose proof (flat_prices _ _ _ Hgs Hp) as Hpc. rewrite Forall_forall in Hpc.
    specialize (Hpc c Hc). simpl in Hpc. by apply better_asym.
  - pose proof (group_ok_prices _ _ Hgo) as Hpa. induction Hpa as [|a l Ha Hl IHl]; constructor; [done|].
    eapply Forall_impl; [exact Hl|]. intros c Hc. simpl. rewrite Ha, Hc. apply better_irrefl.
  - by apply IH.
Qed.

Lemma rep_side buy e b : rep e b -> Forall (fun r => is_buy (r_side r) = buy) (side_of buy b).
Proof.
  intros [G (_ & Hsides & _)]. destruct (Hsides buy) as [[_ Hok] <-].
  induction Hok as [|g gs Hg _ IH]; [constructor|]. rewrite flat_cons. apply Forall_app.
  split; [|done]. eapply Forall_impl; [apply (go_orders _ _ Hg)|]. by intros r (_ & ? & _).
Qed.

(** Every book a service holds can be snapshotted, if its owners are session
    ids and the count fits. *)
Lemma service_snapshotable e b :
  rep e b -> ids_ok b -> Forall order_typed (all_orders b) -> Z.of_nat (length (all_orders b)) < 2 ^ 31 ->
  snapshotable b.
Proof.
  intros Hrep Hids Ht Hc. constructor; [| | | | |done].
  - intros buy. destruct Hrep as [G (_ & Hsides & _)]. destruct (Hsides buy) as [Hok <-]. by apply flat_in_order.
  - intros buy. by eapply rep_side.
  - pose proof (rep_pos _ _ Hrep) as Hp. destruct Hids as [Hn Hi]. rewrite Forall_fmap in Hi.
    rewrite Forall_forall in *. intros r Hr. specialize (Ht r Hr). specialize (Hp r Hr). specialize (Hi r Hr).
    split_and!; [done| |apply Hp|apply Hp]. unfold is_sint, MaxInt64 in *. simpl in Hi. lia.
  - destruct Hrep as [G Hrep]. pose proof Hrep as (Hs & _ & _).
    rewrite <- (repG_ids _ _ _ Hrep). apply (lk_ids _ _ (sh_linked _ _ Hs)).
  - destruct Hids as [Hn _]. unfold is_sint, MaxInt64 in *. lia.
Qed.

Section Recovery.
Context {Sess X B : Type} `{LawfulCluster Sess X} `{LawfulBuffer B}.
Context (fuel : nat) `{!PromptCluster Sess X fuel}.

(** ** Taking and reading a snapshot *)

Lemma offer_chunk_publishes n c : forall (s : MatchingService Sess) x,
  taken_within (Sess := Sess) (publication_Offer (Sess := Sess) c) n x = true ->
  exists x', offer_chunk n c (s, x) = Ok (None, (s, x')) /\ published x' = published x ++ [c].
Proof.
  induction n as [|n IH]; intros s x Hn; [done|]. simpl in Hn.
  cbn [offer_chunk]. unfold mbind, go_bind, on_world. cbn [fst snd].
  pose proof (publication_law c x) as Hlaw. destruct (publication_Offer c x) as [r x1].
  cbn [fst snd] in Hlaw. destruct (0 <=? r); [eauto|]. simpl in Hn.
  apply andb_true_iff in Hn as [Hr Hn]. unfold retry in Hr.
  rewrite <- negb_orb, Hr. simpl negb. cbv iota.
  destruct (IH s (Idle (Sess := Sess) x1) Hn) as (x' & Hrun & Hx'). exists x'. split; [done|].
  rewrite Hx', (proj2 (Idle_law x1)), Hlaw. by rewrite app_nil_r.
Qed.

(** The chunks of a stream. *)
Definition chunked (cs : list (list Z)) (data : list Z) : Prop :=
  concat cs = data /\ Forall (fun c => (0 < length c <= snapshotChunkSize)%nat) cs.

Lemma emit_chunks_publishes n : forall data (s : MatchingService Sess) x,
  (length data <= n)%nat ->
  exists x' cs, emit_chunks n (offer_chunk fuel) data (s, x) = Ok (None, (s, x')) /\
                published x' = published x ++ cs /\ chunked cs data.
Proof.
  induction n as [|n IH]; intros data s x Hlen.
  { destruct data; [|simpl in Hlen; lia]. exists x, []. by rewrite app_nil_r. }
  destruct data as [|y ys] eqn:Hdata; [exists x, []; by rewrite app_nil_r|]. rewrite <- Hdata in *.
  set (k := Nat.min snapshotChunkSize (length data)).
  assert (Hk : (0 < k <= snapshotChunkSize)%nat /\ (k <= length data)%nat).
  { unfold k, snapshotChunkSize. rewrite Hdata. simpl length. lia. }
  destruct (offer_chunk_publishes fuel (take k data) s x) as (x1 & H1 & Hx1);
    [apply publication_prompt|].
  destruct (IH (drop k data) s x1) as (x' & cs & Hrun & Hx' & Hcat & Hall);
    [rewrite length_drop; lia|].
  exists x', (take k data :: cs). split_and!.
  - replace (emit_chunks (S n) _ data) with
      (err ← offer_chunk fuel (take k data);
       match (err : option error) with
       | Some e => mret (Some e)
       | None => emit_chunks n (offer_chunk fuel) (drop k data)
       end) by (unfold k; by rewrite Hdata).
    unfold mbind, go_bind. by rewrite H1.
  - by rewrite Hx', Hx1, <- app_assoc.
  - split; [cbn [concat]; by rewrite Hcat, take_drop|].
    constructor; [rewrite length_take; lia|done].
Qed.

Lemma take_snapshot_publishes (s : MatchingService Sess) b (x : X) :
  rep (ms_book s) b ->
  exists x' cs, OnTakeSnapshot fuel (s, x) = Ok (tt, (s, x')) /\
                published x' = published x ++ cs /\ chunked cs (snapshot_bytes b).
Proof.
  intros Hrep. assert (Hsnap : book_snapshot (s, x) = Ok (inl (snapshot_bytes b), (s, x))).
  { unfold book_snapshot. cbn [fst snd]. rewrite (Snapshot_buffer _ _ Hrep). by destruct s. }
  destruct (emit_chunks_publishes (length (snapshot_bytes b)) (snapshot_bytes b) s x ltac:(lia))
    as (x' & cs & Hrun & Hx' & Hcs).
  exists x', cs. split; [|done]. unfold OnTakeSnapshot, writeSnapshot.
  unfold mbind, go_bind. rewrite Hsnap, Hrun. done.
Qed.

(** What an image hands over until it is at its end. *)
Fixpoint image_fragments (n : nat) (x : X) : option (list (list Z)) :=
  match n with
  | O => None
  | S n' =>
      let '(fs, x1) := image_Poll (Sess := Sess) x in
      if image_Done (Sess := Sess) x1 then Some fs
      else (fun rest => fs ++ rest) <$>
             image_fragments n' (if Nat.eqb (length fs) 0 then Idle (Sess := Sess) x1 else x1)
  end.

Lemma poll_stream_spec n : forall (s : MatchingService Sess) x acc fs,
  image_fragments n x = Some fs ->
  exists x', poll_stream n acc (s, x) = Ok (acc ++ concat fs, (s, x')).
Proof.
  induction n as [|n IH]; intros s x acc fs Hf; [done|]. simpl in Hf.
  cbn [poll_stream]. unfold mbind, go_bind, on_world, go_gets. cbn [fst snd].
  destruct (image_Poll x) as [fs0 x1]. cbn [fst snd].
  destruct (image_Done x1); [simplify_eq; eauto|].
  apply fmap_Some in Hf as (rest & Hrest & ->).
  destruct (IH s _ (acc ++ concat fs0) rest Hrest) as (x' & Hrun).
  exists x'. rewrite concat_app, app_assoc, <- Hrun. by destruct (Nat.eqb (length fs0) 0).
Qed.

(** A new service that is started on an image of a snapshot. *)
Lemma start_restores b (y : X) fs :
  snapshotable b -> image_fragments fuel y = Some fs -> concat fs = snapshot_bytes b ->
  exists e y', OnStart fuel true (NewMatchingService (Sess := Sess), y) =
                 Ok (tt, (set_book e NewMatchingService, y')) /\ rep e b.
Proof.
  intros Hb Hf Heq.
  destruct (poll_stream_spec fuel (NewMatchingService (Sess := Sess)) y [] fs Hf) as (y' & Hpoll).
  rewrite app_nil_l, Heq in Hpoll.
  destruct (restore_snapshot_bytes b [] Hb) as (e & Hres & Hrep). rewrite app_nil_r in Hres.
  exists e, y'. split; [|done].
  unfold OnStart. etrans; [exact (go_bind_ok _ _ _ _ _ Hpoll)|].
  unfold restoreSnapshot, mbind, go_bind. by rewrite Hres.
Qed.

(** ** The book of a log *)

(** The book does not depend on who listens. *)
Lemma log_spec_book (log : list (log_entry (Sess := Sess) (B := B))) : forall ids1 ids2 b,
  snd (log_spec log ids1 b) = snd (log_spec log ids2 b).
Proof.
  induction log as [|e log IH]; intros ids1 ids2 b; [done|]. cbn [log_spec].
  assert (He : snd (log_step e ids1 b) = snd (log_step e ids2 b)).
  { destruct e as [| |sess ts buffer offset m]; [done|done|]. simpl. by destruct (exec_spec _ b). }
  destruct (log_step e ids1 b) as [o1 b1], (log_step e ids2 b) as [o2 b2]. cbn [snd] in He. subst b2.
  specialize (IH (open_ids e ids1) (open_ids e ids2) b1).
  by destruct (log_spec log (open_ids e ids1) b1), (log_spec log (open_ids e ids2) b1).
Qed.

Lemma log_spec_app (log1 log2 : list (log_entry (Sess := Sess) (B := B))) : forall ids b,
  snd (log_spec (log1 ++ log2) ids b) = snd (log_spec log2 (log_ids log1 ids) (snd (log_spec log1 ids b))).
Proof.
  induction log1 as [|e log1 IH]; intros ids b; [done|]. cbn [log_spec log_ids app].
  destruct (log_step e ids b) as [o1 b1]. specialize (IH (open_ids e ids) b1).
  by destruct (log_spec (log1 ++ log2) _ b1), (log_spec log1 _ b1).
Qed.

(** No session of [lost] is opened by the entry. *)
Definition opens_outside (lost : list Z) (e : log_entry (Sess := Sess) (B := B)) : Prop :=
  match e with SessionOpened sess _ => session_Id sess ∉ lost | _ => True end.

Lemma filter_comm (P Q : Z -> Prop) `{!forall x, Decision (P x)} `{!forall x, Decision (Q x)} (l : list Z) :
  filter P (filter Q l) = filter Q (filter P l).
Proof.
  induction l as [|x l IH]; [done|]. rewrite !filter_cons.
  destruct (decide (P x)) eqn:HP, (decide (Q x)) eqn:HQ; rewrite ?filter_cons, ?HP, ?HQ; congruence.
Qed.

Lemma hearing_hide (lost ids : list Z) ts evs :
  evs ≫= hearing (filter (fun id => id ∉ lost) ids) ts =
    filter (fun h : heard => fst h ∉ lost) (evs ≫= hearing ids ts).
Proof.
  induction evs as [|ev evs IH]; [done|]. rewrite !bind_cons, IH, filter_app. f_equal.
  unfold hearing. replace (recipients (filter (fun id => id ∉ lost) ids) ev)
    with (filter (fun id => id ∉ lost) (recipients ids ev))
    by (unfold recipients; destruct (ev_Type ev); first [done|apply filter_comm]).
  generalize (recipients ids ev). intros l.
  induction l as [|id l IHl]; [done|]. rewrite fmap_cons, !filter_cons. cbn [fst].
  case_decide; [rewrite fmap_cons; by f_equal|done].
Qed.

(** What a service hears of that has forgotten the sessions [lost], none of
    which comes back: the output without what goes to them. *)
Lemma log_spec_hide (lost : list Z) (log : list (log_entry (Sess := Sess) (B := B))) : forall ids b,
  Forall (opens_outside lost) log ->
  fst (log_spec log (filter (fun id => id ∉ lost) ids) b) =
    filter (fun h : heard => fst h ∉ lost) (fst (log_spec log ids b)).
Proof.
  induction log as [|e log IH]; intros ids b Hl; [done|]. apply Forall_cons in Hl as [He Hl].
  assert (Hids : open_ids e (filter (fun id => id ∉ lost) ids) =
                 filter (fun id => id ∉ lost) (open_ids e ids)).
  { destruct e as [sess ts|sess ts|]; cbn [open_ids]; [| |done].
    - rewrite filter_app. f_equal. by rewrite filter_cons_True.
    - apply filter_comm. }
  assert (Hstep : log_step e (filter (fun id => id ∉ lost) ids) b =
    (filter (fun h : heard => fst h ∉ lost) (fst (log_step e ids b)), snd (log_step e ids b))).
  { destruct e as [| |sess ts buffer offset m]; [done|done|]. cbn [log_step].
    destruct (exec_spec _ b) as [evs b']. by rewrite hearing_hide. }
  cbn [log_spec]. rewrite Hstep, Hids. destruct (log_step e ids b) as [out b1]. cbn [fst snd].
  specialize (IH (open_ids e ids) b1 Hl).
  destruct (log_spec log (filter _ _) b1), (log_spec log (open_ids e ids) b1). cbn [fst] in *.
  by rewrite filter_app, IH.
Qed.

(** The sessions of a log have ids of their machine type. *)
Definition entry_typed (e : log_entry (Sess := Sess) (B := B)) : Prop :=
  match e with SessionMessage sess _ _ _ _ => is_int64 (session_Id sess) | _ => True end.

Lemma log_typed log : forall ids b,
  log_ok log ids -> Forall entry_typed log -> Forall order_typed (all_orders b) ->
  Forall order_typed (all_orders (snd (log_spec log ids b))).
Proof.
  induction log as [|e log IH]; intros ids b Hok Ht Hb; [done|].
  destruct Hok as [He Hok]. apply Forall_cons in Ht as [Hte Ht]. cbn [log_spec].
  assert (Hstep : Forall order_typed (all_orders (snd (log_step e ids b)))).
  { destruct e as [| |sess ts buffer offset [x|x]]; [done|done| |]; simpl in *.
    - destruct He as (((T1 & T2 & T3 & T4) & _) & _).
      pose proof (place_typed b (order_cmd (session_Id sess) x) Hb) as Hp.
      destruct (place _ b) as [evs b']. apply Hp. by split_and!.
    - pose proof (cancel_Forall order_typed b (co_OrderId x) (session_Id sess) Hb) as Hp.
      by destruct (cancel _ _ b). }
  destruct (log_step e ids b) as [o1 b1]. specialize (IH (open_ids e ids) b1 Hok Ht Hstep).
  by destruct (log_spec log _ b1).
Qed.

(** ** Recovery *)

(** The service recovered from a snapshot of [b]. *)
Lemma recovered_ok e b :
  rep e b -> ids_ok b -> Forall order_enc (all_orders b) ->
  service_ok X (set_book e (NewMatchingService (Sess := Sess))) b.
Proof.
  intros Hrep Hids Henc. constructor; [|done|done|done|done].
  constructor; [constructor|done|]. intros id. simpl. split; [by intros ?%not_elem_of_nil|].
  by intros [? ?%lookup_empty_Some].
Qed.

(** C12: Recovery keeps the book and loses the sessions.  A service handles a
    log and takes a snapshot, which goes out in chunks of at most 1024 bytes;
    a new service is started on an image that hands over the same bytes, in
    fragments of any size, and handles a further log.  It ends with exactly
    the book of a service that handled both logs without a stop; and where
    the second log opens no session that was open at the snapshot, what it
    has delivered is what that service would have delivered, less everything
    addressed to the sessions open at the snapshot, which [OnStart] does not
    restore.  This holds of logs of well-typed version-1 frames in range, in
    which no session is opened while it is open, as long as the ids and the
    quantities ever resting stay within an [int64] and the orders of the
    snapshot within an [int32], and on a cluster whose back pressure ends. *)
Theorem recovery_resumes log1 log2 (s : MatchingService Sess) b (w y : X) fs :
  service_ok X s b -> log_ok log1 (ms_sessionIds s) -> log_ok log2 [] ->
  Forall order_typed (all_orders b) -> Forall entry_typed log1 ->
  s_next b + Z.of_nat (length log1) + Z.of_nat (length log2) <= MaxInt64 ->
  sum_qty (all_orders b) + log_qty log1 + log_qty log2 <= MaxInt64 ->
  let b1 := snd (log_spec log1 (ms_sessionIds s) b) in
  Z.of_nat (length (all_orders b1)) < 2 ^ 31 ->
  image_fragments fuel y = Some fs ->
  exists s1 w1 w2 cs,
    handle_log (B := B) fuel log1 (s, w) = Ok (tt, (s1, w1)) /\
    OnTakeSnapshot fuel (s1, w1) = Ok (tt, (s1, w2)) /\ published w2 = published w1 ++ cs /\
    Forall (fun c => (0 < length c <= snapshotChunkSize)%nat) cs /\ concat cs = snapshot_bytes b1 /\
    (concat fs = concat cs ->
     exists s2 y1 s3 y2,
       OnStart fuel true (NewMatchingService (Sess := Sess), y) = Ok (tt, (s2, y1)) /\
       handle_log (B := B) fuel log2 (s2, y1) = Ok (tt, (s3, y2)) /\
       service_ok X s3 (snd (log_spec (log1 ++ log2) (ms_sessionIds s) b)) /\
       delivered y2 = delivered y1 ++ (to_wire <$> fst (log_spec log2 [] b1)) /\
       let lost := log_ids log1 (ms_sessionIds s) in
       (Forall (opens_outside lost) log2 ->
        fst (log_spec log2 [] b1) =
          filter (fun h : heard => fst h ∉ lost) (fst (log_spec log2 lost b1)))).
Proof.
  intros Hs Hl1 Hl2 Ht Hty Hn Hq b1 Hc Hf. pose proof (prompt_transport fuel _).
  pose proof (log_qty_nonneg log2).
  destruct (log_run fuel eq log1 s b w Hs Hl1 ltac:(lia) ltac:(lia))
    as (s1 & w1 & Hrun1 & Hs1 & _ & _ & _ & Hn1 & Hq1). fold b1 in Hs1, Hn1, Hq1.
  pose proof Hs1 as [_ _ Hrep1 Hids1 Henc1].
  destruct (take_snapshot_publishes s1 b1 w1 Hrep1) as (w2 & cs & Hsnap & Hpub & Hcat & Hall).
  exists s1, w1, w2, cs. split_and!; try done. intros Heq. rewrite Hcat in Heq.
  pose proof (service_snapshotable _ _ Hrep1 Hids1 (log_typed _ _ _ Hl1 Hty Ht) Hc) as Hb1.
  destruct (start_restores b1 y fs Hb1 Hf Heq) as (e2 & y1 & Hstart & Hrep2).
  pose proof (recovered_ok e2 b1 Hrep2 Hids1 Henc1) as Hs2.
  destruct (log_run fuel eq log2 _ b1 y1 Hs2 Hl2 ltac:(lia) ltac:(lia))
    as (s3 & y2 & Hrun2 & Hs3 & _ & (sent & Hdel & ->) & _).
  eexists _, y1, s3, y2. split_and!; try done.
  - rewrite log_spec_app. by rewrite (log_spec_book log2 (log_ids log1 (ms_sessionIds s)) []).
  - intros lost Hlost. rewrite <- log_spec_hide by done. f_equal. symmetry. f_equal.
    apply list_filter_none, Forall_forall. intros id Hid Hn'. by apply Hn'.
Qed.
End Recovery.

(** ** A concrete recovery *)

Definition sample_book : Book := snd (log_spec (X := World) sample_log [7; 8] empty_book).
Definition sample_image : list (list Z) :=
  [take 5 (snapshot_bytes sample_book); drop 5 (snapshot_bytes sample_book)].
(** Session 5 joins after the restart and sells to the order of session 9. *)
Definition sell_order : NewOrder := mkNewOrder 6 1 100 4.
Definition later_log : list (log_entry (Sess := Z) (B := Bytes)) :=
  [SessionOpened 5 200; SessionMessage 5 201 (padding ++ frame_of sell_order) 3 (NewOrderMsg sell_order)].

Lemma later_log_fresh : Forall (opens_outside (X := World) [8; 9]) later_log.
Proof. repeat constructor. simpl. set_solver. Qed.

Lemma recovery_resumes_witness :
  exists s1 w1 w2 cs s2 y1 s3 y2,
    handle_log (B := Bytes) 2 sample_log (sample, idle_world) = Ok (tt, (s1, w1)) /\
    OnTakeSnapshot 2 (s1, w1) = Ok (tt, (s1, w2)) /\ published w2 = published w1 ++ cs /\
    OnStart 2 true (NewMatchingService (Sess := Z), mkWorld [] [] false sample_image) = Ok (tt, (s2, y1)) /\
    handle_log (B := Bytes) 2 later_log (s2, y1) = Ok (tt, (s3, y2)) /\
    service_ok World s3 (snd (log_spec (X := World) (sample_log ++ later_log) [7; 8] empty_book)) /\
    delivered y2 = delivered y1 ++ (to_wire <$> fst (log_spec (X := World) later_log [] sample_book)) /\
    fst (log_spec (X := World) later_log [] sample_book) =
      filter (fun h : heard => fst h ∉ [8; 9]) (fst (log_spec (X := World) later_log [8; 9] sample_book)).
Proof.
  destruct (recovery_resumes (B := Bytes) 2 sample_log later_log sample empty_book idle_world
           (mkWorld [] [] false sample_image) sample_image)
    as (s1 & w1 & w2 & cs & H1 & H2 & H3 & _ & H4 & Hrest).
  - apply sample_ok.
  - apply sample_log_ok.
  - split; [simpl; set_solver|]. split; [|done].
    split_and!; [by repeat split|by repeat split|by apply (bytes_hold padding); [bytes|bytes|]].
  - constructor.
  - by repeat constructor.
  - done.
  - done.
  - by vm_compute.
  - by vm_compute.
  - destruct Hrest as (s2 & y1 & s3 & y2 & H5 & H6 & H7 & H8 & H9).
    + rewrite H4. unfold sample_image. cbn [concat]. by rewrite app_nil_r, take_drop.
    + exists s1, w1, w2, cs, s2, y1, s3, y2.
      split; [exact H1|]. split; [exact H2|]. split; [exact H3|]. split; [exact H5|].
      split; [exact H6|]. split; [exact H7|]. split; [exact H8|]. exact (H9 later_log_fresh).
Defined.

(** The restored order is still there to trade with, but its owner, session
    9, which was open at the snapshot and did not come back, is not told of
    its fill, and neither 8 nor 9 sees the trade. *)
Lemma recovered_trade :
  log_ids (X := World) sample_log [7; 8] = [8; 9] /\
  fst (log_spec (X := World) later_log [] sample_book) =
    (fun ev => (5, (201, ev))) <$>
      [AcceptedEvent 2 6 5 Sell 100 4; Events.TradeEvent 100 4 1 2 9 5; FilledEvent 2 6 5 Sell 100 4 0;
       BookUpdateEvent Buy 100 6] /\
  (9, (201, FilledEvent 1 5 9 Buy 100 4 6)) ∈ fst (log_spec (X := World) later_log [8; 9] sample_book).
Proof.
  split; [done|]. split; [by vm_compute|].
  apply list_elem_of_In. vm_compute. tauto.
Qed.
