(* ===== verification/Client.v ===== *)
(** * client/: the typed client

    [Client.offer] sends messages into the cluster and [egressAdapter] turns
    the frames that come back into callbacks of a [Listener].  The cluster
    client of the library, its clock and its idle strategy are the type class
    [ClusterClient]; what the library calls back during a poll is a list of
    [egress_call]s. *)
From S2P Require Import Prelude Marshal Codecs CodecLaws Service.

(** ** client/egress.go *)

Record ExecReport : Type := mkExecReport {
  xr_OrderId : Z;
  xr_ClientOrderId : Z;
  xr_Status : Z;
  xr_Reason : Z;
  xr_Side : Z;
  xr_Price : Z;
  xr_Qty : Z;
  xr_RemainingQty : Z;
  xr_Timestamp : Z
}.
Record Trade : Type := mkTrade {
  tr_Price : Z;
  tr_Qty : Z;
  tr_MakerOrderId : Z;
  tr_TakerOrderId : Z;
  tr_Timestamp : Z
}.
Record BookLevel : Type := mkBookLevel {
  bl_Side : Z;
  bl_Price : Z;
  bl_AggregateQty : Z;
  bl_Timestamp : Z
}.

(** The interface [Listener]: an implementation has a state [L], which its
    callbacks change. *)
Class Listener (L : Type) : Type := {
  OnExecutionReport : ExecReport -> L -> L;
  OnTrade : Trade -> L -> L;
  OnBookUpdate : BookLevel -> L -> L
}.

Record egressAdapter (L : Type) : Type := mkEgressAdapter {
  ea_listener : L;
  ea_marshaller : SbeGoMarshaller
}.
Arguments mkEgressAdapter {L} _ _.
Arguments ea_listener {L} _.
Arguments ea_marshaller {L} _.

Definition newEgressAdapter {L} (l : L) : egressAdapter L := mkEgressAdapter l NewSbeGoMarshaller.

(** The composite literals that hand a message to the listener. *)
Definition execReport_of (m : ExecutionReport) : ExecReport :=
  mkExecReport (er_OrderId m) (er_ClientOrderId m) (er_Status m) (er_Reason m) (er_Side m)
    (er_Price m) (er_Qty m) (er_RemainingQty m) (er_Timestamp m).
Definition tradeView_of (m : TradeEvent) : Trade :=
  mkTrade (te_Price m) (te_Qty m) (te_MakerOrderId m) (te_TakerOrderId m) (te_Timestamp m).
Definition bookLevel_of (m : BookUpdate) : BookLevel :=
  mkBookLevel (bu_Side m) (bu_Price m) (bu_AggregateQty m) (bu_Timestamp m).

Section Egress.
Context {L B : Type} `{Listener L} `{AtomicBuffer B}.

(** [var m M; if err := m.Decode(...); err != nil { return }; a.listener.On...(...)] *)
Definition egress_case {M} (dec : io (SbeGoMarshaller * Reader * M) unit) (zero : M)
    (callback : M -> L -> L) (body : list Z) (a : egressAdapter L) : egressAdapter L :=
  match dec ((ea_marshaller a, body), zero) with
  | (inl _, ((m', _), msg)) => mkEgressAdapter (callback msg (ea_listener a)) m'
  | (inr _, ((m', _), _)) => mkEgressAdapter (ea_listener a) m'
  end.

Definition onMessage (buffer : B) (offset length : Z) (a : egressAdapter L) : egressAdapter L :=
  if length <? 8 then a
  else
    let blockLength := GetUInt16 buffer offset in
    let templateId := GetUInt16 buffer (int32 (offset + 2)) in
    let version := GetUInt16 buffer (int32 (offset + 6)) in
    let body := GetBytes buffer (int32 (offset + 8)) (int32 (length - 8)) in
    if templateId =? SbeTemplateId ExecutionReport then
      egress_case (ExecutionReport_Decode version blockLength true)
        (mkExecutionReport 0 0 0 0 0 0 0 0 0) (fun m => OnExecutionReport (execReport_of m)) body a
    else if templateId =? SbeTemplateId TradeEvent then
      egress_case (TradeEvent_Decode version blockLength true)
        (mkTradeEvent 0 0 0 0 0) (fun m => OnTrade (tradeView_of m)) body a
    else if templateId =? SbeTemplateId BookUpdate then
      egress_case (BookUpdate_Decode version blockLength true)
        (mkBookUpdate 0 0 0 0) (fun m => OnBookUpdate (bookLevel_of m)) body a
    else a.

(** ** client/client.go *)

(** The calls the cluster client makes to its [EgressListener]. *)
Inductive egress_call : Type :=
  | CallOnConnect
  | CallOnDisconnect (detail : string)
  | CallOnNewLeader (leadershipTermId leaderMemberId : Z)
  | CallOnError (detail : string)
  | CallOnMessage (timestamp : Z) (buffer : B) (offset length : Z).

(** The methods of [clusterEgress]: all but [OnMessage] at most log. *)
Definition clusterEgress (call : egress_call) (a : egressAdapter L) : egressAdapter L :=
  match call with
  | CallOnConnect | CallOnDisconnect _ | CallOnNewLeader _ _ | CallOnError _ => a
  | CallOnMessage _ buffer offset length => onMessage buffer offset length a
  end.
End Egress.
Arguments egress_call B : clear implicits.

(** The fields of [aeroncluster.Options] the client sets. *)
Record Options : Type := mkOptions {
  op_IngressChannel : string;
  op_IngressEndpoints : string;
  op_EgressChannel : string
}.

(** The cluster client, its idle strategy and the clock, in nanoseconds. *)
Class ClusterClient (B X : Type) : Type := {
  NewAeronCluster : string -> Options -> X -> option error * X;
  ac_IsConnected : X -> bool;
  ac_Offer : list Z -> X -> Z * X;
  ac_Poll : X -> (Z * list (egress_call B)) * X;
  ac_Close : X -> X;
  ac_Idle : Z -> X -> X;
  time_Now : X -> Z * X
}.

Record Client (L : Type) : Type := mkClient {
  cl_adapter : egressAdapter L;
  cl_opts : Options
}.
Arguments mkClient {L} _ _.
Arguments cl_adapter {L} _.
Arguments cl_opts {L} _.

Section Client.
Context {L B X : Type} `{Listener L} `{AtomicBuffer B} `{!ClusterClient B X}.
(** How often a waiting loop is taken before the model gives up. *)
Context (fuel : nat).

Abbreviation cli := (go (Client L * X)).

Definition ac_world {A} (c : X -> A * X) : cli A := fun s =>
  let '(a, x) := c (snd s) in Ok (a, (fst s, x)).

Definition Poll : cli Z := fun s =>
  let '((n, calls), x) := ac_Poll (snd s) in
  Ok (n, (mkClient (foldl (fun a call => clusterEgress call a) (cl_adapter (fst s)) calls)
            (cl_opts (fst s)), x)).

Definition Close : cli unit := ac_world (fun x => (tt, ac_Close (B := B) x)).

(** [opts.IdleStrategy.Idle(ac.Poll())] *)
Definition poll_and_idle : cli unit :=
  n ← Poll; ac_world (fun x => (tt, ac_Idle (B := B) n x)).

(** The loop that waits for the connection. *)
Fixpoint connect_loop (n : nat) (deadline : Z) : cli (option error) :=
  match n with
  | O => go_panic Diverge
  | S n' =>
      connected ← go_gets (fun s => ac_IsConnected (B := B) (snd s));
      if (connected : bool) then mret None
      else
        now ← ac_world (time_Now (B := B));
        if deadline <? now then Close;; mret (Some (OtherError "timed out connecting to cluster" 0))
        else poll_and_idle;; connect_loop n' deadline
  end.

Definition client_options (ingressEndpoints egressEndpoint : string) : Options :=
  mkOptions "aeron:udp?alias=gomatch-ingress" ingressEndpoints
    ("aeron:udp?alias=gomatch-egress|endpoint=" ++ egressEndpoint).

Definition ConnectWithEgress (aeronDir ingressEndpoints egressEndpoint : string) (l : L)
    : go X (Client L + error) := fun x =>
  let opts := client_options ingressEndpoints egressEndpoint in
  let '(err, x) := NewAeronCluster (B := B) aeronDir opts x in
  match err with
  | Some err => Ok (inr err, x)
  | None =>
      let '(now, x) := time_Now (B := B) x in
      match connect_loop fuel (now + 30 * Second) (mkClient (newEgressAdapter l) opts, x) with
      | Ok (None, (c, x)) => Ok (inl c, x)
      | Ok (Some err, (_, x)) => Ok (inr err, x)
      | Panic p => Panic p
      end
  end.

Definition Connect (aeronDir ingressEndpoints : string) (l : L) : go X (Client L + error) :=
  ConnectWithEgress aeronDir ingressEndpoints "localhost:0" l.

(** The loop of [offer]. *)
Fixpoint ingress_loop (n : nat) (payload : list Z) (deadline : Z) : cli (option error) :=
  match n with
  | O => go_panic Diverge
  | S n' =>
      result ← ac_world (ac_Offer (B := B) payload);
      if 0 <=? result then mret None
      else
        now ← ac_world (time_Now (B := B));
        if deadline <? now then mret (Some (OtherError "timed out offering to cluster" 0))
        else poll_and_idle;; ingress_loop n' payload deadline
  end.

Definition ingress_offer {M} `{SbeMessage M} (msg : M) : cli (option error) :=
  match (MessageHeader_Encode (frame_header M);; Encode msg true) (NewSbeGoMarshaller, ([] : Buffer)) with
  | (inr err, _) => mret (Some err)
  | (inl _, (_, buf)) =>
      now ← ac_world (time_Now (B := B));
      ingress_loop fuel buf (now + 10 * Second)
  end.

Definition SubmitOrder (clientOrderId side price qty : Z) : cli (option error) :=
  ingress_offer (mkNewOrder clientOrderId side price qty).

Definition Client_CancelOrder (orderId : Z) : cli (option error) :=
  ingress_offer (mkCancelOrder orderId).
End Client.
