(* ===== verification/ClientTheorems.v ===== *)
(** * The client: its theorems

    What the client sends is what the service reads, and what the service
    sends reaches the listener unchanged; the two meet in the last theorem,
    in which an order travels from a client through the service and back. *)
From S2P Require Import Prelude Events OrderBook BookSpec BookRep BookOps BookRefine BookProps Engine.
From S2P Require Import Marshal Codecs CodecLaws CodecTheorems Snapshot SnapshotLaws.
From S2P Require Import Service ServiceLaws ServiceRefine ServiceTheorems Client.

(** ** What is relied on of the cluster client *)

(** [Offer] takes a payload exactly when its result is not negative, nothing
    else does, and the clock is monotone and advances by at least [tick]
    while the client idles. *)
Class LawfulClient (B X : Type) {HX : ClusterClient B X} (tick : Z) : Type := {
  ingested : X -> list (list Z);
  clock : X -> Z;
  tick_pos : 0 < tick;
  ac_Offer_law : forall p x, let r := ac_Offer (B := B) p x in
    ingested (snd r) = ingested x ++ (if 0 <=? fst r then [p] else []) /\ clock x <= clock (snd r);
  ac_Poll_law : forall x, let x' := snd (ac_Poll (B := B) x) in
    ingested x' = ingested x /\ clock x <= clock x';
  ac_Idle_law : forall n x, let x' := ac_Idle (B := B) n x in
    ingested x' = ingested x /\ clock x + tick <= clock x';
  time_Now_law : forall x, let r := time_Now (B := B) x in
    ingested (snd r) = ingested x /\ clock x <= fst r <= clock (snd r)
}.

(** ** Sending *)

Section Offer.
Context {L B X : Type} `{Listener L} `{AtomicBuffer B} `{LawfulClient B X tick}.

Lemma poll_and_idle_ok (c : Client L) (x : X) :
  exists c' x', poll_and_idle (B := B) (c, x) = Ok (tt, (c', x')) /\ cl_opts c' = cl_opts c /\
    ingested x' = ingested x /\ clock x + tick <= clock x'.
Proof.
  unfold poll_and_idle, Poll, ac_world, mbind, go_bind. cbn [fst snd].
  pose proof (ac_Poll_law x) as [Hp1 Hp2]. destruct (ac_Poll x) as [[n calls] x1]. cbn [fst snd] in *.
  pose proof (ac_Idle_law n x1) as [Hi1 Hi2]. eexists _, _. split; [done|].
  split; [done|]. split; [congruence|lia].
Qed.

(** What one run of the loop leaves behind. *)
Definition offered (p : list Z) (x x' : X) (r : option error) : Prop :=
  clock x <= clock x' /\
  match r with
  | None => ingested x' = ingested x ++ [p]
  | Some err => err = OtherError "timed out offering to cluster" 0 /\ ingested x' = ingested x
  end.

Lemma ingress_loop_returns n p deadline : forall (c : Client L) x,
  deadline < clock x + tick * Z.of_nat n ->
  exists r c' x', ingress_loop (B := B) (S n) p deadline (c, x) = Ok (r, (c', x')) /\ offered p x x' r.
Proof.
  pose proof tick_pos as Ht. induction n as [|n IH]; intros c x Hd;
    cbn [ingress_loop]; unfold mbind, go_bind, ac_world; cbn [fst snd];
    pose proof (ac_Offer_law p x) as [Ho1 Ho2]; destruct (ac_Offer p x) as [res x1]; cbn [fst snd] in *;
    (destruct (0 <=? res); [by eexists None, c, x1; split_and!|]); rewrite app_nil_r in Ho1; cbn [fst snd];
    pose proof (time_Now_law x1) as [Hn1 Hn2]; destruct (time_Now x1) as [now x2]; cbn [fst snd] in *;
    (destruct (Z.ltb_spec deadline now) as [Hlt|Hle];
     [eexists (Some _), c, x2; split; [reflexivity|]; split_and!; [lia|done|congruence]|]); [lia|].
  destruct (poll_and_idle_ok c x2) as (c3 & x3 & Hrun & _ & Hx3 & Hc3). rewrite Hrun.
  destruct (IH c3 x3) as (r & c' & x' & Hloop & Hr); [lia|]. exists r, c', x'. split; [exact Hloop|].
  unfold offered in *. replace (ingested x) with (ingested x3) by congruence. split; [lia|by destruct Hr].
Qed.

(** Sending a message. *)
Definition sent {M} `{SbeCodec M} (msg : M) (c c' : Client L) (x x' : X) (r : option error) : Prop :=
  match RangeCheck msg (SbeSchemaVersion M) (SbeSchemaVersion M) with
  | Some err => r = Some err /\ c' = c /\ x' = x
  | None => offered (frame_of msg) x x' r
  end.

Lemma ingress_offer_returns {M} `{SbeCodec M} fuel (msg : M) (c : Client L) (x : X) :
  10 * Second < tick * (Z.of_nat fuel - 1) ->
  exists r c' x', ingress_offer (B := B) fuel msg (c, x) = Ok (r, (c', x')) /\ sent msg c c' x x' r.
Proof.
  unfold sent. pose proof tick_pos as Ht. intros Hfuel.
  assert (Hf : exists n, fuel = S n) by (destruct fuel as [|n]; [unfold Second in Hfuel; lia|by exists n]).
  destruct Hf as [n ->]. unfold ingress_offer.
  destruct (RangeCheck msg _ _) as [err|] eqn:Hrc.
  - destruct (encodeFrame_refused msg NewSbeGoMarshaller err eq_refl Hrc) as [m' Hm']. unfold encodeFrame in Hm'.
    destruct ((MessageHeader_Encode (frame_header M);; Encode msg true) (NewSbeGoMarshaller, ([] : Buffer)))
      as [[u|e] [m1 buf]]; simplify_eq.
    by exists (Some err), c, x.
  - destruct (encodeFrame_ok msg NewSbeGoMarshaller eq_refl Hrc) as (m' & _ & Hm'). unfold encodeFrame in Hm'.
    destruct ((MessageHeader_Encode (frame_header M);; Encode msg true) (NewSbeGoMarshaller, ([] : Buffer)))
      as [[u|e] [m1 buf]]; simplify_eq.
    unfold mbind at 1, go_bind at 1, ac_world at 1. cbn [fst snd].
    pose proof (time_Now_law x) as [Hn1 Hn2]. destruct (time_Now x) as [now x1]. cbn [fst snd] in *.
    destruct (ingress_loop_returns n (frame_of msg) (now + 10 * Second) c x1) as (r & c' & x' & Hrun & Hr);
      [lia|]. exists r, c', x'. split; [done|].
    unfold offered in *. rewrite <- Hn1. split; [lia|by destruct Hr].
Qed.

(** C26: Sending returns: an order or a cancel that its range check refuses is
    reported with that error and nothing is sent; any other is either taken
    by the cluster once, as the frame of the message with the given fields,
    or, after ten seconds, not at all, and then the caller gets the timeout. *)
Theorem client_sends fuel (c : Client L) (x : X) :
  10 * Second < tick * (Z.of_nat fuel - 1) ->
  (forall clientOrderId side price qty, exists r c' x',
     SubmitOrder (B := B) fuel clientOrderId side price qty (c, x) = Ok (r, (c', x')) /\
     sent (mkNewOrder clientOrderId side price qty) c c' x x' r) /\
  (forall orderId, exists r c' x',
     Client_CancelOrder (B := B) fuel orderId (c, x) = Ok (r, (c', x')) /\
     sent (mkCancelOrder orderId) c c' x x' r).
Proof. intros Hfuel. split; intros; by apply ingress_offer_returns. Qed.

(** ** Connecting *)

Lemma connect_loop_returns n deadline : forall (c : Client L) x,
  deadline < clock x + tick * Z.of_nat n ->
  exists r c' x', connect_loop (B := B) (S n) deadline (c, x) = Ok (r, (c', x')) /\
    cl_opts c' = cl_opts c /\
    match r with
    | None => ac_IsConnected (B := B) x' = true
    | Some err => err = OtherError "timed out connecting to cluster" 0 /\
                  exists x1, ac_IsConnected (B := B) x1 = false /\
                    deadline < fst (time_Now (B := B) x1) /\ x' = ac_Close (B := B) (snd (time_Now (B := B) x1))
    end.
Proof.
  pose proof tick_pos as Ht. induction n as [|n IH]; intros c x Hd;
    cbn [connect_loop]; unfold mbind, go_bind, ac_world, go_gets; cbn [fst snd];
    (destruct (ac_IsConnected x) eqn:Hc; [by exists None, c, x|]); cbn [fst snd];
    pose proof (time_Now_law x) as [Hn1 Hn2]; destruct (time_Now x) as [now x2] eqn:Hnow; cbn [fst snd] in *;
    (destruct (Z.ltb_spec deadline now) as [Hlt|Hle];
     [eexists (Some _), c, _; split; [reflexivity|]; split; [done|]; split; [done|];
      exists x; by rewrite Hnow|]); [lia|].
  destruct (poll_and_idle_ok c x2) as (c3 & x3 & Hrun & Ho3 & Hx3 & Hc3). rewrite Hrun.
  destruct (IH c3 x3) as (r & c' & x' & Hloop & Ho & Hr); [lia|]. exists r, c', x'. split; [exact Hloop|].
  split; [congruence|done].
Qed.

(** C27: Connecting returns: [ConnectWithEgress] passes on the error of the
    library, or returns a client once the connection is up, or, when it is
    still down more than thirty seconds later, closes it and returns the
    timeout. *)
Theorem connect_returns fuel aeronDir ingressEndpoints egressEndpoint (l : L) (x : X) :
  30 * Second < tick * (Z.of_nat fuel - 1) ->
  let opts := client_options ingressEndpoints egressEndpoint in
  let x0 := snd (NewAeronCluster (B := B) aeronDir opts x) in
  exists r x', ConnectWithEgress (B := B) fuel aeronDir ingressEndpoints egressEndpoint l x = Ok (r, x') /\
    match fst (NewAeronCluster (B := B) aeronDir opts x), r with
    | Some err, _ => r = inr err /\ x' = x0
    | None, inl c => ac_IsConnected (B := B) x' = true /\ cl_opts c = opts
    | None, inr err =>
        err = OtherError "timed out connecting to cluster" 0 /\
        exists x1, ac_IsConnected (B := B) x1 = false /\
          fst (time_Now (B := B) x0) + 30 * Second < fst (time_Now (B := B) x1) /\
          x' = ac_Close (B := B) (snd (time_Now (B := B) x1))
    end.
Proof.
  pose proof tick_pos as Ht. intros Hfuel opts x0. unfold ConnectWithEgress. fold opts. subst x0.
  destruct (NewAeronCluster aeronDir opts x) as [[err|] x0]; cbn [fst snd]; [by exists (inr err), x0|].
  assert (Hf : exists n, fuel = S n) by (destruct fuel as [|n]; [unfold Second in Hfuel; lia|by exists n]).
  destruct Hf as [n ->]. pose proof (time_Now_law x0) as [_ Hn]. destruct (time_Now x0) as [now x1]. cbn [fst snd] in *.
  destruct (connect_loop_returns n (now + 30 * Second) (mkClient (newEgressAdapter l) opts) x1)
    as (r & c & x' & Hrun & Ho & Hr); [lia|]. rewrite Hrun.
  destruct r as [err|]; [by exists (inr err), x'|by exists (inl c), x'].
Qed.
End Offer.

(** ** Receiving *)

(** What passes a range check has its machine type. *)
Lemma check_typed name id v : check_prim name (int64_field id) v 1 = None -> is_int64 v.
Proof.
  unfold check_prim. rewrite in_acting by done. cbn [int64_field MinValue MaxValue].
  unfold is_sint, MinInt64, MaxInt64.
  destruct (Z.ltb_spec v (- 2 ^ 63 + 1)), (Z.ltb_spec (2 ^ 63 - 1) v); simpl; try done. lia.
Qed.

Lemma enum_typed name vs v : Forall is_int8 vs -> enum_check name vs v 1 1 = None -> is_int8 v.
Proof.
  intros Hvs. unfold enum_check. simpl. destruct (existsb (Z.eqb v) vs) eqn:He; [|done]. intros _.
  apply existsb_exists in He as (w & Hw & ->%Z.eqb_eq). rewrite Forall_forall in Hvs.
  by apply Hvs, list_elem_of_In.
Qed.

(** The facts a [RangeCheck] leaves, each field by its name. *)
Ltac typed_fields :=
  split_and!;
  match goal with
  | |- is_sint 64 ?v => match goal with H : check_prim _ _ v _ = None |- _ => exact (check_typed _ _ _ H) end
  | |- is_sint 8 ?v => eapply enum_typed; [|eassumption]; by repeat constructor
  end.

Lemma report_typed x : ExecutionReport_RangeCheck x 1 1 = None -> ExecutionReport_typed x.
Proof.
  intros Hrc. unfold ExecutionReport_RangeCheck in Hrc. apply first_error_none in Hrc.
  rewrite !Forall_cons in Hrc. destruct_and! Hrc. unfold ExecutionReport_typed. typed_fields.
Qed.

Lemma trade_typed x : TradeEvent_RangeCheck x 1 1 = None -> TradeEvent_typed x.
Proof.
  intros Hrc. unfold TradeEvent_RangeCheck in Hrc. apply first_error_none in Hrc.
  rewrite !Forall_cons in Hrc. destruct_and! Hrc. unfold TradeEvent_typed. typed_fields.
Qed.

Lemma update_typed x : BookUpdate_RangeCheck x 1 1 = None -> BookUpdate_typed x.
Proof.
  intros Hrc. unfold BookUpdate_RangeCheck in Hrc. apply first_error_none in Hrc.
  rewrite !Forall_cons in Hrc. destruct_and! Hrc. unfold BookUpdate_typed. typed_fields.
Qed.

Section Egress.
Context {L B : Type} `{Listener L} `{LawfulBuffer B}.

(** The callback an event becomes. *)
Definition notify (ts : Z) (l : L) (ev : Event) : L :=
  match ev_Type ev with
  | EvTrade =>
      OnTrade (mkTrade (ev_Price ev) (ev_Qty ev) (ev_MakerOrderId ev) (ev_TakerOrderId ev) ts) l
  | EvBookUpdate =>
      OnBookUpdate (mkBookLevel (ev_Side ev) (ev_Price ev) (ev_AggregateQty ev) ts) l
  | _ =>
      OnExecutionReport (mkExecReport (ev_OrderId ev) (ev_ClientOrderId ev) (statusOf ev) (ev_Reason ev)
                           (ev_Side ev) (ev_Price ev) (ev_Qty ev) (ev_RemainingQty ev) ts) l
  end.

Lemma egress_case_wire {M} `{SbeCodec M} (zero msg : M) callback (a : egressAdapter L) bl :
  marsh_ok (ea_marshaller a) -> typed msg -> RangeCheck msg 1 (SbeSchemaVersion M) = None ->
  exists m', marsh_ok m' /\
    egress_case (Decode 1 bl true) zero callback (wire msg) a =
      mkEgressAdapter (callback msg (ea_listener a)) m'.
Proof.
  intros Hm Ht Hrc. destruct (Decode_wire msg zero (ea_marshaller a) [] 1 bl true) as (m' & Hm' & Hd);
    try done. rewrite app_nil_r, Hrc in Hd. exists m'. split; [done|].
  unfold egress_case. by setoid_rewrite Hd.
Qed.

(** What [onMessage] does once it has read the header. *)
Lemma onMessage_unfold buffer offset h body (a : egressAdapter L) :
  header_ok h -> holds buffer offset (header_wire h ++ body) ->
  onMessage buffer offset (8 + Z.of_nat (length body)) a =
    if mh_TemplateId h =? 10 then
      egress_case (ExecutionReport_Decode (mh_Version h) (mh_BlockLength h) true)
        (mkExecutionReport 0 0 0 0 0 0 0 0 0) (fun m => OnExecutionReport (execReport_of m)) body a
    else if mh_TemplateId h =? 11 then
      egress_case (TradeEvent_Decode (mh_Version h) (mh_BlockLength h) true)
        (mkTradeEvent 0 0 0 0 0) (fun m => OnTrade (tradeView_of m)) body a
    else if mh_TemplateId h =? 12 then
      egress_case (BookUpdate_Decode (mh_Version h) (mh_BlockLength h) true)
        (mkBookUpdate 0 0 0 0) (fun m => OnBookUpdate (bookLevel_of m)) body a
    else a.
Proof.
  intros Hok Hh. destruct (holds_frame _ _ _ _ Hh Hok) as (Hbl & Htid & _ & Hver & Hbody).
  unfold onMessage. destruct (Z.ltb_spec (8 + Z.of_nat (length body)) 8); [lia|]. cbn zeta.
  rewrite Hbl, Htid, Hver.
  replace (8 + Z.of_nat (length body) - 8) with (Z.of_nat (length body)) by lia.
  by rewrite Hbody.
Qed.

Lemma frame_header_ok M `{SbeCodec M} : header_ok (frame_header M).
Proof. exact header_typed. Qed.

Lemma frame_length_Z {M} `{SbeCodec M} (x : M) :
  Z.of_nat (length (frame_of x)) = 8 + Z.of_nat (length (wire x)).
Proof. unfold frame_of. rewrite length_app, Nat2Z.inj_add. done. Qed.

(** Egress is faithful: the frame the service sends for an event, read
    anywhere in a buffer, makes the client call its listener once, with the
    method of the event's kind and the values of the event. *)
Lemma egress_faithful ts ev buffer offset (a : egressAdapter L) :
  marsh_ok (ea_marshaller a) -> encodable ts ev -> holds buffer offset (event_frame ev ts) ->
  exists m', marsh_ok m' /\
    onMessage buffer offset (Z.of_nat (length (event_frame ev ts))) a =
      mkEgressAdapter (notify ts (ea_listener a) ev) m'.
Proof.
  intros Hm He Hh. unfold encodable, event_frame, notify in *.
  destruct (ev_Type ev); rewrite frame_length_Z; unfold frame_of in Hh;
    rewrite (onMessage_unfold _ _ _ _ a (frame_header_ok _) Hh).
  3: exact (egress_case_wire (mkTradeEvent 0 0 0 0 0) (trade_of ev ts)
              (fun m => OnTrade (tradeView_of m)) a 40 Hm (trade_typed _ He) He).
  5: exact (egress_case_wire (mkBookUpdate 0 0 0 0) (update_of ev ts)
              (fun m => OnBookUpdate (bookLevel_of m)) a 25 Hm (update_typed _ He) He).
  all: exact (egress_case_wire (mkExecutionReport 0 0 0 0 0 0 0 0 0) (report_of ev ts)
                (fun m => OnExecutionReport (execReport_of m)) a 51 Hm (report_typed _ He) He).
Qed.

Lemma egress_case_short {M} `{SbeCodec M} (zero : M) callback (a : egressAdapter L) version bl body :
  marsh_ok (ea_marshaller a) -> Forall is_byte body -> 0 <= version ->
  (length body < Z.to_nat (SbeBlockLength M))%nat ->
  ea_listener (egress_case (Decode version bl true) zero callback body a) = ea_listener a.
Proof.
  intros Hm Hb Hv Hlen.
  destruct (Decode_short zero (ea_marshaller a) body version bl true Hm Hb Hv Hlen) as (m' & x' & err & _ & Hd & _).
  unfold egress_case. by setoid_rewrite Hd.
Qed.

(** The block length of a template the client knows. *)
Definition egress_block (templateId : Z) : option Z :=
  if templateId =? SbeTemplateId ExecutionReport then Some (SbeBlockLength ExecutionReport)
  else if templateId =? SbeTemplateId TradeEvent then Some (SbeBlockLength TradeEvent)
  else if templateId =? SbeTemplateId BookUpdate then Some (SbeBlockLength BookUpdate)
  else None.

(** C29: Junk does not reach the listener: a frame of a template the client
    does not know, or one that is shorter than the block of its template,
    calls nothing. *)
Theorem egress_junk_ignored buffer offset h body (a : egressAdapter L) :
  marsh_ok (ea_marshaller a) -> header_ok h -> Forall is_byte body ->
  holds buffer offset (header_wire h ++ body) ->
  match egress_block (mh_TemplateId h) with Some n => Z.of_nat (length body) < n | None => True end ->
  ea_listener (onMessage buffer offset (8 + Z.of_nat (length body)) a) = ea_listener a.
Proof.
  intros Hm Hok Hb Hh Hbad. rewrite (onMessage_unfold _ _ _ _ a Hok Hh).
  assert (Hv : 0 <= mh_Version h) by (by destruct Hok as (_ & _ & _ & [? _])).
  assert (Hlen : forall n, Z.of_nat (length body) < n -> (length body < Z.to_nat n)%nat) by lia.
  unfold egress_block in Hbad. simpl in Hbad.
  unfold ExecutionReport_SbeTemplateId, TradeEvent_SbeTemplateId, BookUpdate_SbeTemplateId in Hbad.
  destruct (mh_TemplateId h =? 10).
  { exact (egress_case_short (mkExecutionReport 0 0 0 0 0 0 0 0 0) _ a _ _ body Hm Hb Hv (Hlen _ Hbad)). }
  destruct (mh_TemplateId h =? 11).
  { exact (egress_case_short (mkTradeEvent 0 0 0 0 0) _ a _ _ body Hm Hb Hv (Hlen _ Hbad)). }
  destruct (mh_TemplateId h =? 12); [|done].
  exact (egress_case_short (mkBookUpdate 0 0 0 0) _ a _ _ body Hm Hb Hv (Hlen _ Hbad)).
Qed.

(** The client polls frames, each somewhere in a buffer. *)
Definition receive (a : egressAdapter L) (msg : B * Z * list Z) : egressAdapter L :=
  clusterEgress (CallOnMessage 0 (fst (fst msg)) (snd (fst msg)) (Z.of_nat (length (snd msg)))) a.

Lemma receive_all (hs : list (Z * Event)) : forall msgs (a : egressAdapter L),
  marsh_ok (ea_marshaller a) -> Forall (fun h => encodable (fst h) (snd h)) hs ->
  Forall (fun msg => holds (fst (fst msg)) (snd (fst msg)) (snd msg)) msgs ->
  snd <$> msgs = (fun h => event_frame (snd h) (fst h)) <$> hs ->
  ea_listener (foldl receive a msgs) = foldl (fun l h => notify (fst h) l (snd h)) (ea_listener a) hs.
Proof.
  induction hs as [|[ts ev] hs IH]; intros msgs a Hm He Hh Heq.
  { by apply fmap_nil_inv in Heq as ->. }
  destruct msgs as [|[[buf off] f] msgs]; [done|]. cbn in Heq. injection Heq as Hf Heq. subst f.
  apply Forall_cons in He as [He1 He]. apply Forall_cons in Hh as [Hh1 Hh]. cbn [fst snd] in *.
  destruct (egress_faithful ts ev buf off a Hm He1 Hh1) as (m' & Hm' & Hrun).
  cbn [foldl]. unfold receive at 2. cbn [clusterEgress fst snd]. rewrite Hrun.
  by apply (IH msgs).
Qed.
End Egress.

(** ** The system *)

Section System.
Context {L Sess X B : Type} `{Listener L} `{LawfulCluster Sess X} `{LawfulBuffer B}.
Context (fuel : nat) `{!PromptCluster Sess X fuel}.

Lemma wire_of (me : Z) (out : list heard) :
  snd <$> filter (fun d => fst d = me) (to_wire <$> out) =
    (fun h => event_frame (snd h) (fst h)) <$> (snd <$> filter (fun h : heard => fst h = me) out).
Proof.
  induction out as [|[id [ts ev]] out IH]; [done|]. rewrite fmap_cons, !filter_cons. cbn [to_wire fst snd].
  case_decide; [|done]. rewrite !fmap_cons, IH. done.
Qed.

(** C11: What a client hears.  Take a log in which no session is opened while
    it is open and every message is a version-1 frame with typed fields in
    range and an encodable timestamp; let the ids and the quantity resting
    plus submitted stay within an [int64]; and let the cluster take every
    offer within [fuel] tries.  Then the service handles the log, and the
    client of session [me] that receives the frames the service sent to [me], in order
    and anywhere in its buffers, has called its listener with exactly the
    events of the abstract engine that concern [me], in order, with the
    method of each event's kind and the event's values. *)
Theorem client_hears log (s : MatchingService Sess) b (w : X) me (a : egressAdapter L) :
  service_ok X s b -> log_ok log (ms_sessionIds s) ->
  s_next b + Z.of_nat (length log) <= MaxInt64 -> sum_qty (all_orders b) + log_qty log <= MaxInt64 ->
  marsh_ok (ea_marshaller a) ->
  exists s' w' sent, handle_log (B := B) fuel log (s, w) = Ok (tt, (s', w')) /\
    delivered w' = delivered w ++ sent /\
    forall msgs : list (B * Z * list Z),
      Forall (fun msg => holds (fst (fst msg)) (snd (fst msg)) (snd msg)) msgs ->
      snd <$> msgs = snd <$> filter (fun d => fst d = me) sent ->
      ea_listener (foldl receive a msgs) =
        foldl (fun l h => notify (fst h) l (snd h)) (ea_listener a)
          (snd <$> filter (fun h => fst h = me) (fst (log_spec log (ms_sessionIds s) b))).
Proof.
  intros Hs Hlog Hn Hq Hm.
  pose proof (prompt_transport fuel _).
  destruct (log_run fuel eq log s b w Hs Hlog Hn Hq) as (s' & w' & Hrun & _ & _ & (sent & Hw & ->) & He & _).
  eexists s', w', _. split; [done|]. split; [exact Hw|]. intros msgs Hh Heq. rewrite wire_of in Heq.
  apply receive_all; try done. apply Forall_fmap. by apply list_filter_Forall.
Qed.
End System.

(** ** A concrete client *)

(** A listener that writes its callbacks down. *)
Inductive callback : Type :=
  | SawReport (r : ExecReport)
  | SawTrade (t : Trade)
  | SawLevel (l : BookLevel).
#[export] Instance callbacks_Listener : Listener (list callback) := {
  OnExecutionReport r l := l ++ [SawReport r];
  OnTrade t l := l ++ [SawTrade t];
  OnBookUpdate u l := l ++ [SawLevel u]
}.

(** A connection that refuses [cw_busy] offers before it takes one, and a
    client that idles for a second at a time. *)
Record ClientWorld : Type := mkClientWorld {
  cw_ingested : list (list Z);
  cw_clock : Z;
  cw_busy : nat
}.
#[export] Instance ClientWorld_Client : ClusterClient Bytes ClientWorld := {
  NewAeronCluster _ _ x := (None, x);
  ac_IsConnected x := true;
  ac_Offer p x :=
    match cw_busy x with
    | O => (0, mkClientWorld (cw_ingested x ++ [p]) (cw_clock x) 0)
    | S n => (-2, mkClientWorld (cw_ingested x) (cw_clock x) n)
    end;
  ac_Poll x := ((0, []), mkClientWorld (cw_ingested x) (cw_clock x + Second) (cw_busy x));
  ac_Close x := x;
  ac_Idle _ x := mkClientWorld (cw_ingested x) (cw_clock x + Second) (cw_busy x);
  time_Now x := (cw_clock x, x)
}.
#[export] Instance ClientWorld_Lawful : LawfulClient Bytes ClientWorld Second.
Proof.
  refine {| ingested := cw_ingested; clock := cw_clock |}; simpl; try done.
  - intros p [i t [|n]]; simpl; by rewrite ?app_nil_r.
  - intros x. unfold Second. split; [done|lia].
Defined.

Definition fresh_client : Client (list callback) := mkClient (newEgressAdapter []) (client_options "" "").

Lemma client_sends_witness :
  (forall clientOrderId side price qty, exists r c' x',
     SubmitOrder (B := Bytes) 12 clientOrderId side price qty (fresh_client, mkClientWorld [] 0 3) =
       Ok (r, (c', x')) /\
     sent (mkNewOrder clientOrderId side price qty) fresh_client c' (mkClientWorld [] 0 3) x' r) /\
  (forall orderId, exists r c' x',
     Client_CancelOrder (B := Bytes) 12 orderId (fresh_client, mkClientWorld [] 0 3) = Ok (r, (c', x')) /\
     sent (mkCancelOrder orderId) fresh_client c' (mkClientWorld [] 0 3) x' r).
Proof. refine (client_sends (B := Bytes) 12 fresh_client (mkClientWorld [] 0 3) _). done. Defined.

(** The fourth offer is taken. *)
Lemma submit_after_back_pressure :
  exists c', SubmitOrder (B := Bytes) 12 5 0 100 10 (fresh_client, mkClientWorld [] 0 3) =
    Ok (None, (c', mkClientWorld [frame_of (mkNewOrder 5 0 100 10)] (6 * Second) 0)).
Proof. eexists. vm_compute. reflexivity. Qed.

(** The connection of the sample world is up at once. *)
Lemma connect_returns_witness :
  exists r x', ConnectWithEgress (B := Bytes) 32 "/dev/shm" "0=localhost:20000" "localhost:0"
                 ([] : list callback) (mkClientWorld [] 0 0) = Ok (r, x') /\
    match r with
    | inl c => ac_IsConnected (B := Bytes) x' = true /\ cl_opts c = client_options "0=localhost:20000" "localhost:0"
    | inr err =>
        err = OtherError "timed out connecting to cluster" 0 /\
        exists x1, ac_IsConnected (B := Bytes) x1 = false /\
          0 + 30 * Second < fst (time_Now (B := Bytes) x1) /\
          x' = ac_Close (B := Bytes) (snd (time_Now (B := Bytes) x1))
    end.
Proof.
  refine (connect_returns (B := Bytes) 32 "/dev/shm" "0=localhost:20000" "localhost:0"
            ([] : list callback) (mkClientWorld [] 0 0) _).
  done.
Defined.

Lemma egress_junk_ignored_witness :
  ea_listener (onMessage (B := Bytes) ([] ++ header_wire (mkMessageHeader 25 1 901 1) ++ []) 0 8
                 (newEgressAdapter ([] : list callback))) = [].
Proof.
  refine (egress_junk_ignored (B := Bytes) ([] ++ header_wire (mkMessageHeader 25 1 901 1) ++ []) 0
            (mkMessageHeader 25 1 901 1) [] (newEgressAdapter ([] : list callback)) _ _ _ _ _).
  - done.
  - by repeat split.
  - constructor.
  - by apply (bytes_hold []); [bytes|bytes|].
  - done.
Defined.

(** What session 7 hears of the sample log. *)
Lemma client_hears_witness :
  exists s' w' sent, handle_log (B := Bytes) 2 sample_log (sample, idle_world) = Ok (tt, (s', w')) /\
    delivered w' = [] ++ sent /\
    forall msgs : list (Bytes * Z * list Z),
      Forall (fun msg => holds (fst (fst msg)) (snd (fst msg)) (snd msg)) msgs ->
      snd <$> msgs = snd <$> filter (fun d => fst d = 7) sent ->
      ea_listener (foldl receive (newEgressAdapter []) msgs) =
        [SawLevel (mkBookLevel 0 100 10 99); SawReport (mkExecReport 1 0 1 4 0 0 0 0 100)].
Proof.
  refine (client_hears (B := Bytes) 2 sample_log sample empty_book idle_world 7 (newEgressAdapter []) _ _ _ _ _).
  - apply sample_ok.
  - apply sample_log_ok.
  - done.
  - done.
  - done.
Defined.
