(* ===== verification/Loadgen.v ===== *)
(** * cmd/loadgen/: the load generator

    [main] submits orders through the client and its [collector], which is
    the client's listener, measures how long the first report of each takes.
    Both sides change the same collector: in the model it is the listener
    inside the client's adapter.  The clock the collector reads and the
    pseudo-random numbers are type classes.  That clock is not related to the
    one of the client, so the theorems count and order latencies but say
    nothing of their size. *)
From S2P Require Import Prelude Marshal Codecs CodecLaws Service Client.

(** [time.Now], and the [Intn] of [math/rand]. *)
Class Clock (C : Type) : Type := { Now : C -> Z * C }.
Class Rand (G : Type) : Type := { Intn : Z -> G -> Z * G }.

Record collector : Type := mkCollector {
  col_submitted : gmap Z Z;
  col_latencies : list Z;
  col_acked : Z
}.
Definition new_collector : collector := mkCollector ∅ [] 0.

Section Collector.
Context {C : Type} `{Clock C}.

Definition collector_OnExecutionReport (e : ExecReport) (s : collector * C) : collector * C :=
  match col_submitted (fst s) !! xr_ClientOrderId e with
  | Some t0 =>
      let '(now, c) := Now (snd s) in
      (mkCollector (delete (xr_ClientOrderId e) (col_submitted (fst s)))
         (col_latencies (fst s) ++ [now - t0]) (int64 (col_acked (fst s) + 1)), c)
  | None => s
  end.

#[export] Instance collector_Listener : Listener (collector * C) := {
  OnExecutionReport := collector_OnExecutionReport;
  OnTrade _ s := s;
  OnBookUpdate _ s := s
}.

(** [col.submitted[id] = sendTime] *)
Definition col_submit (id sendTime : Z) (s : collector * C) : collector * C :=
  (mkCollector (<[id := sendTime]> (col_submitted (fst s))) (col_latencies (fst s)) (col_acked (fst s)),
   snd s).
End Collector.

(** ** Percentiles

    The index of a percentile is computed in [float64].  The three constants
    are below 1 and at least 1/2, so a constant is a number of 53 bits over
    2^53, and a product with an integer is rounded to 53 bits, to the nearest
    and to even between two. *)

Definition round53 (n : Z) : Z :=
  if n <? 2 ^ 53 then n
  else
    let s := Z.log2 n - 52 in
    let q := n / 2 ^ s in
    let r := n mod 2 ^ s in
    (if (2 ^ (s - 1) <? r) || ((2 ^ (s - 1) =? r) && Z.odd q) then q + 1 else q) * 2 ^ s.

(** 0.50, 0.99 and 0.999 as [float64], over 2^53. *)
Definition p50 : Z := 4503599627370496.
Definition p99 : Z := 8917127262193582.
Definition p999 : Z := 8998192055486251.

(** [int(p * float64(len(latencies)-1))] *)
Definition pct_index (p len : Z) : Z := round53 (p * round53 (len - 1)) / 2 ^ 53.

Definition pct {S} (p : Z) (latencies : list Z) : go S Z := fun s =>
  match latencies with
  | [] => Ok (0, s)
  | _ => match latencies !! Z.to_nat (pct_index p (Z.of_nat (length latencies))) with
         | Some d => Ok (d, s)
         | None => Panic IndexOutOfRange
         end
  end.

Section Main.
Context {B X C G : Type} `{AtomicBuffer B} `{!ClusterClient B X} `{Clock C} `{Rand G}.
Context (fuel : nat).

Abbreviation state := (Client (collector * C) * X * G)%type.
Abbreviation lg := (go state).

Definition on_client {A} (c : go (Client (collector * C) * X) A) : lg A := fun s =>
  match c (fst s) with
  | Ok (a, cx) => Ok (a, (cx, snd s))
  | Panic p => Panic p
  end.
Definition rand_Intn (n : Z) : lg Z := fun s => let '(r, g) := Intn n (snd s) in Ok (r, (fst s, g)).

(** An access to [col], the listener of the client. *)
Definition on_collector (f : collector * C -> collector * C) : lg unit :=
  go_modify (fun s => let '(c, x, g) := s in
    (mkClient (mkEgressAdapter (f (ea_listener (cl_adapter c))) (ea_marshaller (cl_adapter c))) (cl_opts c), x, g)).
Definition get_collector : lg collector :=
  go_gets (fun s => fst (ea_listener (cl_adapter (fst (fst s))))).

Definition load_side (i : Z) : Z :=
  if Z.rem i 2 =? 1 then ec_value Side_SELL else ec_value Side_BUY.

(** [for time.Now().Before(sendTime) { c.Poll() }] *)
Fixpoint wait_until (n : nat) (sendTime : Z) : lg unit :=
  match n with
  | O => go_panic Diverge
  | S n' =>
      now ← on_client (ac_world (time_Now (B := B)));
      if now <? sendTime then on_client (Poll (B := B));; wait_until n' sendTime else mret tt
  end.

(** The body of the loop over the orders. *)
Definition submit_order (interval start i : Z) : lg unit :=
  let side := load_side i in
  p ← rand_Intn 5;
  let price := int64 (100 + p - 2) in
  let id := int64 (i + 1) in
  now ← on_client (ac_world (time_Now (B := B)));
  sendTime ← (if 0 <? interval then
                let sendTime := start + int64 (i * interval) in wait_until fuel sendTime;; mret sendTime
              else mret now);
  on_collector (col_submit id sendTime);;
  q ← rand_Intn 10;
  err ← on_client (SubmitOrder (B := B) fuel id side price (int64 (q + 1)));
  match (err : option error) with
  | Some _ => go_panic (Raised "SubmitOrder")
  | None => on_client (Poll (B := B));; mret tt
  end.

Fixpoint submit_orders (n : nat) (interval start i : Z) : lg unit :=
  match n with
  | O => mret tt
  | S n' => submit_order interval start i;; submit_orders n' interval start (i + 1)
  end.

(** The loop that waits for the acknowledgements. *)
Fixpoint drain (n : nat) (orders deadline : Z) : lg unit :=
  match n with
  | O => go_panic Diverge
  | S n' =>
      col ← get_collector;
      if orders <=? col_acked col then mret tt
      else
        now ← on_client (ac_world (time_Now (B := B)));
        if deadline <? now then mret tt else on_client (Poll (B := B));; drain n' orders deadline
  end.

(** What [main] prints.  The rate it prints too is the quotient of
    [rp_acked] and [rp_elapsed]. *)
Record Report : Type := mkReport {
  rp_orders : Z;
  rp_acked : Z;
  rp_target : option Z;
  rp_elapsed : Z;
  rp_p50 : Z;
  rp_p99 : Z;
  rp_p999 : Z
}.

Definition run_load (orders rate : Z) : lg Report :=
  let interval := if 0 <? rate then Z.quot Second rate else 0 in
  start ← on_client (ac_world (time_Now (B := B)));
  submit_orders (Z.to_nat orders) interval start 0;;
  now ← on_client (ac_world (time_Now (B := B)));
  drain fuel orders (now + 30 * Second);;
  finished ← on_client (ac_world (time_Now (B := B)));
  col ← get_collector;
  let latencies := merge_sort Z.le (col_latencies col) in
  p50 ← pct p50 latencies;
  p99 ← pct p99 latencies;
  p999 ← pct p999 latencies;
  mret (mkReport orders (col_acked col) (if 0 <? rate then Some rate else None) (finished - start) p50 p99 p999).

(** The command line. *)
Record Flags : Type := mkFlags {
  fl_orders : Z;
  fl_rate : Z;
  fl_aeronDir : string;
  fl_ingress : string;
  fl_egress : string
}.
Definition default_flags (user : string) : Flags :=
  mkFlags 100000 0 ("/dev/shm/aeron-" ++ user) "0=localhost:20000" "localhost:0".

Definition loadgen_main (flags : Flags) (c : C) : go (X * G) Report := fun s =>
  match ConnectWithEgress (B := B) fuel (fl_aeronDir flags) (fl_ingress flags) (fl_egress flags)
          (new_collector, c) (fst s) with
  | Ok (inr _, _) => Panic (Raised "ConnectWithEgress")
  | Panic p => Panic p
  | Ok (inl client, x) =>
      match run_load (fl_orders flags) (fl_rate flags) (client, x, snd s) with
      | Ok (r, (client, x, g)) => Ok (r, (ac_Close (B := B) x, g))
      | Panic p => Panic p
      end
  end.
End Main.
