(* ===== verification/LoadgenLaws.v ===== *)
(** * The load generator: percentiles and the collector under the client

    The rounding of [float64] is monotone and exact on what fits in 53 bits,
    so the index of a percentile is always one of the list; and an invariant
    of a listener that its callbacks keep is kept by whatever the client
    does. *)
From S2P Require Import Prelude Marshal Codecs CodecLaws Service Client Loadgen.

(** ** Rounding *)

Lemma round53_exponent n :
  2 ^ 53 <= n -> let s := Z.log2 n - 52 in 1 <= s /\ 2 ^ 52 <= n / 2 ^ s < 2 ^ 53.
Proof.
  intros Hn s. destruct (Z.log2_spec n ltac:(lia)) as [H1 H2].
  assert (Hs : 1 <= s) by (pose proof (Z.log2_le_mono _ _ Hn) as H; rewrite Z.log2_pow2 in H by lia; unfold s; lia).
  assert (Hp : 0 < 2 ^ s) by (apply Z.pow_pos_nonneg; lia).
  replace (Z.log2 n) with (52 + s) in H1, H2 by (unfold s; lia).
  replace (Z.succ (52 + s)) with (53 + s) in H2 by lia. rewrite Z.pow_add_r in H1, H2 by lia.
  split_and!; [done|apply Z.div_le_lower_bound; lia|apply Z.div_lt_upper_bound; lia].
Qed.

Lemma round53_range n :
  2 ^ 53 <= n -> let s := Z.log2 n - 52 in 2 ^ (52 + s) <= round53 n <= 2 ^ (53 + s).
Proof.
  intros Hn s. destruct (round53_exponent n Hn) as (Hs & Hq1 & Hq2). fold s in Hs, Hq1, Hq2.
  assert (Hp : 0 < 2 ^ s) by (apply Z.pow_pos_nonneg; lia).
  rewrite !Z.pow_add_r by lia. unfold round53. destruct (Z.ltb_spec n (2 ^ 53)); [lia|]. fold s. cbv zeta.
  destruct (_ || _); nia.
Qed.

Lemma round53_small n : n < 2 ^ 53 -> round53 n = n.
Proof. intros Hn. unfold round53. by destruct (Z.ltb_spec n (2 ^ 53)); [|lia]. Qed.

(** In one binade the quotient decides, and then the remainder. *)
Lemma round_binade a b s :
  1 <= s -> a <= b ->
  let up n := (2 ^ (s - 1) <? n mod 2 ^ s) || ((2 ^ (s - 1) =? n mod 2 ^ s) && Z.odd (n / 2 ^ s)) in
  (if up a then a / 2 ^ s + 1 else a / 2 ^ s) <= (if up b then b / 2 ^ s + 1 else b / 2 ^ s).
Proof.
  intros Hs Hab up. assert (Hp : 0 < 2 ^ s) by (apply Z.pow_pos_nonneg; lia).
  pose proof (Z.div_le_mono a b (2 ^ s) Hp Hab) as Hq.
  destruct (Z.eq_dec (a / 2 ^ s) (b / 2 ^ s)) as [He|Hne]; [|destruct (up a), (up b); lia].
  assert (Hr : a mod 2 ^ s <= b mod 2 ^ s).
  { pose proof (Z.div_mod a (2 ^ s) ltac:(lia)). pose proof (Z.div_mod b (2 ^ s) ltac:(lia)). nia. }
  rewrite He. destruct (up a) eqn:Ha; [|destruct (up b); lia].
  enough (up b = true) as -> by lia. unfold up in *. rewrite He in Ha.
  destruct (Z.odd (b / 2 ^ s)); rewrite ?andb_true_r, ?andb_false_r, ?orb_false_r in *; lia.
Qed.

Lemma round53_mono a b : 0 <= a <= b -> round53 a <= round53 b.
Proof.
  intros [Ha Hab]. destruct (Z.ltb_spec b (2 ^ 53)) as [Hb|Hb]; [rewrite !round53_small; lia|].
  pose proof (round53_range b Hb) as Hrb. destruct (round53_exponent b Hb) as (Hsb & _).
  cbv zeta in Hrb. set (sb := Z.log2 b - 52) in *.
  destruct (Z.ltb_spec a (2 ^ 53)) as [Ha'|Ha'].
  { rewrite round53_small by done.
    assert (2 ^ 53 <= 2 ^ (52 + sb)) by (apply Z.pow_le_mono_r; lia). lia. }
  pose proof (round53_range a Ha') as Hra. destruct (round53_exponent a Ha') as (Hsa & _).
  cbv zeta in Hra. set (sa := Z.log2 a - 52) in *.
  assert (Hle : sa <= sb) by (pose proof (Z.log2_le_mono _ _ Hab); unfold sa, sb; lia).
  destruct (Z.eq_dec sa sb) as [He|Hne].
  - unfold round53. destruct (Z.ltb_spec a (2 ^ 53)); [lia|]. destruct (Z.ltb_spec b (2 ^ 53)); [lia|].
    fold sa sb. rewrite He. cbv zeta. apply Z.mul_le_mono_nonneg_r; [apply Z.pow_nonneg; lia|].
    by apply round_binade.
  - assert (2 ^ (53 + sa) <= 2 ^ (52 + sb)) by (apply Z.pow_le_mono_r; lia). lia.
Qed.

(** A number of 53 bits, scaled, is exact. *)
Lemma round53_scaled n : 0 <= n < 2 ^ 53 -> round53 (2 ^ 53 * n) = 2 ^ 53 * n.
Proof.
  intros [Hn0 Hn]. destruct (Z.eq_dec n 0) as [->|Hne]; [done|].
  unfold round53. destruct (Z.ltb_spec (2 ^ 53 * n) (2 ^ 53)); [lia|]. cbv zeta.
  set (s := Z.log2 (2 ^ 53 * n) - 52). assert (Hlog : Z.log2 (2 ^ 53 * n) = 53 + Z.log2 n).
  { rewrite Z.mul_comm. apply Z.log2_mul_pow2; lia. }
  assert (Hs : 1 <= s <= 53).
  { pose proof (Z.log2_nonneg n). assert (Z.log2 n < 53) by (apply Z.log2_lt_pow2; lia). unfold s. lia. }
  assert (Hd : 2 ^ 53 * n = (2 ^ (53 - s) * n) * 2 ^ s).
  { replace 53 with (53 - s + s) at 1 by lia. rewrite Z.pow_add_r by lia. lia. }
  assert (Hp : 0 < 2 ^ (s - 1)) by (apply Z.pow_pos_nonneg; lia).
  rewrite Hd. rewrite Z.mod_mul, Z.div_mul by (apply Z.pow_nonzero; lia).
  destruct (Z.ltb_spec (2 ^ (s - 1)) 0); [lia|]. destruct (Z.eqb_spec (2 ^ (s - 1)) 0); [lia|]. done.
Qed.

(** ** Percentiles *)

Lemma pct_index_range p len :
  0 <= p <= 2 ^ 53 -> 1 <= len <= 2 ^ 53 -> 0 <= pct_index p len <= len - 1.
Proof.
  intros Hp Hlen. unfold pct_index. rewrite (round53_small (len - 1)) by lia.
  assert (H1 : round53 (p * (len - 1)) <= 2 ^ 53 * (len - 1)).
  { rewrite <- (round53_scaled (len - 1)) by lia. apply round53_mono. nia. }
  assert (H0 : 0 <= round53 (p * (len - 1))).
  { change 0 with (round53 0). apply round53_mono. nia. }
  split; [apply Z.div_pos; lia|]. apply Z.div_le_upper_bound; lia.
Qed.

Lemma pct_index_mono p q len :
  0 <= p <= q -> 1 <= len <= 2 ^ 53 -> pct_index p len <= pct_index q len.
Proof.
  intros Hp Hlen. unfold pct_index. rewrite (round53_small (len - 1)) by lia.
  apply Z.div_le_mono; [lia|]. apply round53_mono. nia.
Qed.

Lemma sorted_lookup (l : list Z) i j x y :
  StronglySorted Z.le l -> (i <= j)%nat -> l !! i = Some x -> l !! j = Some y -> x <= y.
Proof.
  intros Hl. revert i j. induction Hl as [|z l _ IH Hz]; intros i j Hij Hi Hj; [done|].
  destruct i as [|i], j as [|j]; simpl in *; simplify_eq; try lia.
  - rewrite Forall_forall in Hz. apply Hz. by eapply list_elem_of_lookup_2.
  - apply (IH i j); [lia|done|done].
Qed.

(** ** What the callbacks keep, the client keeps *)

Section ListenerInv.
Context {L B X : Type} `{Listener L} `{AtomicBuffer B} `{!ClusterClient B X} (P : L -> Prop).
Hypothesis report_keeps : forall e l, P l -> P (OnExecutionReport e l).
Hypothesis trade_keeps : forall t l, P l -> P (OnTrade t l).
Hypothesis update_keeps : forall b l, P l -> P (OnBookUpdate b l).

Abbreviation cli := (go (Client L * X)).
Definition listener_of (s : Client L * X) : L := ea_listener (cl_adapter (fst s)).

Definition listens {A} (c : cli A) : Prop := forall s, P (listener_of s) ->
  match c s with Ok (_, s') => P (listener_of s') | Panic _ => True end.

Lemma listens_ret {A} (a : A) : listens (mret a).
Proof. by intros s Hs. Qed.
Lemma listens_bind {A A'} (c : cli A) (k : A -> cli A') :
  listens c -> (forall a, listens (k a)) -> listens (mbind k c).
Proof.
  intros Hc Hk s Hs. specialize (Hc s Hs). unfold mbind, go_bind. destruct (c s) as [[a s']|]; [|done].
  by apply Hk.
Qed.
Lemma listens_world {A} (c : X -> A * X) : listens (ac_world c).
Proof. intros s Hs. unfold ac_world. by destruct (c (snd s)). Qed.

Lemma egress_case_keeps {M} (dec : io (SbeGoMarshaller * Reader * M) unit) zero callback body (a : egressAdapter L) :
  (forall m l, P l -> P (callback m l)) -> P (ea_listener a) ->
  P (ea_listener (egress_case dec zero callback body a)).
Proof.
  intros Hcb Ha. unfold egress_case. destruct (dec _) as [[u|e] [[m' rd] msg]]; [by apply Hcb|done].
Qed.

Lemma onMessage_keeps (buffer : B) offset length (a : egressAdapter L) :
  P (ea_listener a) -> P (ea_listener (onMessage buffer offset length a)).
Proof.
  intros Ha. unfold onMessage. destruct (length <? 8); [done|]. cbv zeta.
  repeat (case_match; [apply egress_case_keeps; auto|]). done.
Qed.

Lemma listens_Poll : listens (Poll (B := B)).
Proof.
  intros s Hs. unfold Poll. destruct (ac_Poll (snd s)) as [[n calls] x]. unfold listener_of in *. simpl.
  revert Hs. generalize (cl_adapter (fst s)). induction calls as [|call calls IH]; intros a Ha; [done|].
  simpl. apply IH. destruct call; simpl; try done. by apply onMessage_keeps.
Qed.

Lemma listens_ingress_loop n payload deadline : listens (ingress_loop (B := B) n payload deadline).
Proof.
  induction n as [|n IH]; cbn [ingress_loop]; [done|].
  apply listens_bind; [apply listens_world|intros result]. destruct (0 <=? result); [apply listens_ret|].
  apply listens_bind; [apply listens_world|intros now]. destruct (deadline <? now); [apply listens_ret|].
  apply listens_bind; [|done]. apply listens_bind; [apply listens_Poll|]. intros k. apply listens_world.
Qed.

Lemma listens_ingress_offer {M} `{SbeMessage M} fuel (msg : M) : listens (ingress_offer (B := B) fuel msg).
Proof.
  unfold ingress_offer.
  destruct ((MessageHeader_Encode (frame_header M);; Encode msg true) (NewSbeGoMarshaller, ([] : Buffer)))
    as [[u|e] [m buf]]; [|apply listens_ret].
  apply listens_bind; [apply listens_world|]. intros now. apply listens_ingress_loop.
Qed.
End ListenerInv.

(** ** The collector *)

(** With [k] orders registered: at most so many latencies, counting those still
    to come, and one for each acknowledged order. *)
Definition col_inv {C} (k : Z) (s : collector * C) : Prop :=
  Z.of_nat (length (col_latencies (fst s))) + Z.of_nat (size (col_submitted (fst s))) <= k /\
  col_acked (fst s) = Z.of_nat (length (col_latencies (fst s))).

Lemma col_inv_report {C} `{Clock C} k e (s : collector * C) :
  k <= MaxInt64 -> col_inv k s -> col_inv k (collector_OnExecutionReport e s).
Proof.
  intros Hk [H1 H2]. unfold collector_OnExecutionReport.
  destruct (col_submitted (fst s) !! xr_ClientOrderId e) as [t0|] eqn:Ht; [|done].
  destruct (Now (snd s)) as [now c].
  pose proof (map_size_delete_Some _ _ (mk_is_Some _ _ Ht)) as Hsz.
  assert (Hpos : (size (col_submitted (fst s)) <> 0)%nat) by (by eapply map_size_ne_0_lookup_2).
  unfold col_inv. simpl. rewrite Hsz, length_app. simpl.
  rewrite sint_id; [|done|unfold is_sint, MaxInt64 in *; lia]. lia.
Qed.

Lemma col_inv_submit {C} k id t (s : collector * C) : col_inv k s -> col_inv (k + 1) (col_submit id t s).
Proof.
  intros [H1 H2]. unfold col_inv, col_submit. simpl.
  destruct (col_submitted (fst s) !! id) eqn:Hid;
    [rewrite map_size_insert_Some by done|rewrite map_size_insert_None by done]; lia.
Qed.

(** ** Code that may stop with an expected panic *)

Definition wpe {S A} (E : panic -> Prop) (c : go S A) (Q : A -> S -> Prop) (s : S) : Prop :=
  match c s with
  | Ok (a, s') => Q a s'
  | Panic p => E p
  end.

Lemma wpe_bind {S A B} E (c : go S A) (k : A -> go S B) Q s :
  wpe E c (fun a => wpe E (k a) Q) s -> wpe E (mbind k c) Q s.
Proof. unfold wpe, mbind, go_bind. by destruct (c s) as [[a s']|p]. Qed.

Lemma wpe_mono {S A} E (c : go S A) (P Q : A -> S -> Prop) s :
  wpe E c P s -> (forall a s', P a s' -> Q a s') -> wpe E c Q s.
Proof. unfold wpe. destruct (c s) as [[a s']|p]; eauto. Qed.
