(* ===== verification/LoadgenTheorems.v ===== *)
(** * The load generator: its theorems

    Its collector counts every order once, the orders it makes are valid and
    all reach the cluster, in order and at any rate, and it ends with a
    report whose percentiles are latencies. *)
From S2P Require Import Prelude Events OrderBook BookSpec BookRep BookOps BookRefine BookProps Engine.
From S2P Require Import Marshal Codecs CodecLaws CodecTheorems Snapshot SnapshotLaws.
From S2P Require Import Service ServiceLaws ServiceRefine ServiceTheorems Client ClientTheorems Loadgen LoadgenLaws.

(** ** The collector *)

Section Collector.
Context {C : Type} `{Clock C}.

(** An order is registered, or a report arrives. *)
Inductive col_event : Type :=
  | Submitted (id sendTime : Z)
  | Reported (e : ExecReport).

Definition col_step (s : collector * C) (ev : col_event) : collector * C :=
  match ev with
  | Submitted id t => col_submit id t s
  | Reported e => OnExecutionReport e s
  end.

Definition submitted_ids (evs : list col_event) : list Z :=
  evs ≫= (fun ev => match ev with Submitted id _ => [id] | Reported _ => [] end).

(** The ids that were registered and have not been reported since. *)
Definition outstanding (ids : gset Z) (ev : col_event) : gset Z :=
  match ev with
  | Submitted id _ => {[ id ]} ∪ ids
  | Reported e => ids ∖ {[ xr_ClientOrderId e ]}
  end.

Lemma collector_run evs : forall (s : collector * C),
  NoDup (submitted_ids evs) -> (forall id, id ∈ submitted_ids evs -> col_submitted (fst s) !! id = None) ->
  Z.of_nat (size (col_submitted (fst s))) + Z.of_nat (length (submitted_ids evs)) + col_acked (fst s) <= MaxInt64 ->
  0 <= col_acked (fst s) -> Z.of_nat (length (col_latencies (fst s))) = col_acked (fst s) ->
  let s' := foldl col_step s evs in
  dom (col_submitted (fst s')) = foldl outstanding (dom (col_submitted (fst s))) evs /\
  col_acked (fst s') + Z.of_nat (size (col_submitted (fst s'))) =
    col_acked (fst s) + Z.of_nat (size (col_submitted (fst s))) + Z.of_nat (length (submitted_ids evs)) /\
  Z.of_nat (length (col_latencies (fst s'))) = col_acked (fst s').
Proof.
  induction evs as [|[id t|e] evs IH]; intros s Hnd Hnew Hmax Hpos Hlat.
  - simpl. split_and!; [done|lia|done].
  - change (submitted_ids (Submitted id t :: evs)) with (id :: submitted_ids evs) in *.
    apply NoDup_cons in Hnd as [Hid Hnd]. cbn [foldl length] in *.
    assert (Hn : col_submitted (fst s) !! id = None) by (apply Hnew; set_solver).
    assert (Hsz : size (col_submitted (fst (col_step s (Submitted id t)))) = S (size (col_submitted (fst s)))).
    { simpl. by rewrite map_size_insert_None. }
    destruct (IH (col_step s (Submitted id t)) Hnd) as (H1 & H2 & H3).
    + intros id' Hin. simpl. rewrite lookup_insert_ne by (by intros ->). apply Hnew. set_solver.
    + change (col_acked (fst (col_step s (Submitted id t)))) with (col_acked (fst s)). lia.
    + done.
    + done.
    + change (col_acked (fst (col_step s (Submitted id t)))) with (col_acked (fst s)) in H2.
      rewrite Hsz in H2. split_and!; [|lia|done].
      rewrite H1. simpl. by rewrite dom_insert_L.
  - change (submitted_ids (Reported e :: evs)) with (submitted_ids evs) in *. cbn [foldl].
    simpl col_step. simpl outstanding. unfold collector_OnExecutionReport.
    destruct (col_submitted (fst s) !! xr_ClientOrderId e) as [t0|] eqn:Ht.
    2: { replace (dom _ ∖ _) with (dom (col_submitted (fst s))); [by apply IH|].
         apply not_elem_of_dom in Ht. set_solver. }
    destruct (Now (snd s)) as [now c].
    pose proof (map_size_delete_Some _ _ (mk_is_Some _ _ Ht)) as Hsz.
    assert (Hpos' : (size (col_submitted (fst s)) <> 0)%nat) by (by eapply map_size_ne_0_lookup_2).
    assert (Hack : int64 (col_acked (fst s) + 1) = col_acked (fst s) + 1).
    { apply sint_id; [done|]. unfold is_sint, MaxInt64 in *. lia. }
    rewrite Hack. set (s1 := (mkCollector _ _ _, c)). destruct (IH s1 Hnd) as (H1 & H2 & H3); unfold s1 in *; simpl in *.
    + intros id Hin. apply lookup_delete_None. right. by apply Hnew.
    + rewrite Hsz. lia.
    + lia.
    + rewrite length_app, Nat2Z.inj_add. simpl. lia.
    + rewrite Hsz in H2. split_and!; [by rewrite H1, dom_delete_L|lia|done].
Qed.

(** C31: The collector counts every order once: whatever the order in which
    orders with distinct ids are registered and reports arrive, repeated or
    of unknown orders too, the ids it still waits for are those registered
    and not reported since, it has acknowledged all the others, and it has one
    latency for each. *)
Theorem collector_exact evs (c : C) :
  NoDup (submitted_ids evs) -> Z.of_nat (length (submitted_ids evs)) <= MaxInt64 ->
  let col := fst (foldl col_step (new_collector, c) evs) in
  dom (col_submitted col) = foldl outstanding ∅ evs /\
  col_acked col = Z.of_nat (length (submitted_ids evs)) - Z.of_nat (size (foldl outstanding ∅ evs)) /\
  Z.of_nat (length (col_latencies col)) = col_acked col.
Proof.
  intros Hnd Hmax col.
  destruct (collector_run evs (new_collector, c) Hnd) as (H1 & H2 & H3); try done.
  { cbn [new_collector fst col_submitted col_acked]. rewrite map_size_empty. lia. }
  assert (Hd : dom (col_submitted col) = foldl outstanding ∅ evs).
  { etrans; [exact H1|]. simpl. by rewrite dom_empty_L. }
  split_and!; [done| |exact H3]. rewrite <- Hd, size_dom. cbn [new_collector fst col_submitted col_acked] in H2.
  rewrite map_size_empty in H2. fold col in H2. lia.
Qed.
End Collector.

(** ** The load *)

(** [Intn] returns a number in range. *)
Class LawfulRand (G : Type) {HG : Rand G} : Prop :=
  Intn_range : forall n g, 0 < n -> 0 <= fst (Intn n g) < n.

(** The clock advances by at least [ptick] while the client polls. *)
Class PollingClient (B X : Type) {HX : ClusterClient B X} {tick : Z} {HL : LawfulClient B X tick}
    (ptick : Z) : Prop := {
  ptick_pos : 0 < ptick;
  ac_Poll_tick : forall x, clock x + ptick <= clock (snd (ac_Poll (B := B) x))
}.

Section Load.
Context {B X C G : Type} `{HB : AtomicBuffer B} `{HL : LawfulClient B X tick} `{!PollingClient B X ptick}.
Context `{HC : Clock C} `{HR : LawfulRand G}.

(** The orders of a load, from the [i]-th on. *)
Fixpoint load (n : nat) (i : Z) (g : G) : list NewOrder * G :=
  match n with
  | O => ([], g)
  | S n' =>
      let '(p, g) := Intn 5 g in
      let '(q, g) := Intn 10 g in
      let '(rest, g) := load n' (i + 1) g in
      (mkNewOrder (i + 1) (if Z.even i then Buy else Sell) (98 + p) (1 + q) :: rest, g)
  end.

(** An order of the load passes its range check and the checks of the engine. *)
Definition load_valid (x : NewOrder) : Prop :=
  msg_ok (NewOrderMsg x) /\ 98 <= no_Price x <= 102 /\ 1 <= no_Qty x <= 10 /\
  (no_Side x = Buy \/ no_Side x = Sell).

Lemma load_order_valid i b p q :
  0 <= i < MaxInt64 -> 0 <= p < 5 -> 0 <= q < 10 ->
  load_valid (mkNewOrder (i + 1) (if (b : bool) then Buy else Sell) (98 + p) (1 + q)).
Proof.
  intros Hi Hp Hq. assert (Ht : NewOrder_typed (mkNewOrder (i + 1) (if b then Buy else Sell) (98 + p) (1 + q))).
  { unfold NewOrder_typed, is_sint, MaxInt64, Buy, Sell in *. simpl. destruct b; lia. }
  split_and!; simpl; try lia; [|by destruct b; [left|right]].
  split; [done|]. unfold NewOrder_RangeCheck. destruct Ht as (H1' & H2' & H3' & H4').
  split_checks; simpl; try (apply check_int64_none; [done|done|]; unfold MinInt64 in *; lia).
  apply side_check_none. by destruct b; [left|right; left].
Qed.

Lemma load_all_valid n : forall i g, 0 <= i -> i + Z.of_nat n <= MaxInt64 -> Forall load_valid (fst (load n i g)).
Proof.
  induction n as [|n IH]; intros i g Hi Hn; [constructor|]. cbn [load].
  pose proof (Intn_range 5 g eq_refl) as Hp. destruct (Intn 5 g) as [p g1]. cbn [fst] in Hp.
  pose proof (Intn_range 10 g1 eq_refl) as Hq. destruct (Intn 10 g1) as [q g2]. cbn [fst] in Hq.
  specialize (IH (i + 1) g2 ltac:(lia) ltac:(lia)). destruct (load n (i + 1) g2) as [rest g3].
  cbn [fst]. constructor; [apply load_order_valid; lia|done].
Qed.

(** The side, price and quantity as the source computes them. *)
Lemma load_side_even i : 0 <= i -> load_side i = if Z.even i then Buy else Sell.
Proof.
  intros Hi. unfold load_side. rewrite Z.rem_mod_nonneg, Zmod_odd, <- Z.negb_odd by lia.
  by destruct (Z.odd i).
Qed.

(** *** The loops *)

Abbreviation state := (Client (collector * C) * X * G)%type.
Abbreviation failed := (fun w => w = Raised "SubmitOrder").

(** The collector has registered [k] orders, the cluster has taken the frames
    [F], the clock is past [T] and the generator is at [g]. *)
Definition tracks (k : Z) (F : list (list Z)) (T : Z) (g : G) (s : state) : Prop :=
  let '(c, x, g') := s in
  col_inv k (ea_listener (cl_adapter c)) /\ ingested x = F /\ T <= clock x /\ g' = g.

Definition collected (s : state) : collector := fst (ea_listener (cl_adapter (fst (fst s)))).

Lemma tracks_later k F T T' g s : tracks k F T' g s -> T <= T' -> tracks k F T g s.
Proof. destruct s as [[c x] g']. intros (? & ? & ? & ?) ?. split_and!; try done. lia. Qed.

Lemma now_spec k F T g s :
  tracks k F T g s ->
  wpe failed (on_client (ac_world (time_Now (B := B)))) (fun now s' => T <= now /\ tracks k F now g s' /\
    collected s' = collected s /\ clock (snd (fst s)) <= clock (snd (fst s'))) s.
Proof.
  destruct s as [[c x] g']. intros (H1 & H2 & H3 & H4). unfold wpe, on_client, ac_world. cbn [fst snd].
  pose proof (time_Now_law x) as [Hn1 Hn2]. destruct (time_Now x) as [now x']. cbn [fst snd] in *.
  split_and!; [lia| |done|simpl; lia]. split_and!; [done|congruence|lia|done].
Qed.

Lemma listens_inv {A} (m : go (Client (collector * C) * X) A) k c x r c' x' :
  listens (col_inv k) m -> col_inv k (ea_listener (cl_adapter c)) -> m (c, x) = Ok (r, (c', x')) ->
  col_inv k (ea_listener (cl_adapter c')).
Proof. intros Hm Hc Heq. specialize (Hm (c, x) Hc). by rewrite Heq in Hm. Qed.

Lemma poll_spec k F T g s :
  k <= MaxInt64 -> tracks k F T g s ->
  wpe failed (on_client (Poll (B := B))) (fun _ s' => tracks k F (T + ptick) g s') s.
Proof.
  destruct s as [[c x] g']. intros Hk (H1 & H2 & H3 & H4). unfold wpe, on_client. cbn [fst snd].
  assert (Hl : listens (X := X) (col_inv k) (Poll (L := collector * C) (B := B))).
  { apply listens_Poll; [|done|done]. intros e l. by apply col_inv_report. }
  destruct (Poll (c, x)) as [[n [c' x']]|w] eqn:Hp; [|unfold Poll in Hp; by destruct (ac_Poll _) as [[]]].
  pose proof (listens_inv _ _ _ _ _ _ _ Hl H1 Hp) as H1'.
  pose proof (ac_Poll_law x) as [Hx1 _]. pose proof (ac_Poll_tick x) as Hx2.
  unfold Poll in Hp. cbn [fst snd] in Hp. destruct (ac_Poll x) as [[m calls] x1]. cbn [fst snd] in *.
  injection Hp as _ _ ->. split_and!; [done|congruence|lia|done].
Qed.

Lemma wait_spec k F g sendTime n : forall T s,
  k <= MaxInt64 -> sendTime <= T + ptick * Z.of_nat n -> tracks k F T g s ->
  wpe failed (wait_until (B := B) (S n) sendTime) (fun _ s' => tracks k F T g s') s.
Proof.
  pose proof ptick_pos as Hp.
  induction n as [|n IH]; intros T s Hk Hn Hs; cbn [wait_until];
    (apply wpe_bind; eapply wpe_mono; [by apply now_spec|]); intros now s1 (Hnow & H1 & _);
    (destruct (Z.ltb_spec now sendTime) as [Hlt|Hge]; [|by eapply tracks_later]); [lia|].
  apply wpe_bind. eapply wpe_mono; [by apply poll_spec|]. intros k2 s2 H2.
  eapply wpe_mono; [apply (IH (now + ptick) s2); [done|lia|exact H2]|].
  intros k3 s3 H3. eapply tracks_later; [exact H3|lia].
Qed.

(** Wrapping never increases a nonnegative duration. *)
Lemma int64_le z : 0 <= z -> int64 z <= z.
Proof.
  intros Hz. unfold sint. destruct (Z.leb_spec (2 ^ 63) z).
  - pose proof (Z.mod_pos_bound (z + 2 ^ (64 - 1)) (2 ^ 64) eq_refl).
    change (2 ^ (64 - 1)) with (2 ^ 63) in *. lia.
  - rewrite Z.mod_small; lia.
Qed.

(** A message that passes its range check. *)
Lemma send_spec fuel (msg : NewOrder) k F T g s :
  10 * Second < tick * (Z.of_nat fuel - 1) -> k <= MaxInt64 -> NewOrder_RangeCheck msg 1 1 = None ->
  tracks k F T g s ->
  wpe failed (err ← on_client (ingress_offer (B := B) fuel msg);
              match (err : option error) with
              | Some _ => go_panic (Raised "SubmitOrder")
              | None => on_client (Poll (B := B));; mret tt
              end) (fun _ s' => tracks k (F ++ [frame_of msg]) T g s') s.
Proof.
  destruct s as [[c x] g']. intros Hfuel Hk Hrc (Hc & Hx & Ht & ->). pose proof ptick_pos as Hpt.
  apply wpe_bind. unfold wpe at 1, on_client at 1. cbn [fst snd].
  destruct (ingress_offer_returns fuel msg c x Hfuel) as (r & c' & x' & Hrun & Hr). rewrite Hrun.
  unfold sent in Hr. change (RangeCheck msg (SbeSchemaVersion NewOrder) (SbeSchemaVersion NewOrder))
    with (NewOrder_RangeCheck msg 1 1) in Hr. rewrite Hrc in Hr. destruct Hr as [Hcl Hr].
  destruct r as [err|]; [done|].
  assert (Hc' : col_inv k (ea_listener (cl_adapter c'))).
  { eapply listens_inv; [|exact Hc|exact Hrun]. apply listens_ingress_offer; [|done|done].
    intros e l. by apply col_inv_report. }
  apply wpe_bind. eapply wpe_mono; [apply (poll_spec k (F ++ [frame_of msg]) T g); [done|]|].
  - split_and!; [done|congruence|lia|done].
  - intros ? s6 H6. eapply tracks_later; [exact H6|lia].
Qed.

Lemma submit_order_spec fuel interval start i k F T (s : state) p g1 q g2 :
  10 * Second < tick * (Z.of_nat fuel - 1) -> i * interval <= ptick * (Z.of_nat fuel - 1) ->
  0 <= interval -> start <= T -> 0 <= i < MaxInt64 -> k < MaxInt64 ->
  Intn 5 (snd s) = (p, g1) -> Intn 10 g1 = (q, g2) -> tracks k F T (snd s) s ->
  wpe failed (submit_order (B := B) fuel interval start i) (fun _ s' =>
    tracks (k + 1) (F ++ [frame_of (mkNewOrder (i + 1) (if Z.even i then Buy else Sell) (98 + p) (1 + q))])
      T g2 s') s.
Proof.
  intros Hfuel Hint Hi0 Hst Hi Hk Hp Hq Hs. pose proof ptick_pos as Hpt.
  pose proof (Intn_range 5 (snd s) eq_refl) as Rp. rewrite Hp in Rp. cbn [fst] in Rp.
  pose proof (Intn_range 10 g1 eq_refl) as Rq. rewrite Hq in Rq. cbn [fst] in Rq.
  assert (Hw : forall z, 0 <= z <= MaxInt64 -> int64 z = z).
  { intros z Hz. apply sint_id; [done|]. unfold is_sint, MaxInt64 in *. lia. }
  destruct s as [[c x] g]. cbn [snd] in *. unfold submit_order. cbv zeta.
  apply wpe_bind. unfold wpe at 1, rand_Intn at 1. cbn [fst snd]. rewrite Hp.
  assert (H1 : tracks k F T g1 (c, x, g1)) by (destruct Hs as (? & ? & ? & _); by split_and!).
  apply wpe_bind. eapply wpe_mono; [by apply now_spec|]. intros now s2 (Hnow & H2 & _).
  apply wpe_bind. eapply (wpe_mono _ _ (fun _ s' => tracks k F T g1 s')).
  { destruct (0 <? interval); [|by eapply tracks_later].
    apply wpe_bind. assert (Hf : exists n, fuel = S n) by (destruct fuel as [|n]; [unfold Second in *; nia|by exists n]).
    destruct Hf as [n ->]. eapply wpe_mono; [apply (wait_spec k F g1 _ n now); [lia| |done]|].
    - pose proof (int64_le (i * interval) ltac:(nia)). lia.
    - intros ? s3 H3. exact (tracks_later _ _ _ _ _ _ H3 Hnow). }
  intros sendTime s3 H3. apply wpe_bind. destruct s3 as [[c3 x3] g3]. destruct H3 as (Hc3 & Hx3 & Ht3 & ->).
  unfold wpe at 1, on_collector at 1, go_modify at 1.
  set (c4 := mkClient (mkEgressAdapter (col_submit _ _ _) _) _).
  assert (Hc4 : col_inv (k + 1) (ea_listener (cl_adapter c4))) by by apply col_inv_submit.
  apply wpe_bind. unfold wpe at 1, rand_Intn at 1. cbn [fst snd]. rewrite Hq.
  rewrite load_side_even, !Hw by (unfold MaxInt64 in *; lia).
  replace (100 + p - 2) with (98 + p) by lia. replace (q + 1) with (1 + q) by lia.
  set (msg := mkNewOrder _ _ _ _). unfold SubmitOrder. fold msg.
  apply send_spec; [done|lia| |by split_and!].
  by destruct (load_order_valid i (Z.even i) p q Hi Rp Rq) as ((_ & Hrc) & _).
Qed.

Lemma submit_orders_spec fuel interval start n : forall i k F T (s : state),
  10 * Second < tick * (Z.of_nat fuel - 1) -> (i + Z.of_nat n) * interval <= ptick * (Z.of_nat fuel - 1) ->
  0 <= interval -> start <= T -> 0 <= i -> i + Z.of_nat n <= MaxInt64 -> k + Z.of_nat n <= MaxInt64 ->
  tracks k F T (snd s) s ->
  wpe failed (submit_orders (B := B) fuel n interval start i) (fun _ s' =>
    tracks (k + Z.of_nat n) (F ++ (frame_of <$> fst (load n i (snd s)))) T (snd (load n i (snd s))) s') s.
Proof.
  induction n as [|n IH]; intros i k F T s Hfuel Hint H0 Hst Hi Hn Hk Hs.
  { cbn [load fst snd]. unfold wpe. simpl. rewrite app_nil_r, Z.add_0_r. done. }
  cbn [submit_orders load]. destruct (Intn 5 (snd s)) as [p g1] eqn:Hp. destruct (Intn 10 g1) as [q g2] eqn:Hq.
  apply wpe_bind. eapply wpe_mono; [apply (submit_order_spec fuel interval start i k F T s p g1 q g2); try done; try lia; nia|].
  intros ? s1 H1. assert (Hg : snd s1 = g2) by (destruct s1 as [[c x] g]; by destruct H1 as (_ & _ & _ & ->)).
  cbn beta in H1. subst g2. eapply wpe_mono; [eapply (IH (i + 1) (k + 1)); [..|exact H1]; try done; lia|].
  intros ? s2 H2. destruct (load n (i + 1) (snd s1)) as [rest g3]. cbn [fst snd] in *.
  rewrite fmap_cons. rewrite <- app_assoc in H2. replace (k + Z.of_nat (S n)) with (k + 1 + Z.of_nat n) by lia. done.
Qed.

Lemma drain_spec orders deadline k F g n : forall T s,
  k <= MaxInt64 -> deadline < T + ptick * Z.of_nat n -> tracks k F T g s ->
  wpe failed (drain (B := B) (S n) orders deadline) (fun _ s' =>
    tracks k F T g s' /\ (orders <= col_acked (collected s') \/ deadline < clock (snd (fst s')))) s.
Proof.
  pose proof ptick_pos as Hp.
  induction n as [|n IH]; intros T s Hk Hn Hs; cbn [drain]; apply wpe_bind; unfold wpe at 1, get_collector at 1, go_gets at 1;
    fold (collected s);
    (destruct (Z.leb_spec orders (col_acked (collected s))); [split; [done|by left]|]);
    (apply wpe_bind; eapply wpe_mono; [by apply now_spec|]); intros now s1 (Hnow & H1 & _);
    (destruct (Z.ltb_spec deadline now) as [Hlt|Hge];
     [split; [by eapply tracks_later|right; destruct s1 as [[c x] g1]; destruct H1 as (_ & _ & ? & _); simpl; lia]|]);
    [lia|].
  apply wpe_bind. eapply wpe_mono; [by apply poll_spec|]. intros ? s2 H2.
  eapply wpe_mono; [apply (IH (now + ptick) s2); [done|lia|exact H2]|].
  intros ? s3 [H3 H3']. split; [|done]. eapply tracks_later; [exact H3|lia].
Qed.

(** *** The report *)

(** A percentile is one of the latencies, and they are in order. *)
Definition percentiles_of (l : list Z) (r : Report) : Prop :=
  match l with
  | [] => rp_p50 r = 0 /\ rp_p99 r = 0 /\ rp_p999 r = 0
  | _ => rp_p50 r ∈ l /\ rp_p99 r ∈ l /\ rp_p999 r ∈ l /\ rp_p50 r <= rp_p99 r <= rp_p999 r
  end.

Lemma pct_returns {S} p (l : list Z) (s : S) :
  l <> [] -> 0 <= p <= 2 ^ 53 -> Z.of_nat (length l) <= 2 ^ 53 ->
  exists d, pct p l s = Ok (d, s) /\ l !! Z.to_nat (pct_index p (Z.of_nat (length l))) = Some d.
Proof.
  intros Hne Hp Hl. assert (Hlen : (0 < length l)%nat) by (destruct l; [done|simpl; lia]).
  pose proof (pct_index_range p (Z.of_nat (length l)) Hp ltac:(lia)) as Hi.
  destruct (lookup_lt_is_Some_2 l (Z.to_nat (pct_index p (Z.of_nat (length l))))) as [d Hd]; [lia|].
  exists d. split; [|done]. unfold pct. destruct l; [done|]. by rewrite Hd.
Qed.

Lemma report_spec lat orders acked target elapsed (s : state) :
  Z.of_nat (length lat) <= 2 ^ 53 ->
  wpe failed (a ← pct p50 (merge_sort Z.le lat); b ← pct p99 (merge_sort Z.le lat);
              c ← pct p999 (merge_sort Z.le lat); mret (mkReport orders acked target elapsed a b c))
    (fun r s' => s' = s /\ rp_acked r = acked /\ percentiles_of lat r) s.
Proof.
  intros Hlen. destruct lat as [|d lat]; [done|].
  pose proof (merge_sort_Permutation Z.le (d :: lat)) as Hperm.
  pose proof (StronglySorted_merge_sort Z.le (d :: lat)) as Hsort.
  set (l := merge_sort Z.le (d :: lat)) in *. apply Permutation_length in Hperm as Hpl.
  assert (Hne : l <> []) by (intros E; by rewrite E in Hpl).
  assert (Hl : Z.of_nat (length l) <= 2 ^ 53) by lia.
  destruct (pct_returns p50 l s Hne ltac:(done) Hl) as (a & Ea & Ha).
  destruct (pct_returns p99 l s Hne ltac:(done) Hl) as (b & Eb & Hb).
  destruct (pct_returns p999 l s Hne ltac:(done) Hl) as (c & Ec & Hc).
  unfold wpe. rewrite (go_bind_ok _ _ _ _ _ Ea), (go_bind_ok _ _ _ _ _ Eb), (go_bind_ok _ _ _ _ _ Ec).
  assert (Hidx : 1 <= Z.of_nat (length l)) by (destruct l; [done|simpl; lia]).
  pose proof (pct_index_mono p50 p99 (Z.of_nat (length l)) ltac:(done) ltac:(lia)).
  pose proof (pct_index_mono p99 p999 (Z.of_nat (length l)) ltac:(done) ltac:(lia)).
  split; [done|]. split; [done|]. unfold percentiles_of. simpl rp_p50. simpl rp_p99. simpl rp_p999.
  rewrite <- Hperm. split_and!; try (by eapply list_elem_of_lookup_2).
  - eapply (sorted_lookup l); [exact Hsort| |exact Ha|exact Hb]. lia.
  - eapply (sorted_lookup l); [exact Hsort| |exact Hb|exact Hc]. lia.
Qed.

(** The state [s'] and the report [r] at the end of a load that began in [s]. *)
Definition load_done (orders : Z) (s : state) (r : Report) (s' : state) : Prop :=
  ingested (snd (fst s')) =
    ingested (snd (fst s)) ++ (frame_of <$> fst (load (Z.to_nat orders) 0 (snd s))) /\
  rp_acked r = Z.of_nat (length (col_latencies (collected s'))) /\ rp_acked r <= orders /\
  (rp_acked r = orders \/ clock (snd (fst s)) + 30 * Second < clock (snd (fst s'))) /\
  percentiles_of (col_latencies (collected s')) r.

(** The pace of a rate. *)
Definition pace (rate : Z) : Z := if 0 <? rate then Z.quot Second rate else 0.

Lemma pace_nonneg rate : 0 <= pace rate.
Proof. unfold pace. destruct (Z.ltb_spec 0 rate); [|done]. apply Z.quot_pos; unfold Second; lia. Qed.

Lemma tracks_gen k F T g s : tracks k F T g s -> snd s = g.
Proof. destruct s as [[c x] g']. by intros (_ & _ & _ & ->). Qed.

Lemma run_load_spec n orders rate (s : state) :
  10 * Second < tick * Z.of_nat n -> 30 * Second < ptick * Z.of_nat n ->
  orders * pace rate <= ptick * Z.of_nat n -> 0 <= orders <= 2 ^ 53 ->
  tracks 0 (ingested (snd (fst s))) (clock (snd (fst s))) (snd s) s ->
  wpe failed (run_load (B := B) (S n) orders rate) (load_done orders s) s.
Proof.
  intros Hfuel Hdrain Hrate Horders Hs. pose proof ptick_pos as Hp. pose proof (pace_nonneg rate) as Hpace.
  unfold run_load. cbv zeta. fold (pace rate).
  apply wpe_bind. eapply wpe_mono; [exact (now_spec _ _ _ _ _ Hs)|]. intros start s1 (Hst & H1 & _).
  pose proof (tracks_gen _ _ _ _ _ H1) as Hg1. apply wpe_bind. rewrite <- Hg1 in H1.
  eapply wpe_mono; [eapply (submit_orders_spec (S n)); [..|exact H1]; unfold MaxInt64; try done; try lia; nia|].
  intros ? s2 H2. cbn beta in H2. rewrite Hg1, Z2Nat.id, Z.add_0_l in H2 by lia.
  apply wpe_bind. eapply wpe_mono; [exact (now_spec _ _ _ _ _ H2)|]. intros now s3 (Hnow & H3 & _).
  apply wpe_bind. eapply wpe_mono; [eapply (drain_spec orders _ orders); [..|exact H3]; unfold MaxInt64; lia|].
  intros ? s4 [H4 Hend]. apply wpe_bind. eapply wpe_mono; [exact (now_spec _ _ _ _ _ H4)|].
  intros finished s5 (Hfin & H5 & Hcol & Hclk).
  apply wpe_bind. unfold wpe at 1, get_collector at 1, go_gets at 1. fold (collected s5).
  assert (Hinv : col_inv orders (collected s5, tt)).
  { destruct s5 as [[c x] g]. by destruct H5 as (Hc & _). }
  destruct Hinv as [Hlen Hack]. cbn [fst] in Hlen, Hack.
  eapply wpe_mono; [apply report_spec; lia|]. intros r s6 (-> & Hr & Hpct). split_and!; try congruence; try lia.
  - destruct s5 as [[c x] g]. by destruct H5 as (_ & ? & _).
  - destruct Hend as [Hend|Hend]; [left; rewrite <- Hcol in Hend|right]; lia.
Qed.

(** C30: The load completes: [main], once connected, either stops with the
    error of a submission that timed out, or returns its report, at any rate
    and whatever arrives from the cluster.  Then the cluster was handed
    exactly the frames of the load, in order, every one of them an order with
    the next id that alternates sides, is priced from 98 to 102, is for 1 to
    10 units and passes the range check of the codec; every order was
    acknowledged or thirty seconds have passed; there is one latency for each
    acknowledged order; and the three percentiles, whose indices are computed
    in floating point, are latencies, in increasing order, or zero when there
    are none. *)
Theorem load_completes fuel orders rate (s : state) :
  10 * Second < tick * (Z.of_nat fuel - 1) -> 30 * Second < ptick * (Z.of_nat fuel - 1) ->
  orders * pace rate <= ptick * (Z.of_nat fuel - 1) ->
  0 <= orders <= 2 ^ 53 -> collected s = new_collector ->
  Forall load_valid (fst (load (Z.to_nat orders) 0 (snd s))) /\
  match run_load (B := B) fuel orders rate s with
  | Ok (r, s') => load_done orders s r s'
  | Panic w => w = Raised "SubmitOrder"
  end.
Proof.
  intros Hfuel Hdrain Hrate Horders Hnew. split; [apply load_all_valid; unfold MaxInt64; lia|].
  pose proof ptick_pos as Hp. destruct fuel as [|n]; [unfold Second in *; nia|].
  replace (Z.of_nat (S n) - 1) with (Z.of_nat n) in * by lia. apply run_load_spec; try done.
  destruct s as [[c x] g]. unfold collected in Hnew. cbn [fst snd] in *.
  split_and!; try done; unfold col_inv; rewrite Hnew; done.
Qed.
End Load.

(** ** Concrete runs *)

(** A clock that ticks and a generator that counts. *)
#[export] Instance counting_Clock : Clock Z := {| Now c := (c, c + 1) |}.
#[export] Instance counting_Rand : Rand Z := {| Intn n g := (g mod n, g + 1) |}.
#[export] Instance counting_LawfulRand : LawfulRand Z.
Proof. intros n g Hn. by apply Z.mod_pos_bound. Qed.

Definition report_for (id : Z) : ExecReport := mkExecReport 1 id 0 0 0 0 0 0 0.

(** Order 2 is reported twice, order 3 not at all, order 9 is not known. *)
Lemma collector_exact_witness :
  let evs := [Submitted 1 100; Submitted 2 101; Reported (report_for 2); Reported (report_for 9);
              Submitted 3 102; Reported (report_for 2); Reported (report_for 1)] in
  let col := fst (foldl col_step (new_collector, 200) evs) in
  dom (col_submitted col) = foldl outstanding ∅ evs /\ col_acked col = 2 /\
  Z.of_nat (length (col_latencies col)) = col_acked col.
Proof.
  refine (collector_exact [Submitted 1 100; Submitted 2 101; Reported (report_for 2); Reported (report_for 9);
            Submitted 3 102; Reported (report_for 2); Reported (report_for 1)] 200 _ _).
  - apply (bool_decide_unpack _). by vm_compute.
  - done.
Defined.

Definition load_client : Client (collector * Z) := mkClient (newEgressAdapter (new_collector, 0)) (client_options "" "").

#[export] Instance ClientWorld_Polling : PollingClient Bytes ClientWorld Second.
Proof. split; [done|]. intros x. simpl. lia. Qed.

(** Three orders, two a second, to a cluster that never answers. *)
Lemma load_completes_witness :
  Forall load_valid (fst (load 3 0 4)) /\
  match run_load (B := Bytes) 40 3 2 (load_client, mkClientWorld [] 0 0, 4) with
  | Ok (r, s') => load_done 3 (load_client, mkClientWorld [] 0 0, 4) r s'
  | Panic w => w = Raised "SubmitOrder"
  end.
Proof.
  apply (load_completes (B := Bytes) 40 3 2 (load_client, mkClientWorld [] 0 0, 4)); done.
Defined.

(** A cluster that takes every order and reports one of them at each poll. *)
Record EchoWorld : Type := mkEchoWorld {
  ew_ingested : list (list Z);
  ew_clock : Z;
  ew_reported : nat
}.
#[export] Instance EchoWorld_Client : ClusterClient Bytes EchoWorld := {
  NewAeronCluster _ _ x := (None, x);
  ac_IsConnected x := true;
  ac_Offer p x := (0, mkEchoWorld (ew_ingested x ++ [p]) (ew_clock x) (ew_reported x));
  ac_Poll x :=
    if (ew_reported x <? length (ew_ingested x))%nat then
      let frame := frame_of (mkExecutionReport 1 (Z.of_nat (ew_reported x) + 1) 0 0 0 100 1 0 0) in
      ((1, [CallOnMessage 0 frame 0 (Z.of_nat (length frame))]),
       mkEchoWorld (ew_ingested x) (ew_clock x + Second) (S (ew_reported x)))
    else ((0, []), mkEchoWorld (ew_ingested x) (ew_clock x + Second) (ew_reported x));
  ac_Close x := x;
  ac_Idle _ x := mkEchoWorld (ew_ingested x) (ew_clock x + Second) (ew_reported x);
  time_Now x := (ew_clock x, x)
}.

Example load_echoed :
  match run_load (B := Bytes) 40 4 0 (load_client, mkEchoWorld [] 0 0, 4) with
  | Ok (r, _) => rp_acked r = 4 /\ rp_target r = None
  | Panic _ => False
  end.
Proof. by vm_compute. Qed.

(** The product with 0.999 is rounded: the index is 999, not 998. *)
Example pct_index_rounds :
  pct_index p50 1000 = 499 /\ pct_index p99 1000 = 989 /\ pct_index p999 1001 = 999.
Proof. by vm_compute. Qed.
