(* ===== verification/Host.v ===== *)
(** * The host the programs run on

    What the system tests and the engine process use of the packages os,
    os/exec and time: the environment, a file system, child processes with
    signals, and a clock.  A child is started from a [program]: when it exits
    by itself, how it reacts to signals and what it does to the file system
    are the choice of the program, which is not part of the repository.  The
    host is a timed state: whoever waits moves the clock, and a child that
    has exited by then is reaped.  The calls that can fail do so as the class
    [Platform] says. *)
From Stdlib Require Import Ascii.
From stdpp Require Import strings pretty.
From S2P Require Import Prelude Marshal.

#[global] Open Scope Z_scope.

(** ** Commands and programs *)

(** [syscall.SysProcAttr], of which [Pdeathsig] is used. *)
Record SysProcAttr : Type := mkSysProcAttr { sp_Pdeathsig : Z }.
Definition SIGKILL : Z := 9.
Definition SIGTERM : Z := 15.

(** [exec.Cmd]: the command line, and the file that receives its output. *)
Record Cmd : Type := mkCmd {
  cmd_Args : list string;
  cmd_Stdout : option string;
  cmd_Stderr : option string;
  cmd_SysProcAttr : option SysProcAttr
}.
(** [exec.Command(args...)] *)
Definition Command (args : list string) : Cmd := mkCmd args None None None.

(** What a started child does: the time after which it exits by itself, if
    it does; the time it takes to exit after SIGTERM, if it obeys, and after
    SIGKILL; and what it has done to the files by the time it has exited. *)
Record program : Type := mkProgram {
  pg_lifetime : option Z;
  pg_on_term : option Z;
  pg_on_kill : Z;
  pg_files : gset string -> gset string
}.

(** A child: when it will exit, and whether it has been waited for. *)
Record proc : Type := mkProc {
  pr_cmd : Cmd;
  pr_program : program;
  pr_exit_at : option Z;
  pr_done : bool
}.

(** ** The state *)

Record Host : Type := mkHost {
  h_env : gmap string string;
  h_pid : Z;
  h_files : gset string;
  (** files held open *)
  h_open : gset string;
  h_procs : list proc;
  h_now : Z;
  (** how many outcomes were drawn from the [Platform] *)
  h_draws : nat
}.

Definition set_files (fs : gset string) (h : Host) : Host :=
  mkHost (h_env h) (h_pid h) fs (h_open h) (h_procs h) (h_now h) (h_draws h).
Definition set_open (fs : gset string) (h : Host) : Host :=
  mkHost (h_env h) (h_pid h) (h_files h) fs (h_procs h) (h_now h) (h_draws h).
Definition set_procs (ps : list proc) (h : Host) : Host :=
  mkHost (h_env h) (h_pid h) (h_files h) (h_open h) ps (h_now h) (h_draws h).
Definition set_draws (n : nat) (h : Host) : Host :=
  mkHost (h_env h) (h_pid h) (h_files h) (h_open h) (h_procs h) (h_now h) n.

Definition set_exit_at (t : option Z) (p : proc) : proc :=
  mkProc (pr_cmd p) (pr_program p) t (pr_done p).

(** What the host leaves open: the [n]-th outcome of a system call, the
    names drawn at random, the programs that are started, and whether a
    [SysProcAttr] has the field [Pdeathsig]. *)
Class Platform : Type := {
  sys_error : nat -> option error;
  random_name : nat -> string;
  started_program : list string -> nat -> program;
  has_Pdeathsig : bool
}.

(** ** Time and children *)

(** Waiting for a child: it is reaped, what it did to the files is there, and
    its output is closed. *)
Definition reap_proc (h : Host) (i : nat) : Host :=
  match h_procs h !! i with
  | Some p =>
      mkHost (h_env h) (h_pid h) (pg_files (pr_program p) (h_files h))
        (match cmd_Stdout (pr_cmd p) with Some f => h_open h ∖ {[f]} | None => h_open h end)
        (<[i := mkProc (pr_cmd p) (pr_program p) (pr_exit_at p) true]> (h_procs h)) (h_now h) (h_draws h)
  | None => h
  end.

(** The child exits by the time [t] and has not been waited for. *)
Definition is_due (t : Z) (p : proc) : bool :=
  negb (pr_done p) && match pr_exit_at p with Some e => e <=? t | None => false end.

Definition due_procs (t : Z) (ps : list proc) : list nat :=
  fst <$> filter (fun ip => is_due t (snd ip) = true) (imap pair ps).

(** The clock moves on to [t]; the children that exited by then are reaped. *)
Definition advance_to (t : Z) (h : Host) : Host :=
  let h := foldl reap_proc h (due_procs t (h_procs h)) in
  mkHost (h_env h) (h_pid h) (h_files h) (h_open h) (h_procs h) (Z.max t (h_now h)) (h_draws h).

Section Calls.
Context `{Platform}.

Abbreviation os := (go Host).

Definition Sleep (d : Z) : os unit := go_modify (fun h => advance_to (h_now h + d) h).

Definition draw {A} (f : nat -> A) : os A := fun h =>
  Ok (f (h_draws h), set_draws (S (h_draws h)) h).

(** ** Environment and files *)

(** [os.Getenv]: the empty string where the variable is not set. *)
Definition Getenv (key : string) : os string := go_gets (fun h => default EmptyString (h_env h !! key)).
(** [_, err := os.Stat(path)], as [err == nil]. *)
Definition StatOk (path : string) : os bool := go_gets (fun h => bool_decide (path ∈ h_files h)).

(** The path and the directories above it. *)
Fixpoint path_prefixes (seen path : string) : list string :=
  match path with
  | EmptyString => [seen]
  | String c path' =>
      (if bool_decide (c = "/"%char) && negb (bool_decide (seen = EmptyString)) then [seen] else []) ++
      path_prefixes (seen +:+ String c EmptyString) path'
  end.

Definition MkdirAll (path : string) : os (option error) :=
  err ← draw sys_error;
  match (err : option error) with
  | Some e => mret (Some e)
  | None => go_modify (fun h => set_files (list_to_set (path_prefixes EmptyString path) ∪ h_files h) h);;
            mret None
  end.

(** A path is [dir] or inside it. *)
Definition under (dir path : string) : bool :=
  bool_decide (path = dir) || String.prefix (dir +:+ "/") path.

Definition RemoveAll (dir : string) : os (option error) :=
  err ← draw sys_error;
  match (err : option error) with
  | Some e => mret (Some e)
  | None => go_modify (fun h => set_files (filter (fun f => under dir f = false) (h_files h)) h);;
            mret None
  end.

Definition TempDir : os string :=
  dir ← Getenv "TMPDIR"; mret (if bool_decide (dir = EmptyString) then "/tmp" else dir).

(** [joinPath] of package os. *)
Definition joinPath (dir name : string) : string :=
  if bool_decide (String.substring (String.length dir - 1) 1 dir = "/") then dir +:+ name
  else dir +:+ "/" +:+ name.

(** [filepath.Dir] of a clean path: what is before the last slash. *)
Fixpoint dir_loop (seen dir path : string) : string :=
  match path with
  | EmptyString => dir
  | String c path' =>
      dir_loop (seen +:+ String c EmptyString) (if bool_decide (c = "/"%char) then seen else dir) path'
  end.
Definition Dir (path : string) : string :=
  let dir := dir_loop EmptyString EmptyString path in
  if bool_decide (dir = EmptyString) then (if String.prefix "/" path then "/" else ".") else dir.

(** [os.MkdirTemp("", pattern)]: a random suffix, drawn again while the name
    is taken, ten thousand times at most. *)
Fixpoint mkdir_temp (n : nat) (path : string) : os (string + error) :=
  match n with
  | O => mret (inr (OtherError "mkdirtemp: file exists" 0))
  | S n' =>
      suffix ← draw random_name;
      let name := path +:+ suffix in
      taken ← StatOk name;
      if (taken : bool) then mkdir_temp n' path
      else go_modify (fun h => set_files ({[name]} ∪ h_files h) h);; mret (inl name)
  end.
Definition MkdirTemp (pattern : string) : os (string + error) :=
  err ← draw sys_error;
  match (err : option error) with
  | Some e => mret (inr e)
  | None => dir ← TempDir; mkdir_temp (Z.to_nat 10000) (joinPath dir pattern)
  end.

(** [os.Create]: the file exists and is open. *)
Definition Create (path : string) : os (option error) :=
  err ← draw sys_error;
  match (err : option error) with
  | Some e => mret (Some e)
  | None => go_modify (fun h => set_open ({[path]} ∪ h_open h) (set_files ({[path]} ∪ h_files h) h));;
            mret None
  end.
Definition CloseFile (path : string) : os unit := go_modify (fun h => set_open (h_open h ∖ {[path]}) h).

(** ** Processes *)

(** [cmd.Start()]: the child is numbered by its place in [h_procs]. *)
Definition Start (cmd : Cmd) : os (nat + error) :=
  err ← draw sys_error;
  match (err : option error) with
  | Some e => mret (inr e)
  | None =>
      pg ← draw (started_program (cmd_Args cmd));
      i ← go_gets (fun h => length (h_procs h));
      go_modify (fun h => set_procs (h_procs h ++
        [mkProc cmd pg ((fun d => h_now h + d) <$> pg_lifetime pg) false]) h);;
      mret (inl i)
  end.

(** The earlier of two times, [None] being never. *)
Definition earliest (a b : option Z) : option Z :=
  match a, b with
  | Some x, Some y => Some (Z.min x y)
  | Some x, None => Some x
  | None, b => b
  end.

(** [cmd.Process.Signal(sig)], [Kill] being SIGKILL: an error when the child
    has been waited for; a parent may signal its children. *)
Definition Signal (i : nat) (sig : Z) : os (option error) := fun h =>
  match h_procs h !! i with
  | None => Panic NilDereference
  | Some p =>
      if pr_done p then Ok (Some (OtherError "os: process already finished" 0), h)
      else
        let delay := if sig =? SIGKILL then Some (pg_on_kill (pr_program p)) else pg_on_term (pr_program p) in
        Ok (None, set_procs (<[i := set_exit_at (earliest (pr_exit_at p) ((fun d => h_now h + d) <$> delay)) p]>
                               (h_procs h)) h)
  end.

(** [<-exited]: until the child has been waited for; for ever if it never
    exits. *)
Definition await_exit (i : nat) : os unit := fun h =>
  match h_procs h !! i with
  | None => Panic NilDereference
  | Some p =>
      if pr_done p then Ok (tt, h)
      else match pr_exit_at p with
           | Some t => Ok (tt, advance_to t h)
           | None => Panic Diverge
           end
  end.

(** [select { case <-exited: case <-time.After(d): }]: whether the child
    exited in time. *)
Definition await_exit_or (i : nat) (d : Z) : os bool := fun h =>
  match h_procs h !! i with
  | None => Panic NilDereference
  | Some p =>
      if pr_done p then Ok (true, h)
      else
        let late := advance_to (h_now h + d) h in
        match pr_exit_at p with
        | Some t => if t <=? h_now h + d then Ok (true, advance_to t h) else Ok (false, late)
        | None => Ok (false, late)
        end
  end.
End Calls.
