(* ===== verification/Harness.v ===== *)
(** * systest/harness.go: the driver under the system tests

    The harness runs a Java ClusteredMediaDriver as a child process on the
    [Host]: it picks its ports and directories, starts it, waits until it
    answers, stops it and starts it again over the same directories.  The
    Aeron library and the tools of the jar are the class [Aeron]. *)
From stdpp Require Import strings pretty.
From S2P Require Import Prelude Marshal Host.

(** The library: the [n]-th call of [Connect] takes a time and fails or
    returns a connection, [Close] may fail, and a command of the jar that is
    run to its end takes a time and prints something. *)
Class Aeron : Type := {
  DefaultAeronDir : string;
  UserName : string;
  uuid_New : nat -> string;
  aeron_Connect : string -> nat -> Z * option error;
  cxn_Close : nat -> option error;
  run_tool : list string -> nat -> Z * (string * option error)
}.

Definition defaultJarName : string := "aeron-all-1.52.0.jar".
Definition clusteredMediaDriverClassName : string := "io.aeron.cluster.ClusteredMediaDriver".

(** [%d] *)
Abbreviation dec := (pretty (A := Z)).

Record ClusteredMediaDriver : Type := mkDriver {
  d_AeronDir : string;
  d_ClusterDir : string;
  d_ArchiveDir : string;
  d_IngressEndpoint : string;
  d_LogPath : string;
  d_basePort : Z;
  d_memberId : Z;
  d_clusterMembers : string;
  (** the child; [exited] is closed when it has been waited for *)
  d_proc : nat
}.

Section Harness.
Context `{Platform} `{Aeron}.

Abbreviation os := (go Host).

(** [driverInstances.Add(1) - 1], an [int32], as an [int]; the counter is a
    variable of the package. *)
Definition nextBasePort : go (Host * Z) Z := fun s =>
  let added := int32 (snd s + 1) in
  let instance := int32 (added - 1) in
  Ok (20000 + Z.rem (h_pid (fst s)) 100 * 120 + Z.rem instance 6 * 20, (fst s, added)).

Definition jarPath : os string :=
  path ← Getenv "AERON_ALL_JAR";
  mret (if bool_decide (path = EmptyString) then defaultJarName else path).

Definition JarAvailable : os (string * bool) :=
  path ← jarPath; ok ← StatOk path; mret (path, ok).

Definition memberEndpoints (memberId basePort : Z) : string :=
  dec memberId +:+ ",localhost:" +:+ dec basePort +:+ ",localhost:" +:+ dec (basePort + 1) +:+
  ",localhost:" +:+ dec (basePort + 2) +:+ ",localhost:" +:+ dec (basePort + 3) +:+
  ",localhost:" +:+ dec (basePort + 10).

Definition Exited (driver : ClusteredMediaDriver) : os bool := fun h =>
  match h_procs h !! d_proc driver with
  | Some p => Ok (pr_done p, h)
  | None => Panic NilDereference
  end.

Definition Shutdown (driver : ClusteredMediaDriver) : os unit :=
  Signal (d_proc driver) SIGTERM;;
  exited ← await_exit_or (d_proc driver) (15 * Second);
  if (exited : bool) then mret tt
  else Signal (d_proc driver) SIGKILL;; await_exit (d_proc driver).

(** The loop that removes the directories; an error is only logged. *)
Fixpoint remove_dirs (dirs : list string) : os unit :=
  match dirs with
  | [] => mret tt
  | dir :: dirs' => RemoveAll dir;; remove_dirs dirs'
  end.

Definition Stop (driver : ClusteredMediaDriver) : os unit :=
  Signal (d_proc driver) SIGKILL;;
  await_exit (d_proc driver);;
  remove_dirs [d_AeronDir driver; d_ClusterDir driver; d_ArchiveDir driver].

(** The loop of [awaitMediaDriverReady].  Every turn but the last sleeps for
    50 ms, so 201 turns reach the deadline. *)
Fixpoint ready_loop (n : nat) (driver : ClusteredMediaDriver) (deadline : Z) : os (option error) :=
  match n with
  | O => go_panic Diverge
  | S n' =>
      now ← go_gets h_now;
      if now <? deadline then
        '(took, err) ← draw (aeron_Connect (d_AeronDir driver));
        Sleep took;;
        match (err : option error) with
        | None => draw cxn_Close
        | Some _ => Sleep (50 * Millisecond);; ready_loop n' driver deadline
        end
      else mret (Some (OtherError "timed out waiting for ClusteredMediaDriver to start" 0))
  end.
Definition awaitMediaDriverReady (driver : ClusteredMediaDriver) : os (option error) :=
  now ← go_gets h_now; ready_loop 201 driver (now + 10 * Second).

(** Without the field [Pdeathsig] the attributes stay as they are. *)
Definition setupPdeathsig (cmd : Cmd) : Cmd :=
  let attr := default (mkSysProcAttr 0) (cmd_SysProcAttr cmd) in
  let attr := if has_Pdeathsig then mkSysProcAttr SIGTERM else attr in
  mkCmd (cmd_Args cmd) (cmd_Stdout cmd) (cmd_Stderr cmd) (Some attr).

Definition driver_args (memberId : Z) (clusterMembers aeronDir clusterDir archiveDir : string)
    (basePort : Z) (jar : string) : list string :=
  let archiveControl := "aeron:udp?endpoint=localhost:" +:+ dec (basePort + 10) in
  ["java";
   "--add-opens=java.base/sun.nio.ch=ALL-UNNAMED";
   "--add-exports=java.base/jdk.internal.misc=ALL-UNNAMED";
   "-XX:+UnlockDiagnosticVMOptions";
   "-XX:GuaranteedSafepointInterval=300000";
   "-Daeron.dir=" +:+ aeronDir;
   "-Daeron.dir.delete.on.start=true";
   "-Daeron.dir.delete.on.shutdown=true";
   "-Daeron.threading.mode=SHARED";
   "-Daeron.client.liveness.timeout=" +:+ dec Minute;
   "-Daeron.publication.unblock.timeout=" +:+ dec (15 * Minute);
   "-Daeron.archive.dir=" +:+ archiveDir;
   "-Daeron.archive.control.channel=" +:+ archiveControl;
   "-Daeron.archive.replication.channel=aeron:udp?endpoint=localhost:0";
   "-Daeron.archive.threading.mode=SHARED";
   "-Daeron.cluster.dir=" +:+ clusterDir;
   "-Daeron.cluster.members=" +:+ clusterMembers;
   "-Daeron.cluster.member.id=" +:+ dec memberId;
   "-Daeron.cluster.ingress.channel=aeron:udp?term-length=64k";
   "-Daeron.cluster.replication.channel=aeron:udp?endpoint=localhost:0";
   "-Daeron.cluster.service.count=1";
   "-cp";
   jar;
   clusteredMediaDriverClassName].

(** The goroutine up to [started]: a child that does not start leaves its log
    closed.  The rest of it is what the host does when the child exits. *)
Definition start_child (cmd : Cmd) (logPath : string) : os (nat + error) :=
  r ← Start cmd;
  match (r : nat + error) with
  | inr err => CloseFile logPath;; mret (inr err)
  | inl i => mret (inl i)
  end.

Definition launchDriver (memberId : Z) (clusterMembers aeronDir clusterDir archiveDir : string)
    (basePort : Z) : os (ClusteredMediaDriver + error) :=
  '(jar, ok) ← JarAvailable;
  if negb ok then mret (inr (OtherError ("aeron-all jar not found at " +:+ jar) 0))
  else
    let cmd := Command (driver_args memberId clusterMembers aeronDir clusterDir archiveDir basePort jar) in
    id ← draw uuid_New;
    let logPath := Dir clusterDir +:+ "/driver-" +:+ String.substring 0 8 id +:+ ".log" in
    err ← Create logPath;
    match (err : option error) with
    | Some err => mret (inr err)
    | None =>
        let cmd := setupPdeathsig (mkCmd (cmd_Args cmd) (Some logPath) (Some logPath) (cmd_SysProcAttr cmd)) in
        started ← start_child cmd logPath;
        match (started : nat + error) with
        | inr err => mret (inr err)
        | inl proc =>
            let driver := mkDriver aeronDir clusterDir archiveDir ("localhost:" +:+ dec basePort) logPath
                            basePort memberId clusterMembers proc in
            err ← awaitMediaDriverReady driver;
            match (err : option error) with
            | Some err => Stop driver;; mret (inr err)
            | None => mret (inl driver)
            end
        end
    end.

Definition launchNode (memberId : Z) (clusterMembers : string) (basePort : Z)
    : os (ClusteredMediaDriver + error) :=
  id ← draw uuid_New;
  let aeronDir := DefaultAeronDir +:+ "/aeron-" +:+ UserName +:+ "/" +:+ id +:+ "/driver" in
  r ← MkdirTemp "aeron-go-cluster-systest";
  match (r : string + error) with
  | inr err => mret (inr err)
  | inl baseDir =>
      let clusterDir := baseDir +:+ "/cluster" in
      let archiveDir := baseDir +:+ "/archive" in
      err ← MkdirAll clusterDir;
      match (err : option error) with
      | Some err => mret (inr err)
      | None => launchDriver memberId clusterMembers aeronDir clusterDir archiveDir basePort
      end
  end.

Definition Restart (driver : ClusteredMediaDriver) : os (ClusteredMediaDriver + error) :=
  launchDriver (d_memberId driver) (d_clusterMembers driver) (d_AeronDir driver)
    (d_ClusterDir driver) (d_ArchiveDir driver) (d_basePort driver).

Definition on_host {A} (c : os A) : go (Host * Z) A := fun s =>
  match c (fst s) with
  | Ok (a, h) => Ok (a, (h, snd s))
  | Panic p => Panic p
  end.

Definition StartClusteredMediaDriver : go (Host * Z) (ClusteredMediaDriver + error) :=
  basePort ← nextBasePort;
  on_host (launchNode 0 (memberEndpoints 0 basePort) basePort).

(** [tool.CombinedOutput()] runs the tool to its end. *)
Definition ClusterTool (driver : ClusteredMediaDriver) (command : string) : os (string * option error) :=
  '(jar, _) ← JarAvailable;
  '(took, out) ← draw (run_tool
    ["java";
     "--add-opens=java.base/sun.nio.ch=ALL-UNNAMED";
     "--add-exports=java.base/jdk.internal.misc=ALL-UNNAMED";
     "-cp"; jar;
     "io.aeron.cluster.ClusterTool";
     d_ClusterDir driver;
     command]);
  Sleep took;;
  mret out.
End Harness.
