(* ===== verification/HarnessTheorems.v ===== *)
(** * The system test harness: its theorems

    The ports of the drivers, what a launch leaves behind, and the life cycle
    of a driver, on every host and for every program that is started. *)
From stdpp Require Import strings pretty.
From S2P Require Import Prelude Marshal Host Harness.

(** ** Time on the host *)

Definition mark_done (p : proc) : proc := mkProc (pr_cmd p) (pr_program p) (pr_exit_at p) true.

(** A child later on: the same program, and one that was waited for stays
    so. *)
Definition child_step (p p' : proc) : Prop :=
  pr_cmd p' = pr_cmd p /\ pr_program p' = pr_program p /\ (pr_done p = true -> p' = p).

#[export] Instance child_step_preorder : PreOrder child_step.
Proof.
  split; [by intros p|]. intros p q r (H1 & H2 & H3) (H4 & H5 & H6). split_and!; [congruence..|].
  intros Hp. specialize (H3 Hp). subst q. auto.
Qed.

(** What may happen to the host while the harness waits or signals. *)
Record elapses (h h' : Host) : Prop := mkElapses {
  el_env : h_env h' = h_env h;
  el_pid : h_pid h' = h_pid h;
  el_procs : Forall2 child_step (h_procs h) (h_procs h');
  el_open : h_open h' ⊆ h_open h;
  el_now : h_now h <= h_now h';
  (** the log of a child that was waited for meanwhile is closed *)
  el_log : forall i p p' f, h_procs h !! i = Some p -> h_procs h' !! i = Some p' ->
    pr_done p = false -> pr_done p' = true -> cmd_Stdout (pr_cmd p) = Some f -> f ∉ h_open h'
}.

Lemma elapses_child h h' i p :
  elapses h h' -> h_procs h !! i = Some p -> exists p', h_procs h' !! i = Some p' /\ child_step p p'.
Proof. intros Hel Hp. by apply (Forall2_lookup_l _ _ _ _ _ (el_procs _ _ Hel)). Qed.

(** Nothing happens to the children. *)
Lemma elapses_same h h' :
  h_env h' = h_env h -> h_pid h' = h_pid h -> h_procs h' = h_procs h -> h_open h' ⊆ h_open h ->
  h_now h <= h_now h' -> elapses h h'.
Proof. intros H1 H2 H3 H4 H5. constructor; try done; rewrite H3; [reflexivity|congruence]. Qed.

#[export] Instance elapses_preorder : PreOrder elapses.
Proof.
  split.
  - intros h. by apply elapses_same.
  - intros h1 h2 h3 H12 H23. pose proof H12 as []. pose proof H23 as [].
    constructor; [congruence|congruence|by etrans|by etrans|lia|].
    intros i p p' f Hp Hp' Hd Hd' Hf. destruct (elapses_child _ _ _ _ H12 Hp) as (q & Hq & (Hc & _)).
    destruct (pr_done q) eqn:Hdq; [|apply (el_log _ _ H23 i q p'); congruence].
    assert (f ∉ h_open h2); [by apply (el_log _ _ H12 i p q)|set_solver].
Qed.

(** A program that never removes the file [f]. *)
Definition keeps (f : string) (p : proc) : Prop :=
  forall fs : gset string, f ∈ fs -> f ∈ pg_files (pr_program p) fs.

(** Files that no running program removes are still there. *)
Definition retains (h h' : Host) : Prop :=
  forall f, Forall (keeps f) (h_procs h) -> f ∈ h_files h -> f ∈ h_files h'.

#[export] Instance retains_refl : Reflexive retains.
Proof. by intros h f. Qed.

Lemma elapses_keeps f h h' :
  elapses h h' -> Forall (keeps f) (h_procs h) <-> Forall (keeps f) (h_procs h').
Proof.
  intros Hel. induction (el_procs _ _ Hel) as [|p p' ps ps' (_ & Hp & _) _ IH]; [done|].
  rewrite !Forall_cons, IH. unfold keeps. by rewrite Hp.
Qed.

Lemma retains_trans h1 h2 h3 : elapses h1 h2 -> retains h1 h2 -> retains h2 h3 -> retains h1 h3.
Proof. intros Hel H1 H2 f Hk Hf. apply H2; [by rewrite <- elapses_keeps|auto]. Qed.

(** ** Reaping *)

Lemma reap_procs h i j :
  h_procs (reap_proc h i) !! j = (if decide (j = i) then mark_done else id) <$> h_procs h !! j.
Proof.
  unfold reap_proc. destruct (h_procs h !! i) as [p|] eqn:Hp; simpl.
  - case_decide as Hj; subst.
    + rewrite list_lookup_insert_eq by (by eapply lookup_lt_Some). by rewrite Hp.
    + rewrite list_lookup_insert_ne by done. by destruct (_ !! j).
  - case_decide; subst; [by rewrite Hp|by destruct (_ !! j)].
Qed.

Lemma reap_all_procs l : forall h j,
  h_procs (foldl reap_proc h l) !! j = (if decide (j ∈ l) then mark_done else id) <$> h_procs h !! j.
Proof.
  induction l as [|i l IH]; intros h j; cbn [foldl].
  { rewrite decide_False by set_solver. by destruct (_ !! j). }
  rewrite IH, reap_procs. destruct (h_procs h !! j) as [p|]; [|done]. cbn [fmap option_fmap option_map].
  repeat case_decide; set_solver.
Qed.

Lemma elem_of_due t ps i : i ∈ due_procs t ps <-> exists p, ps !! i = Some p /\ is_due t p = true.
Proof.
  unfold due_procs. rewrite list_elem_of_fmap. split.
  - intros ([j p] & -> & Hj). apply list_elem_of_filter in Hj as [Hd Hj].
    apply elem_of_lookup_imap in Hj as (k & q & [= -> ->] & Hk). by exists q.
  - intros (p & Hp & Hd). exists (i, p). split; [done|]. apply list_elem_of_filter.
    split; [done|]. apply elem_of_lookup_imap. by exists i, p.
Qed.

Lemma advance_procs t h :
  h_procs (advance_to t h) = (fun p => if is_due t p then mark_done p else p) <$> h_procs h.
Proof.
  apply list_eq. intros i. unfold advance_to. cbn [h_procs]. rewrite reap_all_procs, list_lookup_fmap.
  destruct (h_procs h !! i) as [p|] eqn:Hp; [|done]. simpl. f_equal.
  case_decide as Hin; rewrite elem_of_due in Hin.
  - destruct Hin as (q & Hq & Hd). rewrite Hp in Hq. simplify_eq. by rewrite Hd.
  - destruct (is_due t p) eqn:Hd; [|done]. destruct Hin. by exists p.
Qed.

Lemma reap_frame l : forall h, let h' := foldl reap_proc h l in
  h_env h' = h_env h /\ h_pid h' = h_pid h /\ h_open h' ⊆ h_open h /\ h_now h' = h_now h /\
  h_draws h' = h_draws h /\ retains h h'.
Proof.
  induction l as [|i l IH]; intros h; cbn [foldl]; [by split_and!|].
  assert (Hr : h_env (reap_proc h i) = h_env h /\ h_pid (reap_proc h i) = h_pid h /\
    h_open (reap_proc h i) ⊆ h_open h /\ h_now (reap_proc h i) = h_now h /\
    h_draws (reap_proc h i) = h_draws h /\ retains h (reap_proc h i) /\
    (forall f, Forall (keeps f) (h_procs h) -> Forall (keeps f) (h_procs (reap_proc h i)))).
  { unfold reap_proc. destruct (h_procs h !! i) as [p|] eqn:Hp; [|by split_and!].
    split_and!; try done; simpl.
    - destruct (cmd_Stdout (pr_cmd p)); set_solver.
    - intros f Hk Hf. eapply Forall_lookup_1 in Hk; [|exact Hp]. by apply Hk.
    - intros f Hk. apply Forall_insert; [done|]. exact (Forall_lookup_1 _ _ _ _ Hk Hp). }
  destruct Hr as (R1 & R2 & R3 & R4 & R5 & R6 & R7).
  destruct (IH (reap_proc h i)) as (H1 & H2 & H3 & H4 & H5 & H6).
  split_and!; try congruence; [by etrans|]. intros f Hk Hf. apply H6; auto.
Qed.

Lemma advance_child t p : child_step p (if is_due t p then mark_done p else p).
Proof.
  unfold is_due. destruct (pr_done p) eqn:Hp; simpl; [done|].
  destruct (match pr_exit_at p with Some e => e <=? t | None => false end); [|done].
  split_and!; [done|done|]. by rewrite Hp.
Qed.

Lemma advance_retains t h : retains h (advance_to t h).
Proof. destruct (reap_frame (due_procs t (h_procs h)) h) as (_ & _ & _ & _ & _ & H6). exact H6. Qed.

(** A child whose time has come is waited for, and its log is closed. *)
Lemma advance_reaps t h i p :
  h_procs h !! i = Some p -> is_due t p = true -> h_procs (advance_to t h) !! i = Some (mark_done p).
Proof. intros Hp Hd. by rewrite advance_procs, list_lookup_fmap, Hp; simpl; rewrite Hd. Qed.

Lemma reap_closes l : forall h i p f,
  i ∈ l -> h_procs h !! i = Some p -> cmd_Stdout (pr_cmd p) = Some f -> f ∉ h_open (foldl reap_proc h l).
Proof.
  induction l as [|j l IH]; intros h i p f Hin Hp Hf; [set_solver|]. cbn [foldl].
  destruct (decide (j = i)) as [->|Hne].
  - destruct (reap_frame l (reap_proc h i)) as (_ & _ & Ho & _).
    assert (Hn : f ∉ h_open (reap_proc h i)) by (unfold reap_proc; rewrite Hp, Hf; simpl; set_solver).
    set_solver.
  - apply (IH _ i p); [set_solver| |done]. rewrite reap_procs, decide_False by done. by rewrite Hp.
Qed.

Lemma advance_closes t h i p f :
  h_procs h !! i = Some p -> is_due t p = true -> cmd_Stdout (pr_cmd p) = Some f ->
  f ∉ h_open (advance_to t h).
Proof.
  intros Hp Hd Hf. unfold advance_to. cbn [h_open]. eapply reap_closes; [|exact Hp|exact Hf].
  apply elem_of_due. by exists p.
Qed.

Lemma advance_elapses t h : elapses h (advance_to t h).
Proof.
  destruct (reap_frame (due_procs t (h_procs h)) h) as (H1 & H2 & H3 & H4 & _).
  constructor; [done|done| |done|simpl; lia|].
  - rewrite advance_procs, Forall2_fmap_r. apply Forall_Forall2_diag, Forall_true. apply advance_child.
  - intros i p p' f Hp Hp' Hd Hd' Hf. eapply advance_closes; [exact Hp| |exact Hf].
    rewrite advance_procs, list_lookup_fmap, Hp in Hp'. simpl in Hp'.
    destruct (is_due t p); [done|congruence].
Qed.

(** ** Signals and waiting *)

(** The child [i] has been waited for. *)
Definition finished (i : nat) (h : Host) : Prop :=
  exists p, h_procs h !! i = Some p /\ pr_done p = true.

Lemma finished_elapses i h h' : elapses h h' -> finished i h -> finished i h'.
Proof.
  intros Hel (p & Hp & Hd). destruct (elapses_child _ _ _ _ Hel Hp) as (p' & Hp' & _ & _ & Heq).
  rewrite Heq in Hp' by done. by exists p.
Qed.

(** A signal only brings the exit of its child forward. *)
Lemma Signal_spec i sig h p :
  h_procs h !! i = Some p ->
  wp (Signal i sig) (fun _ h' => elapses h h' /\ h_files h' = h_files h /\ h_now h' = h_now h /\
    h_draws h' = h_draws h /\
    exists p', h_procs h' !! i = Some p' /\ child_step p p' /\ pr_done p' = pr_done p /\
      (sig = SIGKILL -> pr_done p = false ->
         exists t, pr_exit_at p' = Some t /\ t <= h_now h + pg_on_kill (pr_program p))) h.
Proof.
  intros Hp. unfold wp, Signal. rewrite Hp. destruct (pr_done p) eqn:Hd.
  { split_and!; try done. exists p. by split_and!. }
  set (delay := if sig =? SIGKILL then _ else _).
  set (p' := set_exit_at _ p). assert (Hstep : child_step p p') by (split_and!; [done|done|congruence]).
  split_and!; [constructor; simpl; try done|done|done|done|].
  - rewrite <- (list_insert_id _ _ _ Hp) at 1. by apply Forall2_insert.
  - intros j q q' f Hq Hq' Hdq Hdq'. destruct (decide (i = j)) as [<-|Hne].
    + rewrite list_lookup_insert_eq in Hq' by (by eapply lookup_lt_Some). simplify_eq. simpl in Hdq'. congruence.
    + rewrite list_lookup_insert_ne in Hq' by done. congruence.
  - exists p'. simpl. rewrite list_lookup_insert_eq by (by eapply lookup_lt_Some). split_and!; try done.
    intros -> _. unfold p', delay, earliest. simpl. destruct (pr_exit_at p); eexists; split; try done; lia.
Qed.

(** Waiting for a child that exits: it is waited for, its log is closed, and
    the clock is where it exited. *)
Definition waited (i : nat) (limit : Z) (h h' : Host) : Prop :=
  elapses h h' /\ retains h h' /\ finished i h' /\ h_draws h' = h_draws h /\
  h_now h' <= Z.max (h_now h) limit.

Lemma advance_waited i p h t :
  h_procs h !! i = Some p -> pr_done p = false -> pr_exit_at p = Some t ->
  waited i t h (advance_to t h).
Proof.
  intros Hp Hd Ht. assert (Hdue : is_due t p = true) by (unfold is_due; rewrite Hd, Ht; simpl; lia).
  split_and!; [apply advance_elapses|apply advance_retains| | |].
  - exists (mark_done p). split; [by apply advance_reaps|done].
  - by destruct (reap_frame (due_procs t (h_procs h)) h) as (_ & _ & _ & _ & Hdr & _).
  - unfold advance_to. cbn [h_now].
    destruct (reap_frame (due_procs t (h_procs h)) h) as (_ & _ & _ & -> & _). lia.
Qed.

Lemma kill_spec i h p :
  h_procs h !! i = Some p ->
  wp (Signal i SIGKILL;; await_exit i)
    (fun _ h' => waited i (h_now h + pg_on_kill (pr_program p)) h h') h.
Proof.
  intros Hp. wp_step. eapply wp_mono; [by apply Signal_spec|].
  intros _ h1 (Hel & Hf & Hnow & Hdr & p' & Hp' & (Hc & Hg & Heq) & Hd & Hexit).
  unfold wp, await_exit. rewrite Hp', Hd. destruct (pr_done p) eqn:Hdp.
  { rewrite Heq in Hp' by done. split_and!; [done| |by exists p|done|lia].
    intros f _. by rewrite Hf. }
  destruct (Hexit eq_refl eq_refl) as (t & Ht & Hle). rewrite Ht.
  destruct (advance_waited i p' h1 t Hp' Hd Ht) as (H1 & H2 & H3 & H4 & H5).
  split_and!; [by etrans| |done|congruence|lia].
  eapply retains_trans; [exact Hel| |exact H2]. intros f _. by rewrite Hf.
Qed.

(** ** Stopping a driver *)

Section Driver.
Context `{HP : Platform} `{HA : Aeron}.

Lemma remove_dirs_spec dirs : forall h,
  wp (remove_dirs dirs) (fun _ h' =>
    elapses h h' /\ h_procs h' = h_procs h /\ h_open h' = h_open h /\ h_now h' = h_now h /\
    (forall k dir f, dirs !! k = Some dir -> sys_error (h_draws h + k) = None -> under dir f = true ->
       f ∉ h_files h') /\
    (forall f, f ∈ h_files h' -> f ∈ h_files h) /\
    (forall f, f ∈ h_files h -> Forall (fun dir => under dir f = false) dirs -> f ∈ h_files h')) h.
Proof.
  induction dirs as [|dir dirs IH]; intros h; cbn [remove_dirs].
  { wp_step. split_and!; done. }
  assert (Hrm : wp (RemoveAll dir) (fun _ h1 => elapses h h1 /\ h_procs h1 = h_procs h /\
    h_open h1 = h_open h /\ h_now h1 = h_now h /\ h_draws h1 = S (h_draws h) /\
    (sys_error (h_draws h) = None -> forall f, under dir f = true -> f ∉ h_files h1) /\
    (forall f, f ∈ h_files h1 -> f ∈ h_files h) /\
    (forall f, f ∈ h_files h -> under dir f = false -> f ∈ h_files h1)) h).
  { unfold RemoveAll. wp_step. unfold wp at 1, draw. destruct (sys_error (h_draws h)) eqn:He.
    - wp_step. split_and!; try done. by apply elapses_same.
    - wp_step. wp_step. wp_step. split_and!; try done; simpl; [by apply elapses_same|..].
      + intros _ f Hf [Hu _]%elem_of_filter. congruence.
      + intros f [_ Hf]%elem_of_filter. done.
      + intros f Hf Hu. by apply elem_of_filter. }
  wp_step. eapply wp_mono; [exact Hrm|]. clear Hrm.
  intros _ h1 (R1 & R2 & R3 & R4 & R5 & R6 & R7 & R8).
  eapply wp_mono; [apply IH|]. intros _ h2 (S1 & S2 & S3 & S4 & S5 & S6 & S7).
  split_and!; try congruence; [by etrans| | |].
  - intros [|k] d f Hk He Hu; simpl in Hk.
    + simplify_eq. rewrite Nat.add_0_r in He. intros Hf%S6. by eapply R6.
    + eapply S5; [exact Hk| |exact Hu]. rewrite R5. by rewrite Nat.add_succ_r in He.
  - auto.
  - intros f Hf [Hu Hus]%Forall_cons. apply S7; auto.
Qed.

Definition driver_dirs (driver : ClusteredMediaDriver) : list string :=
  [d_AeronDir driver; d_ClusterDir driver; d_ArchiveDir driver].

Lemma Stop_spec driver h p :
  h_procs h !! d_proc driver = Some p ->
  wp (Stop driver) (fun _ h' =>
    elapses h h' /\ finished (d_proc driver) h' /\
    h_now h' <= Z.max (h_now h) (h_now h + pg_on_kill (pr_program p)) /\
    (forall k dir f, driver_dirs driver !! k = Some dir -> sys_error (h_draws h + k) = None ->
       under dir f = true -> f ∉ h_files h') /\
    (forall f, Forall (keeps f) (h_procs h) -> f ∈ h_files h ->
       Forall (fun dir => under dir f = false) (driver_dirs driver) -> f ∈ h_files h')) h.
Proof.
  intros Hp. unfold Stop. pose proof (kill_spec _ _ _ Hp) as Hk.
  wp_step. apply wp_bind_inv in Hk. eapply wp_mono; [exact Hk|]. intros r h1 Hk1.
  wp_step. eapply wp_mono; [exact Hk1|]. intros _ h2 (K1 & K2 & (q & Hq & Hd) & K4 & K5).
  eapply wp_mono; [apply remove_dirs_spec|]. intros _ h3 (S1 & S2 & S3 & S4 & S5 & S6 & S7).
  split_and!; [by etrans|exists q; by rewrite S2|lia| |].
  - intros k dir f Hdir He. rewrite <- K4 in He. by apply (S5 k).
  - intros f Hf Hin Hu. apply S7; [by apply K2|done].
Qed.

Lemma Shutdown_spec driver h p :
  h_procs h !! d_proc driver = Some p ->
  wp (Shutdown driver) (fun _ h' =>
    elapses h h' /\ retains h h' /\ finished (d_proc driver) h' /\
    h_now h' <= h_now h + 15 * Second + Z.max 0 (pg_on_kill (pr_program p))) h.
Proof.
  intros Hp. unfold Shutdown. wp_step. eapply wp_mono; [by apply Signal_spec|].
  intros _ h1 (Hel & Hf & Hnow & _ & p1 & Hp1 & (Hc & Hg & Heq) & Hd & _).
  assert (Hret : retains h h1) by (intros f _; by rewrite Hf).
  wp_step. unfold wp at 1, await_exit_or. rewrite Hp1, Hd. destruct (pr_done p) eqn:Hdp.
  { rewrite Heq in Hp1 by done. wp_step. split_and!; [done|done|by exists p|unfold Second; lia]. }
  assert (Hlate : wp (Signal (d_proc driver) SIGKILL;; await_exit (d_proc driver)) (fun _ h' =>
    elapses h h' /\ retains h h' /\ finished (d_proc driver) h' /\
    h_now h' <= h_now h + 15 * Second + Z.max 0 (pg_on_kill (pr_program p)))
    (advance_to (h_now h1 + 15 * Second) h1)).
  { set (t := h_now h1 + 15 * Second). pose proof (advance_elapses t h1) as Ha.
    destruct (elapses_child _ _ _ _ Ha Hp1) as (p2 & Hp2 & _ & Hg2 & _).
    eapply wp_mono; [by apply kill_spec|]. intros _ h3 (K1 & K2 & K3 & K4 & K5).
    assert (Hn : h_now (advance_to t h1) = t).
    { unfold advance_to. cbn [h_now]. destruct (reap_frame (due_procs t (h_procs h1)) h1) as (_ & _ & _ & -> & _).
      unfold t, Second. lia. }
    split_and!; [etrans; [exact Hel|by etrans]| |done|rewrite Hn, Hg2, Hg in K5; unfold t in *; lia].
    eapply retains_trans; [exact Hel|exact Hret|].
    eapply retains_trans; [exact Ha|apply advance_retains|done]. }
  destruct (pr_exit_at p1) as [t|] eqn:Ht; [|exact Hlate].
  destruct (Z.leb_spec t (h_now h1 + 15 * Second)); [|exact Hlate].
  wp_step. destruct (advance_waited (d_proc driver) p1 h1 t Hp1 Hd Ht) as (K1 & K2 & K3 & K4 & K5).
  split_and!; [by etrans|by eapply retains_trans|done|unfold Second in *; lia].
Qed.

(** ** Waiting until the driver answers *)

Lemma ready_spec driver deadline n : forall h,
  deadline <= h_now h + 50 * Millisecond * Z.of_nat n ->
  wp (ready_loop (S n) driver deadline) (fun r h' =>
    elapses h h' /\ retains h h' /\
    (r = None -> exists k, snd (aeron_Connect (d_AeronDir driver) k) = None)) h.
Proof.
  induction n as [|n IH]; intros h Hn; cbn [ready_loop].
  { wp_step. wp_step. destruct (Z.ltb_spec (h_now h) deadline); [lia|]. wp_step. by split_and!. }
  wp_step. wp_step. destruct (Z.ltb_spec (h_now h) deadline); [|wp_step; by split_and!].
  wp_step. unfold wp at 1, draw. destruct (aeron_Connect _ (h_draws h)) as [took err] eqn:Hc.
  set (h0 := set_draws (S (h_draws h)) h). assert (H0 : elapses h h0) by (by apply elapses_same).
  assert (R0 : retains h h0) by by intros f.
  cbn beta iota. wp_step. apply wp_modify. set (h1 := advance_to _ h0).
  assert (H1 : elapses h h1) by (etrans; [exact H0|apply advance_elapses]).
  assert (R1 : retains h h1) by (eapply retains_trans; [exact H0|done|apply advance_retains]).
  destruct err as [err|].
  2: { unfold wp, draw. split_and!; [by etrans; [exact H1|apply elapses_same]| |]; [|by exists (h_draws h); rewrite Hc].
       intros f Hk Hf. by apply R1. }
  wp_step. apply wp_modify. set (h2 := advance_to _ h1).
  assert (H2 : elapses h h2) by (etrans; [exact H1|apply advance_elapses]).
  assert (Hnow : deadline <= h_now h2 + 50 * Millisecond * Z.of_nat n).
  { pose proof (el_now _ _ H1). unfold h2, advance_to. cbn [h_now]. unfold Millisecond in *. lia. }
  eapply wp_mono; [apply (IH h2 Hnow)|]. intros r h3 (K1 & K2 & K3). split_and!; [by etrans| |done].
  eapply retains_trans; [exact H2| |done].
  eapply retains_trans; [exact H1|done|apply advance_retains].
Qed.

(** ** Launching *)

(** The driver a launch was asked for. *)
Definition driver_for (memberId : Z) (members aeronDir clusterDir archiveDir : string) (basePort : Z)
    (d : ClusteredMediaDriver) : Prop :=
  d_memberId d = memberId /\ d_clusterMembers d = members /\ d_AeronDir d = aeronDir /\
  d_ClusterDir d = clusterDir /\ d_ArchiveDir d = archiveDir /\ d_basePort d = basePort /\
  d_IngressEndpoint d = "localhost:" +:+ dec basePort.

(** The jar the environment selects. *)
Definition jar_of (h : Host) : string :=
  let path := default EmptyString (h_env h !! "AERON_ALL_JAR"%string) in
  if bool_decide (path = EmptyString) then defaultJarName else path.

(** What a launch leaves on the host: the children there were, later on, and
    either one more, which runs the driver and answered, or none that is not
    finished and no open file. *)
Definition launch_post (memberId : Z) (members aeronDir clusterDir archiveDir : string) (basePort : Z)
    (h : Host) (r : ClusteredMediaDriver + error) (h' : Host) : Prop :=
  exists old new, h_procs h' = old ++ new /\ Forall2 child_step (h_procs h) old /\
    h_env h' = h_env h /\ h_now h <= h_now h' /\
    match r with
    | inl d =>
        driver_for memberId members aeronDir clusterDir archiveDir basePort d /\
        d_proc d = length (h_procs h) /\
        (exists p, new = [p] /\
          cmd_Args (pr_cmd p) =
            driver_args memberId members aeronDir clusterDir archiveDir basePort (jar_of h)) /\
        (exists k, snd (aeron_Connect aeronDir k) = None) /\
        (forall f, Forall (keeps f) (h_procs h') -> f ∈ h_files h -> f ∈ h_files h')
    | inr _ => Forall (fun p => pr_done p = true) new /\ h_open h' ⊆ h_open h
    end.

Lemma launch_nothing memberId members aeronDir clusterDir archiveDir basePort h err h' :
  h_procs h' = h_procs h -> h_env h' = h_env h -> h_now h' = h_now h -> h_open h' ⊆ h_open h ->
  launch_post memberId members aeronDir clusterDir archiveDir basePort h (inr err) h'.
Proof.
  intros Hp He Hn Ho. exists (h_procs h), []. rewrite app_nil_r. split_and!; try done. lia.
Qed.

Lemma JarAvailable_spec h : JarAvailable h = Ok ((jar_of h, bool_decide (jar_of h ∈ h_files h)), h).
Proof. done. Qed.

(** From the start of the child on. *)
Lemma launched_spec memberId members aeronDir clusterDir archiveDir basePort h h1 p log driver :
  h_procs h1 = h_procs h ++ [p] -> h_env h1 = h_env h -> h_now h1 = h_now h ->
  h_files h ⊆ h_files h1 -> h_open h1 ⊆ {[log]} ∪ h_open h ->
  pr_done p = false -> cmd_Stdout (pr_cmd p) = Some log ->
  cmd_Args (pr_cmd p) = driver_args memberId members aeronDir clusterDir archiveDir basePort (jar_of h) ->
  driver_for memberId members aeronDir clusterDir archiveDir basePort driver ->
  d_proc driver = length (h_procs h) ->
  wp (err ← awaitMediaDriverReady driver;
      match (err : option error) with
      | Some err => Stop driver;; mret (inr err)
      | None => mret (inl driver)
      end) (launch_post memberId members aeronDir clusterDir archiveDir basePort h) h1.
Proof.
  intros Hprocs Henv Hnow Hfiles Hopen Hd Hlog Hargs Hdr Hi.
  assert (Hp : h_procs h1 !! d_proc driver = Some p).
  { rewrite Hprocs, Hi, lookup_app_r, Nat.sub_diag by done. done. }
  wp_step. unfold awaitMediaDriverReady. wp_step. wp_step.
  eapply wp_mono; [apply ready_spec; unfold Second, Millisecond; lia|].
  intros r h2 (Hel & Hret & Hok). destruct (elapses_child _ _ _ _ Hel Hp) as (p2 & Hp2 & Hc2 & Hg2 & He2).
  assert (Hsplit : forall h', elapses h1 h' -> exists old q,
    h_procs h' = old ++ [q] /\ Forall2 child_step (h_procs h) old /\ child_step p q).
  { intros h' Hel'. pose proof (el_procs _ _ Hel') as HF. rewrite Hprocs in HF.
    apply Forall2_app_inv_l in HF as (old & new & Hold & Hnew & ->).
    apply Forall2_cons_inv_l in Hnew as (q & rest & Hq & Hnil & ->). apply Forall2_nil_inv_l in Hnil as ->.
    by exists old, q. }
  pose proof (el_now _ _ Hel) as Hn2. pose proof (el_env _ _ Hel) as Hv2.
  destruct r as [err|].
  - wp_step. eapply wp_mono; [by apply Stop_spec|].
    intros _ h3 (S1 & S2 & S3 & S4 & S5). wp_step.
    assert (Hel3 : elapses h1 h3) by by etrans.
    destruct (Hsplit h3 Hel3) as (old & q & Hpr & Hold & Hq). exists old, [q].
    pose proof (el_now _ _ Hel3) as Hn3. pose proof (el_env _ _ Hel3) as Hv3.
    destruct S2 as (q' & Hq' & Hdone).
    assert (q' = q) as ->.
    { rewrite Hpr, Hi, (Forall2_length _ _ _ Hold), lookup_app_r, Nat.sub_diag in Hq' by done. by simplify_eq/=. }
    split_and!; [done|done|congruence|lia|by constructor|].
    pose proof (el_open _ _ Hel3). pose proof (el_log _ _ Hel3 _ _ _ _ Hp Hq' Hd Hdone Hlog). set_solver.
  - wp_step. destruct (Hsplit h2 Hel) as (old & q & Hpr & Hold & (Hq1 & Hq2 & _)). exists old, [q].
    split_and!; try done; [congruence|lia| | |].
    + exists q. split; [done|congruence].
    + destruct Hdr as (_ & _ & <- & _). by apply Hok.
    + intros f Hk Hf. apply Hret; [by rewrite elapses_keeps|set_solver].
Qed.

Lemma launchDriver_spec memberId members aeronDir clusterDir archiveDir basePort h :
  wp (launchDriver memberId members aeronDir clusterDir archiveDir basePort)
    (launch_post memberId members aeronDir clusterDir archiveDir basePort h) h.
Proof.
  unfold launchDriver. wp_step. unfold wp at 1. rewrite JarAvailable_spec. cbn beta iota. case_bool_decide as Hin; cbn [negb].
  2: { wp_step. by apply launch_nothing. }
  wp_step. unfold wp at 1, draw. cbv zeta. set (log := _ +:+ _ +:+ _ +:+ _).
  unfold Create. wp_step. wp_step. unfold wp at 1, draw. cbn [h_draws set_draws].
  destruct (sys_error _); [repeat wp_step; by apply launch_nothing|]. repeat wp_step.
  set (args := driver_args _ _ _ _ _ _ _). set (cmd := setupPdeathsig _).
  unfold start_child, Start. wp_step. wp_step. unfold wp at 1, draw.
  cbn [h_draws set_draws set_open set_files].
  destruct (sys_error _).
  { repeat wp_step. unfold CloseFile. repeat wp_step. apply launch_nothing; try done. simpl. set_solver. }
  wp_step. unfold wp at 1, draw. cbn beta iota. set (pg := started_program _ _).
  repeat wp_step. cbn [h_procs set_procs set_draws set_open set_files].
  set (driver := mkDriver _ _ _ _ _ _ _ _ _). set (h1 := set_procs _ _).
  apply wp_bind_inv. eapply (launched_spec _ _ _ _ _ _ h h1 _ log driver); try done; simpl; set_solver.
Qed.

Lemma string_app_nil_r s : s +:+ EmptyString = s.
Proof. induction s as [|c s IH]; [done|]. change (String c (s +:+ EmptyString) = String c s). by rewrite IH. Qed.

Lemma string_app_cons s c s' : s +:+ String c s' = (s +:+ String c EmptyString) +:+ s'.
Proof.
  induction s as [|d s IH]; [done|].
  change (String d (s +:+ String c s') = String d ((s +:+ String c EmptyString) +:+ s')). by rewrite IH.
Qed.

(** Preparing the directories: only files are added, and the base directory
    is new. *)
Definition prepared (h h' : Host) : Prop :=
  h_procs h' = h_procs h /\ h_env h' = h_env h /\ h_now h' = h_now h /\ h_open h' = h_open h /\
  h_files h ⊆ h_files h'.

#[local] Instance prepared_preorder : PreOrder prepared.
Proof.
  split; [by intros h|]. intros h1 h2 h3 (? & ? & ? & ? & ?) (? & ? & ? & ? & ?).
  split_and!; try congruence. by etrans.
Qed.

Lemma draw_prepared {A} (f : nat -> A) h : wp (draw f) (fun _ h' => prepared h h' /\ h_files h' = h_files h) h.
Proof. by split_and!. Qed.

Lemma mkdir_temp_spec n path : forall h,
  wp (mkdir_temp n path)
    (fun r h' => prepared h h' /\ (forall name, r = inl name -> name ∉ h_files h)) h.
Proof.
  induction n as [|n IH]; intros h; cbn [mkdir_temp]; [by wp_step|].
  unfold StatOk. wp_step. unfold wp at 1, draw. wp_step. wp_step. cbn [h_files set_draws].
  set (h1 := set_draws _ h). assert (H1 : prepared h h1) by by split_and!.
  case_bool_decide as Hin.
  - eapply wp_mono; [apply IH|]. intros r h2 [H2 H3]. split; [by etrans|done].
  - repeat wp_step. split; [split_and!; simpl; try done; set_solver|]. intros name [= <-]. done.
Qed.

Lemma MkdirTemp_spec pattern h :
  wp (MkdirTemp pattern)
    (fun r h' => prepared h h' /\ (forall name, r = inl name -> name ∉ h_files h)) h.
Proof.
  unfold MkdirTemp. wp_step. eapply wp_mono; [apply draw_prepared|]. intros [err|] h1 [H1 Hf]; [by wp_step|].
  unfold TempDir, Getenv. repeat wp_step.
  eapply wp_mono; [apply mkdir_temp_spec|]. intros r h2 [H2 H3]. rewrite Hf in H3.
  split; [by etrans|done].
Qed.

Lemma MkdirAll_spec path h :
  wp (MkdirAll path) (fun err h' => prepared h h' /\ (err = None -> path ∈ h_files h')) h.
Proof.
  unfold MkdirAll. wp_step. eapply wp_mono; [apply draw_prepared|]. intros [err|] h1 [H1 Hf]; [by wp_step|].
  assert (Hp : forall seen, seen +:+ path ∈ path_prefixes seen path).
  { induction path as [|c path IH]; intros seen; cbn [path_prefixes].
    - rewrite string_app_nil_r. set_solver.
    - rewrite string_app_cons. apply elem_of_app. right. apply IH. }
  repeat wp_step. split; [etrans; [exact H1|]; split_and!; simpl; try done; set_solver|].
  intros _. simpl. apply elem_of_union_l, elem_of_list_to_set. apply (Hp EmptyString).
Qed.

Lemma launch_prepared memberId members aeronDir clusterDir archiveDir basePort h h1 r h' :
  prepared h h1 ->
  launch_post memberId members aeronDir clusterDir archiveDir basePort h1 r h' ->
  launch_post memberId members aeronDir clusterDir archiveDir basePort h r h'.
Proof.
  intros (Hp & He & Hn & Ho & Hf) (old & new & H1 & H2 & H3 & H4 & H5). exists old, new.
  rewrite Hp in H2. split_and!; try done; [congruence|lia|]. unfold jar_of in *.
  destruct r as [d|err]; [|by rewrite <- Ho]. rewrite Hp, He in H5.
  destruct H5 as (D1 & D2 & D3 & D4 & D5). split_and!; try done. auto.
Qed.

(** C32: a launch is accounted for: whatever the host, the failures of its
    calls, the program that is started and the answers of Aeron, [launchNode]
    returns.  Either it returns a driver with the asked member, members and
    ports over a base directory that did not exist before and whose cluster
    directory exists, with one new child that was started with exactly the
    command line of the driver and a successful connection to its Aeron
    directory; or it returns an error, and every child it started has exited
    and been waited for and no file is left open.  Children that had been
    started before are still the same programs. *)
Theorem launch_accounted memberId members basePort h :
  exists r h' aeronDir baseDir, launchNode memberId members basePort h = Ok (r, h') /\
    launch_post memberId members aeronDir (baseDir +:+ "/cluster") (baseDir +:+ "/archive") basePort h r h' /\
    forall d, r = inl d -> (baseDir ∉ h_files h) /\
      (Forall (keeps (d_ClusterDir d)) (h_procs h') -> d_ClusterDir d ∈ h_files h').
Proof.
  assert (Hwp : wp (launchNode memberId members basePort) (fun r h' => exists aeronDir baseDir,
    launch_post memberId members aeronDir (baseDir +:+ "/cluster") (baseDir +:+ "/archive") basePort h r h' /\
    forall d, r = inl d -> (baseDir ∉ h_files h) /\
      (Forall (keeps (d_ClusterDir d)) (h_procs h') -> d_ClusterDir d ∈ h_files h')) h).
  2: { destruct (wp_elim _ _ _ Hwp) as (r & h' & Heq & aeronDir & baseDir & Hpost). by exists r, h', aeronDir, baseDir. }
  unfold launchNode. wp_step. eapply wp_mono; [apply draw_prepared|]. intros id h1 [H1 Hf1]. cbv zeta.
  wp_step. eapply wp_mono; [apply MkdirTemp_spec|]. intros r h2 [H2 Hnew]. rewrite Hf1 in Hnew.
  assert (H02 : prepared h h2) by by etrans.
  assert (Hfail : forall err h', prepared h h' -> exists aeronDir baseDir,
    launch_post memberId members aeronDir (baseDir +:+ "/cluster") (baseDir +:+ "/archive") basePort h (inr err) h' /\
    forall d, inr err = inl d -> (baseDir ∉ h_files h) /\
      (Forall (keeps (d_ClusterDir d)) (h_procs h') -> d_ClusterDir d ∈ h_files h')).
  { intros err h' (? & ? & ? & Ho & ?). exists EmptyString, EmptyString. split; [|done].
    apply launch_nothing; try done. by rewrite Ho. }
  destruct r as [baseDir|err]; [|wp_step; by apply Hfail].
  wp_step. eapply wp_mono; [apply MkdirAll_spec|]. intros [err|] h3 [H3 Hdir]; [wp_step; apply Hfail; by etrans|].
  eapply wp_mono; [apply launchDriver_spec|]. intros r h4 Hpost. eexists _, baseDir.
  split; [eapply launch_prepared; [by etrans|exact Hpost]|]. intros d ->. split; [by apply Hnew|].
  destruct Hpost as (old & new & _ & _ & _ & _ & (_ & _ & _ & -> & _) & _ & _ & _ & Hk).
  intros Hkeep. apply Hk; [done|]. by apply Hdir.
Qed.

(** C33: [Stop] cleans up: it returns, the child has exited and been waited
    for, the clock has moved by no more than the child takes to die, and
    afterwards nothing is left in the Aeron, cluster and archive directories
    whose removal did not fail, whatever the child wrote before it died,
    because they are removed after it has exited; files outside of them are
    only lost if a program removed them. *)
Theorem stop_cleans driver h p :
  h_procs h !! d_proc driver = Some p ->
  exists h', Stop driver h = Ok (tt, h') /\
    finished (d_proc driver) h' /\ elapses h h' /\
    h_now h' <= h_now h + Z.max 0 (pg_on_kill (pr_program p)) /\
    (forall k dir f, driver_dirs driver !! k = Some dir -> sys_error (h_draws h + k) = None ->
       under dir f = true -> f ∉ h_files h') /\
    (forall f, Forall (keeps f) (h_procs h) -> f ∈ h_files h ->
       Forall (fun dir => under dir f = false) (driver_dirs driver) -> f ∈ h_files h').
Proof.
  intros Hp. destruct (wp_elim _ _ _ (Stop_spec driver h p Hp)) as ([] & h' & Heq & H1 & H2 & H3 & H4 & H5).
  exists h'. split_and!; try done. lia.
Qed.

(** C34: a driver can be restarted over its data: [Shutdown] returns within
    fifteen seconds and the time a killed child takes, whether the child obeys
    SIGTERM, ignores it or had exited; the child has been waited for and
    every file that no program removes is still there; and [Restart] then
    returns, a driver with the same directories, member, members and ports
    whose new child was started over them with the files still in place, or
    an error with no child left. *)
Theorem restart_over_data driver h p :
  h_procs h !! d_proc driver = Some p ->
  exists h1 r h2, Shutdown driver h = Ok (tt, h1) /\
    finished (d_proc driver) h1 /\ elapses h h1 /\ retains h h1 /\
    h_now h1 <= h_now h + 15 * Second + Z.max 0 (pg_on_kill (pr_program p)) /\
    Restart driver h1 = Ok (r, h2) /\
    launch_post (d_memberId driver) (d_clusterMembers driver) (d_AeronDir driver) (d_ClusterDir driver)
      (d_ArchiveDir driver) (d_basePort driver) h1 r h2.
Proof.
  intros Hp. destruct (wp_elim _ _ _ (Shutdown_spec driver h p Hp)) as ([] & h1 & Heq & H1 & H2 & H3 & H4).
  destruct (wp_elim _ _ _ (launchDriver_spec (d_memberId driver) (d_clusterMembers driver) (d_AeronDir driver)
    (d_ClusterDir driver) (d_ArchiveDir driver) (d_basePort driver) h1)) as (r & h2 & Heq2 & Hpost).
  exists h1, r, h2. by split_and!.
Qed.
End Driver.

(** ** Ports *)

(** The ports of a member, which [memberEndpoints] lists; the archive's control
    channel is the last of them. *)
Definition member_ports (basePort : Z) : list Z :=
  [basePort; basePort + 1; basePort + 2; basePort + 3; basePort + 10].

Lemma nextBasePort_eq h n :
  0 <= h_pid h -> 0 <= n < 2 ^ 31 - 1 ->
  nextBasePort (h, n) = Ok (20000 + h_pid h mod 100 * 120 + n mod 6 * 20, (h, n + 1)).
Proof.
  intros Hpid Hn. unfold nextBasePort. cbn [fst snd].
  assert (H1 : int32 (n + 1) = n + 1) by (apply sint_id; [done|unfold is_sint; lia]).
  assert (H2 : int32 (n + 1 - 1) = n) by (rewrite Z.add_simpl_r; apply sint_id; [done|unfold is_sint; lia]).
  by rewrite H1, H2, !Z.rem_mod_nonneg by lia.
Qed.

(** C36: the ports of two drivers: every port is at least 20000 and below the
    ephemeral range, and two drivers, of one process or of two, have a port in
    common exactly when their process ids agree modulo 100 and their numbers
    in their processes agree modulo 6; then all their ports are the same. *)
Theorem port_blocks_exact h1 n1 h2 n2 :
  0 <= h_pid h1 -> 0 <= h_pid h2 -> 0 <= n1 < 2 ^ 31 - 1 -> 0 <= n2 < 2 ^ 31 - 1 ->
  exists b1 b2, nextBasePort (h1, n1) = Ok (b1, (h1, n1 + 1)) /\ nextBasePort (h2, n2) = Ok (b2, (h2, n2 + 1)) /\
    Forall (fun p => 20000 <= p < 32768) (member_ports b1) /\
    ((exists p, p ∈ member_ports b1 /\ p ∈ member_ports b2) <->
       h_pid h1 mod 100 = h_pid h2 mod 100 /\ n1 mod 6 = n2 mod 6).
Proof.
  intros Hp1 Hp2 Hn1 Hn2. eexists _, _. split_and!; [by apply nextBasePort_eq|by apply nextBasePort_eq| |].
  all: pose proof (Z.mod_pos_bound (h_pid h1) 100 eq_refl); pose proof (Z.mod_pos_bound n1 6 eq_refl);
    pose proof (Z.mod_pos_bound (h_pid h2) 100 eq_refl); pose proof (Z.mod_pos_bound n2 6 eq_refl).
  - unfold member_ports. repeat (apply Forall_cons; split); [lia..|apply Forall_nil_2].
  - unfold member_ports. split.
    + intros (p & Hin1 & Hin2). rewrite !elem_of_cons, elem_of_nil in Hin1, Hin2. lia.
    + intros [-> ->]. eexists. split; apply elem_of_cons; by left.
Qed.

(** ** A host *)

(** Nothing fails, names are numbers, and a driver that runs until it is
    stopped leaves a file in its archive when it dies. *)
#[export] Instance calm_Platform : Platform := {|
  sys_error _ := None;
  random_name n := pretty n;
  started_program _ _ := mkProgram None (Some Second) 0 (fun fs => {["/tmp/aeron-go-cluster-systest2/archive/late"]} ∪ fs);
  has_Pdeathsig := true
|}.
(** The driver answers from the tenth draw on. *)
#[export] Instance calm_Aeron : Aeron := {|
  DefaultAeronDir := "/dev/shm";
  UserName := "user";
  uuid_New n := "uuid-000" +:+ pretty n;
  aeron_Connect _ n := (0, if (n <? 10)%nat then Some (OtherError "no driver" 0) else None);
  cxn_Close _ := None;
  run_tool _ _ := (0, ("", None))
|}.

Definition calm_host : Host := mkHost ∅ 4217 {[defaultJarName; "/tmp"]} ∅ [] 0 0.

Definition launched_host : Host :=
  match StartClusteredMediaDriver (calm_host, 0) with Ok (_, (h, _)) => h | Panic _ => calm_host end.
Definition launched_driver : ClusteredMediaDriver :=
  match StartClusteredMediaDriver (calm_host, 0) with
  | Ok (inl d, _) => d
  | _ => mkDriver "" "" "" "" "" 0 0 "" 0
  end.

Example launch_calm :
  match StartClusteredMediaDriver (calm_host, 0) with
  | Ok (inl d, (h, n)) =>
      d_basePort d = 22040 /\ d_clusterMembers d = "0,localhost:22040,localhost:22041,localhost:22042,localhost:22043,localhost:22050" /\
      d_ClusterDir d = "/tmp/aeron-go-cluster-systest2/cluster" /\
      d_LogPath d = "/tmp/aeron-go-cluster-systest2/driver-uuid-000.log" /\ n = 1 /\
      h_now h = 100 * Millisecond
  | _ => False
  end.
Proof. by vm_compute. Qed.

(** Stopped, it leaves the jar, its base directory and its log. *)
Example stop_calm :
  match Stop launched_driver launched_host with
  | Ok (_, h) => bool_decide (h_files h = {[defaultJarName; "/tmp"; "/tmp/aeron-go-cluster-systest2";
                                "/tmp/aeron-go-cluster-systest2/driver-uuid-000.log"]}) &&
                 bool_decide (h_open h = ∅)
  | Panic _ => false
  end = true.
Proof. by vm_compute. Qed.

Lemma launched_child :
  exists p, h_procs launched_host !! d_proc launched_driver = Some p /\ pg_on_kill (pr_program p) = 0.
Proof.
  assert (Hex : forall o : option proc, match o with Some p => pg_on_kill (pr_program p) =? 0 | None => false end = true ->
    exists p, o = Some p /\ pg_on_kill (pr_program p) = 0).
  { intros [p|] Hp; [|done]. exists p. by apply Z.eqb_eq in Hp. }
  apply Hex. by vm_compute.
Qed.

Lemma stop_cleans_witness :
  exists h', Stop launched_driver launched_host = Ok (tt, h') /\
    finished (d_proc launched_driver) h' /\ elapses launched_host h' /\
    h_now h' <= h_now launched_host + Z.max 0 0 /\
    (forall k dir f, driver_dirs launched_driver !! k = Some dir -> sys_error (h_draws launched_host + k) = None ->
       under dir f = true -> f ∉ h_files h') /\
    (forall f, Forall (keeps f) (h_procs launched_host) -> f ∈ h_files launched_host ->
       Forall (fun dir => under dir f = false) (driver_dirs launched_driver) -> f ∈ h_files h').
Proof.
  destruct launched_child as (p & Hp & Hk).
  pose proof (stop_cleans launched_driver launched_host p Hp) as H. rewrite Hk in H. exact H.
Defined.

Lemma restart_over_data_witness :
  exists h1 r h2, Shutdown launched_driver launched_host = Ok (tt, h1) /\
    finished (d_proc launched_driver) h1 /\ retains launched_host h1 /\
    Restart launched_driver h1 = Ok (r, h2) /\
    launch_post 0 (d_clusterMembers launched_driver) (d_AeronDir launched_driver) (d_ClusterDir launched_driver)
      (d_ArchiveDir launched_driver) 22040 h1 r h2.
Proof.
  destruct launched_child as (p & Hp & _).
  destruct (restart_over_data launched_driver launched_host p Hp)
    as (h1 & r & h2 & H1 & H2 & H3 & H4 & H5 & H6 & H7).
  exists h1, r, h2. exact (conj H1 (conj H2 (conj H4 (conj H6 H7)))).
Defined.

(** The process 4217 shares the ports of its first driver with its seventh
    and with the first of the process 4317. *)
Lemma port_blocks_exact_witness :
  exists b1 b2, nextBasePort (calm_host, 0) = Ok (b1, (calm_host, 1)) /\
    nextBasePort (calm_host, 6) = Ok (b2, (calm_host, 7)) /\
    Forall (fun p => 20000 <= p < 32768) (member_ports b1) /\
    ((exists p, p ∈ member_ports b1 /\ p ∈ member_ports b2) <-> 17 = 17 /\ 0 mod 6 = 6 mod 6).
Proof. apply (port_blocks_exact calm_host 0 calm_host 6); done. Defined.
