(* ===== verification/EngineProcess.v ===== *)
(** * Running the service: cmd/engine/main.go and the runner of the system tests

    The engine process configures a service agent of the cluster library from
    the environment and runs it.  The system tests run the same agent in a
    goroutine that they stop with a flag: [startEngine] and
    [engineRunner.shutdown] of systest/harness.go, two threads that share the
    flag and two channels.  The agent is the class [AgentLibrary]; when its
    calls return, fail or panic is left to a schedule. *)
From stdpp Require Import strings.
From S2P Require Import Prelude Marshal Service Host Harness.

(** ** cmd/engine/main.go *)

(** What the program sets of [aeron.Context] and [cluster.Options]; [None] is
    the default of the library. *)
Record AgentConfig : Type := mkAgentConfig {
  ag_AeronDir : option string;
  ag_ClusterDir : option string
}.

Class AgentLibrary (Sess A : Type) : Type := {
  NewClusteredServiceAgent : AgentConfig -> MatchingService Sess -> A + error;
  StartAndRun : A -> option error
}.

Section Main.
Context {Sess A : Type} `{Platform} `{Aeron} `{AgentLibrary Sess A}.

Definition engine_config : go Host AgentConfig :=
  aeronDir ← Getenv "AERON_DIR";
  ctx ← (if negb (bool_decide (aeronDir = EmptyString)) then mret (Some aeronDir)
         else shm ← StatOk "/dev/shm";
              mret (if (shm : bool) then Some ("/dev/shm/aeron-" +:+ UserName) else None));
  clusterDir ← Getenv "CLUSTER_DIR";
  mret (mkAgentConfig ctx (if negb (bool_decide (clusterDir = EmptyString)) then Some clusterDir else None)).

Definition engine_main : go Host unit :=
  config ← engine_config;
  match NewClusteredServiceAgent config NewMatchingService with
  | inr _ => go_panic (Raised "NewClusteredServiceAgent")
  | inl agent =>
      match StartAndRun agent with
      | Some _ => go_panic (Raised "StartAndRun")
      | None => mret tt
      end
  end.
End Main.

(** ** systest/harness.go: the engine under test *)

(** Where the goroutine is: in [agent.OnStart], at the test of the loop, in
    [agent.Idle(agent.DoWork())], in the deferred recover after a panic, in
    the deferred close of [done], or gone. *)
Inductive engine_pc : Type := InOnStart | AtLoop | InWork | Recovering | Leaving | Gone.

(** Where the test is: in the select of [startEngine], past it, in
    [t.Fatal], in the select of [shutdown], before and after [agent.Close]. *)
Inductive test_pc : Type := Starting | Running | Fatal | Stopping | Closing | Closed.

Record engineRunner : Type := mkRunner {
  rn_engine : engine_pc;
  rn_test : test_pc;
  rn_stop : bool;
  (** the buffer of [started] *)
  rn_started : option (option error);
  (** [done] is closed *)
  rn_done : bool;
  (** [agent.Close] was called *)
  rn_closed : bool;
  (** how often a panic was reported with [t.Errorf] *)
  rn_errors : nat
}.

Section Runner.
Context {Sess A : Type} `{AgentLibrary Sess A}.

(** The first part of [startEngine]: without an agent the test fails before
    the goroutine exists. *)
Definition startEngine (driver : ClusteredMediaDriver) : option engineRunner :=
  match NewClusteredServiceAgent (A := A)
          (mkAgentConfig (Some (d_AeronDir driver)) (Some (d_ClusterDir driver))) NewMatchingService with
  | inr _ => None
  | inl _ => Some (mkRunner InOnStart Starting false None false false 0)
  end.
End Runner.

(** How a call of the agent ends. *)
Inductive call_end : Type := Returns (err : option error) | Panics.

(** One step of the goroutine, with the end of the call it is in. *)
Definition engine_step (c : call_end) (r : engineRunner) : engineRunner :=
  match rn_engine r with
  | InOnStart =>
      match c with
      | Returns (Some err) =>
          mkRunner Leaving (rn_test r) (rn_stop r) (Some (Some err)) (rn_done r) (rn_closed r) (rn_errors r)
      | Returns None =>
          mkRunner AtLoop (rn_test r) (rn_stop r) (Some None) (rn_done r) (rn_closed r) (rn_errors r)
      | Panics =>
          mkRunner Recovering (rn_test r) (rn_stop r) (rn_started r) (rn_done r) (rn_closed r) (rn_errors r)
      end
  | AtLoop =>
      mkRunner (if rn_stop r then Leaving else InWork)
        (rn_test r) (rn_stop r) (rn_started r) (rn_done r) (rn_closed r) (rn_errors r)
  | InWork =>
      mkRunner (match c with Returns _ => AtLoop | Panics => Recovering end)
        (rn_test r) (rn_stop r) (rn_started r) (rn_done r) (rn_closed r) (rn_errors r)
  | Recovering =>
      mkRunner Leaving (rn_test r) (rn_stop r) (rn_started r) (rn_done r) (rn_closed r)
        (if rn_stop r then rn_errors r else S (rn_errors r))
  | Leaving =>
      mkRunner Gone (rn_test r) (rn_stop r) (rn_started r) true (rn_closed r) (rn_errors r)
  | Gone => r
  end.

(** One step of the test: a select takes its channel when it is ready or, when
    [elapsed], its timer, also where both are ready; [shutdown] is called when [ask]ed for. *)
Definition test_step (elapsed ask : bool) (r : engineRunner) : engineRunner :=
  match rn_test r with
  | Starting =>
      if elapsed then
        mkRunner (rn_engine r) Fatal (rn_stop r) (rn_started r) (rn_done r) (rn_closed r) (rn_errors r)
      else
        match rn_started r with
        | Some None =>
            mkRunner (rn_engine r) Running (rn_stop r) None (rn_done r) (rn_closed r) (rn_errors r)
        | Some (Some _) =>
            mkRunner (rn_engine r) Fatal (rn_stop r) None (rn_done r) (rn_closed r) (rn_errors r)
        | None => r
        end
  | Running =>
      if ask then
        mkRunner (rn_engine r) Stopping true (rn_started r) (rn_done r) (rn_closed r) (rn_errors r)
      else r
  | Stopping =>
      if rn_done r || elapsed then
        mkRunner (rn_engine r) Closing (rn_stop r) (rn_started r) (rn_done r) (rn_closed r) (rn_errors r)
      else r
  | Closing =>
      mkRunner (rn_engine r) Closed (rn_stop r) (rn_started r) (rn_done r) true (rn_errors r)
  | Fatal | Closed => r
  end.

(** Who moves next. *)
Inductive turn : Type :=
  | EngineTurn (c : call_end)
  | TestTurn (elapsed ask : bool).

Definition take_turn (t : turn) (r : engineRunner) : engineRunner :=
  match t with
  | EngineTurn c => engine_step c r
  | TestTurn elapsed ask => test_step elapsed ask r
  end.

Fixpoint run_schedule (schedule : nat -> turn) (n : nat) (r : engineRunner) : engineRunner :=
  match n with
  | O => r
  | S n' => take_turn (schedule n') (run_schedule schedule n' r)
  end.
