(* ===== verification/EngineProcessTheorems.v ===== *)
(** * Running the service: its theorems

    The configuration of the engine process, and the two threads of the
    runner of the system tests: an invariant of every schedule, and that a
    fair schedule brings a runner that was told to stop to its end. *)
From stdpp Require Import strings.
From S2P Require Import Prelude Marshal Service Host Harness HarnessTheorems EngineProcess.

(** ** The engine process *)

Section Main.
Context {Sess A : Type} `{HP : Platform} `{HA : Aeron} `{AgentLibrary Sess A}.

(** A variable of the environment, [None] when unset or empty. *)
Definition env_var (h : Host) (key : string) : option string :=
  let v := default EmptyString (h_env h !! key) in if bool_decide (v = EmptyString) then None else Some v.

(** AERON_DIR wins over the shared memory, which wins over the default of the
    library; the process leaves the host alone. *)
Lemma engine_config_eq h :
  engine_config h = Ok (mkAgentConfig
    (match env_var h "AERON_DIR" with
     | Some dir => Some dir
     | None => if bool_decide ("/dev/shm" ∈ h_files h) then Some ("/dev/shm/aeron-" +:+ UserName) else None
     end) (env_var h "CLUSTER_DIR"), h).
Proof.
  unfold engine_config, Getenv, StatOk, env_var, mbind, go_bind, go_gets. cbv zeta.
  destruct (bool_decide (default EmptyString (h_env h !! "AERON_DIR"%string) = EmptyString)); simpl;
    by destruct (bool_decide (default EmptyString (h_env h !! "CLUSTER_DIR"%string) = EmptyString)).
Qed.
End Main.

(** ** The runner: every schedule *)

(** [shutdown] was called. *)
Definition stopping (t : test_pc) : bool :=
  match t with Stopping | Closing | Closed => true | _ => false end.
(** [OnStart] must have returned: it was reported, or the test went past
    [startEngine]. *)
Definition must_be_up (r : engineRunner) : bool :=
  match rn_test r, rn_started r with
  | (Running | Stopping | Closing | Closed), _ => true
  | _, Some _ => true
  | _, None => false
  end.

Record runner_inv (r : engineRunner) : Prop := mkRunnerInv {
  ri_done : rn_done r = match rn_engine r with Gone => true | _ => false end;
  ri_stop : rn_stop r = stopping (rn_test r);
  ri_closed : rn_closed r = match rn_test r with Closed => true | _ => false end;
  ri_up : must_be_up r = true -> rn_engine r <> InOnStart
}.

Lemma take_turn_inv t r : runner_inv r -> runner_inv (take_turn t r).
Proof.
  destruct r as [g p stop started done closed errors]. intros [H1 H2 H3 H4]. simpl in *. subst.
  destruct t as [c|elapsed ask]; cbn [take_turn engine_step test_step rn_engine rn_test].
  - destruct g; [destruct c as [[]|]| |destruct c| | |]; constructor; simpl in *; try done; destruct p; done.
  - destruct p; [destruct elapsed; [|destruct started as [[]|]]|destruct ask| | | |]; simpl in *;
      try done; try (by constructor); destruct g, elapsed; try done; by constructor.
Qed.

Lemma run_schedule_inv schedule n r : runner_inv r -> runner_inv (run_schedule schedule n r).
Proof. intros Hr. induction n as [|n IH]; [done|]. by apply take_turn_inv. Qed.

Section Start.
Context {Sess A : Type} `{AgentLibrary Sess A}.

Lemma startEngine_inv driver r : startEngine (Sess := Sess) (A := A) driver = Some r -> runner_inv r.
Proof.
  unfold startEngine. destruct (NewClusteredServiceAgent _ _); [|done]. intros [= <-].
  by constructor.
Qed.
End Start.

(** After [t.Fatal] nobody tells the goroutine to stop. *)
Lemma fatal_abandons schedule n m r :
  runner_inv r -> rn_test (run_schedule schedule n r) = Fatal -> (n <= m)%nat ->
  rn_stop (run_schedule schedule m r) = false.
Proof.
  intros Hr Hf Hle. assert (Ht : rn_test (run_schedule schedule m r) = Fatal).
  { induction Hle as [|m _ IH]; [done|]. simpl. unfold take_turn, engine_step, test_step.
    destruct (schedule m) as [[[]|]|]; [destruct (rn_engine _)..|]; simpl; by rewrite ?IH. }
  by rewrite (ri_stop _ (run_schedule_inv schedule m r Hr)), Ht.
Qed.

(** ** The runner: fair schedules *)

Section Eventually.
(** [I] is kept by every turn, under it [mu] never grows, and the turns in [P]
    lower it. *)
Context (schedule : nat -> turn) (start : engineRunner).
Context (P : turn -> Prop) (I : engineRunner -> Prop) (mu : engineRunner -> nat).
Hypothesis P_often : forall n, exists m, (n <= m)%nat /\ P (schedule m).
Hypothesis I_kept : forall t r, I r -> I (take_turn t r).
Hypothesis mu_le : forall t r, I r -> (mu (take_turn t r) <= mu r)%nat.
Hypothesis mu_lt : forall t r, I r -> P t -> mu r <> 0%nat -> (mu (take_turn t r) < mu r)%nat.

Abbreviation at_turn n := (run_schedule schedule n start).

Lemma measure_later n m :
  I (at_turn n) -> (n <= m)%nat -> I (at_turn m) /\ (mu (at_turn m) <= mu (at_turn n))%nat.
Proof.
  intros Hn. induction 1 as [|m _ [IH1 IH2]]; [done|]. simpl. split; [by apply I_kept|].
  pose proof (mu_le (schedule m) _ IH1). lia.
Qed.

Lemma measure_zero n : I (at_turn n) -> exists m, (n <= m)%nat /\ mu (at_turn m) = 0%nat /\ I (at_turn m).
Proof.
  remember (mu (at_turn n)) as k eqn:Hk. revert n Hk.
  induction (lt_wf k) as [k _ IH]; intros n -> Hn.
  destruct (P_often n) as (m & Hm & HP). destruct (measure_later n m Hn Hm) as [Hi Hle].
  destruct (decide (mu (at_turn m) = 0%nat)) as [H0|H0]; [by exists m|].
  pose proof (mu_lt _ _ Hi HP H0) as Hlt.
  destruct (IH (mu (at_turn (S m))) ltac:(simpl; lia) (S m) eq_refl) as (m' & Hm' & H').
  - by apply I_kept.
  - exists m'. split; [lia|done].
Qed.
End Eventually.

(** The turns the goroutine, and the test, have left once the flag is set. *)
Definition engine_left (r : engineRunner) : nat :=
  match rn_engine r with
  | InOnStart => 4 | InWork => 3 | AtLoop => 2 | Recovering => 2 | Leaving => 1 | Gone => 0
  end.
Definition test_left (r : engineRunner) : nat :=
  match rn_test r with Stopping => 2 | Closing => 1 | _ => 0 end.

(** Told to stop, with [e] panics reported. *)
Definition told (e : nat) (r : engineRunner) : Prop :=
  runner_inv r /\ rn_stop r = true /\ rn_errors r = e.

Lemma told_turn e t r :
  told e r -> told e (take_turn t r) /\ (engine_left (take_turn t r) <= engine_left r)%nat /\
    (engine_left r <> 0%nat -> (exists c, t = EngineTurn c) ->
       (engine_left (take_turn t r) < engine_left r)%nat).
Proof.
  intros (Hi & Hs & He). pose proof (take_turn_inv t r Hi) as Hi'. unfold told, engine_left.
  destruct r as [g p stop started done closed errors]. destruct Hi as [_ H2 _ H4]. simpl in *. subst.
  assert (Hg : g <> InOnStart) by (apply H4; unfold must_be_up; simpl; by destruct p). clear H4.
  destruct t as [c|elapsed ask]; unfold take_turn, engine_step, test_step in *; simpl in *.
  - destruct g; simpl in *; try done; rewrite ?Hs in *; split_and!; try done; try (destruct c; simpl; lia); simpl; lia.
  - destruct p; try done; [destruct (done || elapsed)|..]; simpl in *; split_and!; try done; try lia; intros _ [? [=]].
Qed.

Lemma told_test_left e t r :
  told e r /\ rn_engine r = Gone ->
  (told e (take_turn t r) /\ rn_engine (take_turn t r) = Gone) /\ (test_left (take_turn t r) <= test_left r)%nat /\
    (test_left r <> 0%nat -> (exists elapsed ask, t = TestTurn elapsed ask) ->
       (test_left (take_turn t r) < test_left r)%nat).
Proof.
  intros [Ht Hg]. destruct (told_turn e t r Ht) as (Ht' & _ & _). destruct Ht as (Hi & Hs & He).
  destruct r as [g p stop started done closed errors]. destruct Hi as [H1 H2 _ _]. unfold test_left. simpl in *. subst.
  destruct t as [c|elapsed ask]; unfold take_turn, engine_step, test_step in *; simpl in *.
  - split_and!; try done. intros _ (? & ? & [=]).
  - destruct p; try done; simpl; split_and!; try done; intros; lia.
Qed.

(** Both threads get turns again and again; the calls of the agent end. *)
Definition fair (schedule : nat -> turn) : Prop :=
  (forall n, exists m, (n <= m)%nat /\ exists c, schedule m = EngineTurn c) /\
  (forall n, exists m, (n <= m)%nat /\ exists elapsed ask, schedule m = TestTurn elapsed ask).

(** C35: shutdown completes: from an engine that [startEngine] started, in every
    schedule of the goroutine and the test that is fair to both, whether the
    calls of the agent return, fail or panic and whether timers fire or not,
    once [shutdown] was called the goroutine leaves its loop, [done] is
    closed, the agent is closed, and no panic that is recovered after the
    call is reported as a failure of the test. *)
Theorem shutdown_completes {Sess A : Type} `{AgentLibrary Sess A} driver r0 schedule n :
  startEngine (Sess := Sess) (A := A) driver = Some r0 -> fair schedule ->
  rn_stop (run_schedule schedule n r0) = true ->
  exists m, (n <= m)%nat /\
    let r := run_schedule schedule m r0 in
    rn_engine r = Gone /\ rn_done r = true /\ rn_test r = Closed /\ rn_closed r = true /\
    rn_errors r = rn_errors (run_schedule schedule n r0).
Proof.
  intros Hstart [Hfe Hft] Hstop. apply startEngine_inv in Hstart.
  set (e := rn_errors (run_schedule schedule n r0)).
  assert (Ht : told e (run_schedule schedule n r0)) by (split_and!; [by apply run_schedule_inv|done|done]).
  destruct (measure_zero schedule r0 (fun t => exists c, t = EngineTurn c) (told e) engine_left Hfe) with (n := n) as (m & Hm & H0 & Hm'); try done.
  { intros t r Hr. by apply (told_turn e t r). }
  { intros t r Hr. by apply (told_turn e t r). }
  { intros t r Hr HP Hne. by apply (told_turn e t r Hr). }
  assert (Hg : rn_engine (run_schedule schedule m r0) = Gone).
  { unfold engine_left in H0. by destruct (rn_engine _). }
  destruct (measure_zero schedule r0 (fun t => exists elapsed ask, t = TestTurn elapsed ask)
    (fun r => told e r /\ rn_engine r = Gone) test_left Hft) with (n := m)
    as (k & Hk & Hk0 & (Hi & Hks & Hke) & Hkg); try done.
  { intros t r Hr. by apply (told_test_left e t r). }
  { intros t r Hr. by apply (told_test_left e t r). }
  { intros t r Hr HP Hne. by apply (told_test_left e t r Hr). }
  assert (Hc : rn_test (run_schedule schedule k r0) = Closed).
  { rewrite (ri_stop _ Hi) in Hks. unfold test_left in Hk0. by destruct (rn_test _). }
  exists k. split; [lia|]. cbv zeta.
  by rewrite (ri_done _ Hi), (ri_closed _ Hi), Hkg, Hc.
Qed.

(** An agent that starts. *)
#[export] Instance eager_Agent : AgentLibrary Z unit := {|
  NewClusteredServiceAgent _ _ := inl tt;
  StartAndRun _ := None
|}.

(** The goroutine and the test in turn; the test asks to stop, and the agent
    panics, on its eighth turn. *)
Definition alternating (n : nat) : turn :=
  if Nat.even n then EngineTurn (if (n <? 16)%nat then Returns None else Panics)
  else TestTurn false (15 <=? n)%nat.

Lemma alternating_fair : fair alternating.
Proof.
  split; intros n; [exists (2 * n)%nat|exists (2 * n + 1)%nat]; (split; [lia|]); unfold alternating.
  - rewrite Nat.even_mul. simpl. by eexists.
  - rewrite Nat.even_add, Nat.even_mul. simpl. by eexists _, _.
Qed.

Lemma shutdown_completes_witness :
  exists m, (16 <= m)%nat /\
    let r := run_schedule alternating m (mkRunner InOnStart Starting false None false false 0) in
    rn_engine r = Gone /\ rn_done r = true /\ rn_test r = Closed /\ rn_closed r = true /\ rn_errors r = 0%nat.
Proof.
  exact (shutdown_completes (Sess := Z) (A := unit) (mkDriver "" "" "" "" "" 0 0 "" 0) _ alternating 16
           eq_refl alternating_fair eq_refl).
Defined.
